(** * NavCloud auth-service: domain store, capability URLs, sessions

    A shallow embedding of the TypeScript sources of the NavCloud
    auth-service ([lms/models.ts], [lms/contentDelivery.ts] and
    [index.ts]) together with the properties of its specification.

    Conventions of the embedding:
    - a JavaScript [Map<string, V>] is a [gmap string V]; the one map
      that is walked for a result that depends on the order, [courses],
      comes with the list of its values in insertion order;
    - a JavaScript string, a sequence of UTF-16 code units, is the
      [string] of its bytes in generalized UTF-8: UTF-8, with an
      unpaired surrogate U+D800..U+DFFF written as the three bytes
      ED A0..BF 80..BF.  Equality, emptiness and prefixes are those of
      the code units, and every concatenation of the program has an
      ASCII character at the seam;
    - an array used as an index bucket is a [list string];
    - a method of [LmsCoreStore] is a computation in the monad [Lms],
      which threads the store and can stop with a thrown value; the
      store that comes back with a thrown value is the store as the
      method left it at the [throw];
    - clocks, identifier generators and the cryptographic library calls
      are inputs of the model. *)

From Stdlib Require Import ZArith NArith QArith Floats.SpecFloat.
From stdpp Require Import base option list strings pretty gmap fin_maps.

Local Open Scope Z_scope.

(** ** Data model of [lms/models.ts] *)

Record Course := mkCourse {
  course_id : string;
  course_title : string;
  course_createdBy : string;
  course_createdAt : string
}.

Record Module_ := mkModule {
  module_id : string;
  module_courseId : string;
  module_title : string;
  module_position : Z
}.

Record Lesson := mkLesson {
  lesson_id : string;
  lesson_moduleId : string;
  lesson_title : string;
  lesson_position : Z
}.

(** The [role] field of an enrollment is the constant ["Student"]. *)
Record Enrollment := mkEnrollment {
  enrollment_id : string;
  enrollment_courseId : string;
  enrollment_userId : string;
  enrollment_enrolledAt : string
}.

Inductive StorageProviderName := gdrive | s3 | r2.

Record LessonContentMetadata := mkLessonContent {
  content_lessonId : string;
  content_provider : StorageProviderName;
  content_key : string;
  content_fileId : string;
  content_contentType : string;
  (** [size: number], an integer when it comes through the route. *)
  content_size : Z;
  content_updatedAt : string
}.

Inductive ProgressStatus := not_started | in_progress | completed.

Record Progress := mkProgress {
  progress_id : string;
  progress_enrollmentId : string;
  progress_lessonId : string;
  progress_status : ProgressStatus;
  progress_completedAt : option string
}.

(** The two counters are small integers; [ownedStorageBytes] is a sum
    of sizes in binary64. *)
Record UserUsageSnapshot := mkUsage {
  createdCourses : Z;
  activeEnrollments : Z;
  ownedStorageBytes : spec_float
}.

(** The roles of [index.ts], which the store methods take as strings. *)
Inductive Role := Admin | Instructor | Student.
#[global] Instance Role_eq_dec : EqDecision Role.
Proof. solve_decision. Defined.

Inductive LmsErrorCode := NOT_FOUND | INVALID_RELATION | DUPLICATE | ACCESS_DENIED.

(** What a store method can throw: an [LmsModelError], or the
    [TypeError] of reading a property of [undefined] (the non-null
    assertions [get(id)!] of the position scans). *)
Inductive Thrown :=
| LmsModelError (code : LmsErrorCode) (message : string)
| TypeError.

#[global] Instance StorageProviderName_eq_dec : EqDecision StorageProviderName.
Proof. solve_decision. Defined.
#[global] Instance ProgressStatus_eq_dec : EqDecision ProgressStatus.
Proof. solve_decision. Defined.
#[global] Instance LmsErrorCode_eq_dec : EqDecision LmsErrorCode.
Proof. solve_decision. Defined.

Record LmsCoreStore := mkStore {
  courses : gmap string Course;
  modules : gmap string Module_;
  lessons : gmap string Lesson;
  enrollments : gmap string Enrollment;
  progress : gmap string Progress;
  lessonContent : gmap string LessonContentMetadata;
  moduleIdsByCourse : gmap string (list string);
  lessonIdsByModule : gmap string (list string);
  enrollmentIdsByCourse : gmap string (list string);
  progressIdsByEnrollment : gmap string (list string);
  enrollmentByCourseUser : gmap string string;
  (** [courses.values()]: the rows of [courses] in insertion order. *)
  courses_values : list Course
}.

Definition emptyStore : LmsCoreStore :=
  mkStore ∅ ∅ ∅ ∅ ∅ ∅ ∅ ∅ ∅ ∅ ∅ [].

(** Field updates, one per private map of the class. *)
Definition set_courses f s := mkStore (f (courses s)) (modules s) (lessons s) (enrollments s) (progress s) (lessonContent s) (moduleIdsByCourse s) (lessonIdsByModule s) (enrollmentIdsByCourse s) (progressIdsByEnrollment s) (enrollmentByCourseUser s) (courses_values s).
Definition set_modules f s := mkStore (courses s) (f (modules s)) (lessons s) (enrollments s) (progress s) (lessonContent s) (moduleIdsByCourse s) (lessonIdsByModule s) (enrollmentIdsByCourse s) (progressIdsByEnrollment s) (enrollmentByCourseUser s) (courses_values s).
Definition set_lessons f s := mkStore (courses s) (modules s) (f (lessons s)) (enrollments s) (progress s) (lessonContent s) (moduleIdsByCourse s) (lessonIdsByModule s) (enrollmentIdsByCourse s) (progressIdsByEnrollment s) (enrollmentByCourseUser s) (courses_values s).
Definition set_enrollments f s := mkStore (courses s) (modules s) (lessons s) (f (enrollments s)) (progress s) (lessonContent s) (moduleIdsByCourse s) (lessonIdsByModule s) (enrollmentIdsByCourse s) (progressIdsByEnrollment s) (enrollmentByCourseUser s) (courses_values s).
Definition set_progress f s := mkStore (courses s) (modules s) (lessons s) (enrollments s) (f (progress s)) (lessonContent s) (moduleIdsByCourse s) (lessonIdsByModule s) (enrollmentIdsByCourse s) (progressIdsByEnrollment s) (enrollmentByCourseUser s) (courses_values s).
Definition set_lessonContent f s := mkStore (courses s) (modules s) (lessons s) (enrollments s) (progress s) (f (lessonContent s)) (moduleIdsByCourse s) (lessonIdsByModule s) (enrollmentIdsByCourse s) (progressIdsByEnrollment s) (enrollmentByCourseUser s) (courses_values s).
Definition set_moduleIdsByCourse f s := mkStore (courses s) (modules s) (lessons s) (enrollments s) (progress s) (lessonContent s) (f (moduleIdsByCourse s)) (lessonIdsByModule s) (enrollmentIdsByCourse s) (progressIdsByEnrollment s) (enrollmentByCourseUser s) (courses_values s).
Definition set_lessonIdsByModule f s := mkStore (courses s) (modules s) (lessons s) (enrollments s) (progress s) (lessonContent s) (moduleIdsByCourse s) (f (lessonIdsByModule s)) (enrollmentIdsByCourse s) (progressIdsByEnrollment s) (enrollmentByCourseUser s) (courses_values s).
Definition set_enrollmentIdsByCourse f s := mkStore (courses s) (modules s) (lessons s) (enrollments s) (progress s) (lessonContent s) (moduleIdsByCourse s) (lessonIdsByModule s) (f (enrollmentIdsByCourse s)) (progressIdsByEnrollment s) (enrollmentByCourseUser s) (courses_values s).
Definition set_progressIdsByEnrollment f s := mkStore (courses s) (modules s) (lessons s) (enrollments s) (progress s) (lessonContent s) (moduleIdsByCourse s) (lessonIdsByModule s) (enrollmentIdsByCourse s) (f (progressIdsByEnrollment s)) (enrollmentByCourseUser s) (courses_values s).
Definition set_enrollmentByCourseUser f s := mkStore (courses s) (modules s) (lessons s) (enrollments s) (progress s) (lessonContent s) (moduleIdsByCourse s) (lessonIdsByModule s) (enrollmentIdsByCourse s) (progressIdsByEnrollment s) (f (enrollmentByCourseUser s)) (courses_values s).
Definition set_courses_values f s := mkStore (courses s) (modules s) (lessons s) (enrollments s) (progress s) (lessonContent s) (moduleIdsByCourse s) (lessonIdsByModule s) (enrollmentIdsByCourse s) (progressIdsByEnrollment s) (enrollmentByCourseUser s) (f (courses_values s)).

(** [courses.set(id, course)] for an [id] that [courses] does not
    have: the new entry is the last of the insertion order. *)
Definition courses_set (course : Course) (s : LmsCoreStore) : LmsCoreStore :=
  set_courses_values (λ rows, rows ++ [course])
    (set_courses (insert (course_id course) course) s).

(** ** The store monad *)

Definition Lms (A : Type) : Type := LmsCoreStore → LmsCoreStore * (Thrown + A).

Definition lms_ret {A} (a : A) : Lms A := λ s, (s, inr a).
Definition lms_bind {A B} (m : Lms A) (k : A → Lms B) : Lms B :=
  λ s, match m s with
       | (s', inl e) => (s', inl e)
       | (s', inr a) => k a s'
       end.
Definition throw {A} (e : Thrown) : Lms A := λ s, (s, inl e).
Definition reads {A} (f : LmsCoreStore → A) : Lms A := λ s, (s, inr (f s)).
Definition writes (f : LmsCoreStore → LmsCoreStore) : Lms unit := λ s, (f s, inr tt).

Declare Scope lms_scope.
Delimit Scope lms_scope with lms.
Notation "x ←' m ;; k" := (lms_bind m (λ x, k))
  (at level 100, m at next level, k at level 200, right associativity) : lms_scope.
Notation "m ;;' k" := (lms_bind m (λ _, k))
  (at level 100, k at level 200, right associativity) : lms_scope.
Local Open Scope lms_scope.

(** [if (cond) throw new LmsModelError(code, message)] *)
Definition throwIf (cond : bool) (code : LmsErrorCode) (message : string) : Lms unit :=
  if cond then throw (LmsModelError code message) else lms_ret tt.

(** [for (const x of xs) body(x)] *)
Fixpoint forOf {A} (xs : list A) (body : A → Lms unit) : Lms unit :=
  match xs with
  | [] => lms_ret tt
  | x :: xs' => body x ;;' forOf xs' body
  end.

(** [index.get(key) ?? []] *)
Definition bucket (index : gmap string (list string)) (key : string) : list string :=
  default [] (index !! key).

(** [pushIndex(index, key, value)] *)
Definition pushIndex (index : gmap string (list string)) (key value : string)
  : gmap string (list string) :=
  <[key := bucket index key ++ [value]]> index.

Definition has {V} (m : gmap string V) (k : string) : bool := bool_decide (is_Some (m !! k)).

(** ** JavaScript numbers

    A [number] is an IEEE 754 binary64 value; the arithmetic is the
    reference implementation of the standard library at precision 53. *)

Module Js.

Definition prec : Z := 53.
Definition emax : Z := 1024.

(** The double nearest to an integer (exact below 2^53). *)
Definition num (z : Z) : spec_float := binary_normalize prec emax z 0 false.

Definition div : spec_float → spec_float → spec_float := SFdiv prec emax.
Definition mul : spec_float → spec_float → spec_float := SFmul prec emax.
Definition add : spec_float → spec_float → spec_float := SFadd prec emax.
Definition sub : spec_float → spec_float → spec_float := SFsub prec emax.

(** [x > y]; false when an argument is NaN. *)
Definition gt (x y : spec_float) : bool := SFltb y x.

(** [Math.max(x, y)]: NaN when an argument is NaN, and +0 for the two
    zeros. *)
Definition Math_max (x y : spec_float) : spec_float :=
  match SFcompare x y with
  | None => S754_nan
  | Some Lt => y
  | Some Gt => x
  | Some Eq => match x with S754_zero true => y | _ => x end
  end.

(** The integer that a double is, when it is one. *)
Definition toZ (x : spec_float) : option Z :=
  match x with
  | S754_zero _ => Some 0
  | S754_finite sign m e =>
      let v := if sign then Z.neg m else Z.pos m in
      if 0 <=? e then Some (v * 2 ^ e)
      else if bool_decide (v `mod` 2 ^ (- e) = 0) then Some (v `div` 2 ^ (- e)) else None
  | _ => None
  end.

(** [acc += size] over the sizes of a walk, from 0. *)
Definition sum (sizes : list Z) : spec_float :=
  foldl (λ acc size, add acc (num size)) (num 0) sizes.

(** [Math.round]: the nearest integer, ties towards +infinity; NaN and
    the infinities are returned as they are. *)
Definition Math_round (x : spec_float) : spec_float :=
  match x with
  | S754_finite sign m e =>
      let v := if sign then Z.neg m else Z.pos m in
      if 0 <=? e then x
      else num ((2 * v + 2 ^ (- e)) `div` 2 ^ (- e + 1))
  | _ => x
  end.

End Js.

(** [Math.round((completed / total) * 100)] *)
Definition percentOf (completed total : nat) : spec_float :=
  Js.Math_round (Js.mul (Js.div (Js.num (Z.of_nat completed)) (Js.num (Z.of_nat total)))
                        (Js.num 100)).

(** ** Methods of [LmsCoreStore] *)

Definition createCourse (id title createdBy now : string) : Lms Course :=
  dup ←' reads (λ s, has (courses s) id);;
  throwIf dup DUPLICATE ("course already exists: " +:+ id);;'
  let course := mkCourse id title createdBy now in
  writes (courses_set course);;'
  writes (set_moduleIdsByCourse (insert (course_id course) []));;'
  writes (set_enrollmentIdsByCourse (insert (course_id course) []));;'
  lms_ret course.

Definition getCourse (courseId : string) : Lms Course :=
  course ←' reads (λ s, courses s !! courseId);;
  match course with
  | None => throw (LmsModelError NOT_FOUND ("course does not exist: " +:+ courseId))
  | Some course => lms_ret course
  end.

Definition createModule (id courseId title : string) (position : Z) : Lms Module_ :=
  course ←' reads (λ s, courses s !! courseId);;
  match course with
  | None => throw (LmsModelError INVALID_RELATION ("course does not exist: " +:+ courseId))
  | Some course =>
      dup ←' reads (λ s, has (modules s) id);;
      throwIf dup DUPLICATE ("module already exists: " +:+ id);;'
      moduleIds ←' reads (λ s, bucket (moduleIdsByCourse s) (course_id course));;
      forOf moduleIds (λ moduleId,
        row ←' reads (λ s, modules s !! moduleId);;
        match row with
        | None => throw TypeError
        | Some row =>
            throwIf (bool_decide (module_position row = position)) DUPLICATE
              ("module position already used in course: " +:+ courseId)
        end);;'
      let moduleRow := mkModule id courseId title position in
      writes (set_modules (insert (module_id moduleRow) moduleRow));;'
      writes (set_moduleIdsByCourse (λ ix, pushIndex ix courseId (module_id moduleRow)));;'
      writes (set_lessonIdsByModule (insert (module_id moduleRow) []));;'
      lms_ret moduleRow
  end.

(** The object literal of both fan-out loops. *)
Definition freshProgress (enrollmentId lessonId : string) : Progress :=
  let progressId := enrollmentId +:+ ":" +:+ lessonId in
  mkProgress progressId enrollmentId lessonId not_started None.

Definition fanOut (enrollmentId lessonId : string) : Lms unit :=
  let row := freshProgress enrollmentId lessonId in
  writes (set_progress (insert (progress_id row) row));;'
  writes (set_progressIdsByEnrollment (λ ix, pushIndex ix enrollmentId (progress_id row))).

Definition createLesson (id moduleId title : string) (position : Z) : Lms Lesson :=
  moduleRow ←' reads (λ s, modules s !! moduleId);;
  match moduleRow with
  | None => throw (LmsModelError INVALID_RELATION ("module does not exist: " +:+ moduleId))
  | Some moduleRow =>
      dup ←' reads (λ s, has (lessons s) id);;
      throwIf dup DUPLICATE ("lesson already exists: " +:+ id);;'
      lessonIds ←' reads (λ s, bucket (lessonIdsByModule s) moduleId);;
      forOf lessonIds (λ lessonId,
        row ←' reads (λ s, lessons s !! lessonId);;
        match row with
        | None => throw TypeError
        | Some row =>
            throwIf (bool_decide (lesson_position row = position)) DUPLICATE
              ("lesson position already used in module: " +:+ moduleId)
        end);;'
      let lesson := mkLesson id moduleId title position in
      writes (set_lessons (insert (lesson_id lesson) lesson));;'
      writes (set_lessonIdsByModule (λ ix, pushIndex ix moduleId (lesson_id lesson)));;'
      enrollmentIds ←' reads (λ s, bucket (enrollmentIdsByCourse s) (module_courseId moduleRow));;
      forOf enrollmentIds (λ enrollmentId, fanOut enrollmentId (lesson_id lesson));;'
      lms_ret lesson
  end.

(** [getLessonsForCourse]: the lessons reached through the two indices;
    [filter(Boolean)] drops the ids without a row. *)
Definition getLessonsForCourse (courseId : string) (s : LmsCoreStore) : list Lesson :=
  let moduleIds := bucket (moduleIdsByCourse s) courseId in
  let lessonIds := moduleIds ≫= (λ moduleId, bucket (lessonIdsByModule s) moduleId) in
  omap (λ lessonId, lessons s !! lessonId) lessonIds.

Definition enrollStudent (id courseId userId now : string) : Lms Enrollment :=
  known ←' reads (λ s, has (courses s) courseId);;
  throwIf (negb known) INVALID_RELATION ("course does not exist: " +:+ courseId);;'
  dup ←' reads (λ s, has (enrollments s) id);;
  throwIf dup DUPLICATE ("enrollment already exists: " +:+ id);;'
  let uniqueKey := courseId +:+ ":" +:+ userId in
  taken ←' reads (λ s, has (enrollmentByCourseUser s) uniqueKey);;
  throwIf taken DUPLICATE ("student already enrolled in course: " +:+ courseId);;'
  let enrollment := mkEnrollment id courseId userId now in
  writes (set_enrollments (insert (enrollment_id enrollment) enrollment));;'
  writes (set_enrollmentByCourseUser (insert uniqueKey (enrollment_id enrollment)));;'
  writes (set_enrollmentIdsByCourse (λ ix, pushIndex ix courseId (enrollment_id enrollment)));;'
  writes (set_progressIdsByEnrollment (insert (enrollment_id enrollment) []));;'
  lessonsInCourse ←' reads (getLessonsForCourse courseId);;
  forOf lessonsInCourse (λ lesson, fanOut (enrollment_id enrollment) (lesson_id lesson));;'
  lms_ret enrollment.

Definition attachLessonContent (lessonId : string) (provider : StorageProviderName)
    (key fileId contentType : string) (size : Z) (now : string) : Lms LessonContentMetadata :=
  known ←' reads (λ s, has (lessons s) lessonId);;
  throwIf (negb known) NOT_FOUND ("lesson does not exist: " +:+ lessonId);;'
  let metadata := mkLessonContent lessonId provider key fileId contentType size now in
  writes (set_lessonContent (insert lessonId metadata));;'
  lms_ret metadata.

Definition getLessonContent (lessonId : string) : Lms LessonContentMetadata :=
  metadata ←' reads (λ s, lessonContent s !! lessonId);;
  match metadata with
  | None => throw (LmsModelError NOT_FOUND ("lesson content does not exist: " +:+ lessonId))
  | Some metadata => lms_ret metadata
  end.

Definition getEnrollment (enrollmentId : string) : Lms Enrollment :=
  enrollment ←' reads (λ s, enrollments s !! enrollmentId);;
  match enrollment with
  | None => throw (LmsModelError NOT_FOUND ("enrollment does not exist: " +:+ enrollmentId))
  | Some enrollment => lms_ret enrollment
  end.

Definition getCourseIdForModule (moduleId : string) : Lms string :=
  moduleRow ←' reads (λ s, modules s !! moduleId);;
  match moduleRow with
  | None => throw (LmsModelError NOT_FOUND ("module does not exist: " +:+ moduleId))
  | Some moduleRow => lms_ret (module_courseId moduleRow)
  end.

Definition getCourseIdForLesson (lessonId : string) : Lms string :=
  lesson ←' reads (λ s, lessons s !! lessonId);;
  match lesson with
  | None => throw (LmsModelError NOT_FOUND ("lesson does not exist: " +:+ lessonId))
  | Some lesson =>
      moduleRow ←' reads (λ s, modules s !! lesson_moduleId lesson);;
      match moduleRow with
      | None => throw (LmsModelError INVALID_RELATION
                         ("module does not exist for lesson: " +:+ lessonId))
      | Some moduleRow => lms_ret (module_courseId moduleRow)
      end
  end.

Definition markLessonProgress (enrollmentId lessonId actorUserId : string)
    (status : ProgressStatus) (now : string) : Lms Progress :=
  enrollment ←' reads (λ s, enrollments s !! enrollmentId);;
  match enrollment with
  | None => throw (LmsModelError NOT_FOUND ("enrollment does not exist: " +:+ enrollmentId))
  | Some enrollment =>
      throwIf (negb (bool_decide (enrollment_userId enrollment = actorUserId))) ACCESS_DENIED
        "students can only update their own progress";;'
      lesson ←' reads (λ s, lessons s !! lessonId);;
      match lesson with
      | None => throw (LmsModelError NOT_FOUND ("lesson does not exist: " +:+ lessonId))
      | Some lesson =>
          moduleRow ←' reads (λ s, modules s !! lesson_moduleId lesson);;
          throwIf (match moduleRow with
                   | None => true
                   | Some moduleRow =>
                       negb (bool_decide (module_courseId moduleRow = enrollment_courseId enrollment))
                   end) INVALID_RELATION "lesson is outside enrolled course";;'
          let progressId := enrollment_id enrollment +:+ ":" +:+ lesson_id lesson in
          row ←' reads (λ s, progress s !! progressId);;
          match row with
          | None => throw (LmsModelError INVALID_RELATION
                             "missing progress row for enrollment/lesson")
          | Some row =>
              let row := mkProgress (progress_id row) (progress_enrollmentId row)
                           (progress_lessonId row) status
                           (if bool_decide (status = completed) then Some now else None) in
              writes (set_progress (insert progressId row));;'
              lms_ret row
          end
      end
  end.

(** The loop that counts the indexed rows whose status is [completed];
    an id without a row counts as not completed ([?.]). *)
Definition countCompleted (s : LmsCoreStore) (progressIds : list string) : nat :=
  length (filter (λ progressId,
            progress_status <$> progress s !! progressId = Some completed) progressIds).

Definition getCourseCompletionPercent (enrollmentId : string) : Lms spec_float :=
  enrollment ←' reads (λ s, enrollments s !! enrollmentId);;
  match enrollment with
  | None => throw (LmsModelError NOT_FOUND ("enrollment does not exist: " +:+ enrollmentId))
  | Some _ =>
      progressIds ←' reads (λ s, bucket (progressIdsByEnrollment s) enrollmentId);;
      if bool_decide (length progressIds = 0%nat) then lms_ret (Js.num 0)
      else
        completed ←' reads (λ s, countCompleted s progressIds);;
        lms_ret (percentOf completed (length progressIds))
  end.

Record StudentProgress := mkStudentProgress {
  sp_enrollmentId : string;
  sp_userId : string;
  sp_completedLessons : nat;
  sp_totalLessons : nat;
  sp_completionPercent : spec_float
}.

Record ProviderUsage := mkProviderUsage {
  usage_files : nat;
  usage_bytes : spec_float
}.

Record InstructorDashboard := mkDashboard {
  dashboard_courseId : string;
  dashboard_title : string;
  dashboard_modules : nat;
  dashboard_lessons : nat;
  dashboard_enrollments : nat;
  dashboard_avgCompletionPercent : spec_float;
  dashboard_studentProgress : list StudentProgress;
  dashboard_storageUsage : ProviderUsage;
  dashboard_byProvider : StorageProviderName → ProviderUsage
}.

(** [xs.map(f)] for an [f] that can throw. *)
Fixpoint mapOf {A B} (xs : list A) (f : A → Lms B) : Lms (list B) :=
  match xs with
  | [] => lms_ret []
  | x :: xs' => y ←' f x;; ys ←' mapOf xs' f;; lms_ret (y :: ys)
  end.

(** [files += 1] and [bytes += content.size] over the contents that the
    walk of the lessons meets, in the order of the walk.  A size is an
    integer, as the route demands of it, and enters the sum as the
    double of that integer. *)
Definition usageOfContents (contents : list LessonContentMetadata) : ProviderUsage :=
  mkProviderUsage (length contents) (Js.sum (content_size <$> contents)).

(** A role other than [Instructor] is treated like [Admin]. *)
Definition getInstructorDashboard (courseId userId : string) (role : Role)
  : Lms InstructorDashboard :=
  course ←' getCourse courseId;;
  throwIf (bool_decide (role = Instructor)
           && negb (bool_decide (course_createdBy course = userId)))
    ACCESS_DENIED "instructor can only access own course dashboard";;'
  moduleIds ←' reads (λ s, bucket (moduleIdsByCourse s) courseId);;
  lessonIds ←' reads (λ s, moduleIds ≫= λ moduleId, bucket (lessonIdsByModule s) moduleId);;
  enrollmentIds ←' reads (λ s, bucket (enrollmentIdsByCourse s) courseId);;
  studentProgress ←' mapOf enrollmentIds (λ enrollmentId,
    enrollment ←' reads (λ s, enrollments s !! enrollmentId);;
    match enrollment with
    | None => throw TypeError
    | Some enrollment =>
        progressIds ←' reads (λ s, bucket (progressIdsByEnrollment s) enrollmentId);;
        completedLessons ←' reads (λ s, countCompleted s progressIds);;
        let totalLessons := length progressIds in
        lms_ret (mkStudentProgress enrollmentId (enrollment_userId enrollment)
                   completedLessons totalLessons
                   (if bool_decide (totalLessons = 0%nat) then Js.num 0
                    else percentOf completedLessons totalLessons))
    end);;
  let avgCompletionPercent :=
    if bool_decide (length studentProgress = 0%nat) then Js.num 0
    else Js.Math_round
           (Js.div (foldl (λ sum row, Js.add sum (sp_completionPercent row))
                          (Js.num 0) studentProgress)
                   (Js.num (Z.of_nat (length studentProgress)))) in
  contents ←' reads (λ s, omap (λ lessonId, lessonContent s !! lessonId) lessonIds);;
  lms_ret (mkDashboard (course_id course) (course_title course)
             (length moduleIds) (length lessonIds) (length enrollmentIds)
             avgCompletionPercent studentProgress
             (usageOfContents contents)
             (λ provider,
                usageOfContents
                  (filter (λ content, content_provider content = provider) contents))).

(** The sizes that the third loop of [getUserUsageSnapshot] meets in a
    course: modules, lessons and their content in index order. *)
Definition sizesOfCourse (s : LmsCoreStore) (courseId : string) : list Z :=
  bucket (moduleIdsByCourse s) courseId ≫= λ moduleId,
  bucket (lessonIdsByModule s) moduleId ≫= λ lessonId,
  match lessonContent s !! lessonId with
  | Some content => [content_size content]
  | None => []
  end.

(** [getUserUsageSnapshot] walks [courses.values()] in insertion order
    and [enrollments.values()]; the count of the enrollments does not
    depend on the order of the walk, the sum of the sizes, one running
    binary64 total over all owned courses, does. *)
Definition getUserUsageSnapshot (userId : string) (s : LmsCoreStore) : UserUsageSnapshot :=
  let owned := filter (λ course, course_createdBy course = userId) (courses_values s) in
  let ownedCourseIds := course_id <$> owned in
  let enrolled :=
    filter (λ enrollment, enrollment_userId enrollment = userId)
           ((map_to_list (enrollments s)).*2) in
  mkUsage (Z.of_nat (length owned))
          (Z.of_nat (length enrolled))
          (Js.sum (ownedCourseIds ≫= sizesOfCourse s)).

Definition canUserAccessLessonContent (lessonId userId : string) (role : Role)
    (s : LmsCoreStore) : bool :=
  match lessons s !! lessonId with
  | None => false
  | Some lesson =>
      match modules s !! lesson_moduleId lesson with
      | None => false
      | Some moduleRow =>
          match role with
          | Admin => true
          | Instructor =>
              match courses s !! module_courseId moduleRow with
              | Some course => bool_decide (course_createdBy course = userId)
              | None => false
              end
          | Student => has (enrollmentByCourseUser s) (module_courseId moduleRow +:+ ":" +:+ userId)
          end
      end
  end.

(** ** Store operations as a transition system *)

Inductive StoreOp :=
| OpCreateCourse (id title createdBy now : string)
| OpCreateModule (id courseId title : string) (position : Z)
| OpCreateLesson (id moduleId title : string) (position : Z)
| OpEnrollStudent (id courseId userId now : string)
| OpAttachLessonContent (lessonId : string) (provider : StorageProviderName)
    (key fileId contentType : string) (size : Z) (now : string)
| OpMarkLessonProgress (enrollmentId lessonId actorUserId : string)
    (status : ProgressStatus) (now : string).

(** Forget the returned row, keep the store and what was thrown. *)
Definition outcome {A} (r : LmsCoreStore * (Thrown + A)) : LmsCoreStore * option Thrown :=
  (r.1, match r.2 with inl e => Some e | inr _ => None end).

Definition runOp (op : StoreOp) (s : LmsCoreStore) : LmsCoreStore * option Thrown :=
  match op with
  | OpCreateCourse id title createdBy now => outcome (createCourse id title createdBy now s)
  | OpCreateModule id courseId title position => outcome (createModule id courseId title position s)
  | OpCreateLesson id moduleId title position => outcome (createLesson id moduleId title position s)
  | OpEnrollStudent id courseId userId now => outcome (enrollStudent id courseId userId now s)
  | OpAttachLessonContent lessonId provider key fileId contentType size now =>
      outcome (attachLessonContent lessonId provider key fileId contentType size now s)
  | OpMarkLessonProgress enrollmentId lessonId actorUserId status now =>
      outcome (markLessonProgress enrollmentId lessonId actorUserId status now s)
  end.

Inductive reachable : LmsCoreStore → Prop :=
| reachable_empty : reachable emptyStore
| reachable_step op s : reachable s → reachable (runOp op s).1.

Definition fanOutStore (enrollmentId lessonId : string) (s : LmsCoreStore) : LmsCoreStore :=
  set_progressIdsByEnrollment
    (λ ix, pushIndex ix enrollmentId (enrollmentId +:+ ":" +:+ lessonId))
    (set_progress (insert (enrollmentId +:+ ":" +:+ lessonId)
                          (freshProgress enrollmentId lessonId)) s).

(** The stores that the successful runs write. *)
Definition createCourse_store (c : Course) (s : LmsCoreStore) : LmsCoreStore :=
  set_enrollmentIdsByCourse (insert (course_id c) [])
    (set_moduleIdsByCourse (insert (course_id c) [])
       (courses_set c s)).

Definition createModule_store (m : Module_) (s : LmsCoreStore) : LmsCoreStore :=
  set_lessonIdsByModule (insert (module_id m) [])
    (set_moduleIdsByCourse (λ ix, pushIndex ix (module_courseId m) (module_id m))
       (set_modules (insert (module_id m) m) s)).

Definition createLesson_store (courseId : string) (l : Lesson) (s : LmsCoreStore) : LmsCoreStore :=
  let s1 := set_lessonIdsByModule (λ ix, pushIndex ix (lesson_moduleId l) (lesson_id l))
              (set_lessons (insert (lesson_id l) l) s) in
  foldl (λ s enrollmentId, fanOutStore enrollmentId (lesson_id l) s) s1
        (bucket (enrollmentIdsByCourse s1) courseId).

Definition enrollStudent_store (e : Enrollment) (s : LmsCoreStore) : LmsCoreStore :=
  let s1 :=
    set_progressIdsByEnrollment (insert (enrollment_id e) [])
      (set_enrollmentIdsByCourse (λ ix, pushIndex ix (enrollment_courseId e) (enrollment_id e))
         (set_enrollmentByCourseUser
            (insert (enrollment_courseId e +:+ ":" +:+ enrollment_userId e) (enrollment_id e))
            (set_enrollments (insert (enrollment_id e) e) s))) in
  foldl (λ s lesson, fanOutStore (enrollment_id e) (lesson_id lesson) s) s1
        (getLessonsForCourse (enrollment_courseId e) s1).

Definition markedRow (row : Progress) (status : ProgressStatus) (now : string) : Progress :=
  mkProgress (progress_id row) (progress_enrollmentId row) (progress_lessonId row) status
             (if bool_decide (status = completed) then Some now else None).


(** The fan-out loop over a list of (enrollment id, lesson id) pairs. *)
Definition progressKey (q : string * string) : string := q.1 +:+ ":" +:+ q.2.

Definition fanOutAll (pairs : list (string * string)) (s : LmsCoreStore) : LmsCoreStore :=
  foldl (λ s q, fanOutStore q.1 q.2 s) s pairs.

(** A lesson belongs to a course through its module. *)
Definition lessonInCourse (s : LmsCoreStore) (lessonId courseId : string) : Prop :=
  ∃ lesson moduleRow,
    lessons s !! lessonId = Some lesson ∧
    modules s !! lesson_moduleId lesson = Some moduleRow ∧
    module_courseId moduleRow = courseId.

(** The invariants that the store operations maintain. *)
Record StoreInv (s : LmsCoreStore) : Prop := mkStoreInv {
  inv_module_course : ∀ m M, modules s !! m = Some M → is_Some (courses s !! module_courseId M);
  inv_lesson_module : ∀ l L, lessons s !! l = Some L → is_Some (modules s !! lesson_moduleId L);
  inv_enrollment_course :
    ∀ e E, enrollments s !! e = Some E → is_Some (courses s !! enrollment_courseId E);
  inv_lesson_key : ∀ l L, lessons s !! l = Some L → lesson_id L = l;
  inv_enrollment_key : ∀ e E, enrollments s !! e = Some E → enrollment_id E = e;
  inv_module_index :
    ∀ c m, m ∈ bucket (moduleIdsByCourse s) c ↔
           ∃ M, modules s !! m = Some M ∧ module_courseId M = c;
  inv_lesson_index :
    ∀ m l, l ∈ bucket (lessonIdsByModule s) m ↔
           ∃ L, lessons s !! l = Some L ∧ lesson_moduleId L = m;
  inv_enrollment_index :
    ∀ c e, e ∈ bucket (enrollmentIdsByCourse s) c ↔
           ∃ E, enrollments s !! e = Some E ∧ enrollment_courseId E = c;
  inv_module_index_nodup : ∀ c, NoDup (bucket (moduleIdsByCourse s) c);
  inv_lesson_index_nodup : ∀ m, NoDup (bucket (lessonIdsByModule s) m);
  inv_enrollment_index_nodup : ∀ c, NoDup (bucket (enrollmentIdsByCourse s) c);
  inv_progress_key : ∀ p row, progress s !! p = Some row → progress_id row = p;
  inv_completedAt :
    ∀ p row, progress s !! p = Some row →
             (is_Some (progress_completedAt row) ↔ progress_status row = completed);
  inv_progress_exists :
    ∀ e E l, enrollments s !! e = Some E → lessonInCourse s l (enrollment_courseId E) →
             is_Some (progress s !! (e +:+ ":" +:+ l))
}.

(** The lesson ids that [getLessonsForCourse] walks. *)
Definition lessonIdsOfCourse (courseId : string) (s : LmsCoreStore) : list string :=
  bucket (moduleIdsByCourse s) courseId ≫= (λ moduleId, bucket (lessonIdsByModule s) moduleId).


(** ** Concrete runs *)

Definition runOps (ops : list StoreOp) (s : LmsCoreStore) : LmsCoreStore :=
  foldl (λ s op, (runOp op s).1) s ops.

(** The scenario of the specification: one course, one module, one
    lesson, one self-enrolled student who completes the lesson. *)
Definition scenarioOps : list StoreOp :=
  [ OpCreateCourse "c1" "Cloud Foundations" "instructor-1" "2026-01-01T00:00:00.000Z";
    OpCreateModule "m1" "c1" "Basics" 1;
    OpCreateLesson "l1" "m1" "Intro" 1;
    OpEnrollStudent "e1" "c1" "s1" "2026-01-01T00:00:00.000Z";
    OpMarkLessonProgress "e1" "l1" "s1" completed "2026-01-01T00:00:00.000Z" ].

Definition scenarioStore : LmsCoreStore := runOps scenarioOps emptyStore.

(** A course of forty lessons in one module, of which the enrolled
    student has completed twenty-three. *)
Definition lessonName (n : nat) : string := "lesson-" +:+ pretty n.

Definition fortyLessonsOps : list StoreOp :=
  [ OpCreateCourse "course" "Scale Course" "instructor" "t0";
    OpCreateModule "module" "course" "M1" 1 ]
  ++ ((λ n, OpCreateLesson (lessonName n) "module" (lessonName n) (Z.of_nat n)) <$> seq 1 40)
  ++ [ OpEnrollStudent "enrollment" "course" "student" "t1" ]
  ++ ((λ n, OpMarkLessonProgress "enrollment" (lessonName n) "student" completed "t2")
        <$> seq 1 23).

Definition fortyLessonsStore : LmsCoreStore := runOps fortyLessonsOps emptyStore.

(** The percentage as the specification words it:
    round(100 * K / N), halves rounded up, 0 when N is 0. *)
Definition roundPercent (K N : Z) : Z :=
  if N =? 0 then 0 else (200 * K + N) `div` (2 * N).

#[global] Instance spec_float_eq_dec : EqDecision spec_float.
Proof. solve_decision. Defined.


(** [percentOf] and [roundPercent] agree for every K <= N with N in [lo, lo + len). *)
Definition percentAgreesOn (lo len : nat) : bool :=
  forallb (λ N, forallb (λ K, bool_decide (percentOf K N
                                            = Js.num (roundPercent (Z.of_nat K) (Z.of_nat N))))
                        (seq 0 (S N)))
          (seq lo len).

(** ** Library calls

    The sources call into the JavaScript runtime and into the [crypto]
    and [jsonwebtoken] packages.  Those calls are fields of a
    [Platform]; every statement below is about all platforms unless it
    names one. *)

(** The result of [Number(s)] as far as the sources look at it: whether
    it is finite, and how it compares.  A finite double is given by its
    exact value. *)
Inductive JsNumber :=
| JsNaN
| JsInfinity (negative : bool)
| JsFinite (value : Q).

Definition isFinite (x : JsNumber) : bool :=
  match x with JsFinite _ => true | _ => false end.

(** [x <= n] for an integer [n]; every comparison with NaN is false. *)
Definition js_le (x : JsNumber) (n : Z) : bool :=
  match x with
  | JsNaN => false
  | JsInfinity negative => negative
  | JsFinite q => Qle_bool q (inject_Z n)
  end.

(** The claims of a token after [jwt.verify] has decoded it. Access
    tokens carry [email] and [role], refresh tokens carry [sid]. *)
Record JwtClaims := mkClaims {
  claim_sub : string;
  claim_email : option string;
  claim_role : option Role;
  claim_sid : option string;
  claim_tokenVersion : Z;
  claim_type : string;
  claim_iss : string;
  claim_aud : string;
  claim_iat : Z;
  claim_exp : Z
}.

Record GoogleProfile := mkProfile {
  profile_email : string;
  profile_name : string
}.

Record Platform := mkPlatform {
  (** HMAC-SHA256 under the key [secret] of the bytes [data], as the
      number below 2^256 that the 32 bytes of the MAC write. *)
  hmacSha256 : string → string → N;
  (** [crypto.createHash("sha256").update(input).digest("hex")] *)
  sha256 : string → string;
  (** [Number(s)] *)
  toNumber : string → JsNumber;
  (** [new Date(ms).toISOString()] *)
  toISOString : Z → string;
  toLowerCase : string → string;
  (** [jwt.sign(payload, secret, { algorithm: "HS256", ... })], the
      registered claims already filled in. *)
  jwtSign : string → JwtClaims → string;
  (** The parsing and HS256 signature check of [jwt.verify(token, secret)]:
      the claims of a well-formed token signed with [secret]. *)
  jwtDecode : string → string → option JwtClaims;
  (** [deps.google.getAuthorizationUrl(state)] *)
  getAuthorizationUrl : string → string
}.

(** ** Strings as bytes *)

Definition byte (n : nat) : Ascii.ascii := Ascii.ascii_of_nat n.

(** The first two bytes ED A0..BF of an unpaired surrogate. *)
Definition surrogateLead (a b : Ascii.ascii) : bool :=
  bool_decide (Ascii.nat_of_ascii a = 237%nat) && (160 <=? Ascii.nat_of_ascii b)%nat.

(** The UTF-8 encoding of a string, which [hmac.update(s)] and
    [Buffer.from(s)] read: the bytes of [s], with U+FFFD (EF BF BD) in
    place of each unpaired surrogate. *)
Fixpoint utf8Write (s : string) : string :=
  match s with
  | EmptyString => EmptyString
  | String a rest =>
      match rest with
      | String b (String _ rest') =>
          if surrogateLead a b
          then String (byte 239) (String (byte 191) (String (byte 189) (utf8Write rest')))
          else String a (utf8Write rest)
      | _ => String a (utf8Write rest)
      end
  end.

Fixpoint hasUnpairedSurrogate (s : string) : bool :=
  match s with
  | EmptyString => false
  | String a rest =>
      match rest with
      | String b (String _ _) => surrogateLead a b || hasUnpairedSurrogate rest
      | _ => false
      end
  end.

(** A string of ASCII characters, which is its own UTF-8 encoding. *)
Fixpoint isAscii (s : string) : bool :=
  match s with
  | EmptyString => true
  | String a rest => (Ascii.nat_of_ascii a <? 128)%nat && isAscii rest
  end.

Definition hexChar (uppercase : bool) (d : N) : Ascii.ascii :=
  if (d <? 10)%N then byte (48 + N.to_nat d)
  else byte ((if uppercase then 55 else 87) + N.to_nat d).

(** [digest("hex")] of a MAC of 32 bytes: 64 hexadecimal digits in
    lower case. *)
Fixpoint hexDigits (digits : nat) (n : N) (tail : string) : string :=
  match digits with
  | O => tail
  | S digits' => hexDigits digits' (n / 16)%N (String (hexChar false (n mod 16)%N) tail)
  end.

Definition hexDigest (mac : N) : string := hexDigits 64 mac EmptyString.

(** [crypto.createHmac("sha256", secret).update(payload).digest("hex")] *)
Definition hmacSha256Hex (P : Platform) (secret payload : string) : string :=
  hexDigest (hmacSha256 P secret (utf8Write payload)).

(** The characters that [encodeURIComponent] keeps: letters, digits
    and [-_.!~*'()]. *)
Definition uriUnreserved (a : Ascii.ascii) : bool :=
  let n := Ascii.nat_of_ascii a in
  ((65 <=? n) && (n <=? 90) || (97 <=? n) && (n <=? 122) || (48 <=? n) && (n <=? 57)
   || bool_decide (n ∈ [45; 95; 46; 33; 126; 42; 39; 40; 41]))%nat.

Definition percentEncoded (a : Ascii.ascii) : string :=
  let n := N.of_nat (Ascii.nat_of_ascii a) in
  String (byte 37) (String (hexChar true (n / 16)%N) (String (hexChar true (n mod 16)%N)
    EmptyString)).

Fixpoint percentEncode (s : string) : string :=
  match s with
  | EmptyString => EmptyString
  | String a rest =>
      if uriUnreserved a then String a (percentEncode rest)
      else percentEncoded a +:+ percentEncode rest
  end.

(** A call either returns or throws. *)
Inductive JsError := RangeError | URIError.
Definition Exc (A : Type) : Type := JsError + A.

(** [encodeURIComponent(s)]: every byte of the UTF-8 encoding that is
    not unreserved becomes [%XX]; a string with an unpaired surrogate
    has no encoding, and the call throws [URIError]. *)
Definition encodeURIComponent (s : string) : Exc string :=
  if hasUnpairedSurrogate s then inl URIError else inr (percentEncode s).

Global Arguments hexDigest : simpl never.
Global Arguments hmacSha256Hex : simpl never.
Global Arguments percentEncode : simpl never.

(** ** [lms/contentDelivery.ts] *)

Definition providerName (p : StorageProviderName) : string :=
  match p with gdrive => "gdrive" | s3 => "s3" | r2 => "r2" end.

Record SignedUrlInput := mkSignedUrlInput {
  input_userId : string;
  input_lessonId : string;
  input_content : LessonContentMetadata;
  input_expiresInSeconds : Z
}.

(** The [params] argument of [verifySignedLessonContentUrl]. *)
Record SignedParams := mkSignedParams {
  param_provider : StorageProviderName;
  param_key : string;
  param_lessonId : string;
  param_userId : string;
  param_exp : string;
  param_sig : string
}.

(** The canonical payload [provider:key:lessonId:userId:exp]. *)
Definition canonicalPayload (provider : StorageProviderName)
    (key lessonId userId exp : string) : string :=
  providerName provider +:+ ":" +:+ key +:+ ":" +:+ lessonId +:+ ":" +:+ userId +:+ ":" +:+ exp.

(** [Math.floor(now().getTime() / 1000)].  The time is a number of
    milliseconds of magnitude at most 8.64e15, for which the double
    quotient and its floor are the integer quotient. *)
Definition epochSecond (nowMs : Z) : Z := nowMs `div` 1000.

(** [String(n)] of an integer below 1e21 is its decimal numeral. *)
Definition js_String (n : Z) : string := pretty n.

(** The record that [buildSignedLessonContentUrl] signs: the provider,
    the key before percent-encoding, the lesson, the user, the expiry
    and the signature of their canonical payload. *)
Definition signedParams (P : Platform) (signingSecret : string) (nowMs : Z)
    (input : SignedUrlInput) : SignedParams :=
  let expiresAtEpoch := epochSecond nowMs + input_expiresInSeconds input in
  let exp := js_String expiresAtEpoch in
  let provider := content_provider (input_content input) in
  let payload := canonicalPayload provider (content_key (input_content input))
                   (input_lessonId input) (input_userId input) exp in
  let sig := hmacSha256Hex P signingSecret payload in
  mkSignedParams provider (content_key (input_content input))
                 (input_lessonId input) (input_userId input) exp sig.

(** [baseUrl.replace(/\/$/, empty)]: one trailing slash is dropped. *)
Fixpoint stripTrailingSlash (s : string) : string :=
  match s with
  | EmptyString => EmptyString
  | String c rest =>
      match rest with
      | EmptyString => if bool_decide (s = "/") then EmptyString else s
      | _ => String c (stripTrailingSlash rest)
      end
  end.

(** The first call that throws ends the function. *)
Definition exc_bind {A B} (e : Exc A) (k : A → Exc B) : Exc B :=
  match e with inl error => inl error | inr a => k a end.

Notation "x ←! e ;; k" := (exc_bind e (λ x, k))
  (at level 100, e at next level, k at level 200, right associativity, only parsing).

(** [new Date(ms).toISOString()] throws [RangeError] for a time value
    beyond 8.64e15 milliseconds from the epoch, which is no date. *)
Definition Date_toISOString (P : Platform) (ms : Z) : Exc string :=
  if 8640000000000000 <? Z.abs ms then inl RangeError else inr (toISOString P ms).

Definition buildSignedLessonContentUrl (P : Platform) (baseUrl signingSecret : string)
    (nowMs : Z) (input : SignedUrlInput) : Exc (string * string) :=
  let expiresAtEpoch := epochSecond nowMs + input_expiresInSeconds input in
  let exp := js_String expiresAtEpoch in
  let provider := content_provider (input_content input) in
  key ←! encodeURIComponent (content_key (input_content input));;
  let payload := canonicalPayload provider (content_key (input_content input))
                   (input_lessonId input) (input_userId input) exp in
  let sig := hmacSha256Hex P signingSecret payload in
  fileId ←! encodeURIComponent (content_fileId (input_content input));;
  lessonId ←! encodeURIComponent (input_lessonId input);;
  uid ←! encodeURIComponent (input_userId input);;
  let url :=
    stripTrailingSlash baseUrl +:+ "/" +:+ providerName provider +:+ "/" +:+ key
    +:+ "?fileId=" +:+ fileId +:+ "&lessonId=" +:+ lessonId +:+ "&uid=" +:+ uid
    +:+ "&exp=" +:+ exp +:+ "&sig=" +:+ sig in
  expiresAt ←! Date_toISOString P (expiresAtEpoch * 1000);;
  inr (url, expiresAt).

(** [Buffer.from(s)]: the bytes of the UTF-8 encoding of the string. *)
Definition Buffer_from (s : string) : list Ascii.ascii :=
  String.list_ascii_of_string (utf8Write s).

(** [crypto.timingSafeEqual] throws when the byte lengths differ. *)
Definition timingSafeEqual (a b : list Ascii.ascii) : Exc bool :=
  if bool_decide (length a = length b) then inr (bool_decide (a = b)) else inl RangeError.

(** [try { return e } catch { return false }] *)
Definition tryOrFalse (e : Exc bool) : Exc bool :=
  match e with inr b => inr b | inl _ => inr false end.

Definition verifySignedLessonContentUrl (P : Platform) (signingSecret : string)
    (nowMs : Z) (params : SignedParams) : Exc bool :=
  let expNum := toNumber P (param_exp params) in
  if negb (isFinite expNum) then inr false
  else if js_le expNum (epochSecond nowMs) then inr false
  else
    let payload := canonicalPayload (param_provider params) (param_key params)
                     (param_lessonId params) (param_userId params) (param_exp params) in
    let expected := hmacSha256Hex P signingSecret payload in
    tryOrFalse (timingSafeEqual (Buffer_from expected) (Buffer_from (param_sig params))).

(** Two parameter records that differ in exactly one of provider, key,
    lessonId, userId and exp, and carry the same signature. *)
Definition alteredInOneField (p p' : SignedParams) : Prop :=
  param_sig p' = param_sig p ∧
  ((param_provider p' ≠ param_provider p ∧ param_key p' = param_key p ∧
    param_lessonId p' = param_lessonId p ∧ param_userId p' = param_userId p ∧
    param_exp p' = param_exp p) ∨
   (param_provider p' = param_provider p ∧ param_key p' ≠ param_key p ∧
    param_lessonId p' = param_lessonId p ∧ param_userId p' = param_userId p ∧
    param_exp p' = param_exp p) ∨
   (param_provider p' = param_provider p ∧ param_key p' = param_key p ∧
    param_lessonId p' ≠ param_lessonId p ∧ param_userId p' = param_userId p ∧
    param_exp p' = param_exp p) ∨
   (param_provider p' = param_provider p ∧ param_key p' = param_key p ∧
    param_lessonId p' = param_lessonId p ∧ param_userId p' ≠ param_userId p ∧
    param_exp p' = param_exp p) ∨
   (param_provider p' = param_provider p ∧ param_key p' = param_key p ∧
    param_lessonId p' = param_lessonId p ∧ param_userId p' = param_userId p ∧
    param_exp p' ≠ param_exp p)).

Definition payloadOf (p : SignedParams) : string :=
  canonicalPayload (param_provider p) (param_key p) (param_lessonId p)
                   (param_userId p) (param_exp p).

(** ** [index.ts]: configuration and data *)

(** The parsed environment.  [adminEmails] and [instructorEmails] are
    the sets that [parseEmailList] yields for [GOOGLE_ADMIN_EMAILS] and
    [GOOGLE_INSTRUCTOR_EMAILS]. *)
Record Env := mkEnv {
  JWT_ACCESS_SECRET : string;
  JWT_REFRESH_SECRET : string;
  JWT_ISSUER : string;
  JWT_AUDIENCE : string;
  ACCESS_TOKEN_TTL_SECONDS : Z;
  REFRESH_TOKEN_TTL_SECONDS : Z;
  adminEmails : gset string;
  instructorEmails : gset string;
  DELIVERY_BASE_URL : string;
  DELIVERY_SIGNING_SECRET : string;
  DELIVERY_URL_TTL_SECONDS : Z
}.

Record User := mkUser {
  user_id : string;
  user_email : string;
  user_name : string;
  user_role : Role;
  user_createdAt : Z;
  user_updatedAt : Z;
  user_tokenVersion : Z
}.

Inductive SubscriptionPlan := free | pro | enterprise.
#[global] Instance SubscriptionPlan_eq_dec : EqDecision SubscriptionPlan.
Proof. solve_decision. Defined.

Record PlanLimits := mkLimits {
  maxCreatedCourses : Z;
  maxActiveEnrollments : Z;
  maxOwnedStorageBytes : Z
}.

Record SubscriptionRecord := mkSubscription {
  subscription_userId : string;
  subscription_plan : SubscriptionPlan;
  subscription_updatedAt : string
}.

Record RefreshSession := mkSession {
  session_sessionId : string;
  session_userId : string;
  session_tokenHash : string;
  session_expiresAt : Z;
  session_revokedAt : option Z
}.

Definition MAX_SAFE_INTEGER : Z := 2 ^ 53 - 1.

Definition PLAN_LIMITS (plan : SubscriptionPlan) : PlanLimits :=
  match plan with
  | free => mkLimits 2 5 (50 * 1024 * 1024)
  | pro => mkLimits 20 100 (5 * 1024 * 1024 * 1024)
  | enterprise => mkLimits MAX_SAFE_INTEGER MAX_SAFE_INTEGER MAX_SAFE_INTEGER
  end.

Definition roleForEmail (P : Platform) (email : string)
    (adminEmails instructorEmails : gset string) : Role :=
  let normalized := toLowerCase P email in
  if bool_decide (normalized ∈ adminEmails) then Admin
  else if bool_decide (normalized ∈ instructorEmails) then Instructor
  else Student.

(** The maps of [createAuthApp].  [usersByEmail] and [usersById] hold
    references to the same [User] objects: the objects live in
    [userHeap] and the maps hold their addresses.  [idsDrawn] counts the
    calls of [deps.randomId]. *)
Record AppState := mkApp {
  userHeap : list User;
  usersByEmail : gmap string nat;
  usersById : gmap string nat;
  subscriptionsByUserId : gmap string SubscriptionRecord;
  refreshSessions : gmap string RefreshSession;
  oauthStates : gmap string Z;
  lmsStore : LmsCoreStore;
  idsDrawn : nat
}.

Definition initApp : AppState := mkApp [] ∅ ∅ ∅ ∅ ∅ emptyStore 0.

Definition set_userHeap f a := mkApp (f (userHeap a)) (usersByEmail a) (usersById a) (subscriptionsByUserId a) (refreshSessions a) (oauthStates a) (lmsStore a) (idsDrawn a).
Definition set_usersByEmail f a := mkApp (userHeap a) (f (usersByEmail a)) (usersById a) (subscriptionsByUserId a) (refreshSessions a) (oauthStates a) (lmsStore a) (idsDrawn a).
Definition set_usersById f a := mkApp (userHeap a) (usersByEmail a) (f (usersById a)) (subscriptionsByUserId a) (refreshSessions a) (oauthStates a) (lmsStore a) (idsDrawn a).
Definition set_subscriptionsByUserId f a := mkApp (userHeap a) (usersByEmail a) (usersById a) (f (subscriptionsByUserId a)) (refreshSessions a) (oauthStates a) (lmsStore a) (idsDrawn a).
Definition set_refreshSessions f a := mkApp (userHeap a) (usersByEmail a) (usersById a) (subscriptionsByUserId a) (f (refreshSessions a)) (oauthStates a) (lmsStore a) (idsDrawn a).
Definition set_oauthStates f a := mkApp (userHeap a) (usersByEmail a) (usersById a) (subscriptionsByUserId a) (refreshSessions a) (f (oauthStates a)) (lmsStore a) (idsDrawn a).
Definition set_lmsStore f a := mkApp (userHeap a) (usersByEmail a) (usersById a) (subscriptionsByUserId a) (refreshSessions a) (oauthStates a) (f (lmsStore a)) (idsDrawn a).
Definition set_idsDrawn f a := mkApp (userHeap a) (usersByEmail a) (usersById a) (subscriptionsByUserId a) (refreshSessions a) (oauthStates a) (lmsStore a) (f (idsDrawn a)).

(** What a request finds outside the process: the value of
    [deps.now().getTime()] (sampled once per request), the second that
    [jsonwebtoken] reads from the system clock, and what the identity
    provider answers to [exchangeCodeForProfile] ([None]: it throws). *)
Record Ambient := mkAmbient {
  amb_now : Z;
  amb_wallSec : Z;
  amb_exchange : string → option GoogleProfile
}.

(** ** Responses *)

Record SoftLimit := mkSoftLimit {
  createdCoursesExceededBy : Z;
  activeEnrollmentsExceededBy : Z;
  ownedStorageBytesExceededBy : spec_float
}.

Record SubscriptionStatus := mkStatus {
  status_plan : SubscriptionPlan;
  status_limits : PlanLimits;
  status_usage : UserUsageSnapshot;
  status_softLimit : SoftLimit
}.

Record SoftLimitMeta := mkMeta {
  meta_plan : SubscriptionPlan;
  meta_softLimitExceeded : bool;
  meta_softLimit : SoftLimit
}.

Record AuthResponse := mkAuthResponse {
  auth_accessToken : string;
  auth_refreshToken : string;
  auth_expiresIn : Z;
  auth_user : User;
  auth_plan : SubscriptionPlan
}.

Inductive Body :=
| ErrorBody (error : string)
| LmsErrorBody (code : LmsErrorCode) (message : string)
| StartBody (authUrl scope state : string)
| AuthBody (payload : AuthResponse)
| OkBody
| AreaBody (area : string)
| MeBody (user : User) (plan : SubscriptionPlan)
| StatusBody (st : SubscriptionStatus)
| SubscriptionBody (record : SubscriptionRecord)
| CourseBody (course : Course) (subscription : SoftLimitMeta)
| ModuleBody (row : Module_)
| LessonBody (row : Lesson)
| EnrollmentBody (row : Enrollment) (subscription : SoftLimitMeta)
| ProgressBody (row : Progress)
| CompletionBody (enrollmentId : string) (completion : spec_float)
| ContentBody (metadata : LessonContentMetadata) (subscription : SoftLimitMeta)
| ContentUrlBody (metadata : LessonContentMetadata) (url expiresAt : string)
    (expiresInSeconds : Z)
| ValidBody (valid : bool)
| DashboardBody (dashboard : InstructorDashboard).

Record Response := mkResponse {
  status : Z;
  body : Body
}.

(** The routes of [createAuthApp], each with the parts of the request
    that its handler reads.  A query or body field that is absent is
    the empty string: [z.string().min(1)] rejects both.  Bodies of the
    wrong JSON type are not requests of this model. *)
Inductive Request :=
| GET_auth_google_start
| GET_auth_google_callback (code state : string)
| POST_auth_refresh (refreshToken : string)
| POST_auth_logout (refreshToken : string)
| GET_auth_me (authorization : option string)
| GET_subscription_me (authorization : option string)
| POST_subscription_plan (authorization : option string) (userId : string)
    (plan : SubscriptionPlan)
| GET_rbac (area : Role) (authorization : option string)
| POST_lms_courses (authorization : option string) (id title : string)
| POST_lms_modules (authorization : option string) (id courseId title : string) (position : Z)
| POST_lms_lessons (authorization : option string) (id moduleId title : string) (position : Z)
| POST_lms_enrollments (authorization : option string) (id courseId userId : string)
| PATCH_lms_progress (authorization : option string) (enrollmentId lessonId : string)
    (newStatus : ProgressStatus)
| GET_lms_enrollment_completion (authorization : option string) (enrollmentId : string)
| PUT_lms_lesson_content (authorization : option string) (lessonId : string)
    (provider : StorageProviderName) (key fileId contentType : string) (size : Z)
| GET_lms_lesson_content_url (authorization : option string) (lessonId : string)
| POST_lms_content_url_verify (authorization : option string) (params : SignedParams)
| GET_lms_instructor_dashboard (authorization : option string) (courseId : string).

Inductive JwtError := TokenExpiredError | JsonWebTokenError.

(** [z.string().min(1)] *)
Definition min1 (s : string) : bool := negb (bool_decide (s = EmptyString)).

Definition json (st : AppState) (code : Z) (b : Body) : AppState * Response :=
  (st, mkResponse code b).

Definition handleLmsError (error : Thrown) : Response :=
  match error with
  | LmsModelError ACCESS_DENIED message => mkResponse 403 (LmsErrorBody ACCESS_DENIED message)
  | LmsModelError NOT_FOUND message => mkResponse 404 (LmsErrorBody NOT_FOUND message)
  | LmsModelError DUPLICATE message => mkResponse 409 (LmsErrorBody DUPLICATE message)
  | LmsModelError code message => mkResponse 400 (LmsErrorBody code message)
  | TypeError => mkResponse 500 (ErrorBody "internal_error")
  end.

Definition canInstructorManageCourse (userId courseId : string) : Lms bool :=
  course ←' getCourse courseId;;
  lms_ret (bool_decide (course_createdBy course = userId)).

(** [header.startsWith("Bearer ") ? header.slice(7) : null], and the
    test [!token], which the empty string fails as well. *)
Definition bearerToken (authorization : option string) : option string :=
  let header := default EmptyString authorization in
  if String.prefix "Bearer " header
  then let token := String.substring 7 (String.length header - 7) header in
       if min1 token then Some token else None
  else None.

Section App.
Variable P : Platform.
Variable env : Env.
  (** The values that successive calls of [deps.randomId] return. *)
Variable randomId : nat → string.

Definition drawId (st : AppState) : string * AppState :=
    (randomId (idsDrawn st), set_idsDrawn S st).

  (** [jwt.verify(token, secret, { algorithms: ["HS256"], issuer,
      audience })]: the signature first, then [exp] against the clock,
      then audience and issuer. *)
Definition jwtVerify (secret : string) (wallSec : Z) (token : string)
    : JwtError + JwtClaims :=
    match jwtDecode P secret token with
    | None => inl JsonWebTokenError
    | Some decoded =>
        if claim_exp decoded <=? wallSec then inl TokenExpiredError
        else if negb (bool_decide (claim_aud decoded = JWT_AUDIENCE env))
        then inl JsonWebTokenError
        else if negb (bool_decide (claim_iss decoded = JWT_ISSUER env))
        then inl JsonWebTokenError
        else inr decoded
    end.

Definition lookupUser (st : AppState) (index : gmap string nat) (key : string)
    : option (nat * User) :=
    addr ← index !! key;
    user ← userHeap st !! addr;
    Some (addr, user).

Definition getOrCreateSubscription (amb : Ambient) (userId : string) (st : AppState)
    : AppState * SubscriptionRecord :=
    match subscriptionsByUserId st !! userId with
    | Some existing => (st, existing)
    | None =>
        let created := mkSubscription userId free (toISOString P (amb_now amb)) in
        (set_subscriptionsByUserId (insert userId created) st, created)
    end.

Definition signAccessToken (amb : Ambient) (user : User) : string :=
    jwtSign P (JWT_ACCESS_SECRET env)
      (mkClaims (user_id user) (Some (user_email user)) (Some (user_role user)) None
                (user_tokenVersion user) "access" (JWT_ISSUER env) (JWT_AUDIENCE env)
                (amb_wallSec amb) (amb_wallSec amb + ACCESS_TOKEN_TTL_SECONDS env)).

Definition issueRefreshToken (amb : Ambient) (user : User) (st : AppState)
    : AppState * (string * RefreshSession) :=
    let '(sessionId, st) := drawId st in
    let expiresAt := amb_now amb + REFRESH_TOKEN_TTL_SECONDS env * 1000 in
    let token :=
      jwtSign P (JWT_REFRESH_SECRET env)
        (mkClaims (user_id user) None None (Some sessionId)
                  (user_tokenVersion user) "refresh" (JWT_ISSUER env) (JWT_AUDIENCE env)
                  (amb_wallSec amb) (amb_wallSec amb + REFRESH_TOKEN_TTL_SECONDS env)) in
    let session := mkSession sessionId (user_id user) (sha256 P token) expiresAt None in
    (set_refreshSessions (insert sessionId session) st, (token, session)).

Definition toAuthResponse (amb : Ambient) (user : User) (st : AppState)
    : AppState * AuthResponse :=
    let '(st, subscription) := getOrCreateSubscription amb (user_id user) st in
    let accessToken := signAccessToken amb user in
    let '(st, (refreshToken, _)) := issueRefreshToken amb user st in
    (st, mkAuthResponse accessToken refreshToken (ACCESS_TOKEN_TTL_SECONDS env) user
           (subscription_plan subscription)).

Definition getSubscriptionStatus (amb : Ambient) (userId : string) (st : AppState)
    : AppState * SubscriptionStatus :=
    let '(st, subscription) := getOrCreateSubscription amb userId st in
    let limits := PLAN_LIMITS (subscription_plan subscription) in
    let usage := getUserUsageSnapshot userId (lmsStore st) in
    (st, mkStatus (subscription_plan subscription) limits usage
           (mkSoftLimit
              (Z.max (createdCourses usage - maxCreatedCourses limits) 0)
              (Z.max (activeEnrollments usage - maxActiveEnrollments limits) 0)
              (Js.Math_max
                 (Js.sub (ownedStorageBytes usage) (Js.num (maxOwnedStorageBytes limits)))
                 (Js.num 0)))).

Definition withSoftLimitMeta (amb : Ambient) (userId : string) (st : AppState)
    : AppState * SoftLimitMeta :=
    let '(st, st_status) := getSubscriptionStatus amb userId st in
    let softLimit := status_softLimit st_status in
    let softLimitExceeded :=
      (0 <? createdCoursesExceededBy softLimit)
      || (0 <? activeEnrollmentsExceededBy softLimit)
      || Js.gt (ownedStorageBytesExceededBy softLimit) (Js.num 0) in
    (st, mkMeta (status_plan st_status) softLimitExceeded softLimit).

  (** The middleware [authenticate]: the response that ends the
      request, or the decoded claims that become [req.auth]. *)
Definition authenticate (amb : Ambient) (authorization : option string) (st : AppState)
    : Response + JwtClaims :=
    match bearerToken authorization with
    | None => inl (mkResponse 401 (ErrorBody "missing_token"))
    | Some token =>
        match jwtVerify (JWT_ACCESS_SECRET env) (amb_wallSec amb) token with
        | inl TokenExpiredError => inl (mkResponse 401 (ErrorBody "token_expired"))
        | inl JsonWebTokenError => inl (mkResponse 401 (ErrorBody "invalid_token"))
        | inr decoded =>
            if negb (bool_decide (claim_type decoded = "access"))
            then inl (mkResponse 401 (ErrorBody "invalid_token_type"))
            else
              match lookupUser st (usersById st) (claim_sub decoded) with
              | None => inl (mkResponse 401 (ErrorBody "stale_token"))
              | Some (_, user) =>
                  if negb (bool_decide (user_tokenVersion user = claim_tokenVersion decoded))
                  then inl (mkResponse 401 (ErrorBody "stale_token"))
                  else inr decoded
              end
        end
    end.

  (** [roles.includes(req.auth.role)] *)
Definition includesRole (roles : list Role) (auth : JwtClaims) : bool :=
    match claim_role auth with
    | Some role => bool_decide (role ∈ roles)
    | None => false
    end.

Definition hasRole (auth : JwtClaims) (role : Role) : bool :=
    bool_decide (claim_role auth = Some role).

  (** A route behind [authenticate] and a role guard that answers
      [denied] with "forbidden". [authorize] answers 403 as well once
      [req.auth] is set. *)
Definition guarded (amb : Ambient) (authorization : option string) (roles : list Role)
      (st : AppState) (handler : JwtClaims → AppState * Response) : AppState * Response :=
    match authenticate amb authorization st with
    | inl response => (st, response)
    | inr auth =>
        if includesRole roles auth then handler auth
        else json st 403 (ErrorBody "forbidden")
    end.

Definition authenticated (amb : Ambient) (authorization : option string)
      (st : AppState) (handler : JwtClaims → AppState * Response) : AppState * Response :=
    match authenticate amb authorization st with
    | inl response => (st, response)
    | inr auth => handler auth
    end.

  (** Run a store method inside the handler's [try]: the store of the
      application becomes the store the method leaves. *)
Definition runLms {A} (m : Lms A) (st : AppState) : AppState * (Thrown + A) :=
    let '(s', r) := m (lmsStore st) in
    (set_lmsStore (λ _, s') st, r).

  (** *** Authentication routes *)

Definition handleStart (amb : Ambient) (st : AppState) : AppState * Response :=
    let '(state, st) := drawId st in
    let st := set_oauthStates (insert state (amb_now amb)) st in
    json st 200 (StartBody (getAuthorizationUrl P state) "openid email" state).

  (** The user of a profile: the one registered under the normalized
      email, whose [updatedAt] is set, or a new one. *)
Definition findOrCreateUser (amb : Ambient) (profile : GoogleProfile) (st : AppState)
    : AppState * User :=
    let normalizedEmail := toLowerCase P (profile_email profile) in
    match lookupUser st (usersByEmail st) normalizedEmail with
    | None =>
        let '(id, st) := drawId st in
        let user := mkUser id normalizedEmail (profile_name profile)
                      (roleForEmail P normalizedEmail (adminEmails env) (instructorEmails env))
                      (amb_now amb) (amb_now amb) 1 in
        let addr := length (userHeap st) in
        let st := set_userHeap (λ heap, heap ++ [user]) st in
        let st := set_usersByEmail (insert normalizedEmail addr) st in
        let st := set_usersById (insert (user_id user) addr) st in
        let '(st, _) := getOrCreateSubscription amb (user_id user) st in
        (st, user)
    | Some (addr, user) =>
        let user := mkUser (user_id user) (user_email user) (user_name user) (user_role user)
                      (user_createdAt user) (amb_now amb) (user_tokenVersion user) in
        (set_userHeap (λ heap, <[addr := user]> heap) st, user)
    end.

Definition handleCallback (amb : Ambient) (code state : string) (st : AppState)
    : AppState * Response :=
    if negb (min1 code && min1 state) then json st 400 (ErrorBody "invalid_callback_params")
    else
      match oauthStates st !! state with
      | None => json st 400 (ErrorBody "invalid_state")
      | Some issuedAt =>
          let st := set_oauthStates (delete state) st in
          if 10 * 60 * 1000 <? amb_now amb - issuedAt
          then json st 400 (ErrorBody "expired_state")
          else
            match amb_exchange amb code with
            | None => json st 401 (ErrorBody "google_auth_failed")
            | Some profile =>
                let '(st, user) := findOrCreateUser amb profile st in
                let '(st, payload) := toAuthResponse amb user st in
                json st 200 (AuthBody payload)
            end
      end.

  (** [refreshSessions.get(decoded.sid)] *)
Definition sessionOf (decoded : JwtClaims) (st : AppState) : option (string * RefreshSession) :=
    sid ← claim_sid decoded;
    session ← refreshSessions st !! sid;
    Some (sid, session).

  (** [session.revokedAt = deps.now()] on the object stored under [sid]. *)
Definition revoke (amb : Ambient) (sid : string) (session : RefreshSession) (st : AppState)
    : AppState :=
    set_refreshSessions
      (insert sid (mkSession (session_sessionId session) (session_userId session)
                             (session_tokenHash session) (session_expiresAt session)
                             (Some (amb_now amb)))) st.

Definition handleRefresh (amb : Ambient) (refreshToken : string) (st : AppState)
    : AppState * Response :=
    if negb (min1 refreshToken) then json st 400 (ErrorBody "invalid_input")
    else
      match jwtVerify (JWT_REFRESH_SECRET env) (amb_wallSec amb) refreshToken with
      | inl TokenExpiredError => json st 401 (ErrorBody "refresh_token_expired")
      | inl JsonWebTokenError => json st 401 (ErrorBody "invalid_refresh_token")
      | inr decoded =>
          if negb (bool_decide (claim_type decoded = "refresh"))
          then json st 401 (ErrorBody "invalid_token_type")
          else
            match sessionOf decoded st with
            | None => json st 401 (ErrorBody "refresh_session_invalid")
            | Some (sid, session) =>
                if bool_decide (is_Some (session_revokedAt session))
                   || (session_expiresAt session <=? amb_now amb)
                then json st 401 (ErrorBody "refresh_session_invalid")
                else if negb (bool_decide (session_userId session = claim_sub decoded))
                        || negb (bool_decide (session_tokenHash session = sha256 P refreshToken))
                then json st 401 (ErrorBody "refresh_session_mismatch")
                else
                  match lookupUser st (usersById st) (claim_sub decoded) with
                  | None => json st 401 (ErrorBody "stale_refresh_token")
                  | Some (_, user) =>
                      if negb (bool_decide (user_tokenVersion user = claim_tokenVersion decoded))
                      then json st 401 (ErrorBody "stale_refresh_token")
                      else
                        let st := revoke amb sid session st in
                        let '(st, payload) := toAuthResponse amb user st in
                        json st 200 (AuthBody payload)
                  end
            end
      end.

Definition handleLogout (amb : Ambient) (refreshToken : string) (st : AppState)
    : AppState * Response :=
    if negb (min1 refreshToken) then json st 400 (ErrorBody "invalid_input")
    else
      match jwtVerify (JWT_REFRESH_SECRET env) (amb_wallSec amb) refreshToken with
      | inl _ => json st 401 (ErrorBody "invalid_refresh_token")
      | inr decoded =>
          if negb (bool_decide (claim_type decoded = "refresh"))
          then json st 401 (ErrorBody "invalid_token_type")
          else
            let st :=
              match sessionOf decoded st with
              | Some (sid, session) =>
                  if bool_decide (is_Some (session_revokedAt session)) then st
                  else revoke amb sid session st
              | None => st
              end in
            json st 200 OkBody
      end.

Definition handleMe (amb : Ambient) (authorization : option string) (st : AppState)
    : AppState * Response :=
    authenticated amb authorization st (λ auth,
      match lookupUser st (usersById st) (claim_sub auth) with
      | None => json st 404 (ErrorBody "not_found")
      | Some (_, user) =>
          let '(st, subscription) := getOrCreateSubscription amb (user_id user) st in
          json st 200 (MeBody user (subscription_plan subscription))
      end).

Definition handleSubscriptionMe (amb : Ambient) (authorization : option string)
      (st : AppState) : AppState * Response :=
    authenticated amb authorization st (λ auth,
      let '(st, st_status) := getSubscriptionStatus amb (claim_sub auth) st in
      json st 200 (StatusBody st_status)).

Definition handleSubscriptionPlan (amb : Ambient) (authorization : option string)
      (userId : string) (plan : SubscriptionPlan) (st : AppState) : AppState * Response :=
    guarded amb authorization [Admin] st (λ _,
      if negb (min1 userId) then json st 400 (ErrorBody "invalid_input")
      else if negb (has (usersById st) userId) then json st 404 (ErrorBody "not_found")
      else
        let next := mkSubscription userId plan (toISOString P (amb_now amb)) in
        json (set_subscriptionsByUserId (insert userId next) st) 200 (SubscriptionBody next)).

Definition handleRbac (amb : Ambient) (area : Role) (authorization : option string)
      (st : AppState) : AppState * Response :=
    let '(roles, name) :=
      match area with
      | Admin => ([Admin], "admin")
      | Instructor => ([Admin; Instructor], "instructor")
      | Student => ([Admin; Instructor; Student], "student")
      end in
    guarded amb authorization roles st (λ _, json st 200 (AreaBody name)).

  (** *** Domain routes *)

  (** The clock that [createAuthApp] gives to the store. *)
Definition storeNow (amb : Ambient) : string := toISOString P (amb_now amb).

Definition handleCourses (amb : Ambient) (authorization : option string)
      (id title : string) (st : AppState) : AppState * Response :=
    guarded amb authorization [Admin; Instructor] st (λ auth,
      if negb (min1 id && min1 title) then json st 400 (ErrorBody "invalid_input")
      else
        match runLms (createCourse id title (claim_sub auth) (storeNow amb)) st with
        | (st, inl error) => (st, handleLmsError error)
        | (st, inr course) =>
            let '(st, subscription) := withSoftLimitMeta amb (claim_sub auth) st in
            json st 201 (CourseBody course subscription)
        end).

  (** The body of a [try] that may answer "forbidden" before it calls
      the store method: [None] is that early return. *)
Definition ownedThen {A} (auth : JwtClaims) (courseId : Lms string) (method : Lms A)
    : Lms (option A) :=
    allowed ←' (if hasRole auth Instructor
                then (c ←' courseId;; canInstructorManageCourse (claim_sub auth) c)
                else lms_ret true);;
    if negb allowed then lms_ret None
    else (row ←' method;; lms_ret (Some row)).

Definition handleModules (amb : Ambient) (authorization : option string)
      (id courseId title : string) (position : Z) (st : AppState) : AppState * Response :=
    guarded amb authorization [Admin; Instructor] st (λ auth,
      if negb (min1 id && min1 courseId && min1 title && (0 <? position))
      then json st 400 (ErrorBody "invalid_input")
      else
        match runLms (ownedThen auth (lms_ret courseId)
                        (createModule id courseId title position)) st with
        | (st, inl error) => (st, handleLmsError error)
        | (st, inr None) => json st 403 (ErrorBody "forbidden")
        | (st, inr (Some row)) => json st 201 (ModuleBody row)
        end).

Definition handleLessons (amb : Ambient) (authorization : option string)
      (id moduleId title : string) (position : Z) (st : AppState) : AppState * Response :=
    guarded amb authorization [Admin; Instructor] st (λ auth,
      if negb (min1 id && min1 moduleId && min1 title && (0 <? position))
      then json st 400 (ErrorBody "invalid_input")
      else
        match runLms (ownedThen auth (getCourseIdForModule moduleId)
                        (createLesson id moduleId title position)) st with
        | (st, inl error) => (st, handleLmsError error)
        | (st, inr None) => json st 403 (ErrorBody "forbidden")
        | (st, inr (Some row)) => json st 201 (LessonBody row)
        end).

Definition handleEnrollments (amb : Ambient) (authorization : option string)
      (id courseId userId : string) (st : AppState) : AppState * Response :=
    guarded amb authorization [Admin; Instructor; Student] st (λ auth,
      if negb (min1 id && min1 courseId && min1 userId)
      then json st 400 (ErrorBody "invalid_input")
      else if hasRole auth Student && negb (bool_decide (claim_sub auth = userId))
      then json st 403 (ErrorBody "forbidden")
      else
        match runLms (enrollStudent id courseId userId (storeNow amb)) st with
        | (st, inl error) => (st, handleLmsError error)
        | (st, inr row) =>
            let '(st, subscription) := withSoftLimitMeta amb userId st in
            json st 201 (EnrollmentBody row subscription)
        end).

Definition handleProgress (amb : Ambient) (authorization : option string)
      (enrollmentId lessonId : string) (newStatus : ProgressStatus) (st : AppState)
    : AppState * Response :=
    guarded amb authorization [Student] st (λ auth,
      if negb (min1 enrollmentId && min1 lessonId)
      then json st 400 (ErrorBody "invalid_input")
      else
        match runLms (markLessonProgress enrollmentId lessonId (claim_sub auth) newStatus
                        (storeNow amb)) st with
        | (st, inl error) => (st, handleLmsError error)
        | (st, inr row) => json st 200 (ProgressBody row)
        end).

Definition handleCompletion (amb : Ambient) (authorization : option string)
      (enrollmentId : string) (st : AppState) : AppState * Response :=
    authenticated amb authorization st (λ auth,
      match runLms (
          enrollment ←' getEnrollment enrollmentId;;
          if hasRole auth Student
             && negb (bool_decide (enrollment_userId enrollment = claim_sub auth))
          then lms_ret None
          else
            allowed ←' (if hasRole auth Instructor
                        then canInstructorManageCourse (claim_sub auth)
                               (enrollment_courseId enrollment)
                        else lms_ret true);;
            if negb allowed then lms_ret None
            else (completion ←' getCourseCompletionPercent enrollmentId;;
                  lms_ret (Some completion))) st with
      | (st, inl error) => (st, handleLmsError error)
      | (st, inr None) => json st 403 (ErrorBody "forbidden")
      | (st, inr (Some completion)) => json st 200 (CompletionBody enrollmentId completion)
      end).

Definition handleLessonContent (amb : Ambient) (authorization : option string)
      (lessonId : string) (provider : StorageProviderName) (key fileId contentType : string)
      (size : Z) (st : AppState) : AppState * Response :=
    guarded amb authorization [Admin; Instructor] st (λ auth,
      if negb (min1 key && min1 fileId && min1 contentType && (0 <=? size))
      then json st 400 (ErrorBody "invalid_input")
      else
        match runLms (ownedThen auth (getCourseIdForLesson lessonId)
                        (attachLessonContent lessonId provider key fileId contentType size
                           (storeNow amb))) st with
        | (st, inl error) => (st, handleLmsError error)
        | (st, inr None) => json st 403 (ErrorBody "forbidden")
        | (st, inr (Some metadata)) =>
            let '(st, subscription) := withSoftLimitMeta amb (claim_sub auth) st in
            json st 201 (ContentBody metadata subscription)
        end).

  (** A role claim that is none of the three names falls through to the
      enrollment test of [canUserAccessLessonContent], like [Student].
      What [buildSignedLessonContentUrl] throws is no [LmsModelError],
      and [handleLmsError] answers it with 500. *)
Definition handleContentUrl (amb : Ambient) (authorization : option string)
      (lessonId : string) (st : AppState) : AppState * Response :=
    authenticated amb authorization st (λ auth,
      if negb (canUserAccessLessonContent lessonId (claim_sub auth)
                 (default Student (claim_role auth)) (lmsStore st))
      then json st 403 (ErrorBody "forbidden")
      else
        match runLms (getLessonContent lessonId) st with
        | (st, inl error) => (st, handleLmsError error)
        | (st, inr metadata) =>
            match buildSignedLessonContentUrl P (DELIVERY_BASE_URL env)
                    (DELIVERY_SIGNING_SECRET env) (amb_now amb)
                    (mkSignedUrlInput (claim_sub auth) lessonId metadata
                                      (DELIVERY_URL_TTL_SECONDS env)) with
            | inl _ => json st 500 (ErrorBody "internal_error")
            | inr signed =>
                json st 200 (ContentUrlBody metadata signed.1 signed.2
                               (DELIVERY_URL_TTL_SECONDS env))
            end
        end).

Definition handleVerify (amb : Ambient) (authorization : option string)
      (params : SignedParams) (st : AppState) : AppState * Response :=
    authenticated amb authorization st (λ auth,
      if negb (min1 (param_key params) && min1 (param_lessonId params)
               && min1 (param_userId params) && min1 (param_exp params)
               && min1 (param_sig params))
      then json st 400 (ErrorBody "invalid_input")
      else if hasRole auth Student
              && negb (bool_decide (claim_sub auth = param_userId params))
      then json st 403 (ErrorBody "forbidden")
      else
        match verifySignedLessonContentUrl P (DELIVERY_SIGNING_SECRET env) (amb_now amb) params with
        | inr valid => json st 200 (ValidBody valid)
        | inl _ => json st 500 (ErrorBody "internal_error")
        end).

Definition handleDashboard (amb : Ambient) (authorization : option string)
    (courseId : string) (st : AppState) : AppState * Response :=
  guarded amb authorization [Admin; Instructor] st (λ auth,
    match runLms (getInstructorDashboard courseId (claim_sub auth)
                    (default Admin (claim_role auth))) st with
    | (st, inl error) => (st, handleLmsError error)
    | (st, inr dashboard) => json st 200 (DashboardBody dashboard)
    end).

Definition handle (amb : Ambient) (req : Request) (st : AppState) : AppState * Response :=
    match req with
    | GET_auth_google_start => handleStart amb st
    | GET_auth_google_callback code state => handleCallback amb code state st
    | POST_auth_refresh refreshToken => handleRefresh amb refreshToken st
    | POST_auth_logout refreshToken => handleLogout amb refreshToken st
    | GET_auth_me authorization => handleMe amb authorization st
    | GET_subscription_me authorization => handleSubscriptionMe amb authorization st
    | POST_subscription_plan authorization userId plan =>
        handleSubscriptionPlan amb authorization userId plan st
    | GET_rbac area authorization => handleRbac amb area authorization st
    | POST_lms_courses authorization id title => handleCourses amb authorization id title st
    | POST_lms_modules authorization id courseId title position =>
        handleModules amb authorization id courseId title position st
    | POST_lms_lessons authorization id moduleId title position =>
        handleLessons amb authorization id moduleId title position st
    | POST_lms_enrollments authorization id courseId userId =>
        handleEnrollments amb authorization id courseId userId st
    | PATCH_lms_progress authorization enrollmentId lessonId newStatus =>
        handleProgress amb authorization enrollmentId lessonId newStatus st
    | GET_lms_enrollment_completion authorization enrollmentId =>
        handleCompletion amb authorization enrollmentId st
    | PUT_lms_lesson_content authorization lessonId provider key fileId contentType size =>
        handleLessonContent amb authorization lessonId provider key fileId contentType size st
    | GET_lms_lesson_content_url authorization lessonId =>
        handleContentUrl amb authorization lessonId st
    | POST_lms_content_url_verify authorization params =>
        handleVerify amb authorization params st
    | GET_lms_instructor_dashboard authorization courseId =>
        handleDashboard amb authorization courseId st
    end.

  (** Requests are handled one after the other. *)
Definition serve (trace : list (Ambient * Request)) (st : AppState) : AppState :=
    foldl (λ st step, (handle step.1 step.2 st).1) st trace.

  (** The identifier generator returns [x] at none of the draws from
      number [from] up to, and not including, number [to]. *)
Definition notDrawn (x : string) (from to : nat) : bool :=
    forallb (λ i, negb (bool_decide (randomId i = x))) (seq from (to - from)).
End App.

(** ** A platform for closed examples

    [testPlatform] runs the examples below.  Its digests and tokens
    are stand-ins: the token of a set of claims is the list of the
    signing secret and the claims, a hash is its input under a label,
    a MAC is a checksum of the key and the bytes, and [toNumber] reads
    unsigned decimal numerals. *)

Fixpoint parseDigits (s : string) (acc : N) : option N :=
  match s with
  | EmptyString => Some acc
  | String c rest =>
      match Ascii.is_nat c with
      | Some d => parseDigits rest (10 * acc + N.of_nat d)%N
      | None => None
      end
  end.

Definition decimalNumber (s : string) : JsNumber :=
  match parseDigits s 0 with
  | Some n => JsFinite (inject_Z (Z.of_N n))
  | None => JsNaN
  end.

Definition roleName (r : Role) : string :=
  match r with Admin => "Admin" | Instructor => "Instructor" | Student => "Student" end.

Definition roleOfName (s : string) : option Role :=
  if bool_decide (s = "Admin") then Some Admin
  else if bool_decide (s = "Instructor") then Some Instructor
  else if bool_decide (s = "Student") then Some Student
  else None.

Definition optionalWord (o : option string) : string := default "-" o.
Definition wordOptional (s : string) : option string :=
  if bool_decide (s = "-") then None else Some s.

Definition parseZ (s : string) : option Z := Z.of_N <$> parseDigits s 0.

Definition testJwtSign (secret : string) (c : JwtClaims) : string :=
  foldr (λ word rest, word +:+ " " +:+ rest) EmptyString
    [ secret; claim_sub c; optionalWord (claim_email c);
      optionalWord (roleName <$> claim_role c); optionalWord (claim_sid c);
      pretty (claim_tokenVersion c); claim_type c; claim_iss c; claim_aud c;
      pretty (claim_iat c); pretty (claim_exp c) ].

Definition testJwtDecode (secret token : string) : option JwtClaims :=
  match String.words token with
  | [signedWith; sub; email; role; sid; tokenVersion; type; iss; aud; iat; exp] =>
      if bool_decide (signedWith = secret) then
        tokenVersion ← parseZ tokenVersion;
        iat ← parseZ iat;
        exp ← parseZ exp;
        Some (mkClaims sub (wordOptional email) (wordOptional role ≫= roleOfName)
                       (wordOptional sid) tokenVersion type iss aud iat exp)
      else None
  | _ => None
  end.

(** A stand-in for a MAC: the bytes as the digits of a number in base
    257, modulo the prime 2^255 - 19. *)
Definition testMac (data : string) : N :=
  foldl (λ acc a, ((acc * 257 + N.of_nat (Ascii.nat_of_ascii a) + 1) mod (2 ^ 255 - 19))%N)
        0%N (String.list_ascii_of_string data).

Definition testPlatform : Platform := {|
  hmacSha256 secret data := testMac (secret +:+ "," +:+ data);
  sha256 input := "sha256(" +:+ input +:+ ")";
  toNumber := decimalNumber;
  toISOString ms := pretty ms;
  toLowerCase s := s;
  jwtSign := testJwtSign;
  jwtDecode := testJwtDecode;
  getAuthorizationUrl state := "https://accounts.google.com/mock?state=" +:+ state
|}.

(** The environment of the test suite. *)
Definition testEnv : Env := {|
  JWT_ACCESS_SECRET := "aaaaaaaaaaaaaaaaaaaaaaaaaaaaaaaa";
  JWT_REFRESH_SECRET := "bbbbbbbbbbbbbbbbbbbbbbbbbbbbbbbb";
  JWT_ISSUER := "navcloud-auth";
  JWT_AUDIENCE := "navcloud";
  ACCESS_TOKEN_TTL_SECONDS := 2;
  REFRESH_TOKEN_TTL_SECONDS := 30;
  adminEmails := {["admin@navcloud.io"]};
  instructorEmails := {["instructor@navcloud.io"]};
  DELIVERY_BASE_URL := "https://files.navcloud.example/content";
  DELIVERY_SIGNING_SECRET := "cccccccccccccccccccccccccccccccc";
  DELIVERY_URL_TTL_SECONDS := 120
|}.

(** [randomId: () => `id-${seq++}`] with [seq] starting at 1. *)
Definition testRandomId (n : nat) : string := "id-" +:+ pretty (S n).

Definition testExchange (code : string) : option GoogleProfile :=
  if bool_decide (code = "admin-code") then Some (mkProfile "admin@navcloud.io" "Admin User")
  else if bool_decide (code = "instructor-code")
  then Some (mkProfile "instructor@navcloud.io" "Instructor")
  else if bool_decide (code = "student-code")
  then Some (mkProfile "student@navcloud.io" "Student User")
  else None.

(** The clock [seconds] after 2026-01-01T00:00:00Z, read by
    [deps.now] and by [jsonwebtoken] alike. *)
Definition testAmbient (seconds : Z) : Ambient :=
  mkAmbient ((1767225600 + seconds) * 1000) (1767225600 + seconds) testExchange.

Definition testHandle : Ambient → Request → AppState → AppState * Response :=
  handle testPlatform testEnv testRandomId.

(** Start the flow and log in with [code]; the tokens come back. *)
Definition testLogin (seconds : Z) (code : string) (st : AppState)
  : AppState * option AuthResponse :=
  let '(st, started) := testHandle (testAmbient seconds) GET_auth_google_start st in
  match body started with
  | StartBody _ _ state =>
      let '(st, answered) :=
        testHandle (testAmbient seconds) (GET_auth_google_callback code state) st in
      (st, match body answered with AuthBody payload => Some payload | _ => None end)
  | _ => (st, None)
  end.

Definition bearer (payload : option AuthResponse) : option string :=
  (λ p, "Bearer " +:+ auth_accessToken p) <$> payload.

Definition refreshTokenOf (payload : option AuthResponse) : string :=
  default EmptyString (auth_refreshToken <$> payload).

(** ** Sessions and states along a run *)

Definition revokedIn (st : AppState) (sid : string) : Prop :=
  ∃ session, refreshSessions st !! sid = Some session ∧ is_Some (session_revokedAt session).

(** The handlers that touch neither the sessions nor the OAuth states
    nor the identifier generator. *)
Definition sameAuth (st st' : AppState) : Prop :=
  refreshSessions st' = refreshSessions st ∧ oauthStates st' = oauthStates st ∧
  idsDrawn st' = idsDrawn st.

Definition drawnBetween (randomId : nat → string) (x : string) (from to : nat) : Prop :=
  ∃ i, (from ≤ i < to)%nat ∧ randomId i = x.

(** What any handler can do to the sessions and the OAuth states: a
    revoked session stays revoked, and an unknown state stays unknown,
    unless the generator returns that very identifier. *)
Record AuthStep (randomId : nat → string) (st st' : AppState) : Prop := mkAuthStep {
  step_ids : (idsDrawn st ≤ idsDrawn st')%nat;
  step_revoked :
    ∀ sid, revokedIn st sid →
           revokedIn st' sid ∨ drawnBetween randomId sid (idsDrawn st) (idsDrawn st');
  step_states :
    ∀ x, oauthStates st !! x = None →
         oauthStates st' !! x = None ∨ drawnBetween randomId x (idsDrawn st) (idsDrawn st')
}.

(** The error of [POST /auth/refresh] for a well-signed refresh token
    whose session is revoked: the expiry of the token is tested before
    the session. *)
Definition replayError (decoded : JwtClaims) (amb : Ambient) : string :=
  if claim_exp decoded <=? amb_wallSec amb then "refresh_token_expired"
  else "refresh_session_invalid".

(** ** Closed runs of the application *)

(** An administrator logs in at second 0 and rotates the refresh token
    at second 10. *)
Definition demoLogin : AppState * option AuthResponse := testLogin 0 "admin-code" initApp.
Definition demoToken : string := refreshTokenOf demoLogin.2.
Definition demoRotation : AppState * Response :=
  testHandle (testAmbient 10) (POST_auth_refresh demoToken) demoLogin.1.

(** A flow is started; the state it returns is "id-1". *)
Definition demoStarted : AppState :=
  (testHandle (testAmbient 0) GET_auth_google_start initApp).1.

(** An instructor logs in at second 0. *)
Definition demoInstructor : AppState * option AuthResponse :=
  testLogin 0 "instructor-code" initApp.

(** The plan on record for a user, [free] when there is none yet. *)
Definition planOf (st : AppState) (userId : string) : SubscriptionPlan :=
  default free (subscription_plan <$> subscriptionsByUserId st !! userId).

Definition softLimitOf (usage : UserUsageSnapshot) (limits : PlanLimits) : SoftLimit :=
  mkSoftLimit (Z.max (createdCourses usage - maxCreatedCourses limits) 0)
              (Z.max (activeEnrollments usage - maxActiveEnrollments limits) 0)
              (Js.Math_max
                 (Js.sub (ownedStorageBytes usage) (Js.num (maxOwnedStorageBytes limits)))
                 (Js.num 0)).

(** An instructor on the free plan creates three courses; an
    administrator then moves the instructor to [pro]. *)
Definition demoThreeCourses : AppState * list Response :=
  let '(st, instructor) := testLogin 0 "instructor-code" initApp in
  let '(st, first) := testHandle (testAmbient 1) (POST_lms_courses (bearer instructor) "c1" "One") st in
  let '(st, second) := testHandle (testAmbient 1) (POST_lms_courses (bearer instructor) "c2" "Two") st in
  let '(st, third) := testHandle (testAmbient 1) (POST_lms_courses (bearer instructor) "c3" "Three") st in
  (st, [first; second; third]).

(** An administrator on the enterprise plan attaches files of
    2^53 - 1, 2^53 - 1 and 2 bytes to three lessons of a course, and
    then creates a second course. *)
Definition demoLargeFiles : AppState * Response :=
  let admin := bearer demoLogin.2 in
  let st :=
    foldl (λ st request, (testHandle (testAmbient 1) request st).1) demoLogin.1
      [ POST_subscription_plan admin "id-2" enterprise;
        POST_lms_courses admin "c1" "Course";
        POST_lms_modules admin "m1" "c1" "Module" 1;
        POST_lms_lessons admin "l1" "m1" "One" 1;
        POST_lms_lessons admin "l2" "m1" "Two" 2;
        POST_lms_lessons admin "l3" "m1" "Three" 3;
        PUT_lms_lesson_content admin "l1" gdrive "k1" "f1" "video/mp4" (2 ^ 53 - 1);
        PUT_lms_lesson_content admin "l2" gdrive "k2" "f2" "video/mp4" (2 ^ 53 - 1);
        PUT_lms_lesson_content admin "l3" s3 "k3" "f3" "video/mp4" 2 ] in
  testHandle (testAmbient 1) (POST_lms_courses admin "c2" "Second") st.

(** The content reference and the request of the test suite: a signed
    URL for lesson-1, valid for 120 seconds. *)
Definition demoContent : LessonContentMetadata :=
  mkLessonContent "lesson-1" gdrive "courses/course-1/module-1/lesson-1.pdf"
                  "gdrive-file-1" "application/pdf" 2048 "1767225600000".

Definition demoSignedUrlInput : SignedUrlInput :=
  mkSignedUrlInput "id-5" "lesson-1" demoContent 120.

Definition demoSignedParams : SignedParams :=
  signedParams testPlatform (DELIVERY_SIGNING_SECRET testEnv) 1767225600000 demoSignedUrlInput.

(** The same parameters with another key. *)
Definition demoTamperedParams : SignedParams :=
  mkSignedParams (param_provider demoSignedParams) "courses/course-1/module-1/tampered.pdf"
                 (param_lessonId demoSignedParams) (param_userId demoSignedParams)
                 (param_exp demoSignedParams) (param_sig demoSignedParams).

(** Two keys with one UTF-8 encoding: U+FFFD, and the unpaired
    surrogate U+D800, which is encoded as U+FFFD. *)
Definition demoReplacementKey : string :=
  String (byte 239) (String (byte 191) (String (byte 189) ".pdf")).
Definition demoSurrogateKey : string :=
  String (byte 237) (String (byte 160) (String (byte 128) ".pdf")).

(** A URL is signed for the first key; the second key is put in its
    place. *)
Definition demoReplacementParams : SignedParams :=
  signedParams testPlatform (DELIVERY_SIGNING_SECRET testEnv) 1767225600000
    (mkSignedUrlInput "id-5" "lesson-1"
       (mkLessonContent "lesson-1" gdrive demoReplacementKey "gdrive-file-1"
                        "application/pdf" 2048 "1767225600000") 120).

Definition demoSurrogateParams : SignedParams :=
  mkSignedParams (param_provider demoReplacementParams) demoSurrogateKey
                 (param_lessonId demoReplacementParams) (param_userId demoReplacementParams)
                 (param_exp demoReplacementParams) (param_sig demoReplacementParams).

(** ** Further invariants of the store *)

(** [`${courseId}:${userId}`], the key of [enrollmentByCourseUser]. *)
Definition uniqueKey (courseId userId : string) : string := courseId +:+ ":" +:+ userId.

(** Rows are stored under their own id, positions are not shared, and
    [enrollmentByCourseUser] holds the key of every enrollment. *)
Record KeysInv (s : LmsCoreStore) : Prop := mkKeysInv {
  inv_course_key : ∀ c C, courses s !! c = Some C → course_id C = c;
  inv_module_key : ∀ m M, modules s !! m = Some M → module_id M = m;
  inv_content_lesson :
    ∀ l content, lessonContent s !! l = Some content →
                 content_lessonId content = l ∧ is_Some (lessons s !! l);
  inv_module_position :
    ∀ m1 M1 m2 M2, modules s !! m1 = Some M1 → modules s !! m2 = Some M2 →
                   module_courseId M1 = module_courseId M2 →
                   module_position M1 = module_position M2 → m1 = m2;
  inv_lesson_position :
    ∀ l1 L1 l2 L2, lessons s !! l1 = Some L1 → lessons s !! l2 = Some L2 →
                   lesson_moduleId L1 = lesson_moduleId L2 →
                   lesson_position L1 = lesson_position L2 → l1 = l2;
  inv_unique_key :
    ∀ e E, enrollments s !! e = Some E →
           enrollmentByCourseUser s
             !! uniqueKey (enrollment_courseId E) (enrollment_userId E) = Some e;
  inv_unique_key_row :
    ∀ k e, enrollmentByCourseUser s !! k = Some e →
           ∃ E, enrollments s !! e = Some E ∧
                uniqueKey (enrollment_courseId E) (enrollment_userId E) = k
}.

(** Every progress row belongs to an enrollment and to a lesson of the
    course of that enrollment, and [progressIdsByEnrollment] lists the
    rows of an enrollment, one per lesson of its course. *)
Record ProgressInv (s : LmsCoreStore) : Prop := mkProgressInv {
  inv_progress_row :
    ∀ p row, progress s !! p = Some row →
             ∃ E, enrollments s !! progress_enrollmentId row = Some E ∧
                  lessonInCourse s (progress_lessonId row) (enrollment_courseId E) ∧
                  p = progress_enrollmentId row +:+ ":" +:+ progress_lessonId row;
  inv_progress_index :
    ∀ e E p, enrollments s !! e = Some E →
             (p ∈ bucket (progressIdsByEnrollment s) e ↔
              ∃ l, lessonInCourse s l (enrollment_courseId E) ∧ p = e +:+ ":" +:+ l);
  inv_progress_index_nodup :
    ∀ e, is_Some (enrollments s !! e) → NoDup (bucket (progressIdsByEnrollment s) e)
}.

(** A string without a colon. *)
Definition colonFree (s : string) : Prop := ∀ a b, s ≠ a +:+ ":" +:+ b.

(** The body of the two position scans: read the row of the id (the
    non-null assertion [get(id)!]), then reject a position in use. *)
Definition scanBody {A R} (get : LmsCoreStore → A → option R) (taken : R → bool)
    (message : string) (x : A) : Lms unit :=
  row ←' reads (λ s, get s x);;
  match row with
  | None => throw TypeError
  | Some row => throwIf (taken row) DUPLICATE message
  end.

(** Two courses, and a student "c" enrolled in the course "a:b". *)
Definition collidingStore : LmsCoreStore :=
  runOps [ OpCreateCourse "a:b" "First" "instructor-1" "t0";
           OpCreateCourse "a" "Second" "instructor-1" "t0";
           OpEnrollStudent "e1" "a:b" "c" "t1" ] emptyStore.

(** ** Requests and their guards *)

(** The [Authorization] header of a request to a route that is mounted
    behind [authenticate]; the four authentication routes are not. *)
Definition authorizationOf (req : Request) : option (option string) :=
  match req with
  | GET_auth_google_start | GET_auth_google_callback _ _
  | POST_auth_refresh _ | POST_auth_logout _ => None
  | GET_auth_me authorization | GET_subscription_me authorization
  | POST_subscription_plan authorization _ _ | GET_rbac _ authorization
  | POST_lms_courses authorization _ _ | POST_lms_modules authorization _ _ _ _
  | POST_lms_lessons authorization _ _ _ _ | POST_lms_enrollments authorization _ _ _
  | PATCH_lms_progress authorization _ _ _ | GET_lms_enrollment_completion authorization _
  | PUT_lms_lesson_content authorization _ _ _ _ _ _
  | GET_lms_lesson_content_url authorization _
  | POST_lms_content_url_verify authorization _
  | GET_lms_instructor_dashboard authorization _ => Some authorization
  end.

(** The role list that [authorize] or [lmsRoleGuard] is given on the
    route, for the routes that have such a guard. *)
Definition guardOf (req : Request) : option (list Role) :=
  match req with
  | POST_subscription_plan _ _ _ | GET_rbac Admin _ => Some [Admin]
  | GET_rbac Instructor _
  | POST_lms_courses _ _ _ | POST_lms_modules _ _ _ _ _ | POST_lms_lessons _ _ _ _ _
  | PUT_lms_lesson_content _ _ _ _ _ _ _ | GET_lms_instructor_dashboard _ _ =>
      Some [Admin; Instructor]
  | GET_rbac Student _ | POST_lms_enrollments _ _ _ _ => Some [Admin; Instructor; Student]
  | PATCH_lms_progress _ _ _ _ => Some [Student]
  | _ => None
  end.

(** A student logs in at second 0. *)
Definition demoStudent : AppState * option AuthResponse := testLogin 0 "student-code" initApp.

(** ** Store computations inside the routes *)

(** A computation that keeps a reachable store reachable and fails on
    no non-null assertion. *)
Definition sound {A} (m : Lms A) : Prop :=
  ∀ s, reachable s → reachable (m s).1 ∧ (m s).2 ≠ inl TypeError.

(** A computation that leaves the store alone. *)
Definition readOnly {A} (m : Lms A) : Prop := ∀ s, (m s).1 = s.

(** A computation that leaves the store as it was when it throws. *)
Definition atomic {A} (m : Lms A) : Prop := ∀ s s' e, m s = (s', inl e) → s' = s.

(** The status with which a route reports that it has written to the
    store: 201 for the five routes that create a row or attach a
    content reference, 200 for [PATCH /lms/progress]. *)
Definition writeStatus (req : Request) : option Z :=
  match req with
  | POST_lms_courses _ _ _ | POST_lms_modules _ _ _ _ _ | POST_lms_lessons _ _ _ _ _
  | POST_lms_enrollments _ _ _ _ | PUT_lms_lesson_content _ _ _ _ _ _ _ => Some 201
  | PATCH_lms_progress _ _ _ _ => Some 200
  | _ => None
  end.

(** An answer after which the store of the application is reachable
    and whose status is not 500. *)
Definition wellAnswered (r : AppState * Response) : Prop :=
  reachable (lmsStore r.1) ∧ status r.2 ≠ 500.

(** An administrator creates the course "c1"; then an instructor and
    a student log in. *)
Definition demoForeignCourse : AppState * option AuthResponse * option AuthResponse :=
  let '(st, admin) := testLogin 0 "admin-code" initApp in
  let '(st, _) := testHandle (testAmbient 1) (POST_lms_courses (bearer admin) "c1" "One") st in
  let '(st, instructor) := testLogin 2 "instructor-code" st in
  let '(st, student) := testLogin 3 "student-code" st in
  (st, instructor, student).

(** The request asks for the signed URL of a lesson with content
    that the caller may read, and [buildSignedLessonContentUrl]
    throws. *)
Definition urlBuilderThrows (P : Platform) (env : Env) (amb : Ambient) (req : Request)
    (st : AppState) : Prop :=
  ∃ header lessonId auth metadata error,
    req = GET_lms_lesson_content_url header lessonId ∧
    authenticate P env amb header st = inr auth ∧
    canUserAccessLessonContent lessonId (claim_sub auth) (default Student (claim_role auth))
      (lmsStore st) = true ∧
    lessonContent (lmsStore st) !! lessonId = Some metadata ∧
    buildSignedLessonContentUrl P (DELIVERY_BASE_URL env) (DELIVERY_SIGNING_SECRET env)
      (amb_now amb)
      (mkSignedUrlInput (claim_sub auth) lessonId metadata (DELIVERY_URL_TTL_SECONDS env))
    = inl error.

(** Two states in which every user is on the same plan. *)
Definition samePlans (st st' : AppState) : Prop :=
  ∀ userId, planOf st' userId = planOf st userId.

(** ** Users and tokens *)

(** The payload that [signAccessToken] signs, with the registered
    claims that [jwt.sign] adds. *)
Definition accessClaims (env : Env) (amb : Ambient) (user : User) : JwtClaims :=
  mkClaims (user_id user) (Some (user_email user)) (Some (user_role user)) None
           (user_tokenVersion user) "access" (JWT_ISSUER env) (JWT_AUDIENCE env)
           (amb_wallSec amb) (amb_wallSec amb + ACCESS_TOKEN_TTL_SECONDS env).

(** The payload that [issueRefreshToken] signs for the session
    [sessionId]. *)
Definition refreshClaims (env : Env) (amb : Ambient) (user : User) (sessionId : string)
  : JwtClaims :=
  mkClaims (user_id user) None None (Some sessionId)
           (user_tokenVersion user) "refresh" (JWT_ISSUER env) (JWT_AUDIENCE env)
           (amb_wallSec amb) (amb_wallSec amb + REFRESH_TOKEN_TTL_SECONDS env).

(** The session that [issueRefreshToken] stores for a token. *)
Definition issuedSession (P : Platform) (env : Env) (amb : Ambient) (user : User)
    (sessionId token : string) : RefreshSession :=
  mkSession sessionId (user_id user) (sha256 P token)
            (amb_now amb + REFRESH_TOKEN_TTL_SECONDS env * 1000) None.

(** A user id under which [usersById] holds a user whose token version
    is 1, the version that every user is created with. *)
Definition knownUser (st : AppState) (userId : string) : Prop :=
  ∃ addr user, usersById st !! userId = Some addr ∧ userHeap st !! addr = Some user ∧
               user_tokenVersion user = 1.

Definition usersKnown (st : AppState) : Prop :=
  ∀ addr user, userHeap st !! addr = Some user →
               user_tokenVersion user = 1 ∧ knownUser st (user_id user).

(** The handlers that leave the users alone. *)
Definition sameUsers (st st' : AppState) : Prop :=
  userHeap st' = userHeap st ∧ usersById st' = usersById st ∧
  usersByEmail st' = usersByEmail st.

(** The answers that carry tokens: a login and a rotation. *)
Definition issuesTokens (P : Platform) (env : Env) (randomId : nat → string)
    (amb : Ambient) (st st' : AppState) (payload : AuthResponse) : Prop :=
  (∃ code state,
     handleCallback P env randomId amb code state st
       = (st', mkResponse 200 (AuthBody payload))) ∨
  (∃ refreshToken,
     handleRefresh P env randomId amb refreshToken st
       = (st', mkResponse 200 (AuthBody payload))).

(** The answer to the login of [demoLogin]. *)
Definition demoPayload : AuthResponse :=
  default (mkAuthResponse EmptyString EmptyString 0
             (mkUser EmptyString EmptyString EmptyString Student 0 0 0) free)
          demoLogin.2.

(** Two states of one user: [findOrCreateUser] changes only
    [updatedAt] of a user that exists. *)
Definition sameIdentity (user user' : User) : Prop :=
  user_id user' = user_id user ∧ user_email user' = user_email user ∧
  user_name user' = user_name user ∧ user_role user' = user_role user ∧
  user_createdAt user' = user_createdAt user ∧
  user_tokenVersion user' = user_tokenVersion user.

(** The user registered under [email]. *)
Definition userOfEmail (st : AppState) (email : string) (user : User) : Prop :=
  ∃ addr, usersByEmail st !! email = Some addr ∧ userHeap st !! addr = Some user.

(** The users registered in [st] are registered in [st'], under the
    same email and with the same identity. *)
Definition usersStable (st st' : AppState) : Prop :=
  ∀ email user, userOfEmail st email user →
                ∃ user', userOfEmail st' email user' ∧ sameIdentity user user'.

(** The administrator of [demoLogin] logs in again at second 20. *)
Definition demoSecondLogin : AppState * option AuthResponse :=
  testLogin 20 "admin-code" demoLogin.1.

(** The administrator of [demoLogin] creates a course, a module and a
    lesson at second 1 and attaches a file to the lesson. *)
Definition demoDelivery : AppState :=
  serve testPlatform testEnv testRandomId
    [ (testAmbient 1, POST_lms_courses (bearer demoLogin.2) "c1" "Course");
      (testAmbient 1, POST_lms_modules (bearer demoLogin.2) "m1" "c1" "Module" 1);
      (testAmbient 1, POST_lms_lessons (bearer demoLogin.2) "l1" "m1" "Lesson" 1);
      (testAmbient 1, PUT_lms_lesson_content (bearer demoLogin.2) "l1" gdrive
                        "courses/c1/m1/l1.pdf" "gdrive-file-1" "application/pdf" 2048) ]
    demoLogin.1.

(** The login of [demoLogin], then a course, a module, a lesson and a
    file under a key with an unpaired surrogate. *)
Definition demoSurrogateTrace : list (Ambient * Request) :=
  [ (testAmbient 0, GET_auth_google_start);
    (testAmbient 0, GET_auth_google_callback "admin-code" "id-1");
    (testAmbient 1, POST_lms_courses (bearer demoLogin.2) "c1" "Course");
    (testAmbient 1, POST_lms_modules (bearer demoLogin.2) "m1" "c1" "Module" 1);
    (testAmbient 1, POST_lms_lessons (bearer demoLogin.2) "l1" "m1" "Lesson" 1);
    (testAmbient 1, PUT_lms_lesson_content (bearer demoLogin.2) "l1" gdrive
                      demoSurrogateKey "gdrive-file-1" "application/pdf" 2048) ].

Definition demoSurrogateContent : AppState :=
  serve testPlatform testEnv testRandomId demoSurrogateTrace initApp.

(** * Proofs *)

Module StrFacts.

Lemma append_cons (x : Ascii.ascii) (a b : string) :
  String x a +:+ b = String x (a +:+ b).
Proof. reflexivity. Qed.

Lemma append_nil_r (s : string) : s +:+ EmptyString = s.
Proof. induction s as [|c s IH]; [done | by rewrite append_cons, IH]. Qed.

Lemma append_assoc (a b c : string) : (a +:+ b) +:+ c = a +:+ (b +:+ c).
Proof. induction a as [|x a IH]; [done | by rewrite !append_cons, IH]. Qed.

Lemma append_length (a b : string) :
  String.length (a +:+ b) = (String.length a + String.length b)%nat.
Proof. induction a as [|x a IH]; [done | rewrite append_cons; simpl; by rewrite IH]. Qed.

Lemma append_inv_head (p a b : string) : p +:+ a = p +:+ b → a = b.
Proof. apply String.app_inj. Qed.

Lemma append_inv_tail (a b t : string) : a +:+ t = b +:+ t → a = b.
Proof.
  revert b. induction a as [|x a IH]; intros [|y b]; try done.
  - change (EmptyString +:+ t) with t. intros H. apply (f_equal String.length) in H.
    rewrite append_cons in H. simpl in H. rewrite append_length in H. lia.
  - change (EmptyString +:+ t) with t. intros H. apply (f_equal String.length) in H.
    rewrite append_cons in H. simpl in H. rewrite append_length in H. lia.
  - rewrite !append_cons. intros [= -> H]. f_equal. by apply IH.
Qed.

End StrFacts.

(** ** Loops *)

Section Loops.
Context {A : Type}.

  (** A loop whose body only reads and throws leaves the store alone. *)
Lemma forOf_reads (body : A → Lms unit) (xs : list A) (s : LmsCoreStore) :
    (∀ x s, (body x s).1 = s) → (forOf xs body s).1 = s.
  Proof.
    intros Hbody. induction xs as [|x xs IH]; [done|].
    simpl. unfold lms_bind. specialize (Hbody x s).
    destruct (body x s) as [s1 [e|[]]]; simpl in *; subst; [done | apply IH].
  Qed.

  (** A loop whose body only writes runs to the end. *)
Lemma forOf_writes (body : A → Lms unit) (f : A → LmsCoreStore → LmsCoreStore)
      (xs : list A) (s : LmsCoreStore) :
    (∀ x s, body x s = (f x s, inr tt)) →
    forOf xs body s = (foldl (λ s x, f x s) s xs, inr tt).
  Proof.
    intros Hbody. revert s. induction xs as [|x xs IH]; intros s; [done|].
    simpl. unfold lms_bind. rewrite Hbody. apply IH.
  Qed.
End Loops.

Ltac lms_unfold :=
  unfold lms_bind, reads, writes, throwIf, throw, lms_ret in *; simpl in *.

Lemma has_true {V} (m : gmap string V) k : has m k = true ↔ is_Some (m !! k).
Proof. unfold has. by rewrite bool_decide_eq_true. Qed.

Lemma has_false {V} (m : gmap string V) k : has m k = false ↔ m !! k = None.
Proof. unfold has. rewrite bool_decide_eq_false. by rewrite eq_None_not_Some. Qed.

Lemma createCourse_inv id title createdBy now s s' r :
  createCourse id title createdBy now s = (s', r) →
  (∃ e, r = inl e ∧ s' = s) ∨
  (courses s !! id = None ∧ r = inr (mkCourse id title createdBy now) ∧
   s' = createCourse_store (mkCourse id title createdBy now) s).
Proof.
  unfold createCourse. lms_unfold.
  destruct (has (courses s) id) eqn:Hdup; simpl; intros [= <- <-]; [eauto|].
  right. by apply has_false in Hdup.
Qed.

Lemma createModule_inv id courseId title position s s' r :
  createModule id courseId title position s = (s', r) →
  (∃ e, r = inl e ∧ s' = s) ∨
  (is_Some (courses s !! courseId) ∧ modules s !! id = None ∧
   r = inr (mkModule id courseId title position) ∧
   s' = createModule_store (mkModule id courseId title position) s).
Proof.
  unfold createModule. lms_unfold.
  destruct (courses s !! courseId) as [course|] eqn:Hc; [|intros [= <- <-]; eauto].
  destruct (has (modules s) id) eqn:Hdup; simpl; [intros [= <- <-]; eauto|].
  match goal with |- context [forOf ?xs ?body s] =>
    pose proof (forOf_reads body xs s) as Hscan;
    destruct (forOf xs body s) as [s1 [e|[]]] end.
  - simpl in Hscan. intros [= <- <-]. left. eexists. split; [done|].
    apply Hscan. intros x s0. lms_unfold.
    destruct (modules s0 !! x); [|done]. by case_bool_decide.
  - simpl in Hscan. intros [= <- <-]. right.
    assert (s1 = s) as ->.
    { apply Hscan. intros x s0. lms_unfold.
      destruct (modules s0 !! x); [|done]. by case_bool_decide. }
    apply has_false in Hdup. by eauto.
Qed.

Lemma createLesson_inv id moduleId title position s s' r :
  createLesson id moduleId title position s = (s', r) →
  (∃ e, r = inl e ∧ s' = s) ∨
  (∃ moduleRow, modules s !! moduleId = Some moduleRow ∧ lessons s !! id = None ∧
   r = inr (mkLesson id moduleId title position) ∧
   s' = createLesson_store (module_courseId moduleRow) (mkLesson id moduleId title position) s).
Proof.
  unfold createLesson. lms_unfold.
  destruct (modules s !! moduleId) as [moduleRow|] eqn:Hm; [|intros [= <- <-]; eauto].
  destruct (has (lessons s) id) eqn:Hdup; simpl; [intros [= <- <-]; eauto|].
  match goal with |- context [forOf ?xs ?body s] =>
    pose proof (forOf_reads body xs s) as Hscan;
    destruct (forOf xs body s) as [s1 [e|[]]] end; simpl in Hscan.
  - intros [= <- <-]. left. eexists. split; [done|].
    apply Hscan. intros x s0. lms_unfold.
    destruct (lessons s0 !! x); [|done]. by case_bool_decide.
  - assert (s1 = s) as ->.
    { apply Hscan. intros x s0. lms_unfold.
      destruct (lessons s0 !! x); [|done]. by case_bool_decide. }
    rewrite (forOf_writes _ (λ enrollmentId, fanOutStore enrollmentId id)) by done.
    intros [= <- <-]. right. apply has_false in Hdup. by eauto.
Qed.

Lemma enrollStudent_inv id courseId userId now s s' r :
  enrollStudent id courseId userId now s = (s', r) →
  (∃ e, r = inl e ∧ s' = s) ∨
  (is_Some (courses s !! courseId) ∧ enrollments s !! id = None ∧
   enrollmentByCourseUser s !! (courseId +:+ ":" +:+ userId) = None ∧
   r = inr (mkEnrollment id courseId userId now) ∧
   s' = enrollStudent_store (mkEnrollment id courseId userId now) s).
Proof.
  unfold enrollStudent. lms_unfold.
  destruct (has (courses s) courseId) eqn:Hc; simpl; [|intros [= <- <-]; eauto].
  destruct (has (enrollments s) id) eqn:Hdup; simpl; [intros [= <- <-]; eauto|].
  destruct (has (enrollmentByCourseUser s) _) eqn:Hkey; simpl; [intros [= <- <-]; eauto|].
  rewrite (forOf_writes _ (λ lesson, fanOutStore id (lesson_id lesson))) by done.
  intros [= <- <-]. right.
  apply has_true in Hc. apply has_false in Hdup. apply has_false in Hkey. by eauto.
Qed.

Lemma attachLessonContent_inv lessonId provider key fileId contentType size now s s' r :
  attachLessonContent lessonId provider key fileId contentType size now s = (s', r) →
  (∃ e, r = inl e ∧ s' = s) ∨
  (is_Some (lessons s !! lessonId) ∧
   r = inr (mkLessonContent lessonId provider key fileId contentType size now) ∧
   s' = set_lessonContent
          (insert lessonId (mkLessonContent lessonId provider key fileId contentType size now)) s).
Proof.
  unfold attachLessonContent. lms_unfold.
  destruct (has (lessons s) lessonId) eqn:Hl; simpl; intros [= <- <-]; [|eauto].
  right. apply has_true in Hl. by eauto.
Qed.

Lemma markLessonProgress_inv enrollmentId lessonId actorUserId status now s s' r :
  markLessonProgress enrollmentId lessonId actorUserId status now s = (s', r) →
  (∃ e, r = inl e ∧ s' = s) ∨
  (∃ enrollment lesson moduleRow row,
     enrollments s !! enrollmentId = Some enrollment ∧
     enrollment_userId enrollment = actorUserId ∧
     lessons s !! lessonId = Some lesson ∧
     modules s !! lesson_moduleId lesson = Some moduleRow ∧
     module_courseId moduleRow = enrollment_courseId enrollment ∧
     progress s !! (enrollment_id enrollment +:+ ":" +:+ lesson_id lesson) = Some row ∧
     r = inr (markedRow row status now) ∧
     s' = set_progress (insert (enrollment_id enrollment +:+ ":" +:+ lesson_id lesson)
                               (markedRow row status now)) s).
Proof.
  unfold markLessonProgress. lms_unfold.
  destruct (enrollments s !! enrollmentId) as [enrollment|] eqn:He; [|intros [= <- <-]; eauto].
  case_bool_decide as Hactor; simpl; [|intros [= <- <-]; eauto].
  destruct (lessons s !! lessonId) as [lesson|] eqn:Hl; [|intros [= <- <-]; eauto].
  destruct (modules s !! lesson_moduleId lesson) as [moduleRow|] eqn:Hm;
    [|intros [= <- <-]; eauto].
  case_bool_decide as Hcourse; simpl; [|intros [= <- <-]; eauto].
  destruct (progress s !! _) as [row|] eqn:Hrow; intros [= <- <-]; [|eauto].
  right. exists enrollment, lesson, moduleRow, row. by eauto 10.
Qed.



(** ** The fan-out loop *)

Lemma fanOutAll_snoc pairs q s :
  fanOutAll (pairs ++ [q]) s = fanOutStore q.1 q.2 (fanOutAll pairs s).
Proof. unfold fanOutAll. by rewrite foldl_app. Qed.

Lemma fanOutAll_fmap {A} (f : A → string * string) (xs : list A) s :
  foldl (λ s x, fanOutStore (f x).1 (f x).2 s) s xs = fanOutAll (f <$> xs) s.
Proof. unfold fanOutAll. by rewrite foldl_fmap. Qed.

Lemma fanOutAll_frame pairs s :
  let s' := fanOutAll pairs s in
  courses s' = courses s ∧ modules s' = modules s ∧ lessons s' = lessons s ∧
  enrollments s' = enrollments s ∧ lessonContent s' = lessonContent s ∧
  moduleIdsByCourse s' = moduleIdsByCourse s ∧ lessonIdsByModule s' = lessonIdsByModule s ∧
  enrollmentIdsByCourse s' = enrollmentIdsByCourse s ∧
  enrollmentByCourseUser s' = enrollmentByCourseUser s.
Proof.
  induction pairs as [|q pairs IH] using rev_ind; [done|].
  rewrite fanOutAll_snoc. simpl in *. done.
Qed.

Lemma fanOutAll_progress pairs s p :
  progress (fanOutAll pairs s) !! p = progress s !! p ∨
  ∃ q, q ∈ pairs ∧ p = progressKey q ∧
       progress (fanOutAll pairs s) !! p = Some (freshProgress q.1 q.2).
Proof.
  induction pairs as [|q pairs IH] using rev_ind; [by left|].
  rewrite fanOutAll_snoc. simpl.
  destruct (decide (progressKey q = p)) as [<-|Hne].
  - right. exists q. rewrite lookup_insert_eq. split_and!; [|done..].
    apply elem_of_app. right. by apply list_elem_of_singleton.
  - unfold progressKey in Hne. rewrite lookup_insert_ne by done.
    destruct IH as [IH|(q' & Hin & Hkey & Hrow)]; [by left|].
    right. exists q'. split_and!; [|done..]. apply elem_of_app. by left.
Qed.

Lemma fanOutAll_progress_other pairs s p :
  (∀ q, q ∈ pairs → p ≠ progressKey q) →
  progress (fanOutAll pairs s) !! p = progress s !! p.
Proof.
  intros Hp. destruct (fanOutAll_progress pairs s p) as [|(q & Hq & -> & _)]; [done|].
  by destruct (Hp q Hq).
Qed.

Lemma fanOutAll_progress_in pairs s q :
  q ∈ pairs → (∀ q', q' ∈ pairs → progressKey q' = progressKey q → q' = q) →
  progress (fanOutAll pairs s) !! progressKey q = Some (freshProgress q.1 q.2).
Proof.
  intros Hq Hinj.
  induction pairs as [|q0 pairs IH] using rev_ind; [by apply elem_of_nil in Hq|].
  rewrite fanOutAll_snoc. simpl.
  assert (q0 ∈ pairs ++ [q0]) as Hlast
    by (apply elem_of_app; right; by apply list_elem_of_singleton).
  destruct (decide (progressKey q0 = progressKey q)) as [Heq|Hne].
  - rewrite (Hinj q0 Hlast Heq). apply lookup_insert_eq.
  - unfold progressKey in Hne. rewrite lookup_insert_ne by done.
    apply elem_of_app in Hq as [Hq|Hq%list_elem_of_singleton]; [|by subst].
    apply IH; [done|]. intros q' Hq'. apply Hinj. apply elem_of_app. by left.
Qed.

Lemma fanOutAll_progress_is_Some pairs s p :
  is_Some (progress s !! p) → is_Some (progress (fanOutAll pairs s) !! p).
Proof.
  intros H. destruct (fanOutAll_progress pairs s p) as [->|(q & _ & _ & ->)]; eauto.
Qed.

Lemma bucket_pushIndex ix k v k' :
  bucket (pushIndex ix k v) k' =
  if decide (k = k') then bucket ix k ++ [v] else bucket ix k'.
Proof.
  unfold bucket, pushIndex. rewrite lookup_insert.
  by destruct (decide (k = k')).
Qed.

Lemma bucket_insert ix k (l : list string) k' :
  bucket (<[k := l]> ix) k' = if decide (k = k') then l else bucket ix k'.
Proof. unfold bucket. rewrite lookup_insert. by destruct (decide (k = k')). Qed.

Lemma fanOutAll_bucket pairs s e :
  bucket (progressIdsByEnrollment (fanOutAll pairs s)) e =
  bucket (progressIdsByEnrollment s) e ++ (progressKey <$> filter (λ q, q.1 = e) pairs).
Proof.
  induction pairs as [|q pairs IH] using rev_ind; [by rewrite app_nil_r|].
  rewrite fanOutAll_snoc. simpl. rewrite bucket_pushIndex, filter_app, fmap_app.
  destruct (decide (q.1 = e)) as [<-|Hne].
  - rewrite IH, filter_cons_True by done. by rewrite <- app_assoc.
  - rewrite IH, filter_cons_False by done. by rewrite app_nil_r.
Qed.

(** ** Preservation of the store invariants *)

Lemma StoreInv_empty : StoreInv emptyStore.
Proof.
  constructor; simpl; intros *; rewrite ?lookup_empty; try done;
    try (unfold bucket; rewrite lookup_empty; simpl;
         first [ apply NoDup_nil_2
               | split; [by intros ?%elem_of_nil | by intros (? & ? & _)] ]).
Qed.

Lemma lookup_insert_is_Some_mono {V} (m : gmap string V) k v k' :
  is_Some (m !! k') → is_Some (<[k := v]> m !! k').
Proof. intros H. rewrite lookup_insert_is_Some. destruct (decide (k = k')); auto. Qed.

Lemma StoreInv_createCourse c s :
  StoreInv s → courses s !! course_id c = None → StoreInv (createCourse_store c s).
Proof.
  intros [] Hfresh. constructor; simpl; try done.
  - intros m M HM. apply lookup_insert_is_Some_mono; eauto.
  - intros e E HE. apply lookup_insert_is_Some_mono; eauto.
  - intros c' m. rewrite bucket_insert. destruct (decide (course_id c = c')) as [<-|]; [|done].
    split; [by intros ?%elem_of_nil|]. intros (M & HM & Hc).
    apply inv_module_course0 in HM. rewrite Hc, Hfresh in HM. by destruct HM.
  - intros c' e. rewrite bucket_insert. destruct (decide (course_id c = c')) as [<-|]; [|done].
    split; [by intros ?%elem_of_nil|]. intros (E & HE & Hc).
    apply inv_enrollment_course0 in HE. rewrite Hc, Hfresh in HE. by destruct HE.
  - intros c'. rewrite bucket_insert. destruct (decide _); [apply NoDup_nil_2 | done].
  - intros c'. rewrite bucket_insert. destruct (decide _); [apply NoDup_nil_2 | done].
Qed.

Lemma lessonInCourse_frame s s' l c :
  lessons s' = lessons s → modules s' = modules s →
  lessonInCourse s' l c ↔ lessonInCourse s l c.
Proof. unfold lessonInCourse. by intros -> ->. Qed.

Lemma StoreInv_createModule M s :
  StoreInv s → is_Some (courses s !! module_courseId M) → modules s !! module_id M = None →
  StoreInv (createModule_store M s).
Proof.
  intros [] Hcourse Hfresh. constructor; simpl; try done.
  - intros m M'. rewrite lookup_insert. destruct (decide (module_id M = m)) as [<-|].
    + by intros [= <-].
    + eauto.
  - intros l L HL. apply lookup_insert_is_Some_mono; eauto.
  - intros c m. rewrite bucket_pushIndex, lookup_insert.
    destruct (decide (module_courseId M = c)) as [<-|Hc].
    + rewrite elem_of_app, list_elem_of_singleton, inv_module_index0.
      destruct (decide (module_id M = m)) as [<-|Hm].
      * split; [eauto | auto].
      * split; [intros [|]; [done | congruence] | auto].
    + rewrite inv_module_index0. destruct (decide (module_id M = m)) as [<-|Hm]; [|done].
      split; [intros (M' & HM' & _); congruence | intros (M' & [= <-] & ?); done].
  - intros m l. rewrite bucket_insert. destruct (decide (module_id M = m)) as [<-|]; [|done].
    split; [by intros ?%elem_of_nil|]. intros (L & HL & Hm).
    apply inv_lesson_module0 in HL. rewrite Hm, Hfresh in HL. by destruct HL.
  - intros c. rewrite bucket_pushIndex. destruct (decide _) as [<-|]; [|done].
    apply NoDup_app. split_and!; [done | | apply NoDup_singleton].
    intros m Hm ->%list_elem_of_singleton.
    apply inv_module_index0 in Hm as (M' & HM' & _). congruence.
  - intros m. rewrite bucket_insert. destruct (decide _); [apply NoDup_nil_2 | done].
  - intros e E l HE (L & M' & HL & HM' & Hc). simpl in *.
    apply (inv_progress_exists0 e E l HE). exists L, M'. split_and!; [done | | done].
    rewrite lookup_insert_ne in HM'; [done|]. intros Heq.
    apply inv_lesson_module0 in HL. rewrite <- Heq, Hfresh in HL. by destruct HL.
Qed.

Lemma createLesson_store_eq c L s :
  createLesson_store c L s =
  fanOutAll ((λ e, (e, lesson_id L)) <$> bucket (enrollmentIdsByCourse s) c)
    (set_lessonIdsByModule (λ ix, pushIndex ix (lesson_moduleId L) (lesson_id L))
       (set_lessons (insert (lesson_id L) L) s)).
Proof. unfold createLesson_store. simpl. by rewrite <- fanOutAll_fmap. Qed.

Lemma enrollStudent_store_eq E s :
  enrollStudent_store E s =
  fanOutAll ((λ L, (enrollment_id E, lesson_id L)) <$>
               getLessonsForCourse (enrollment_courseId E) s)
    (set_progressIdsByEnrollment (insert (enrollment_id E) [])
      (set_enrollmentIdsByCourse
         (λ ix, pushIndex ix (enrollment_courseId E) (enrollment_id E))
         (set_enrollmentByCourseUser
            (insert (enrollment_courseId E +:+ ":" +:+ enrollment_userId E) (enrollment_id E))
            (set_enrollments (insert (enrollment_id E) E) s)))).
Proof. unfold enrollStudent_store. by rewrite <- fanOutAll_fmap. Qed.

Lemma freshProgress_completedAt e l :
  is_Some (progress_completedAt (freshProgress e l)) ↔
  progress_status (freshProgress e l) = completed.
Proof. simpl. split; [by intros [? [=]] | done]. Qed.

Lemma lessonIdsOfCourse_elem s c l :
  StoreInv s → l ∈ lessonIdsOfCourse c s ↔ lessonInCourse s l c.
Proof.
  intros []. unfold lessonIdsOfCourse, lessonInCourse. rewrite list_elem_of_bind. split.
  - intros (m & Hl & Hm). apply inv_lesson_index0 in Hl as (L & HL & <-).
    apply inv_module_index0 in Hm as (M & HM & <-). eauto.
  - intros (L & M & HL & HM & <-). exists (lesson_moduleId L). split.
    + apply inv_lesson_index0. eauto.
    + apply inv_module_index0. eauto.
Qed.

Lemma lessonIdsOfCourse_NoDup s c : StoreInv s → NoDup (lessonIdsOfCourse c s).
Proof.
  intros []. unfold lessonIdsOfCourse. apply NoDup_bind; [|auto..].
  intros m1 m2 l _ _ H1 H2.
  apply inv_lesson_index0 in H1 as (L1 & HL1 & <-).
  apply inv_lesson_index0 in H2 as (L2 & HL2 & <-). congruence.
Qed.

Lemma getLessonsForCourse_ids s c :
  StoreInv s → lesson_id <$> getLessonsForCourse c s = lessonIdsOfCourse c s.
Proof.
  intros Hinv. unfold getLessonsForCourse. fold (lessonIdsOfCourse c s).
  assert (∀ l, l ∈ lessonIdsOfCourse c s →
               ∃ L, lessons s !! l = Some L ∧ lesson_id L = l) as Hall.
  { intros l (L & M & HL & _)%lessonIdsOfCourse_elem; [|done].
    exists L. split; [done|]. by apply (inv_lesson_key _ Hinv). }
  induction (lessonIdsOfCourse c s) as [|l ls IH]; [done|].
  destruct (Hall l) as (L & HL & Hid); [by left|].
  simpl. rewrite HL. simpl. rewrite Hid. f_equal. apply IH. intros; apply Hall. by right.
Qed.

Lemma getLessonsForCourse_elem s c L :
  StoreInv s →
  L ∈ getLessonsForCourse c s ↔
  lessons s !! lesson_id L = Some L ∧ lessonInCourse s (lesson_id L) c.
Proof.
  intros Hinv. unfold getLessonsForCourse. fold (lessonIdsOfCourse c s).
  rewrite list_elem_of_omap. split.
  - intros (l & Hl & HL). rewrite (inv_lesson_key _ Hinv _ _ HL).
    split; [done|]. by apply lessonIdsOfCourse_elem.
  - intros [HL Hin]. exists (lesson_id L). split; [|done].
    by apply lessonIdsOfCourse_elem.
Qed.

Lemma StoreInv_createLesson L M s :
  StoreInv s → modules s !! lesson_moduleId L = Some M → lessons s !! lesson_id L = None →
  StoreInv (createLesson_store (module_courseId M) L s).
Proof.
  intros Hinv HM Hfresh. rewrite createLesson_store_eq.
  set (pairs := (λ e, (e, lesson_id L)) <$> _). set (s1 := set_lessonIdsByModule _ _).
  destruct (fanOutAll_frame pairs s1) as (Hc & Hm & Hl & He & Hlc & Hmi & Hli & Hei & Hcu).
  pose proof (fanOutAll_progress pairs s1) as Hp.
  destruct Hinv. constructor; rewrite ?Hc, ?Hm, ?Hl, ?He, ?Hmi, ?Hli, ?Hei; simpl; try done.
  - intros l L'. rewrite lookup_insert. destruct (decide (lesson_id L = l)) as [<-|]; [|eauto].
    intros [= <-]. by rewrite HM.
  - intros l L'. rewrite lookup_insert. destruct (decide (lesson_id L = l)) as [<-|]; [|eauto].
    by intros [= <-].
  - intros m l. rewrite bucket_pushIndex, lookup_insert.
    destruct (decide (lesson_moduleId L = m)) as [<-|Hne].
    + rewrite elem_of_app, list_elem_of_singleton, inv_lesson_index0.
      destruct (decide (lesson_id L = l)) as [<-|]; [split; eauto|].
      split; [intros [|]; [done | congruence] | auto].
    + rewrite inv_lesson_index0. destruct (decide (lesson_id L = l)) as [<-|]; [|done].
      split; [intros (L' & HL' & _); congruence | intros (L' & [= <-] & ?); done].
  - intros m. rewrite bucket_pushIndex. destruct (decide _) as [<-|]; [|done].
    apply NoDup_app. split_and!; [done | | apply NoDup_singleton].
    intros l Hl' ->%list_elem_of_singleton.
    apply inv_lesson_index0 in Hl' as (L' & HL' & _). congruence.
  - intros p row Hrow. destruct (Hp p) as [Heq|(q & _ & -> & Heq)];
      rewrite Heq in Hrow; [eauto|]. by injection Hrow as <-.
  - intros p row Hrow. destruct (Hp p) as [Heq|(q & _ & -> & Heq)];
      rewrite Heq in Hrow; [eauto|]. injection Hrow as <-. apply freshProgress_completedAt.
  - intros e E l HE (L' & M' & HL' & HM' & Hcourse). rewrite Hl, Hm in *. simpl in *.
    rewrite lookup_insert in HL'. destruct (decide (lesson_id L = l)) as [<-|Hne].
    + injection HL' as <-. rewrite HM in HM'. injection HM' as <-.
      pose proof (fanOutAll_progress_in pairs s1 (e, lesson_id L)) as Hin.
      unfold progressKey in Hin. simpl in Hin. rewrite Hin; [done | |].
      * apply list_elem_of_fmap. exists e. split; [done|]. apply inv_enrollment_index0. eauto.
      * intros q' (e' & -> & _)%list_elem_of_fmap Hkey.
        simpl in Hkey. f_equal. by apply StrFacts.append_inv_tail in Hkey.
    + apply fanOutAll_progress_is_Some. simpl.
      apply (inv_progress_exists0 e E l HE). exists L', M'. done.
Qed.

Lemma StoreInv_enrollStudent E s :
  StoreInv s → is_Some (courses s !! enrollment_courseId E) →
  enrollments s !! enrollment_id E = None →
  StoreInv (enrollStudent_store E s).
Proof.
  intros Hinv Hcourse Hfresh. rewrite enrollStudent_store_eq.
  set (pairs := (λ L, (enrollment_id E, lesson_id L)) <$> _).
  set (s1 := set_progressIdsByEnrollment _ _).
  destruct (fanOutAll_frame pairs s1) as (Hc & Hm & Hl & He & Hlc & Hmi & Hli & Hei & Hcu).
  pose proof (fanOutAll_progress pairs s1) as Hp.
  pose proof (getLessonsForCourse_elem s (enrollment_courseId E)) as Hlessons.
  destruct Hinv. constructor; rewrite ?Hc, ?Hm, ?Hl, ?He, ?Hmi, ?Hli, ?Hei; simpl; try done.
  - intros e E'. rewrite lookup_insert. destruct (decide (enrollment_id E = e)) as [<-|]; [|eauto].
    by intros [= <-].
  - intros e E'. rewrite lookup_insert. destruct (decide (enrollment_id E = e)) as [<-|]; [|eauto].
    by intros [= <-].
  - intros c e. rewrite bucket_pushIndex, lookup_insert.
    destruct (decide (enrollment_courseId E = c)) as [<-|Hne].
    + rewrite elem_of_app, list_elem_of_singleton, inv_enrollment_index0.
      destruct (decide (enrollment_id E = e)) as [<-|]; [split; eauto|].
      split; [intros [|]; [done | congruence] | auto].
    + rewrite inv_enrollment_index0. destruct (decide (enrollment_id E = e)) as [<-|]; [|done].
      split; [intros (E' & HE' & _); congruence | intros (E' & [= <-] & ?); done].
  - intros c. rewrite bucket_pushIndex. destruct (decide _) as [<-|]; [|done].
    apply NoDup_app. split_and!; [done | | apply NoDup_singleton].
    intros e He' ->%list_elem_of_singleton.
    apply inv_enrollment_index0 in He' as (E' & HE' & _). congruence.
  - intros p row Hrow. destruct (Hp p) as [Heq|(q & _ & -> & Heq)];
      rewrite Heq in Hrow; [eauto|]. by injection Hrow as <-.
  - intros p row Hrow. destruct (Hp p) as [Heq|(q & _ & -> & Heq)];
      rewrite Heq in Hrow; [eauto|]. injection Hrow as <-. apply freshProgress_completedAt.
  - intros e E' l HE' Hin.
    apply (lessonInCourse_frame s) in Hin; [|by rewrite Hl|by rewrite Hm].
    rewrite lookup_insert in HE'. destruct (decide (enrollment_id E = e)) as [<-|Hne].
    + injection HE' as <-. destruct Hin as (L & M & HL & HM & HM').
      assert (lesson_id L = l) as Hid by eauto. subst l.
      pose proof (fanOutAll_progress_in pairs s1 (enrollment_id E, lesson_id L)) as Hfan.
      unfold progressKey in Hfan. simpl in Hfan. rewrite Hfan; [done | |].
      * apply list_elem_of_fmap. exists L. split; [done|]. apply Hlessons; [done|].
        split; [done|]. exists L, M. done.
      * intros q' (L' & -> & _)%list_elem_of_fmap Hkey. simpl in Hkey.
        apply StrFacts.append_inv_head, StrFacts.append_inv_head in Hkey. by rewrite Hkey.
    + apply fanOutAll_progress_is_Some. simpl. eauto.
Qed.

Lemma StoreInv_attachLessonContent lessonId metadata s :
  StoreInv s → StoreInv (set_lessonContent (insert lessonId metadata) s).
Proof. intros []. by constructor. Qed.

Lemma markedRow_completedAt row status now :
  is_Some (progress_completedAt (markedRow row status now)) ↔
  progress_status (markedRow row status now) = completed.
Proof. simpl. case_bool_decide; split; done. Qed.

Lemma StoreInv_markLessonProgress p row status now s :
  StoreInv s → progress s !! p = Some row →
  StoreInv (set_progress (insert p (markedRow row status now)) s).
Proof.
  intros [] Hrow. constructor; simpl; try done.
  - intros p' row'. rewrite lookup_insert. destruct (decide (p = p')) as [<-|]; [|eauto].
    intros [= <-]. simpl. eauto.
  - intros p' row'. rewrite lookup_insert. destruct (decide (p = p')) as [<-|]; [|eauto].
    intros [= <-]. apply markedRow_completedAt.
  - intros e E l HE Hin. apply lookup_insert_is_Some_mono. eauto.
Qed.

Lemma runOp_StoreInv op s : StoreInv s → StoreInv (runOp op s).1.
Proof.
  intros Hinv. destruct op; unfold runOp, outcome; simpl.
  - destruct (createCourse _ _ _ _ s) as [s1 r] eqn:H. apply createCourse_inv in H.
    destruct H as [(? & _ & ->)|(? & _ & ->)]; [done|]. by apply StoreInv_createCourse.
  - destruct (createModule _ _ _ _ s) as [s1 r] eqn:H. apply createModule_inv in H.
    destruct H as [(? & _ & ->)|(? & ? & _ & ->)]; [done|]. by apply StoreInv_createModule.
  - destruct (createLesson _ _ _ _ s) as [s1 r] eqn:H. apply createLesson_inv in H.
    destruct H as [(? & _ & ->)|(M & ? & ? & _ & ->)]; [done|]. by apply StoreInv_createLesson.
  - destruct (enrollStudent _ _ _ _ s) as [s1 r] eqn:H. apply enrollStudent_inv in H.
    destruct H as [(? & _ & ->)|(? & ? & ? & _ & ->)]; [done|]. by apply StoreInv_enrollStudent.
  - destruct (attachLessonContent _ _ _ _ _ _ _ s) as [s1 r] eqn:H.
    apply attachLessonContent_inv in H.
    destruct H as [(? & _ & ->)|(? & _ & ->)]; [done|]. by apply StoreInv_attachLessonContent.
  - destruct (markLessonProgress _ _ _ _ _ s) as [s1 r] eqn:H.
    apply markLessonProgress_inv in H.
    destruct H as [(? & _ & ->)|(E & L & M & row & ? & ? & ? & ? & ? & ? & _ & ->)]; [done|].
    by apply StoreInv_markLessonProgress.
Qed.

Lemma reachable_StoreInv s : reachable s → StoreInv s.
Proof. induction 1; [apply StoreInv_empty | by apply runOp_StoreInv]. Qed.

(** ** What a successful fan-out writes *)

Lemma filter_fst_pairs (es : list string) (l e : string) :
  NoDup es →
  filter (λ q : string * string, q.1 = e) ((λ e', (e', l)) <$> es) =
  if decide (e ∈ es) then [(e, l)] else [].
Proof.
  induction 1 as [|e0 es Hnotin Hnodup IH]; [done|].
  rewrite fmap_cons. destruct (decide (e0 = e)) as [->|Hne].
  - rewrite filter_cons_True by done. rewrite IH.
    rewrite (decide_True (P := e ∈ e :: es)) by left. by rewrite decide_False.
  - rewrite filter_cons_False by done. rewrite IH.
    destruct (decide (e ∈ es)) as [Hin|Hout].
    + rewrite decide_True; [done | by right].
    + rewrite decide_False; [done|]. intros [|]%elem_of_cons; [congruence | done].
Qed.

Lemma filter_fst_const {A} (f : A → string) (xs : list A) (e : string) :
  filter (λ q : string * string, q.1 = e) ((λ x, (e, f x)) <$> xs) = (λ x, (e, f x)) <$> xs.
Proof.
  induction xs as [|x xs IH]; [done|].
  rewrite fmap_cons, filter_cons_True by done. by rewrite IH.
Qed.

Lemma createLesson_fan_out s id moduleId title position s' lesson :
  StoreInv s → createLesson id moduleId title position s = (s', inr lesson) →
  ∃ M, modules s !! moduleId = Some M ∧
    (∀ e E, enrollments s !! e = Some E → enrollment_courseId E = module_courseId M →
       progress s' !! (e +:+ ":" +:+ id) = Some (freshProgress e id) ∧
       bucket (progressIdsByEnrollment s') e =
         bucket (progressIdsByEnrollment s) e ++ [e +:+ ":" +:+ id]) ∧
    (∀ e E, enrollments s !! e = Some E → enrollment_courseId E ≠ module_courseId M →
       bucket (progressIdsByEnrollment s') e = bucket (progressIdsByEnrollment s) e) ∧
    (∀ p, (∀ e E, enrollments s !! e = Some E → enrollment_courseId E = module_courseId M →
                  p ≠ e +:+ ":" +:+ id) →
          progress s' !! p = progress s !! p).
Proof.
  intros Hinv Hrun. apply createLesson_inv in Hrun as [(? & [=] & _)|(M & HM & Hfresh & _ & ->)].
  exists M. split; [done|]. rewrite createLesson_store_eq. simpl.
  set (es := bucket (enrollmentIdsByCourse s) (module_courseId M)).
  set (s1 := set_lessonIdsByModule _ _).
  assert (NoDup es) as Hnodup by apply (inv_enrollment_index_nodup _ Hinv).
  assert (∀ e, e ∈ es ↔ ∃ E, enrollments s !! e = Some E ∧
                              enrollment_courseId E = module_courseId M) as Hes
    by apply (inv_enrollment_index _ Hinv).
  split_and!.
  - intros e E HE Hc. assert (e ∈ es) as Hin by (apply Hes; eauto). split.
    + pose proof (fanOutAll_progress_in ((λ e0, (e0, id)) <$> es) s1 (e, id)) as Hfan.
      unfold progressKey in Hfan. simpl in Hfan. apply Hfan.
      * apply list_elem_of_fmap. eauto.
      * intros q' (e' & -> & _)%list_elem_of_fmap Hkey. simpl in Hkey.
        f_equal. by apply StrFacts.append_inv_tail in Hkey.
    + rewrite fanOutAll_bucket, filter_fst_pairs by done. by rewrite decide_True.
  - intros e E HE Hc. rewrite fanOutAll_bucket, filter_fst_pairs by done.
    rewrite decide_False; [by rewrite app_nil_r|].
    intros (E' & HE' & ?)%Hes. congruence.
  - intros p Hp. rewrite fanOutAll_progress_other; [done|].
    intros q (e & -> & (E & HE & Hc)%Hes)%list_elem_of_fmap. by apply (Hp e E).
Qed.

Lemma enrollStudent_fan_out s id courseId userId now s' enrollment :
  StoreInv s → enrollStudent id courseId userId now s = (s', inr enrollment) →
  (∀ l, lessonInCourse s l courseId →
        progress s' !! (id +:+ ":" +:+ l) = Some (freshProgress id l)) ∧
  bucket (progressIdsByEnrollment s') id =
    (λ l, id +:+ ":" +:+ l) <$> lessonIdsOfCourse courseId s ∧
  NoDup (lessonIdsOfCourse courseId s) ∧
  (∀ l, l ∈ lessonIdsOfCourse courseId s ↔ lessonInCourse s l courseId) ∧
  (∀ p, (∀ l, lessonInCourse s l courseId → p ≠ id +:+ ":" +:+ l) →
        progress s' !! p = progress s !! p).
Proof.
  intros Hinv Hrun.
  apply enrollStudent_inv in Hrun as [(? & [=] & _)|(Hc & Hfresh & _ & _ & ->)].
  rewrite enrollStudent_store_eq. simpl.
  set (s1 := set_progressIdsByEnrollment _ _).
  pose proof (getLessonsForCourse_elem s courseId) as Hlessons.
  split_and!.
  - intros l (L & M & HL & HM & HM').
    assert (lesson_id L = l) as <- by apply (inv_lesson_key _ Hinv _ _ HL).
    pose proof (fanOutAll_progress_in
                  ((λ L, (id, lesson_id L)) <$> getLessonsForCourse courseId s) s1
                  (id, lesson_id L)) as Hfan.
    unfold progressKey in Hfan. simpl in Hfan. apply Hfan.
    + apply list_elem_of_fmap. exists L. split; [done|]. apply Hlessons; [done|].
      split; [done|]. by exists L, M.
    + intros q' (L' & -> & _)%list_elem_of_fmap Hkey. simpl in Hkey.
      apply StrFacts.append_inv_head, StrFacts.append_inv_head in Hkey. by rewrite Hkey.
  - rewrite fanOutAll_bucket, filter_fst_const. simpl. rewrite bucket_insert, decide_True by done.
    simpl. rewrite <- (getLessonsForCourse_ids s courseId Hinv), <- !list_fmap_compose. done.
  - by apply lessonIdsOfCourse_NoDup.
  - intros l. by apply lessonIdsOfCourse_elem.
  - intros p Hp. rewrite fanOutAll_progress_other; [done|].
    intros q (L & -> & [HL Hin]%Hlessons)%list_elem_of_fmap; [|done]. by apply Hp.
Qed.

Lemma markLessonProgress_runs s enrollmentId lessonId actorUserId status now E L M row :
  enrollments s !! enrollmentId = Some E → enrollment_userId E = actorUserId →
  lessons s !! lessonId = Some L → modules s !! lesson_moduleId L = Some M →
  module_courseId M = enrollment_courseId E →
  progress s !! (enrollment_id E +:+ ":" +:+ lesson_id L) = Some row →
  markLessonProgress enrollmentId lessonId actorUserId status now s =
    (set_progress (insert (enrollment_id E +:+ ":" +:+ lesson_id L)
                          (markedRow row status now)) s,
     inr (markedRow row status now)).
Proof.
  intros HE Hactor HL HM Hc Hrow. unfold markLessonProgress. lms_unfold.
  rewrite HE. rewrite bool_decide_eq_true_2 by done. simpl.
  rewrite HL, HM. rewrite bool_decide_eq_true_2 by done. simpl. by rewrite Hrow.
Qed.

Lemma reachable_runOps ops s : reachable s → reachable (runOps ops s).
Proof.
  revert s. induction ops as [|op ops IH]; intros s Hs; [done|].
  apply IH. by constructor.
Qed.

(** ** Claims about the domain store *)

(** C10. Every mutating store operation is atomic on error: when
    [createCourse], [createModule], [createLesson], [enrollStudent],
    [attachLessonContent] or [markLessonProgress] throws, all entity
    maps and all indices are as they were before the call. *)
Theorem store_operations_atomic_on_error (op : StoreOp) (s s' : LmsCoreStore) (e : Thrown) :
  runOp op s = (s', Some e) → s' = s.
Proof.
  destruct op; unfold runOp, outcome; intros [= <- Hr].
  - destruct (createCourse _ _ _ _ s) as [s1 r] eqn:H. apply createCourse_inv in H.
    destruct H as [(? & -> & ->)|(_ & -> & _)]; simpl in *; congruence.
  - destruct (createModule _ _ _ _ s) as [s1 r] eqn:H. apply createModule_inv in H.
    destruct H as [(? & -> & ->)|(_ & _ & -> & _)]; simpl in *; congruence.
  - destruct (createLesson _ _ _ _ s) as [s1 r] eqn:H. apply createLesson_inv in H.
    destruct H as [(? & -> & ->)|(? & _ & _ & -> & _)]; simpl in *; congruence.
  - destruct (enrollStudent _ _ _ _ s) as [s1 r] eqn:H. apply enrollStudent_inv in H.
    destruct H as [(? & -> & ->)|(_ & _ & _ & -> & _)]; simpl in *; congruence.
  - destruct (attachLessonContent _ _ _ _ _ _ _ s) as [s1 r] eqn:H.
    apply attachLessonContent_inv in H.
    destruct H as [(? & -> & ->)|(_ & -> & _)]; simpl in *; congruence.
  - destruct (markLessonProgress _ _ _ _ _ s) as [s1 r] eqn:H.
    apply markLessonProgress_inv in H.
    destruct H as [(? & -> & ->)|(? & ? & ? & ? & _ & _ & _ & _ & _ & _ & -> & _)];
      simpl in *; congruence.
Qed.

(** A second module at a position already used in the course is
    rejected and leaves the scenario store as it was. *)
Lemma store_operations_atomic_on_error_witness :
  (runOp (OpCreateModule "m2" "c1" "Again" 1) scenarioStore).1 = scenarioStore.
Proof.
  apply (store_operations_atomic_on_error (OpCreateModule "m2" "c1" "Again" 1) scenarioStore _
           (LmsModelError DUPLICATE "module position already used in course: c1")).
  vm_compute. reflexivity.
Defined.

(** C2. In every reachable store, each enrollment has a progress row
    [E.id:L.id] for each lesson of its course; [createLesson] writes
    one [not_started] row, and one index entry, per enrollment of the
    lesson's course and nothing else; [enrollStudent] writes one per
    lesson of the course and nothing else; hence [markLessonProgress]
    always finds its row. *)
Theorem progress_rows_exist_by_fan_out (s : LmsCoreStore) :
  reachable s →
  (∀ e E l L M,
     enrollments s !! e = Some E → lessons s !! l = Some L →
     modules s !! lesson_moduleId L = Some M →
     module_courseId M = enrollment_courseId E →
     ∃ row, progress s !! (enrollment_id E +:+ ":" +:+ lesson_id L) = Some row ∧
            progress_id row = enrollment_id E +:+ ":" +:+ lesson_id L) ∧
  (∀ id moduleId title position s' lesson,
     createLesson id moduleId title position s = (s', inr lesson) →
     ∃ M, modules s !! moduleId = Some M ∧
       (∀ e E, enrollments s !! e = Some E → enrollment_courseId E = module_courseId M →
          progress s' !! (e +:+ ":" +:+ id) = Some (freshProgress e id) ∧
          bucket (progressIdsByEnrollment s') e =
            bucket (progressIdsByEnrollment s) e ++ [e +:+ ":" +:+ id]) ∧
       (∀ e E, enrollments s !! e = Some E → enrollment_courseId E ≠ module_courseId M →
          bucket (progressIdsByEnrollment s') e = bucket (progressIdsByEnrollment s) e) ∧
       (∀ p, (∀ e E, enrollments s !! e = Some E →
                     enrollment_courseId E = module_courseId M → p ≠ e +:+ ":" +:+ id) →
             progress s' !! p = progress s !! p)) ∧
  (∀ id courseId userId now s' enrollment,
     enrollStudent id courseId userId now s = (s', inr enrollment) →
     (∀ l, lessonInCourse s l courseId →
           progress s' !! (id +:+ ":" +:+ l) = Some (freshProgress id l)) ∧
     bucket (progressIdsByEnrollment s') id =
       (λ l, id +:+ ":" +:+ l) <$> lessonIdsOfCourse courseId s ∧
     NoDup (lessonIdsOfCourse courseId s) ∧
     (∀ l, l ∈ lessonIdsOfCourse courseId s ↔ lessonInCourse s l courseId) ∧
     (∀ p, (∀ l, lessonInCourse s l courseId → p ≠ id +:+ ":" +:+ l) →
           progress s' !! p = progress s !! p)) ∧
  (∀ enrollmentId lessonId status now E L M,
     enrollments s !! enrollmentId = Some E → lessons s !! lessonId = Some L →
     modules s !! lesson_moduleId L = Some M →
     module_courseId M = enrollment_courseId E →
     ∃ row, (markLessonProgress enrollmentId lessonId (enrollment_userId E) status now s).2
            = inr row).
Proof.
  intros Hinv%reachable_StoreInv.
  assert (∀ e E l L M,
     enrollments s !! e = Some E → lessons s !! l = Some L →
     modules s !! lesson_moduleId L = Some M →
     module_courseId M = enrollment_courseId E →
     ∃ row, progress s !! (enrollment_id E +:+ ":" +:+ lesson_id L) = Some row ∧
            progress_id row = enrollment_id E +:+ ":" +:+ lesson_id L) as Hrows.
  { intros e E l L M HE HL HM Hc.
    rewrite (inv_enrollment_key _ Hinv _ _ HE), (inv_lesson_key _ Hinv _ _ HL).
    destruct (inv_progress_exists _ Hinv e E l HE) as [row Hrow]; [by exists L, M|].
    exists row. split; [done|]. by apply (inv_progress_key _ Hinv). }
  split_and!.
  - done.
  - intros. by eapply createLesson_fan_out.
  - intros. by eapply enrollStudent_fan_out.
  - intros enrollmentId lessonId status now E L M HE HL HM Hc.
    destruct (Hrows _ _ _ _ _ HE HL HM Hc) as (row & Hrow & _).
    exists (markedRow row status now).
    by erewrite markLessonProgress_runs.
Qed.

Lemma progress_rows_exist_by_fan_out_witness :
  reachable scenarioStore ∧
  ∃ row, progress scenarioStore !! "e1:l1" = Some row ∧ progress_id row = "e1:l1".
Proof.
  assert (reachable scenarioStore) as Hs by apply reachable_runOps, reachable_empty.
  split; [exact Hs|].
  destruct (progress_rows_exist_by_fan_out scenarioStore Hs) as [Hrows _].
  exact (Hrows "e1" (mkEnrollment "e1" "c1" "s1" "2026-01-01T00:00:00.000Z")
               "l1" (mkLesson "l1" "m1" "Intro" 1) (mkModule "m1" "c1" "Basics" 1)
               eq_refl eq_refl eq_refl eq_refl).
Defined.

(** C8. In every reachable store a progress row has [completedAt]
    exactly when its status is [completed]; [markLessonProgress]
    accepts a row of any previous status, stores the requested status
    and sets [completedAt] to the current time exactly when that status
    is [completed]; rows created by fan-out are [not_started] without
    [completedAt]. *)
Theorem completedAt_iff_completed (s : LmsCoreStore) :
  reachable s →
  (∀ p row, progress s !! p = Some row →
            (is_Some (progress_completedAt row) ↔ progress_status row = completed)) ∧
  (∀ enrollmentId lessonId actorUserId status now E L M row,
     enrollments s !! enrollmentId = Some E → enrollment_userId E = actorUserId →
     lessons s !! lessonId = Some L → modules s !! lesson_moduleId L = Some M →
     module_courseId M = enrollment_courseId E →
     progress s !! (enrollment_id E +:+ ":" +:+ lesson_id L) = Some row →
     ∃ s' row',
       markLessonProgress enrollmentId lessonId actorUserId status now s = (s', inr row') ∧
       progress s' !! (enrollment_id E +:+ ":" +:+ lesson_id L) = Some row' ∧
       progress_status row' = status ∧
       progress_completedAt row' = (if decide (status = completed) then Some now else None)) ∧
  (∀ enrollmentId lessonId,
     progress_status (freshProgress enrollmentId lessonId) = not_started ∧
     progress_completedAt (freshProgress enrollmentId lessonId) = None).
Proof.
  intros Hinv%reachable_StoreInv. split_and!.
  - apply (inv_completedAt _ Hinv).
  - intros enrollmentId lessonId actorUserId status now E L M row HE Ha HL HM Hc Hrow.
    eexists _, _. split; [by eapply markLessonProgress_runs|].
    simpl. rewrite lookup_insert_eq. split_and!; [done..|].
    by destruct status.
  - done.
Qed.

Lemma completedAt_iff_completed_witness :
  reachable scenarioStore ∧
  ∀ p row, progress scenarioStore !! p = Some row →
           (is_Some (progress_completedAt row) ↔ progress_status row = completed).
Proof.
  assert (reachable scenarioStore) as Hs by apply reachable_runOps, reachable_empty.
  split; [exact Hs|].
  exact (proj1 (completedAt_iff_completed scenarioStore Hs)).
Defined.

(** ** Completion percentage *)

Lemma getCourseCompletionPercent_not_found enrollmentId s :
  enrollments s !! enrollmentId = None →
  getCourseCompletionPercent enrollmentId s =
    (s, inl (LmsModelError NOT_FOUND ("enrollment does not exist: " +:+ enrollmentId))).
Proof. intros H. unfold getCourseCompletionPercent. lms_unfold. by rewrite H. Qed.

Lemma getCourseCompletionPercent_found enrollmentId s :
  is_Some (enrollments s !! enrollmentId) →
  let progressIds := bucket (progressIdsByEnrollment s) enrollmentId in
  getCourseCompletionPercent enrollmentId s =
    (s, inr (if bool_decide (length progressIds = 0%nat) then Js.num 0
             else percentOf (countCompleted s progressIds) (length progressIds))).
Proof.
  intros [E H]. unfold getCourseCompletionPercent. lms_unfold. rewrite H.
  by case_bool_decide.
Qed.

(** Up to thirty-nine indexed rows the double arithmetic gives the
    rounded percentage. *)
Lemma percentOf_small (K N : nat) :
  (1 ≤ N < 40)%nat → (K ≤ N)%nat →
  percentOf K N = Js.num (roundPercent (Z.of_nat K) (Z.of_nat N)).
Proof.
  intros HN HK.
  assert (percentAgreesOn 1 39 = true) as Hall by (vm_compute; reflexivity).
  unfold percentAgreesOn in Hall. rewrite forallb_forall in Hall.
  specialize (Hall N). rewrite forallb_forall in Hall.
  assert (In N (seq 1 39)) as HinN by (apply in_seq; lia).
  assert (In K (seq 0 (S N))) as HinK by (apply in_seq; lia).
  specialize (Hall HinN K HinK). by apply bool_decide_eq_true in Hall.
Qed.

(** The scenario of the specification: the only lesson is completed,
    the completion is 100, and with 2048 bytes attached the dashboard
    of the owner counts one module, one lesson, one enrollment and
    2048 bytes. *)
Example scenario_completion_and_dashboard :
  (getCourseCompletionPercent "e1" scenarioStore).2 = inr (Js.num 100) ∧
  let s := (runOp (OpAttachLessonContent "l1" gdrive "courses/c1/m1/l1.pdf" "file-1"
                     "application/pdf" 2048 "2026-01-01T00:00:00.000Z") scenarioStore).1 in
  match (getInstructorDashboard "c1" "instructor-1" Instructor s).2 with
  | inr d =>
      (dashboard_modules d, dashboard_lessons d, dashboard_enrollments d,
       usage_bytes (dashboard_storageUsage d), usage_bytes (dashboard_byProvider d gdrive),
       sp_completionPercent <$> dashboard_studentProgress d,
       dashboard_avgCompletionPercent d)
      = (1%nat, 1%nat, 1%nat, Js.num 2048, Js.num 2048, [Js.num 100], Js.num 100)
  | inl _ => False
  end.
Proof. vm_compute. split; reflexivity. Qed.

(** C3. With forty indexed progress rows of which twenty-three are
    completed, [getCourseCompletionPercent] returns 57, whereas
    round(100 * 23 / 40) = round(57.5) = 58: the quotient 23/40 is
    rounded to a double before it is multiplied by 100. *)
Theorem completion_percent_of_forty_lessons :
  reachable fortyLessonsStore ∧
  is_Some (enrollments fortyLessonsStore !! "enrollment") ∧
  length (bucket (progressIdsByEnrollment fortyLessonsStore) "enrollment") = 40%nat ∧
  countCompleted fortyLessonsStore
    (bucket (progressIdsByEnrollment fortyLessonsStore) "enrollment") = 23%nat ∧
  (getCourseCompletionPercent "enrollment" fortyLessonsStore).2 = inr (Js.num 57) ∧
  roundPercent 23 40 = 58.
Proof.
  split; [apply reachable_runOps, reachable_empty|].
  split; [by vm_compute; eexists|].
  by vm_compute.
Qed.

(** ** Capability URLs *)

Lemma providerName_inj p1 p2 : providerName p1 = providerName p2 → p1 = p2.
Proof. by destruct p1, p2. Qed.

Lemma canonicalPayload_one_field (p p' : SignedParams) :
  alteredInOneField p p' → payloadOf p' ≠ payloadOf p.
Proof.
  intros [_ Halt] Heq. unfold payloadOf, canonicalPayload in Heq.
  destruct Halt as [(Hd & Hk & Hl & Hu & He)|[(Hp & Hd & Hl & Hu & He)|
    [(Hp & Hk & Hd & Hu & He)|[(Hp & Hk & Hl & Hd & He)|(Hp & Hk & Hl & Hu & Hd)]]]].
  - rewrite Hk, Hl, Hu, He in Heq. apply StrFacts.append_inv_tail in Heq.
    by apply providerName_inj in Heq.
  - rewrite Hp, Hl, Hu, He in Heq.
    do 2 apply StrFacts.append_inv_head in Heq. by apply StrFacts.append_inv_tail in Heq.
  - rewrite Hp, Hk, Hu, He in Heq.
    do 4 apply StrFacts.append_inv_head in Heq. by apply StrFacts.append_inv_tail in Heq.
  - rewrite Hp, Hk, Hl, He in Heq.
    do 6 apply StrFacts.append_inv_head in Heq. by apply StrFacts.append_inv_tail in Heq.
  - rewrite Hp, Hk, Hl, Hu in Heq.
    by do 8 apply StrFacts.append_inv_head in Heq.
Qed.

Lemma list_ascii_of_string_inj s1 s2 :
  String.list_ascii_of_string s1 = String.list_ascii_of_string s2 → s1 = s2.
Proof.
  intros H. rewrite <- (String.string_of_list_ascii_of_string s1),
              <- (String.string_of_list_ascii_of_string s2). by rewrite H.
Qed.

(** *** The UTF-8 encoding and the hexadecimal digest *)

Lemma utf8Write_cons (a : Ascii.ascii) (rest : string) :
  utf8Write (String a rest) =
  match rest with
  | String b (String _ rest') =>
      if surrogateLead a b
      then String (byte 239) (String (byte 191) (String (byte 189) (utf8Write rest')))
      else String a (utf8Write rest)
  | _ => String a (utf8Write rest)
  end.
Proof. by destruct rest as [|b [|c rest']]. Qed.

(** Only an ASCII string is encoded as an ASCII string, and it is its
    own encoding. *)
Lemma utf8Write_inv_ascii (s t : string) : isAscii t = true → utf8Write s = t → s = t.
Proof.
  revert t. induction s as [|a rest IH]; intros t Ht H; [done|].
  rewrite utf8Write_cons in H.
  assert (String a (utf8Write rest) = t → String a rest = t) as Hstep.
  { intros <-. simpl in Ht. apply andb_true_iff in Ht as [_ Ht].
    by rewrite (IH _ Ht eq_refl) at 1. }
  destruct rest as [|b [|c rest']]; [by apply Hstep..|].
  destruct (surrogateLead a b); [|by apply Hstep].
  subst t. by vm_compute in Ht.
Qed.

Lemma utf8Write_ascii (t : string) : isAscii t = true → utf8Write t = t.
Proof.
  induction t as [|a rest IH]; [done|]. simpl isAscii. intros [Ha Hrest]%andb_true_iff.
  rewrite utf8Write_cons, (IH Hrest).
  destruct rest as [|b [|c rest']]; [done..|].
  unfold surrogateLead. rewrite bool_decide_eq_false_2; [done|].
  apply Nat.ltb_lt in Ha. lia.
Qed.

Lemma hexChar_ascii (d : N) : (d < 16)%N → (Ascii.nat_of_ascii (hexChar false d) <? 128)%nat = true.
Proof.
  intros Hd. unfold hexChar, byte. apply Nat.ltb_lt.
  destruct (d <? 10)%N; rewrite Ascii.nat_ascii_embedding; lia.
Qed.

Lemma hexDigits_ascii (digits : nat) (n : N) (tail : string) :
  isAscii tail = true → isAscii (hexDigits digits n tail) = true.
Proof.
  revert n tail. induction digits as [|digits IH]; intros n tail Ht; [done|].
  simpl. apply IH. simpl. rewrite Ht, hexChar_ascii; [done|].
  by apply N.mod_lt.
Qed.

Lemma hmacSha256Hex_ascii P secret payload : isAscii (hmacSha256Hex P secret payload) = true.
Proof. by apply hexDigits_ascii. Qed.

Lemma Buffer_from_ascii (expected sig : string) :
  isAscii expected = true → Buffer_from sig = Buffer_from expected ↔ sig = expected.
Proof.
  intros Ha. unfold Buffer_from. split; [|by intros ->].
  intros H%list_ascii_of_string_inj. rewrite (utf8Write_ascii _ Ha) in H.
  by apply utf8Write_inv_ascii.
Qed.

Lemma tryOrFalse_timingSafeEqual (expected sig : string) :
  isAscii expected = true →
  tryOrFalse (timingSafeEqual (Buffer_from expected) (Buffer_from sig)) =
  inr (bool_decide (sig = expected)).
Proof.
  intros Ha. unfold timingSafeEqual. case_bool_decide as Hlen; simpl.
  - f_equal. apply bool_decide_ext. rewrite <- (Buffer_from_ascii _ _ Ha). naive_solver.
  - f_equal. symmetry. apply bool_decide_eq_false. by intros ->.
Qed.

Lemma verifySignedLessonContentUrl_unfold P signingSecret nowMs params :
  verifySignedLessonContentUrl P signingSecret nowMs params =
  inr (isFinite (toNumber P (param_exp params))
       && negb (js_le (toNumber P (param_exp params)) (epochSecond nowMs))
       && bool_decide (param_sig params = hmacSha256Hex P signingSecret (payloadOf params))).
Proof.
  unfold verifySignedLessonContentUrl.
  rewrite tryOrFalse_timingSafeEqual by apply hmacSha256Hex_ascii.
  destruct (isFinite _); [|done]. by destruct (js_le _ _).
Qed.

Lemma js_le_integers (a b : Z) : js_le (JsFinite (inject_Z a)) b = bool_decide (a ≤ b).
Proof.
  simpl. apply eq_true_iff_eq. rewrite Qle_bool_iff, bool_decide_eq_true.
  by rewrite <- Zle_Qle.
Qed.

Lemma encodeURIComponent_returns (s : string) :
  hasUnpairedSurrogate s = false → encodeURIComponent s = inr (percentEncode s).
Proof. intros H. unfold encodeURIComponent. by rewrite H. Qed.

Lemma encodeURIComponent_throws (s : string) :
  hasUnpairedSurrogate s = true → encodeURIComponent s = inl URIError.
Proof. intros H. unfold encodeURIComponent. by rewrite H. Qed.

(** The calls of [buildSignedLessonContentUrl] that can throw, in
    their order, and the URL of a call that returns. *)
Lemma buildSignedLessonContentUrl_cases (P : Platform) (baseUrl signingSecret : string)
    (input : SignedUrlInput) (signedAt : Z) :
  let content := input_content input in
  let expiry := epochSecond signedAt + input_expiresInSeconds input in
  let p := signedParams P signingSecret signedAt input in
  let returns :=
    negb (hasUnpairedSurrogate (content_key content))
    && negb (hasUnpairedSurrogate (content_fileId content))
    && negb (hasUnpairedSurrogate (input_lessonId input))
    && negb (hasUnpairedSurrogate (input_userId input))
    && (Z.abs (expiry * 1000) <=? 8640000000000000) in
  buildSignedLessonContentUrl P baseUrl signingSecret signedAt input =
    if returns
    then inr (stripTrailingSlash baseUrl +:+ "/" +:+ providerName (param_provider p) +:+ "/"
              +:+ percentEncode (param_key p)
              +:+ "?fileId=" +:+ percentEncode (content_fileId content)
              +:+ "&lessonId=" +:+ percentEncode (param_lessonId p)
              +:+ "&uid=" +:+ percentEncode (param_userId p)
              +:+ "&exp=" +:+ param_exp p +:+ "&sig=" +:+ param_sig p,
              toISOString P (expiry * 1000))
    else inl (if negb (hasUnpairedSurrogate (content_key content))
                 && negb (hasUnpairedSurrogate (content_fileId content))
                 && negb (hasUnpairedSurrogate (input_lessonId input))
                 && negb (hasUnpairedSurrogate (input_userId input))
              then RangeError else URIError).
Proof.
  intros content expiry p returns.
  unfold returns, buildSignedLessonContentUrl, Date_toISOString, exc_bind. fold content expiry.
  destruct (hasUnpairedSurrogate (content_key content)) eqn:Hk;
    [by rewrite (encodeURIComponent_throws _ Hk)|].
  rewrite (encodeURIComponent_returns _ Hk).
  destruct (hasUnpairedSurrogate (content_fileId content)) eqn:Hf;
    [by rewrite (encodeURIComponent_throws _ Hf)|].
  rewrite (encodeURIComponent_returns _ Hf).
  destruct (hasUnpairedSurrogate (input_lessonId input)) eqn:Hl;
    [by rewrite (encodeURIComponent_throws _ Hl)|].
  rewrite (encodeURIComponent_returns _ Hl).
  destruct (hasUnpairedSurrogate (input_userId input)) eqn:Hu;
    [by rewrite (encodeURIComponent_throws _ Hu)|].
  rewrite (encodeURIComponent_returns _ Hu). cbn [negb andb].
  destruct (Z.abs (expiry * 1000) <=? 8640000000000000) eqn:Hdate.
  - apply Z.leb_le in Hdate. by rewrite (proj2 (Z.ltb_ge _ _) Hdate).
  - apply Z.leb_gt in Hdate. by rewrite (proj2 (Z.ltb_lt _ _) Hdate).
Qed.

(** C5. [buildSignedLessonContentUrl] returns unless one of key,
    fileId, lessonId and userId has an unpaired surrogate or the expiry
    [floor(signed-at / 1000) + TTL] is beyond the dates.  The URL that
    it returns is the base without its trailing slash, the provider,
    the percent-encoded key and the query [fileId], [lessonId], [uid],
    [exp] and [sig], in which provider, key, lesson, user, expiry and
    signature are the fields of the record [signedParams]; and that
    record, with the key as it was before the encoding, verifies under
    the same secret at every time whose epoch second is before the
    expiry. *)
Theorem signed_url_round_trip (P : Platform) (baseUrl signingSecret : string)
    (input : SignedUrlInput) (signedAt verifiedAt : Z) :
  let content := input_content input in
  let expiry := epochSecond signedAt + input_expiresInSeconds input in
  let p := signedParams P signingSecret signedAt input in
  let returns :=
    negb (hasUnpairedSurrogate (content_key content))
    && negb (hasUnpairedSurrogate (content_fileId content))
    && negb (hasUnpairedSurrogate (input_lessonId input))
    && negb (hasUnpairedSurrogate (input_userId input))
    && (Z.abs (expiry * 1000) <=? 8640000000000000) in
  (returns = false →
   ∃ error, buildSignedLessonContentUrl P baseUrl signingSecret signedAt input = inl error) ∧
  (returns = true →
   buildSignedLessonContentUrl P baseUrl signingSecret signedAt input =
     inr (stripTrailingSlash baseUrl +:+ "/" +:+ providerName (param_provider p) +:+ "/"
          +:+ percentEncode (param_key p)
          +:+ "?fileId=" +:+ percentEncode (content_fileId content)
          +:+ "&lessonId=" +:+ percentEncode (param_lessonId p)
          +:+ "&uid=" +:+ percentEncode (param_userId p)
          +:+ "&exp=" +:+ param_exp p +:+ "&sig=" +:+ param_sig p,
          toISOString P (expiry * 1000))) ∧
  param_provider p = content_provider content ∧ param_key p = content_key content ∧
  param_lessonId p = input_lessonId input ∧ param_userId p = input_userId input ∧
  param_exp p = js_String expiry ∧
  (toNumber P (js_String expiry) = JsFinite (inject_Z expiry) →
   epochSecond verifiedAt < expiry →
   verifySignedLessonContentUrl P signingSecret verifiedAt p = inr true).
Proof.
  intros content expiry p returns.
  pose proof (buildSignedLessonContentUrl_cases P baseUrl signingSecret input signedAt)
    as Hbuild. cbv zeta in Hbuild. fold content expiry p returns in Hbuild.
  split_and!; try done.
  - intros Hr. rewrite Hbuild, Hr. by eauto.
  - intros Hr. by rewrite Hbuild, Hr.
  - intros Hnum Hlt. rewrite verifySignedLessonContentUrl_unfold.
    change (param_exp p) with (js_String expiry). rewrite Hnum.
    rewrite js_le_integers. rewrite bool_decide_eq_false_2 by lia.
    by rewrite bool_decide_eq_true_2.
Qed.

(** C6. [verifySignedLessonContentUrl] always returns a boolean; it
    returns false when [Number(exp)] is not finite, when it is at most
    the current epoch second, and when [sig] is not the hexadecimal
    HMAC of the canonical payload (whatever its length); a record
    altered in one of provider, key, lessonId, userId and exp has
    another canonical payload, and is rejected unless the HMAC of that
    payload, which is taken of its UTF-8 encoding, is the signature of
    the original; a record with the signature and the expiry of another
    whose canonical payload has the same UTF-8 encoding is verified
    like the other. *)
Theorem verify_is_total_and_rejects (P : Platform) (signingSecret : string)
    (nowMs : Z) (params : SignedParams) :
  (∃ b, verifySignedLessonContentUrl P signingSecret nowMs params = inr b) ∧
  (isFinite (toNumber P (param_exp params)) = false →
   verifySignedLessonContentUrl P signingSecret nowMs params = inr false) ∧
  (js_le (toNumber P (param_exp params)) (epochSecond nowMs) = true →
   verifySignedLessonContentUrl P signingSecret nowMs params = inr false) ∧
  (param_sig params ≠ hmacSha256Hex P signingSecret (payloadOf params) →
   verifySignedLessonContentUrl P signingSecret nowMs params = inr false) ∧
  (String.length (param_sig params)
     ≠ String.length (hmacSha256Hex P signingSecret (payloadOf params)) →
   verifySignedLessonContentUrl P signingSecret nowMs params = inr false) ∧
  (∀ signedAt input,
     alteredInOneField (signedParams P signingSecret signedAt input) params →
     payloadOf params ≠ payloadOf (signedParams P signingSecret signedAt input) ∧
     (hmacSha256Hex P signingSecret (payloadOf params)
        ≠ hmacSha256Hex P signingSecret
            (payloadOf (signedParams P signingSecret signedAt input)) →
      verifySignedLessonContentUrl P signingSecret nowMs params = inr false)) ∧
  (∀ altered,
     param_sig altered = param_sig params → param_exp altered = param_exp params →
     utf8Write (payloadOf altered) = utf8Write (payloadOf params) →
     verifySignedLessonContentUrl P signingSecret nowMs altered =
     verifySignedLessonContentUrl P signingSecret nowMs params).
Proof.
  rewrite verifySignedLessonContentUrl_unfold. split_and!.
  - eauto.
  - by intros ->.
  - intros ->. by rewrite andb_false_r.
  - intros Hsig. rewrite (bool_decide_eq_false_2 _ Hsig). by rewrite andb_false_r.
  - intros Hlen. rewrite bool_decide_eq_false_2; [by rewrite andb_false_r|].
    intros Heq. by rewrite Heq in Hlen.
  - intros signedAt input Halt. split; [by apply canonicalPayload_one_field|].
    intros Hmac. rewrite bool_decide_eq_false_2; [by rewrite andb_false_r|].
    destruct Halt as [Hs _]. rewrite Hs. intros Heq. apply Hmac. by rewrite <- Heq.
  - intros altered Hsig Hexp Hbytes. rewrite verifySignedLessonContentUrl_unfold.
    unfold hmacSha256Hex. by rewrite Hsig, Hexp, Hbytes.
Qed.

(** ** The application: what the handlers leave alone *)

Lemma sameAuth_refl st : sameAuth st st.
Proof. done. Qed.

Lemma sameAuth_trans st1 st2 st3 : sameAuth st1 st2 → sameAuth st2 st3 → sameAuth st1 st3.
Proof. intros (? & ? & ?) (? & ? & ?). unfold sameAuth. split_and!; congruence. Qed.

Section AppFacts.
Variable P : Platform.
Variable env : Env.
Variable randomId : nat → string.

Lemma getOrCreateSubscription_sameAuth amb userId st :
    sameAuth st (getOrCreateSubscription P amb userId st).1.
  Proof. unfold getOrCreateSubscription. by destruct (_ !! _). Qed.

Lemma getSubscriptionStatus_sameAuth amb userId st :
    sameAuth st (getSubscriptionStatus P amb userId st).1.
  Proof.
    unfold getSubscriptionStatus.
    pose proof (getOrCreateSubscription_sameAuth amb userId st) as H.
    by destruct (getOrCreateSubscription _ _ _ _).
  Qed.

Lemma withSoftLimitMeta_sameAuth amb userId st :
    sameAuth st (withSoftLimitMeta P amb userId st).1.
  Proof.
    unfold withSoftLimitMeta.
    pose proof (getSubscriptionStatus_sameAuth amb userId st) as H.
    by destruct (getSubscriptionStatus _ _ _ _).
  Qed.

Lemma runLms_sameAuth {A} (m : Lms A) st : sameAuth st (runLms m st).1.
  Proof. unfold runLms. by destruct (m _). Qed.

Lemma guarded_sameAuth amb authorization roles st handler :
    (∀ auth, sameAuth st (handler auth).1) →
    sameAuth st (guarded P env amb authorization roles st handler).1.
  Proof.
    intros H. unfold guarded. destruct (authenticate _ _ _ _ _); [done|].
    by destruct (includesRole _ _).
  Qed.

Lemma authenticated_sameAuth amb authorization st handler :
    (∀ auth, sameAuth st (handler auth).1) →
    sameAuth st (authenticated P env amb authorization st handler).1.
  Proof. intros H. unfold authenticated. by destruct (authenticate _ _ _ _ _). Qed.

  (** The shape shared by the domain routes: a store method, then
      perhaps the subscription annotation. *)
Ltac lms_route :=
    repeat match goal with
    | |- sameAuth ?st (match runLms ?m ?st with _ => _ end).1 =>
        let H := fresh in
        pose proof (runLms_sameAuth m st) as H;
        destruct (runLms m st) as [? [?|?]]; simpl in H
    | |- sameAuth ?st (let '(_, _) := withSoftLimitMeta ?P ?amb ?u ?st1 in _).1 =>
        let H := fresh in
        pose proof (withSoftLimitMeta_sameAuth amb u st1) as H;
        destruct (withSoftLimitMeta P amb u st1); simpl in H
    | |- sameAuth _ (if ?b then _ else _).1 => destruct b
    | |- sameAuth _ (match ?o with Some _ => _ | None => _ end).1 => destruct o
    | |- sameAuth _ (match ?e with inl _ => _ | inr _ => _ end).1 => destruct e
    | |- sameAuth _ (json _ _ _).1 => simpl
    | |- sameAuth ?st ?st => apply sameAuth_refl
    | H : sameAuth ?a ?b |- sameAuth ?a ?b => exact H
    | H1 : sameAuth ?a ?b, H2 : sameAuth ?b ?c |- sameAuth ?a ?c =>
        exact (sameAuth_trans _ _ _ H1 H2)
    end.

Lemma handle_domain_sameAuth amb req st :
    match req with
    | GET_auth_google_start | GET_auth_google_callback _ _
    | POST_auth_refresh _ | POST_auth_logout _ => True
    | _ => sameAuth st (handle P env randomId amb req st).1
    end.
  Proof.
    destruct req; try done; simpl.
    - apply authenticated_sameAuth. intros auth.
      destruct (lookupUser _ _ _) as [[? user]|]; [|done].
      pose proof (getOrCreateSubscription_sameAuth amb (user_id user) st).
      by destruct (getOrCreateSubscription _ _ _ _).
    - apply authenticated_sameAuth. intros auth.
      pose proof (getSubscriptionStatus_sameAuth amb (claim_sub auth) st).
      by destruct (getSubscriptionStatus _ _ _ _).
    - apply guarded_sameAuth. intros _. by repeat case_match.
    - unfold handleRbac. destruct area; by apply guarded_sameAuth.
    - apply guarded_sameAuth. intros auth. lms_route.
    - apply guarded_sameAuth. intros auth. lms_route.
    - apply guarded_sameAuth. intros auth. lms_route.
    - apply guarded_sameAuth. intros auth. lms_route.
    - apply guarded_sameAuth. intros auth. lms_route.
    - apply authenticated_sameAuth. intros auth. lms_route.
    - apply guarded_sameAuth. intros auth. lms_route.
    - apply authenticated_sameAuth. intros auth. lms_route.
    - apply authenticated_sameAuth. intros auth. unfold handleVerify.
      by repeat case_match.
    - apply guarded_sameAuth. intros auth. lms_route.
  Qed.
End AppFacts.

(** ** The application: sessions and states along a run *)

Section AuthFacts.
Variable P : Platform.
Variable env : Env.
Variable randomId : nat → string.

Lemma drawnBetween_mono x a b a' b' :
    (a' ≤ a)%nat → (b ≤ b')%nat → drawnBetween randomId x a b → drawnBetween randomId x a' b'.
  Proof. intros ?? (i & ? & ?). exists i. split; [lia | done]. Qed.

Lemma AuthStep_refl st : AuthStep randomId st st.
  Proof. constructor; auto. Qed.

Lemma AuthStep_trans st1 st2 st3 : AuthStep randomId st1 st2 → AuthStep randomId st2 st3 → AuthStep randomId st1 st3.
  Proof.
    intros [Hi1 Hr1 Hs1] [Hi2 Hr2 Hs2]. constructor.
    - lia.
    - intros sid H. destruct (Hr1 sid H) as [H2|H2].
      + destruct (Hr2 sid H2) as [H3|H3]; [by left|].
        right. eapply drawnBetween_mono; [| |done]; lia.
      + right. eapply drawnBetween_mono; [| |done]; lia.
    - intros x H. destruct (Hs1 x H) as [H2|H2].
      + destruct (Hs2 x H2) as [H3|H3]; [by left|].
        right. eapply drawnBetween_mono; [| |done]; lia.
      + right. eapply drawnBetween_mono; [| |done]; lia.
  Qed.

Lemma sameAuth_AuthStep st st' : sameAuth st st' → AuthStep randomId st st'.
  Proof.
    intros (Hs & Ho & Hi). constructor.
    - lia.
    - intros sid (session & ? & ?). left. exists session. by rewrite Hs.
    - intros x ?. left. by rewrite Ho.
  Qed.

Lemma issueRefreshToken_AuthStep amb user st :
    AuthStep randomId st (issueRefreshToken P env randomId amb user st).1.
  Proof.
    unfold issueRefreshToken, drawId. simpl. constructor; simpl.
    - lia.
    - intros sid (session & Hs & Hr).
      destruct (decide (randomId (idsDrawn st) = sid)) as [Heq|Hne].
      + right. exists (idsDrawn st). split; [lia | done].
      + left. exists session. simpl. by rewrite lookup_insert_ne.
    - auto.
  Qed.

Lemma toAuthResponse_AuthStep amb user st :
    AuthStep randomId st (toAuthResponse P env randomId amb user st).1.
  Proof.
    unfold toAuthResponse.
    pose proof (getOrCreateSubscription_sameAuth P amb (user_id user) st) as H1.
    destruct (getOrCreateSubscription _ _ _ _) as [st1 sub]. simpl in H1.
    pose proof (issueRefreshToken_AuthStep amb user st1) as H2.
    destruct (issueRefreshToken _ _ _ _ _ _) as [st2 [tok sess]]. simpl in *.
    eapply AuthStep_trans; [by apply sameAuth_AuthStep | done].
  Qed.

Lemma findOrCreateUser_AuthStep amb profile st :
    AuthStep randomId st (findOrCreateUser P env randomId amb profile st).1.
  Proof.
    unfold findOrCreateUser. destruct (lookupUser _ _ _) as [[addr user]|].
    - by apply sameAuth_AuthStep.
    - simpl.
      match goal with |- context [getOrCreateSubscription P amb ?u ?s] =>
        pose proof (getOrCreateSubscription_sameAuth P amb u s) as H;
        destruct (getOrCreateSubscription P amb u s) as [st1 sub] end.
      simpl in *. destruct H as (Hs & Ho & Hi). simpl in *.
      constructor; simpl.
      + lia.
      + intros sid (session & ? & ?). left. exists session. by rewrite Hs.
      + intros x ?. left. by rewrite Ho.
  Qed.

Lemma revoke_AuthStep amb sid session st : AuthStep randomId st (revoke amb sid session st).
  Proof.
    constructor; simpl; [lia | | auto].
    intros sid' (session' & Hs & Hr). left.
    destruct (decide (sid = sid')) as [<-|Hne].
    - eexists. unfold revoke. simpl. rewrite lookup_insert_eq. split; [done|]. simpl. eauto.
    - exists session'. unfold revoke. simpl. by rewrite lookup_insert_ne.
  Qed.

Lemma handle_AuthStep amb req st : AuthStep randomId st (handle P env randomId amb req st).1.
  Proof.
    pose proof (handle_domain_sameAuth P env randomId amb req st) as Hdomain.
    destruct req; try (by apply sameAuth_AuthStep); clear Hdomain; simpl.
    - (* start *)
      unfold handleStart. simpl. constructor; simpl; [lia | by left |].
      intros x Hx. destruct (decide (randomId (idsDrawn st) = x)) as [Heq|Hne].
      + right. exists (idsDrawn st). split; [lia | done].
      + left. by rewrite lookup_insert_ne.
    - (* callback *)
      unfold handleCallback. destruct (negb _); [apply AuthStep_refl|].
      destruct (oauthStates st !! state) as [issuedAt|] eqn:Hstate; [|apply AuthStep_refl].
      set (st1 := set_oauthStates (delete state) st).
      assert (AuthStep randomId st st1) as Hdel.
      { constructor; simpl; [lia | by left |]. intros x Hx. left.
        rewrite lookup_delete. by case_decide. }
      destruct (_ <? _); [done|].
      destruct (amb_exchange amb code) as [profile|]; [|done].
      pose proof (findOrCreateUser_AuthStep amb profile st1) as H1.
      destruct (findOrCreateUser _ _ _ _ _ _) as [st2 user].
      pose proof (toAuthResponse_AuthStep amb user st2) as H2.
      destruct (toAuthResponse _ _ _ _ _ _) as [st3 payload]. simpl in *.
      eauto using AuthStep_trans.
    - (* refresh *)
      unfold handleRefresh. destruct (negb _); [apply AuthStep_refl|].
      destruct (jwtVerify _ _ _ _ _) as [[]|decoded]; try apply AuthStep_refl.
      destruct (negb _); [apply AuthStep_refl|].
      destruct (sessionOf _ _) as [[sid session]|]; [|apply AuthStep_refl].
      destruct (_ || _); [apply AuthStep_refl|].
      destruct (_ || _); [apply AuthStep_refl|].
      destruct (lookupUser _ _ _) as [[addr user]|]; [|apply AuthStep_refl].
      destruct (negb _); [apply AuthStep_refl|].
      pose proof (revoke_AuthStep amb sid session st) as H1.
      pose proof (toAuthResponse_AuthStep amb user (revoke amb sid session st)) as H2.
      destruct (toAuthResponse _ _ _ _ _ _) as [st3 payload]. simpl in *.
      eauto using AuthStep_trans.
    - (* logout *)
      unfold handleLogout. destruct (negb _); [apply AuthStep_refl|].
      destruct (jwtVerify _ _ _ _ _) as [[]|decoded]; try apply AuthStep_refl.
      destruct (negb _); [apply AuthStep_refl|]. simpl.
      destruct (sessionOf _ _) as [[sid session]|]; [|apply AuthStep_refl].
      destruct (bool_decide _); [apply AuthStep_refl | apply revoke_AuthStep].
  Qed.

Lemma serve_AuthStep trace st : AuthStep randomId st (serve P env randomId trace st).
  Proof.
    revert st. induction trace as [|[amb req] trace IH]; intros st; [apply AuthStep_refl|].
    simpl. eapply AuthStep_trans; [apply handle_AuthStep | apply IH].
  Qed.

Lemma notDrawn_spec x from to :
    notDrawn randomId x from to = true → ¬ drawnBetween randomId x from to.
  Proof.
    unfold notDrawn. rewrite forallb_forall. intros H (i & Hi & Heq).
    specialize (H i). rewrite negb_true_iff, bool_decide_eq_false in H.
    apply H; [|done]. apply in_seq. lia.
  Qed.

Lemma revoked_stays_revoked st sid trace :
    revokedIn st sid →
    notDrawn randomId sid (idsDrawn st) (idsDrawn (serve P env randomId trace st)) = true →
    revokedIn (serve P env randomId trace st) sid.
  Proof.
    intros Hr Hn%notDrawn_spec.
    destruct (step_revoked _ _ _ (serve_AuthStep trace st) sid Hr); done.
  Qed.

Lemma consumed_stays_unknown st x trace :
    oauthStates st !! x = None →
    notDrawn randomId x (idsDrawn st) (idsDrawn (serve P env randomId trace st)) = true →
    oauthStates (serve P env randomId trace st) !! x = None.
  Proof.
    intros Hr Hn%notDrawn_spec.
    destruct (step_states _ _ _ (serve_AuthStep trace st) x Hr); done.
  Qed.
End AuthFacts.

(** ** Refresh rotation *)

Section RefreshFacts.
Variable P : Platform.
Variable env : Env.
Variable randomId : nat → string.

Lemma handleRefresh_never_accepts_revoked amb tok st decoded sid :
    revokedIn st sid →
    jwtDecode P (JWT_REFRESH_SECRET env) tok = Some decoded →
    claim_sid decoded = Some sid →
    ∃ code error,
      handleRefresh P env randomId amb tok st = (st, mkResponse code (ErrorBody error)) ∧
      (code = 400 ∨ code = 401).
  Proof.
    intros (session & Hs & Hr) Hdec Hsid. unfold handleRefresh.
    destruct (negb _); [by eauto 6|].
    unfold jwtVerify. rewrite Hdec.
    destruct (_ <=? _); [by eauto 6|].
    destruct (negb _); [by eauto 6|].
    destruct (negb _); [by eauto 6|].
    destruct (negb _); [by eauto 6|].
    unfold sessionOf. rewrite Hsid. simpl. rewrite Hs. simpl.
    rewrite (bool_decide_eq_true_2 _ Hr). simpl. by eauto 6.
  Qed.

Lemma handleRefresh_replay amb tok st decoded sid :
    revokedIn st sid → min1 tok = true →
    jwtDecode P (JWT_REFRESH_SECRET env) tok = Some decoded →
    claim_sid decoded = Some sid →
    claim_aud decoded = JWT_AUDIENCE env → claim_iss decoded = JWT_ISSUER env →
    claim_type decoded = "refresh" →
    handleRefresh P env randomId amb tok st =
      (st, mkResponse 401 (ErrorBody (replayError decoded amb))).
  Proof.
    intros (session & Hs & Hr) Hmin Hdec Hsid Haud Hiss Htype.
    unfold handleRefresh, replayError. rewrite Hmin. simpl.
    unfold jwtVerify. rewrite Hdec.
    destruct (_ <=? _); [done|].
    rewrite (bool_decide_eq_true_2 _ Haud), (bool_decide_eq_true_2 _ Hiss). simpl.
    rewrite (bool_decide_eq_true_2 _ Htype). simpl.
    unfold sessionOf. rewrite Hsid. simpl. rewrite Hs. simpl.
    by rewrite (bool_decide_eq_true_2 _ Hr).
  Qed.

Lemma jwtVerify_inr secret wallSec tok decoded :
    jwtVerify P env secret wallSec tok = inr decoded →
    jwtDecode P secret tok = Some decoded ∧ wallSec < claim_exp decoded ∧
    claim_aud decoded = JWT_AUDIENCE env ∧ claim_iss decoded = JWT_ISSUER env.
  Proof.
    unfold jwtVerify. destruct (jwtDecode _ _ _) as [d|]; [|done].
    destruct (_ <=? _) eqn:Hexp; [done|].
    case_bool_decide; [|done]. case_bool_decide; [|done].
    simpl. intros [= <-]. apply Z.leb_gt in Hexp. done.
  Qed.

Ltac refused := let H := fresh in intros H; discriminate H.

Lemma handleRefresh_accepts amb tok st st1 b :
    handleRefresh P env randomId amb tok st = (st1, mkResponse 200 b) →
    ∃ decoded sid session user,
      min1 tok = true ∧
      jwtVerify P env (JWT_REFRESH_SECRET env) (amb_wallSec amb) tok = inr decoded ∧
      claim_type decoded = "refresh" ∧ claim_sid decoded = Some sid ∧
      refreshSessions st !! sid = Some session ∧
      st1 = (toAuthResponse P env randomId amb user (revoke amb sid session st)).1.
  Proof.
    unfold handleRefresh, json. destruct (min1 tok); [|refused]. simpl.
    destruct (jwtVerify _ _ _ _ _) as [[]|decoded]; [refused..|].
    case_bool_decide as Htype; [|refused]. simpl.
    unfold sessionOf. destruct (claim_sid decoded) as [sid|] eqn:Hsid; [|refused]. simpl.
    destruct (refreshSessions st !! sid) as [session|] eqn:Hs; [|refused]. simpl.
    destruct (_ || _); [refused|]. destruct (_ || _); [refused|].
    destruct (lookupUser _ _ _) as [[addr user]|]; [|refused].
    destruct (negb _); [refused|].
    destruct (toAuthResponse _ _ _ _ _ _) as [st3 payload] eqn:Hauth.
    intros [= <- _]. exists decoded, sid, session, user. by rewrite Hauth.
  Qed.

Lemma handleLogout_accepts amb tok st st1 :
    handleLogout P env amb tok st = (st1, mkResponse 200 OkBody) →
    ∃ decoded,
      min1 tok = true ∧
      jwtVerify P env (JWT_REFRESH_SECRET env) (amb_wallSec amb) tok = inr decoded ∧
      claim_type decoded = "refresh" ∧
      idsDrawn st1 = idsDrawn st ∧
      ∀ sid, claim_sid decoded = Some sid → is_Some (refreshSessions st !! sid) →
             revokedIn st1 sid.
  Proof.
    unfold handleLogout, json. destruct (min1 tok); [|refused]. simpl.
    destruct (jwtVerify _ _ _ _ _) as [[]|decoded]; [refused..|].
    case_bool_decide as Htype; [|refused]. simpl. intros [= <-].
    exists decoded. split_and!; [done..| |].
    - unfold sessionOf. destruct (claim_sid decoded) as [sid|]; [|done]. simpl.
      destruct (refreshSessions st !! sid); [|done]. simpl. by case_bool_decide.
    - intros sid Hsid [session Hs]. unfold sessionOf. rewrite Hsid. simpl. rewrite Hs. simpl.
      case_bool_decide as Hr.
      + by exists session.
      + eexists. unfold revoke. simpl. rewrite lookup_insert_eq. split; [done|]. simpl. eauto.
  Qed.

Lemma revoked_after_rotation amb sid session user st trace :
    refreshSessions st !! sid = Some session →
    let st1 := (toAuthResponse P env randomId amb user (revoke amb sid session st)).1 in
    notDrawn randomId sid (idsDrawn st) (idsDrawn (serve P env randomId trace st1)) = true →
    revokedIn (serve P env randomId trace st1) sid.
  Proof.
    intros Hs st1 Hn%notDrawn_spec.
    assert (revokedIn (revoke amb sid session st) sid) as Hr.
    { eexists. unfold revoke. simpl. rewrite lookup_insert_eq. split; [done|]. simpl. eauto. }
    assert (AuthStep randomId (revoke amb sid session st) (serve P env randomId trace st1)) as Hstep.
    { eapply AuthStep_trans; [apply toAuthResponse_AuthStep | apply serve_AuthStep]. }
    destruct (step_revoked _ _ _ Hstep sid Hr); done.
  Qed.
End RefreshFacts.

(** C1. Once a refresh session is revoked, no later [POST /auth/refresh]
    with a token bound to it succeeds, whatever requests come in
    between, as long as the identifier generator does not return the
    session id again.  A token that has been rotated, or used for a
    logout that found its session, is answered 401 from then on: with
    [refresh_token_expired] once the expiry of the token has passed (the
    token is verified before the session is looked up), and with
    [refresh_session_invalid] before that. *)
Theorem revoked_session_is_never_rotated (P : Platform) (env : Env) (randomId : nat → string) :
  (∀ st sid trace amb tok decoded,
     revokedIn st sid →
     notDrawn randomId sid (idsDrawn st) (idsDrawn (serve P env randomId trace st)) = true →
     jwtDecode P (JWT_REFRESH_SECRET env) tok = Some decoded →
     claim_sid decoded = Some sid →
     ∃ code error,
       handleRefresh P env randomId amb tok (serve P env randomId trace st) =
         (serve P env randomId trace st, mkResponse code (ErrorBody error)) ∧
       (code = 400 ∨ code = 401)) ∧
  (∀ st amb1 tok st1 payload,
     handleRefresh P env randomId amb1 tok st = (st1, mkResponse 200 (AuthBody payload)) →
     ∃ decoded sid,
       jwtDecode P (JWT_REFRESH_SECRET env) tok = Some decoded ∧
       claim_sid decoded = Some sid ∧
       ∀ trace amb2,
         notDrawn randomId sid (idsDrawn st) (idsDrawn (serve P env randomId trace st1)) = true →
         handleRefresh P env randomId amb2 tok (serve P env randomId trace st1) =
           (serve P env randomId trace st1,
            mkResponse 401 (ErrorBody (replayError decoded amb2)))) ∧
  (∀ st amb1 tok st1,
     handleLogout P env amb1 tok st = (st1, mkResponse 200 OkBody) →
     ∃ decoded,
       jwtDecode P (JWT_REFRESH_SECRET env) tok = Some decoded ∧
       ∀ sid trace amb2,
         claim_sid decoded = Some sid → is_Some (refreshSessions st !! sid) →
         notDrawn randomId sid (idsDrawn st) (idsDrawn (serve P env randomId trace st1)) = true →
         handleRefresh P env randomId amb2 tok (serve P env randomId trace st1) =
           (serve P env randomId trace st1,
            mkResponse 401 (ErrorBody (replayError decoded amb2)))).
Proof.
  split_and!.
  - intros st sid trace amb tok decoded Hr Hn Hdec Hsid.
    eapply handleRefresh_never_accepts_revoked; [|done..].
    by apply revoked_stays_revoked.
  - intros st amb1 tok st1 payload Hfirst.
    apply handleRefresh_accepts in Hfirst
      as (decoded & sid & session & user & Hmin & Hver & Htype & Hsid & Hs & ->).
    apply jwtVerify_inr in Hver as (Hdec & _ & Haud & Hiss).
    exists decoded, sid. split_and!; [done..|]. intros trace amb2 Hn.
    apply (handleRefresh_replay _ _ _ _ _ _ _ sid); try done.
    by apply revoked_after_rotation.
  - intros st amb1 tok st1 Hout.
    apply handleLogout_accepts in Hout as (decoded & Hmin & Hver & Htype & Hids & Hrev).
    apply jwtVerify_inr in Hver as (Hdec & _ & Haud & Hiss).
    exists decoded. split; [done|]. intros sid trace amb2 Hsid Hsome Hn.
    apply (handleRefresh_replay _ _ _ _ _ _ _ sid); try done.
    apply revoked_stays_revoked; [by apply Hrev | by rewrite Hids].
Qed.

(** The refresh token of a login is rotated ten seconds later and
    presented again forty seconds after the login, when its thirty
    seconds have run out: the answer is [refresh_token_expired]. *)
Lemma replayed_token_is_answered_expired :
  let second :=
    (testHandle (testAmbient 40) (POST_auth_refresh demoToken) demoRotation.1).2 in
  status demoRotation.2 = 200 ∧
  second = mkResponse 401 (ErrorBody "refresh_token_expired") ∧
  second ≠ mkResponse 401 (ErrorBody "refresh_session_invalid").
Proof. vm_compute. split_and!; [done | done | discriminate]. Qed.

Lemma revoked_session_is_never_rotated_witness :
  ∃ decoded sid,
    jwtDecode testPlatform (JWT_REFRESH_SECRET testEnv) demoToken = Some decoded ∧
    claim_sid decoded = Some sid ∧
    ∀ trace amb2,
      notDrawn testRandomId sid (idsDrawn demoLogin.1)
        (idsDrawn (serve testPlatform testEnv testRandomId trace demoRotation.1)) = true →
      handleRefresh testPlatform testEnv testRandomId amb2 demoToken
        (serve testPlatform testEnv testRandomId trace demoRotation.1) =
        (serve testPlatform testEnv testRandomId trace demoRotation.1,
         mkResponse 401 (ErrorBody (replayError decoded amb2))).
Proof.
  assert (∃ payload,
            handleRefresh testPlatform testEnv testRandomId (testAmbient 10) demoToken
              demoLogin.1 = (demoRotation.1, mkResponse 200 (AuthBody payload)))
    as [payload Hfirst] by (vm_compute; eexists; reflexivity).
  exact (proj1 (proj2 (revoked_session_is_never_rotated testPlatform testEnv testRandomId))
           _ _ _ _ _ Hfirst).
Defined.

(** ** OAuth states *)

Section StateFacts.
Variable P : Platform.
Variable env : Env.
Variable randomId : nat → string.

Lemma toAuthResponse_oauthStates amb user st :
    oauthStates (toAuthResponse P env randomId amb user st).1 = oauthStates st.
  Proof.
    unfold toAuthResponse, issueRefreshToken, drawId, getOrCreateSubscription.
    by destruct (_ !! _).
  Qed.

Lemma findOrCreateUser_oauthStates amb profile st :
    oauthStates (findOrCreateUser P env randomId amb profile st).1 = oauthStates st.
  Proof.
    unfold findOrCreateUser, drawId, getOrCreateSubscription.
    destruct (lookupUser _ _ _) as [[addr user]|]; [done|]. simpl.
    by destruct (_ !! _).
  Qed.

Lemma handleCallback_consumes amb code state st :
    min1 code = true → min1 state = true →
    oauthStates (handleCallback P env randomId amb code state st).1 !! state = None.
  Proof.
    intros Hc Hs. unfold handleCallback. rewrite Hc, Hs. simpl.
    destruct (oauthStates st !! state) as [issuedAt|] eqn:Hstate; [|done].
    destruct (_ <? _); [simpl; apply lookup_delete_eq|].
    destruct (amb_exchange amb code) as [profile|]; [|simpl; apply lookup_delete_eq].
    pose proof (findOrCreateUser_oauthStates amb profile
                  (set_oauthStates (delete state) st)) as H1.
    destruct (findOrCreateUser _ _ _ _ _ _) as [st2 user].
    pose proof (toAuthResponse_oauthStates amb user st2) as H2.
    destruct (toAuthResponse _ _ _ _ _ _) as [st3 payload]. simpl in *.
    rewrite H2, H1. simpl. apply lookup_delete_eq.
  Qed.

Lemma handleCallback_unknown amb code state st :
    min1 code = true → min1 state = true → oauthStates st !! state = None →
    handleCallback P env randomId amb code state st =
      (st, mkResponse 400 (ErrorBody "invalid_state")).
  Proof. intros Hc Hs Hnone. unfold handleCallback. by rewrite Hc, Hs, Hnone. Qed.
End StateFacts.

(** C7. A callback whose [code] and [state] are not empty removes the
    presented state from the state store, whether the state has
    expired or not and whatever the provider answers; a later callback
    with the same state is answered [invalid_state], as long as the
    identifier generator does not return that state again; a recorded
    state presented more than ten minutes after its issue is answered
    [expired_state]; within ten minutes the state check passes and the
    answer is that of the provider exchange.  A callback whose [code]
    or [state] is empty is answered [invalid_callback_params] and
    leaves the state store, like the rest of the application, as it
    was. *)
Theorem oauth_state_is_single_use (P : Platform) (env : Env) (randomId : nat → string) :
  (∀ st amb code state,
     min1 code = true → min1 state = true →
     oauthStates (handleCallback P env randomId amb code state st).1 !! state = None) ∧
  (∀ st amb1 code1 state trace amb2 code2,
     min1 code1 = true → min1 state = true → min1 code2 = true →
     let st1 := (handleCallback P env randomId amb1 code1 state st).1 in
     let st2 := serve P env randomId trace st1 in
     notDrawn randomId state (idsDrawn st1) (idsDrawn st2) = true →
     handleCallback P env randomId amb2 code2 state st2 =
       (st2, mkResponse 400 (ErrorBody "invalid_state"))) ∧
  (∀ st amb code state issuedAt,
     min1 code = true → min1 state = true →
     oauthStates st !! state = Some issuedAt →
     10 * 60 * 1000 < amb_now amb - issuedAt →
     handleCallback P env randomId amb code state st =
       (set_oauthStates (delete state) st, mkResponse 400 (ErrorBody "expired_state"))) ∧
  (∀ st amb code state issuedAt,
     min1 code = true → min1 state = true →
     oauthStates st !! state = Some issuedAt →
     amb_now amb - issuedAt ≤ 10 * 60 * 1000 →
     match amb_exchange amb code with
     | None => (handleCallback P env randomId amb code state st).2 =
                 mkResponse 401 (ErrorBody "google_auth_failed")
     | Some _ => ∃ payload, (handleCallback P env randomId amb code state st).2 =
                              mkResponse 200 (AuthBody payload)
     end) ∧
  (∀ st amb code state,
     min1 code && min1 state = false →
     handleCallback P env randomId amb code state st =
       (st, mkResponse 400 (ErrorBody "invalid_callback_params"))).
Proof.
  split_and!.
  - intros. by apply handleCallback_consumes.
  - intros st amb1 code1 state trace amb2 code2 Hc1 Hs Hc2 st1 st2 Hn.
    apply handleCallback_unknown; [done..|].
    apply consumed_stays_unknown; [|done]. by apply handleCallback_consumes.
  - intros st amb code state issuedAt Hc Hs Hstate Hlate.
    unfold handleCallback. rewrite Hc, Hs, Hstate. simpl.
    by rewrite (proj2 (Z.ltb_lt _ _) Hlate).
  - intros st amb code state issuedAt Hc Hs Hstate Hlate.
    unfold handleCallback. rewrite Hc, Hs, Hstate. simpl.
    rewrite (proj2 (Z.ltb_ge _ _) Hlate).
    destruct (amb_exchange amb code) as [profile|]; [|done].
    destruct (findOrCreateUser _ _ _ _ _ _) as [st2 user].
    destruct (toAuthResponse _ _ _ _ _ _) as [st3 payload]. simpl. eauto.
  - intros st amb code state Hbad. unfold handleCallback. by rewrite Hbad.
Qed.

(** A callback without [code] is answered [invalid_callback_params]
    and keeps the state; the next callback with that state logs in. *)
Lemma state_survives_malformed_callback :
  let '(st1, first) :=
    testHandle (testAmbient 1) (GET_auth_google_callback EmptyString "id-1") demoStarted in
  let second :=
    (testHandle (testAmbient 2) (GET_auth_google_callback "admin-code" "id-1") st1).2 in
  is_Some (oauthStates demoStarted !! "id-1") ∧
  first = mkResponse 400 (ErrorBody "invalid_callback_params") ∧
  status second = 200 ∧
  second ≠ mkResponse 400 (ErrorBody "invalid_state").
Proof. vm_compute. split_and!; [by eexists | done | done | discriminate]. Qed.

Lemma oauth_state_is_single_use_witness :
  let st1 := (handleCallback testPlatform testEnv testRandomId (testAmbient 1)
                "admin-code" "id-1" demoStarted).1 in
  handleCallback testPlatform testEnv testRandomId (testAmbient 2) "admin-code" "id-1" st1 =
    (st1, mkResponse 400 (ErrorBody "invalid_state")).
Proof.
  exact (proj1 (proj2 (oauth_state_is_single_use testPlatform testEnv testRandomId))
           demoStarted (testAmbient 1) "admin-code" "id-1" [] (testAmbient 2) "admin-code"
           eq_refl eq_refl eq_refl eq_refl).
Defined.

(** ** Referential validation *)

Lemma createModule_missing_course id courseId title position s :
  courses s !! courseId = None →
  createModule id courseId title position s =
    (s, inl (LmsModelError INVALID_RELATION ("course does not exist: " +:+ courseId))).
Proof. intros H. unfold createModule. lms_unfold. by rewrite H. Qed.

Lemma createLesson_missing_module id moduleId title position s :
  modules s !! moduleId = None →
  createLesson id moduleId title position s =
    (s, inl (LmsModelError INVALID_RELATION ("module does not exist: " +:+ moduleId))).
Proof. intros H. unfold createLesson. lms_unfold. by rewrite H. Qed.

Lemma enrollStudent_missing_course id courseId userId now s :
  courses s !! courseId = None →
  enrollStudent id courseId userId now s =
    (s, inl (LmsModelError INVALID_RELATION ("course does not exist: " +:+ courseId))).
Proof.
  intros H. unfold enrollStudent. lms_unfold.
  by rewrite (proj2 (has_false _ _) H).
Qed.

Lemma set_lmsStore_same st : set_lmsStore (λ _, lmsStore st) st = st.
Proof. by destruct st. Qed.

Section RouteFacts.
Variable P : Platform.
Variable env : Env.
Variable randomId : nat → string.

Lemma guarded_allowed amb authorization roles st handler auth :
    authenticate P env amb authorization st = inr auth →
    includesRole roles auth = true →
    guarded P env amb authorization roles st handler = handler auth.
  Proof. intros Ha Hr. unfold guarded. by rewrite Ha, Hr. Qed.

Lemma hasRole_eq auth role role' :
    claim_role auth = Some role → hasRole auth role' = bool_decide (role = role').
  Proof.
    intros H. unfold hasRole. rewrite H. apply bool_decide_ext.
    split; [by intros [= ->] | by intros ->].
  Qed.

Lemma handleModules_missing_course amb authorization auth id courseId title position st :
    authenticate P env amb authorization st = inr auth →
    min1 id = true → min1 courseId = true → min1 title = true → 0 < position →
    courses (lmsStore st) !! courseId = None →
    (claim_role auth = Some Admin →
     handleModules P env amb authorization id courseId title position st =
       (st, mkResponse 400 (LmsErrorBody INVALID_RELATION
                              ("course does not exist: " +:+ courseId)))) ∧
    (claim_role auth = Some Instructor →
     handleModules P env amb authorization id courseId title position st =
       (st, mkResponse 404 (LmsErrorBody NOT_FOUND
                              ("course does not exist: " +:+ courseId)))).
  Proof.
    intros Ha Hid Hc Ht Hpos Hmissing.
    split; intros Hrole; unfold handleModules;
      (rewrite (guarded_allowed _ _ _ _ _ auth Ha);
       [|by unfold includesRole; rewrite Hrole]);
      rewrite Hid, Hc, Ht, (proj2 (Z.ltb_lt _ _) Hpos); simpl;
      unfold runLms, ownedThen, canInstructorManageCourse, getCourse, createModule;
      rewrite (hasRole_eq _ _ _ Hrole); lms_unfold; rewrite Hmissing; simpl;
      by rewrite set_lmsStore_same.
  Qed.

Lemma handleLessons_missing_module amb authorization auth id moduleId title position st :
    authenticate P env amb authorization st = inr auth →
    min1 id = true → min1 moduleId = true → min1 title = true → 0 < position →
    modules (lmsStore st) !! moduleId = None →
    (claim_role auth = Some Admin →
     handleLessons P env amb authorization id moduleId title position st =
       (st, mkResponse 400 (LmsErrorBody INVALID_RELATION
                              ("module does not exist: " +:+ moduleId)))) ∧
    (claim_role auth = Some Instructor →
     handleLessons P env amb authorization id moduleId title position st =
       (st, mkResponse 404 (LmsErrorBody NOT_FOUND
                              ("module does not exist: " +:+ moduleId)))).
  Proof.
    intros Ha Hid Hm Ht Hpos Hmissing.
    split; intros Hrole; unfold handleLessons;
      (rewrite (guarded_allowed _ _ _ _ _ auth Ha);
       [|by unfold includesRole; rewrite Hrole]);
      rewrite Hid, Hm, Ht, (proj2 (Z.ltb_lt _ _) Hpos); simpl;
      unfold runLms, ownedThen, getCourseIdForModule, createLesson;
      rewrite (hasRole_eq _ _ _ Hrole); lms_unfold; rewrite Hmissing; simpl;
      by rewrite set_lmsStore_same.
  Qed.

Lemma handleEnrollments_missing_course amb authorization auth role id courseId userId st :
    authenticate P env amb authorization st = inr auth →
    claim_role auth = Some role → (role = Student → claim_sub auth = userId) →
    min1 id = true → min1 courseId = true → min1 userId = true →
    courses (lmsStore st) !! courseId = None →
    handleEnrollments P env amb authorization id courseId userId st =
      (st, mkResponse 400 (LmsErrorBody INVALID_RELATION
                             ("course does not exist: " +:+ courseId))).
  Proof.
    intros Ha Hrole Hself Hid Hc Hu Hmissing. unfold handleEnrollments.
    rewrite (guarded_allowed _ _ _ _ _ auth Ha);
      [|unfold includesRole; rewrite Hrole; apply bool_decide_eq_true; destruct role; set_solver].
    rewrite Hid, Hc, Hu. simpl.
    assert (hasRole auth Student && negb (bool_decide (claim_sub auth = userId)) = false) as ->.
    { rewrite (hasRole_eq _ _ _ Hrole). case_bool_decide as Hs; [|done].
      by rewrite bool_decide_eq_true_2 by auto. }
    unfold runLms. rewrite enrollStudent_missing_course by done. simpl.
    by rewrite set_lmsStore_same.
  Qed.
End RouteFacts.

(** C4. A module whose [courseId], a lesson whose [moduleId], or an
    enrollment whose [courseId] names no existing row is rejected by
    the store with [INVALID_RELATION] and the store stays as it was.
    Through the routes, an administrator gets that error with status
    400; for an instructor the ownership lookup comes first and the
    answer to a missing course or module is [NOT_FOUND] with status
    404; the enrollment route answers 400 [INVALID_RELATION] to every
    permitted principal.  The application state is unchanged each
    time. *)
Theorem missing_parent_is_rejected (P : Platform) (env : Env)
    (amb : Ambient) (authorization : option string) (auth : JwtClaims) (st : AppState) :
  authenticate P env amb authorization st = inr auth →
  (∀ id courseId title position s,
     courses s !! courseId = None →
     createModule id courseId title position s =
       (s, inl (LmsModelError INVALID_RELATION ("course does not exist: " +:+ courseId)))) ∧
  (∀ id moduleId title position s,
     modules s !! moduleId = None →
     createLesson id moduleId title position s =
       (s, inl (LmsModelError INVALID_RELATION ("module does not exist: " +:+ moduleId)))) ∧
  (∀ id courseId userId now s,
     courses s !! courseId = None →
     enrollStudent id courseId userId now s =
       (s, inl (LmsModelError INVALID_RELATION ("course does not exist: " +:+ courseId)))) ∧
  (∀ id courseId title position,
     min1 id = true → min1 courseId = true → min1 title = true → 0 < position →
     courses (lmsStore st) !! courseId = None →
     (claim_role auth = Some Admin →
      handleModules P env amb authorization id courseId title position st =
        (st, mkResponse 400 (LmsErrorBody INVALID_RELATION
                               ("course does not exist: " +:+ courseId)))) ∧
     (claim_role auth = Some Instructor →
      handleModules P env amb authorization id courseId title position st =
        (st, mkResponse 404 (LmsErrorBody NOT_FOUND
                               ("course does not exist: " +:+ courseId))))) ∧
  (∀ id moduleId title position,
     min1 id = true → min1 moduleId = true → min1 title = true → 0 < position →
     modules (lmsStore st) !! moduleId = None →
     (claim_role auth = Some Admin →
      handleLessons P env amb authorization id moduleId title position st =
        (st, mkResponse 400 (LmsErrorBody INVALID_RELATION
                               ("module does not exist: " +:+ moduleId)))) ∧
     (claim_role auth = Some Instructor →
      handleLessons P env amb authorization id moduleId title position st =
        (st, mkResponse 404 (LmsErrorBody NOT_FOUND
                               ("module does not exist: " +:+ moduleId))))) ∧
  (∀ role id courseId userId,
     claim_role auth = Some role → (role = Student → claim_sub auth = userId) →
     min1 id = true → min1 courseId = true → min1 userId = true →
     courses (lmsStore st) !! courseId = None →
     handleEnrollments P env amb authorization id courseId userId st =
       (st, mkResponse 400 (LmsErrorBody INVALID_RELATION
                              ("course does not exist: " +:+ courseId)))).
Proof.
  intros Ha. split_and!.
  - intros. by apply createModule_missing_course.
  - intros. by apply createLesson_missing_module.
  - intros. by apply enrollStudent_missing_course.
  - intros. by eapply handleModules_missing_course.
  - intros. by eapply handleLessons_missing_module.
  - intros. by eapply handleEnrollments_missing_course.
Qed.

(** An instructor who posts a module for a course that does not exist
    is answered 404 [NOT_FOUND]. *)
Lemma instructor_gets_not_found_for_missing_course :
  let answer :=
    (testHandle (testAmbient 1)
       (POST_lms_modules (bearer demoInstructor.2) "m1" "no-such-course" "Basics" 1)
       demoInstructor.1).2 in
  (user_role <$> (auth_user <$> demoInstructor.2)) = Some Instructor ∧
  courses (lmsStore demoInstructor.1) !! "no-such-course" = None ∧
  answer = mkResponse 404 (LmsErrorBody NOT_FOUND "course does not exist: no-such-course") ∧
  answer ≠ mkResponse 400 (LmsErrorBody INVALID_RELATION
                             "course does not exist: no-such-course").
Proof. vm_compute. split_and!; [done | done | done | discriminate]. Qed.

Lemma missing_parent_is_rejected_witness :
  handleModules testPlatform testEnv (testAmbient 1) (bearer demoLogin.2)
    "m1" "no-such-course" "Basics" 1 demoLogin.1 =
    (demoLogin.1, mkResponse 400 (LmsErrorBody INVALID_RELATION
                                    "course does not exist: no-such-course")).
Proof.
  assert (∃ auth, authenticate testPlatform testEnv (testAmbient 1) (bearer demoLogin.2)
                    demoLogin.1 = inr auth ∧ claim_role auth = Some Admin)
    as (auth & Ha & Hrole) by (vm_compute; eexists; split; reflexivity).
  destruct (missing_parent_is_rejected testPlatform testEnv _ _ _ _ Ha)
    as (_ & _ & _ & Hmodules & _).
  apply (Hmodules "m1" "no-such-course" "Basics" 1); [done | done | done | done | | done].
  vm_compute. reflexivity.
Defined.

(** ** Soft limits *)

Lemma createCourse_runs id title createdBy now s :
  courses s !! id = None →
  createCourse id title createdBy now s =
    (createCourse_store (mkCourse id title createdBy now) s,
     inr (mkCourse id title createdBy now)).
Proof.
  intros H. unfold createCourse. lms_unfold.
  by rewrite (proj2 (has_false _ _) H).
Qed.

Lemma createdCourses_after_createCourse id title createdBy now s :
  courses s !! id = None →
  createdCourses (getUserUsageSnapshot createdBy
                    (createCourse_store (mkCourse id title createdBy now) s)) =
  createdCourses (getUserUsageSnapshot createdBy s) + 1.
Proof.
  intros _. unfold getUserUsageSnapshot. cbn [createdCourses].
  change (courses_values (createCourse_store (mkCourse id title createdBy now) s))
    with (courses_values s ++ [mkCourse id title createdBy now]).
  rewrite filter_app, length_app, filter_cons_True by done. simpl. lia.
Qed.

Section LimitFacts.
Variable P : Platform.
Variable env : Env.
Variable randomId : nat → string.

Lemma getOrCreateSubscription_plan amb userId st :
    subscription_plan (getOrCreateSubscription P amb userId st).2 = planOf st userId ∧
    lmsStore (getOrCreateSubscription P amb userId st).1 = lmsStore st.
  Proof.
    unfold getOrCreateSubscription, planOf.
    by destruct (subscriptionsByUserId st !! userId).
  Qed.

Lemma getSubscriptionStatus_spec amb userId st :
    (getSubscriptionStatus P amb userId st).2 =
      mkStatus (planOf st userId) (PLAN_LIMITS (planOf st userId))
        (getUserUsageSnapshot userId (lmsStore st))
        (softLimitOf (getUserUsageSnapshot userId (lmsStore st))
                     (PLAN_LIMITS (planOf st userId))) ∧
    lmsStore (getSubscriptionStatus P amb userId st).1 = lmsStore st.
  Proof.
    unfold getSubscriptionStatus.
    destruct (getOrCreateSubscription_plan amb userId st) as [Hplan Hstore].
    destruct (getOrCreateSubscription _ _ _ _) as [st1 sub]. simpl in *.
    by rewrite Hplan, Hstore.
  Qed.

Lemma withSoftLimitMeta_spec amb userId st :
    let usage := getUserUsageSnapshot userId (lmsStore st) in
    let limits := PLAN_LIMITS (planOf st userId) in
    meta_plan (withSoftLimitMeta P amb userId st).2 = planOf st userId ∧
    meta_softLimit (withSoftLimitMeta P amb userId st).2 = softLimitOf usage limits ∧
    lmsStore (withSoftLimitMeta P amb userId st).1 = lmsStore st.
  Proof.
    unfold withSoftLimitMeta.
    destruct (getSubscriptionStatus_spec amb userId st) as [Hstatus Hstore].
    destruct (getSubscriptionStatus _ _ _ _) as [st1 status]. simpl in *.
    by rewrite Hstatus, Hstore.
  Qed.

Lemma handleCourses_succeeds amb authorization auth id title st :
    authenticate P env amb authorization st = inr auth →
    includesRole [Admin; Instructor] auth = true →
    min1 id = true → min1 title = true →
    courses (lmsStore st) !! id = None →
    ∃ st' course subscription,
      handleCourses P env amb authorization id title st =
        (st', mkResponse 201 (CourseBody course subscription)) ∧
      courses (lmsStore st') !! id = Some course ∧
      course_createdBy course = claim_sub auth ∧
      meta_plan subscription = planOf st (claim_sub auth) ∧
      meta_softLimit subscription =
        softLimitOf (getUserUsageSnapshot (claim_sub auth) (lmsStore st'))
                    (PLAN_LIMITS (meta_plan subscription)) ∧
      createdCourses (getUserUsageSnapshot (claim_sub auth) (lmsStore st')) =
        createdCourses (getUserUsageSnapshot (claim_sub auth) (lmsStore st)) + 1.
  Proof.
    intros Ha Hrole Hid Ht Hfresh. unfold handleCourses.
    rewrite (guarded_allowed _ _ _ _ _ _ _ auth Ha Hrole). rewrite Hid, Ht. simpl.
    unfold runLms. rewrite createCourse_runs by done.
    set (course := mkCourse id title (claim_sub auth) (storeNow P amb)).
    set (st1 := set_lmsStore _ st).
    destruct (withSoftLimitMeta_spec amb (claim_sub auth) st1) as (Hplan & Hsoft & Hstore).
    destruct (withSoftLimitMeta _ _ _ _) as [st2 subscription]. simpl in *.
    exists st2, course, subscription. rewrite Hstore, Hplan, Hsoft.
    split_and!; try done.
    - apply lookup_insert_eq.
    - by apply createdCourses_after_createCourse.
  Qed.

Lemma handleSubscriptionPlan_changes_the_plan amb authorization auth userId plan st :
    authenticate P env amb authorization st = inr auth →
    claim_role auth = Some Admin → min1 userId = true →
    is_Some (usersById st !! userId) →
    handleSubscriptionPlan P env amb authorization userId plan st =
      (set_subscriptionsByUserId
         (insert userId (mkSubscription userId plan (toISOString P (amb_now amb)))) st,
       mkResponse 200
         (SubscriptionBody (mkSubscription userId plan (toISOString P (amb_now amb))))).
  Proof.
    intros Ha Hrole Hu Hknown. unfold handleSubscriptionPlan.
    rewrite (guarded_allowed _ _ _ _ _ _ _ auth Ha);
      [|by unfold includesRole; rewrite Hrole].
    rewrite Hu. simpl. by rewrite (proj2 (has_true _ _) Hknown).
  Qed.
End LimitFacts.

(** C9. Plan limits are soft.  [POST /lms/courses] by an administrator
    or instructor with a well-formed body and an unused course id is
    answered 201 whatever the usage and the plan are; the annotation
    carries the plan on record and, per dimension,
    [Math.max(usage - limit, 0)] of the usage snapshot taken after the
    write: the integer max(usage - limit, 0) for the two counters, and
    for the bytes the binary64 difference of the binary64 sum of the
    sizes.  In the snapshot the count of created courses has grown by
    one; so on the free plan the third course is annotated with
    [createdCoursesExceededBy = 1].  A plan change by an administrator
    replaces the subscription record of the user and nothing else, and
    the status computed afterwards uses the limits of the new plan: at
    three created courses on [pro] the excess is 0. *)
Theorem plan_limits_are_soft (P : Platform) (env : Env)
    (amb : Ambient) (authorization : option string) (auth : JwtClaims) (st : AppState) :
  authenticate P env amb authorization st = inr auth →
  (∀ id title,
     includesRole [Admin; Instructor] auth = true →
     min1 id = true → min1 title = true →
     courses (lmsStore st) !! id = None →
     ∃ st' course subscription,
       handleCourses P env amb authorization id title st =
         (st', mkResponse 201 (CourseBody course subscription)) ∧
       courses (lmsStore st') !! id = Some course ∧
       meta_plan subscription = planOf st (claim_sub auth) ∧
       meta_softLimit subscription =
         softLimitOf (getUserUsageSnapshot (claim_sub auth) (lmsStore st'))
                     (PLAN_LIMITS (meta_plan subscription)) ∧
       createdCourses (getUserUsageSnapshot (claim_sub auth) (lmsStore st')) =
         createdCourses (getUserUsageSnapshot (claim_sub auth) (lmsStore st)) + 1 ∧
       (planOf st (claim_sub auth) = free →
        createdCourses (getUserUsageSnapshot (claim_sub auth) (lmsStore st)) = 2 →
        createdCoursesExceededBy (meta_softLimit subscription) = 1)) ∧
  (∀ userId plan,
     claim_role auth = Some Admin → min1 userId = true →
     is_Some (usersById st !! userId) →
     let st' := set_subscriptionsByUserId
                  (insert userId (mkSubscription userId plan (toISOString P (amb_now amb))))
                  st in
     handleSubscriptionPlan P env amb authorization userId plan st =
       (st', mkResponse 200
               (SubscriptionBody (mkSubscription userId plan (toISOString P (amb_now amb))))) ∧
     ∀ amb',
       (getSubscriptionStatus P amb' userId st').2 =
         mkStatus plan (PLAN_LIMITS plan) (getUserUsageSnapshot userId (lmsStore st))
           (softLimitOf (getUserUsageSnapshot userId (lmsStore st)) (PLAN_LIMITS plan)) ∧
       (plan = pro → createdCourses (getUserUsageSnapshot userId (lmsStore st)) = 3 →
        createdCoursesExceededBy
          (status_softLimit (getSubscriptionStatus P amb' userId st').2) = 0)).
Proof.
  intros Ha. split.
  - intros id title Hrole Hid Ht Hfresh.
    destruct (handleCourses_succeeds P env amb authorization auth id title st)
      as (st' & course & subscription & Hrun & Hcourse & _ & Hplan & Hsoft & Hcount); try done.
    exists st', course, subscription. split_and!; try done.
    intros Hfree Htwo. rewrite Hsoft. unfold softLimitOf. cbn [createdCoursesExceededBy].
    rewrite Hcount, Htwo, Hplan, Hfree. done.
  - intros userId plan Hrole Hu Hknown st'. split.
    + by eapply handleSubscriptionPlan_changes_the_plan.
    + intros amb'.
      destruct (getSubscriptionStatus_spec P amb' userId st') as [Hstatus _].
      assert (planOf st' userId = plan) as Hplan.
      { unfold planOf, st'. simpl. by rewrite lookup_insert_eq. }
      rewrite Hstatus, Hplan. split; [done|].
      intros -> Hthree. unfold softLimitOf. cbn [status_softLimit createdCoursesExceededBy].
      change (lmsStore st') with (lmsStore st). rewrite Hthree. done.
Qed.

Lemma plan_limits_are_soft_witness :
  ∃ st' course subscription,
    handleCourses testPlatform testEnv (testAmbient 1) (bearer demoInstructor.2)
      "c1" "One" demoInstructor.1 =
      (st', mkResponse 201 (CourseBody course subscription)) ∧
    createdCourses (getUserUsageSnapshot "id-2" (lmsStore st')) = 1.
Proof.
  assert (∃ auth, authenticate testPlatform testEnv (testAmbient 1) (bearer demoInstructor.2)
                    demoInstructor.1 = inr auth ∧
                  includesRole [Admin; Instructor] auth = true ∧ claim_sub auth = "id-2")
    as (auth & Ha & Hrole & Hsub) by (vm_compute; eexists; split_and!; reflexivity).
  destruct (proj1 (plan_limits_are_soft testPlatform testEnv _ _ _ _ Ha) "c1" "One" Hrole
              eq_refl eq_refl eq_refl)
    as (st' & course & subscription & Hrun & _ & _ & _ & Hcount & _).
  exists st', course, subscription. split; [exact Hrun|].
  rewrite Hsub in Hcount. rewrite Hcount. vm_compute. reflexivity.
Defined.

(** Beyond 2^53 the annotated excess of the bytes is not
    max(usage - limit, 0): with files of 2^53 - 1, 2^53 - 1 and 2
    bytes on the enterprise plan the snapshot has 2^54 bytes, the limit
    is 2^53 - 1, and the annotation is 2^53, one less than the
    difference. *)
Lemma storage_excess_is_rounded :
  match body demoLargeFiles.2 with
  | CourseBody _ subscription =>
      let usage := getUserUsageSnapshot "id-2" (lmsStore demoLargeFiles.1) in
      status demoLargeFiles.2 = 201 ∧
      meta_plan subscription = enterprise ∧
      maxOwnedStorageBytes (PLAN_LIMITS enterprise) = 9007199254740991 ∧
      Js.toZ (ownedStorageBytes usage) = Some 18014398509481984 ∧
      Js.toZ (ownedStorageBytesExceededBy (meta_softLimit subscription))
        = Some 9007199254740992 ∧
      Z.max (18014398509481984 - 9007199254740991) 0 = 9007199254740993
  | _ => False
  end.
Proof. vm_compute. by split_and!. Qed.

(** The run of the test suite: the third course of a free instructor
    is annotated with an excess of one. *)
Example third_course_on_free_plan :
  (λ r, match body r with
        | CourseBody _ subscription =>
            Some (status r, meta_softLimitExceeded subscription,
                  createdCoursesExceededBy (meta_softLimit subscription))
        | _ => None
        end) <$> demoThreeCourses.2 =
  [Some (201, false, 0); Some (201, false, 0); Some (201, true, 1)].
Proof. vm_compute. reflexivity. Qed.

(** ** Closed runs of the capability URLs *)

(** Signed at second 0 and verified at second 119. *)
Lemma signed_url_round_trip_witness :
  (∃ url, buildSignedLessonContentUrl testPlatform (DELIVERY_BASE_URL testEnv)
            (DELIVERY_SIGNING_SECRET testEnv) 1767225600000 demoSignedUrlInput
          = inr (url, "1767225720000")) ∧
  verifySignedLessonContentUrl testPlatform (DELIVERY_SIGNING_SECRET testEnv)
    (1767225600000 + 119999) demoSignedParams = inr true.
Proof.
  destruct (signed_url_round_trip testPlatform (DELIVERY_BASE_URL testEnv)
              (DELIVERY_SIGNING_SECRET testEnv) demoSignedUrlInput
              1767225600000 (1767225600000 + 119999))
    as (_ & Hreturns & _ & _ & _ & _ & _ & Hverify).
  split.
  - eexists. rewrite Hreturns by (by vm_compute). reflexivity.
  - apply Hverify; by vm_compute.
Defined.

(** The tampered key of the test suite is rejected. *)
Lemma verify_is_total_and_rejects_witness :
  verifySignedLessonContentUrl testPlatform (DELIVERY_SIGNING_SECRET testEnv)
    1767225600000 demoTamperedParams = inr false.
Proof.
  destruct (verify_is_total_and_rejects testPlatform (DELIVERY_SIGNING_SECRET testEnv)
              1767225600000 demoTamperedParams) as (_ & _ & _ & _ & _ & Haltered & _).
  destruct (Haltered 1767225600000 demoSignedUrlInput) as [_ Hreject].
  - split; [reflexivity|]. right. left. split_and!; try reflexivity. vm_compute. discriminate.
  - apply Hreject. vm_compute. discriminate.
Defined.

(** A signed record whose key U+FFFD is replaced by the unpaired
    surrogate U+D800 has another canonical payload with the same UTF-8
    encoding, and is accepted. *)
Lemma altered_key_with_the_same_encoding_is_accepted :
  alteredInOneField demoReplacementParams demoSurrogateParams ∧
  param_key demoSurrogateParams ≠ param_key demoReplacementParams ∧
  payloadOf demoSurrogateParams ≠ payloadOf demoReplacementParams ∧
  utf8Write (payloadOf demoSurrogateParams) = utf8Write (payloadOf demoReplacementParams) ∧
  verifySignedLessonContentUrl testPlatform (DELIVERY_SIGNING_SECRET testEnv)
    1767225600000 demoSurrogateParams = inr true.
Proof.
  assert (param_key demoSurrogateParams ≠ param_key demoReplacementParams) as Hkey
    by (vm_compute; discriminate).
  assert (alteredInOneField demoReplacementParams demoSurrogateParams) as Halt.
  { split; [reflexivity|]. right. left. by split_and!. }
  split_and!; [done | done | by apply canonicalPayload_one_field | by vm_compute
              | by vm_compute].
Qed.

(** The canonical payload does not delimit its fields: a colon can
    move from the key into the lesson id. *)
Example canonicalPayload_is_not_injective :
  canonicalPayload gdrive "a:b" "c" "u" "1" = canonicalPayload gdrive "a" "b:c" "u" "1".
Proof. reflexivity. Qed.

(** ** The numerals of the test platform *)

Lemma is_nat_pretty_N_char (d : N) :
  (d < 10)%N → Ascii.is_nat (pretty_N_char d) = Some (N.to_nat d).
Proof.
  intros Hd.
  assert (d = 0 ∨ d = 1 ∨ d = 2 ∨ d = 3 ∨ d = 4 ∨ d = 5 ∨ d = 6 ∨ d = 7 ∨ d = 8 ∨ d = 9)%N
    as Hcases by lia.
  destruct Hcases as [->|[->|[->|[->|[->|[->|[->|[->|[->| ->]]]]]]]]]; reflexivity.
Qed.

Lemma parseDigits_pretty_N_go (x : N) :
  ∃ k : N, ∀ s acc, parseDigits (pretty_N_go x s) acc = parseDigits s (acc * k + x)%N.
Proof.
  induction (N.lt_wf_0 x) as [x _ IH].
  destruct (decide (0 < x)%N) as [Hpos|Hzero].
  - destruct (IH (x `div` 10)%N) as [k Hk]; [by apply N.div_lt|].
    exists (10 * k)%N. intros s acc. rewrite pretty_N_go_step by done. rewrite Hk.
    cbn [parseDigits]. rewrite is_nat_pretty_N_char by (by apply N.mod_lt).
    rewrite N2Nat.id. f_equal.
    pose proof (N.div_mod x 10). lia.
  - assert (x = 0%N) as -> by lia. exists 1%N. intros s acc.
    rewrite pretty_N_go_0. f_equal. lia.
Qed.

Lemma parseDigits_pretty_N (x : N) : parseDigits (pretty x) 0 = Some x.
Proof.
  unfold pretty, pretty_N. case_decide as Hx; [by subst|].
  destruct (parseDigits_pretty_N_go x) as [k Hk]. rewrite Hk. done.
Qed.

(** [Number(String(n))] is [n] on the test platform, for every
    natural number [n]. *)
Lemma testPlatform_reads_numerals (n : Z) :
  0 ≤ n → toNumber testPlatform (js_String n) = JsFinite (inject_Z n).
Proof.
  intros Hn. simpl. unfold decimalNumber, js_String.
  assert (pretty n = pretty (Z.to_N n)) as -> by (by destruct n).
  rewrite parseDigits_pretty_N. by rewrite Z2N.id.
Qed.

(** ** Scans that only read *)

Section Scans.
Context {A : Type}.

Lemma forOf_reads_inr (body : A → Lms unit) (xs : list A) (s : LmsCoreStore) :
  (∀ x s, (body x s).1 = s) →
  (forOf xs body s).2 = inr tt ↔ ∀ x, x ∈ xs → (body x s).2 = inr tt.
Proof.
  intros Hbody. induction xs as [|x xs IH].
  - split; [by intros _ x ?%elem_of_nil | done].
  - simpl. unfold lms_bind. pose proof (Hbody x s) as Hx.
    destruct (body x s) as [s1 [e|[]]] eqn:Hrun; simpl in Hx; subst s1.
    + split; [done|]. intros H. specialize (H x (list_elem_of_here _ _)).
      by rewrite Hrun in H.
    + rewrite IH. split.
      * intros H y [->|Hy]%elem_of_cons; [by rewrite Hrun | by apply H].
      * intros H y Hy. apply H. by right.
Qed.

Lemma forOf_reads_inl (body : A → Lms unit) (xs : list A) (s : LmsCoreStore) e :
  (∀ x s, (body x s).1 = s) →
  (forOf xs body s).2 = inl e → ∃ x, x ∈ xs ∧ (body x s).2 = inl e.
Proof.
  intros Hbody. induction xs as [|x xs IH]; [done|].
  simpl. unfold lms_bind. pose proof (Hbody x s) as Hx.
  destruct (body x s) as [s1 [e'|[]]] eqn:Hrun; simpl in Hx; subst s1.
  - simpl. intros [= ->]. exists x. split; [by left | by rewrite Hrun].
  - intros (y & Hy & He)%IH. exists y. split; [by right | done].
Qed.
End Scans.

(** ** What the position scans establish *)

Lemma scanBody_reads {A R} (get : LmsCoreStore → A → option R) taken message x s :
  (scanBody get taken message x s).1 = s.
Proof.
  unfold scanBody. lms_unfold. destruct (get s x); [|done]. by destruct (taken _).
Qed.

Lemma forOf_scan_reads {A R} (get : LmsCoreStore → A → option R) taken message xs s :
  (forOf xs (scanBody get taken message) s).1 = s.
Proof. apply forOf_reads. intros. apply scanBody_reads. Qed.

Lemma forOf_scan_inr {A R} (get : LmsCoreStore → A → option R) taken message xs s :
  (forOf xs (scanBody get taken message) s).2 = inr tt ↔
  ∀ x, x ∈ xs → ∃ row, get s x = Some row ∧ taken row = false.
Proof.
  rewrite forOf_reads_inr by (intros; apply scanBody_reads).
  apply forall_proper. intros x. apply forall_proper. intros _.
  unfold scanBody. lms_unfold. destruct (get s x) as [row|]; simpl.
  - destruct (taken row) eqn:Ht; simpl; split.
    + done.
    + intros (? & [= <-] & ?). congruence.
    + eauto.
    + done.
  - split; [done | by intros (? & ? & _)].
Qed.

Lemma forOf_scan_inl {A R} (get : LmsCoreStore → A → option R) taken message xs s e :
  (forOf xs (scanBody get taken message) s).2 = inl e →
  ∃ x, x ∈ xs ∧
       ((get s x = None ∧ e = TypeError) ∨
        (∃ row, get s x = Some row ∧ taken row = true ∧
                e = LmsModelError DUPLICATE message)).
Proof.
  intros (x & Hx & He)%forOf_reads_inl; [|intros; apply scanBody_reads].
  exists x. split; [done|]. revert He. unfold scanBody. lms_unfold.
  destruct (get s x) as [row|]; simpl; [|intros [= <-]; by left].
  destruct (taken row) eqn:Ht; simpl; [|done]. intros [= <-]. right. eauto.
Qed.

Lemma createModule_unfold id courseId title position s :
  createModule id courseId title position s =
  match courses s !! courseId with
  | None => (s, inl (LmsModelError INVALID_RELATION ("course does not exist: " +:+ courseId)))
  | Some C =>
      if has (modules s) id
      then (s, inl (LmsModelError DUPLICATE ("module already exists: " +:+ id)))
      else
        match forOf (bucket (moduleIdsByCourse s) (course_id C))
                (scanBody (λ s m, modules s !! m)
                   (λ row, bool_decide (module_position row = position))
                   ("module position already used in course: " +:+ courseId)) s with
        | (_, inl e) => (s, inl e)
        | (_, inr _) =>
            (createModule_store (mkModule id courseId title position) s,
             inr (mkModule id courseId title position))
        end
  end.
Proof.
  unfold createModule, lms_bind at 1, reads at 1.
  destruct (courses s !! courseId) as [C|]; [|done].
  unfold lms_bind at 1, reads at 1. unfold lms_bind at 1, throwIf at 1.
  destruct (has (modules s) id); [done|]. unfold lms_ret at 1.
  unfold lms_bind at 1, reads at 1. unfold lms_bind at 1.
  match goal with |- context [forOf ?xs ?body s] =>
    change (forOf xs body s) with
      (forOf xs (scanBody (λ s m, modules s !! m)
                   (λ row, bool_decide (module_position row = position))
                   ("module position already used in course: " +:+ courseId)) s)
  end.
  match goal with |- context [forOf ?xs ?body s] =>
    pose proof (forOf_scan_reads (λ s m, modules s !! m)
                  (λ row, bool_decide (module_position row = position))
                  ("module position already used in course: " +:+ courseId) xs s) as Hs;
    destruct (forOf xs body s) as [s1 [e|[]]] end; simpl in Hs; subst s1; done.
Qed.

Lemma createLesson_unfold id moduleId title position s :
  createLesson id moduleId title position s =
  match modules s !! moduleId with
  | None => (s, inl (LmsModelError INVALID_RELATION ("module does not exist: " +:+ moduleId)))
  | Some M =>
      if has (lessons s) id
      then (s, inl (LmsModelError DUPLICATE ("lesson already exists: " +:+ id)))
      else
        match forOf (bucket (lessonIdsByModule s) moduleId)
                (scanBody (λ s l, lessons s !! l)
                   (λ row, bool_decide (lesson_position row = position))
                   ("lesson position already used in module: " +:+ moduleId)) s with
        | (_, inl e) => (s, inl e)
        | (_, inr _) =>
            (createLesson_store (module_courseId M) (mkLesson id moduleId title position) s,
             inr (mkLesson id moduleId title position))
        end
  end.
Proof.
  unfold createLesson, lms_bind at 1, reads at 1.
  destruct (modules s !! moduleId) as [M|]; [|done].
  unfold lms_bind at 1, reads at 1. unfold lms_bind at 1, throwIf at 1.
  destruct (has (lessons s) id); [done|]. unfold lms_ret at 1.
  unfold lms_bind at 1, reads at 1. unfold lms_bind at 1.
  match goal with |- context [forOf ?xs ?body s] =>
    change (forOf xs body s) with
      (forOf xs (scanBody (λ s l, lessons s !! l)
                   (λ row, bool_decide (lesson_position row = position))
                   ("lesson position already used in module: " +:+ moduleId)) s)
  end.
  match goal with |- context [forOf ?xs ?body s] =>
    pose proof (forOf_scan_reads (λ s l, lessons s !! l)
                  (λ row, bool_decide (lesson_position row = position))
                  ("lesson position already used in module: " +:+ moduleId) xs s) as Hs;
    destruct (forOf xs body s) as [s1 [e|[]]] end; simpl in Hs; subst s1; [done|].
  lms_unfold.
  by rewrite (forOf_writes _ (λ enrollmentId, fanOutStore enrollmentId id)).
Qed.

(** ** Keys, positions and the enrollment key index *)

Lemma KeysInv_empty : KeysInv emptyStore.
Proof. constructor; simpl; intros *; by rewrite ?lookup_empty. Qed.

Lemma KeysInv_createCourse c s : KeysInv s → KeysInv (createCourse_store c s).
Proof.
  intros []. constructor; simpl; try done.
  intros c' C. rewrite lookup_insert. destruct (decide (course_id c = c')) as [<-|]; [|eauto].
  by intros [= <-].
Qed.

Lemma KeysInv_createModule M s :
  StoreInv s → KeysInv s → modules s !! module_id M = None →
  (∀ m M', m ∈ bucket (moduleIdsByCourse s) (module_courseId M) →
           modules s !! m = Some M' → module_position M' ≠ module_position M) →
  KeysInv (createModule_store M s).
Proof.
  intros Hinv [] Hfresh Hscan. constructor; simpl; try done.
  - intros m M'. rewrite lookup_insert. destruct (decide (module_id M = m)) as [<-|]; [|eauto].
    by intros [= <-].
  - assert (∀ m M', modules s !! m = Some M' → module_courseId M' = module_courseId M →
                    module_position M' ≠ module_position M) as Hold.
    { intros m M' HM' Hc. apply (Hscan m); [|done].
      apply (inv_module_index _ Hinv). eauto. }
    intros m1 M1 m2 M2. rewrite !lookup_insert.
    destruct (decide (module_id M = m1)) as [<-|H1], (decide (module_id M = m2)) as [<-|H2];
      try done.
    + intros [= <-] HM2 Hc Hp. by destruct (Hold _ _ HM2).
    + intros HM1 [= <-] Hc Hp. by destruct (Hold _ _ HM1).
    + eauto.
Qed.

Lemma KeysInv_createLesson c L s :
  StoreInv s → KeysInv s → lessons s !! lesson_id L = None →
  (∀ l L', l ∈ bucket (lessonIdsByModule s) (lesson_moduleId L) →
           lessons s !! l = Some L' → lesson_position L' ≠ lesson_position L) →
  KeysInv (createLesson_store c L s).
Proof.
  intros Hinv [] Hfresh Hscan. rewrite createLesson_store_eq.
  set (pairs := (λ e, (e, lesson_id L)) <$> _). set (s1 := set_lessonIdsByModule _ _).
  destruct (fanOutAll_frame pairs s1) as (Hc & Hm & Hl & He & Hlc & Hmi & Hli & Hei & Hcu).
  constructor; rewrite ?Hc, ?Hm, ?Hl, ?He, ?Hlc, ?Hcu; simpl; try done.
  - intros l content Hcontent. destruct (inv_content_lesson0 _ _ Hcontent).
    split; [done|]. by apply lookup_insert_is_Some_mono.
  - assert (∀ l L', lessons s !! l = Some L' → lesson_moduleId L' = lesson_moduleId L →
                    lesson_position L' ≠ lesson_position L) as Hold.
    { intros l L' HL' Hmod. apply (Hscan l); [|done].
      apply (inv_lesson_index _ Hinv). eauto. }
    intros l1 L1 l2 L2. rewrite !lookup_insert.
    destruct (decide (lesson_id L = l1)) as [<-|H1], (decide (lesson_id L = l2)) as [<-|H2];
      try done.
    + intros [= <-] HL2 Hmod Hp. by destruct (Hold _ _ HL2).
    + intros HL1 [= <-] Hmod Hp. by destruct (Hold _ _ HL1).
    + eauto.
Qed.

Lemma KeysInv_enrollStudent E s :
  KeysInv s → enrollments s !! enrollment_id E = None →
  enrollmentByCourseUser s !! uniqueKey (enrollment_courseId E) (enrollment_userId E) = None →
  KeysInv (enrollStudent_store E s).
Proof.
  intros [] Hfresh Hkey. rewrite enrollStudent_store_eq.
  set (pairs := (λ L, (enrollment_id E, lesson_id L)) <$> _).
  set (s1 := set_progressIdsByEnrollment _ _).
  destruct (fanOutAll_frame pairs s1) as (Hc & Hm & Hl & He & Hlc & Hmi & Hli & Hei & Hcu).
  constructor; rewrite ?Hc, ?Hm, ?Hl, ?He, ?Hlc, ?Hcu; simpl; try done.
  - intros e E'. rewrite lookup_insert. destruct (decide (enrollment_id E = e)) as [<-|Hne].
    + intros [= <-]. apply lookup_insert_eq.
    + intros HE'. rewrite lookup_insert_ne; [eauto|].
      intros Heq. apply inv_unique_key0 in HE'. unfold uniqueKey in *. congruence.
  - intros k e. fold (uniqueKey (enrollment_courseId E) (enrollment_userId E)).
    rewrite lookup_insert. destruct (decide (uniqueKey _ _ = k)) as [<-|Hne].
    + intros [= <-]. exists E. by rewrite lookup_insert_eq.
    + intros (E' & HE' & <-)%inv_unique_key_row0. exists E'. split; [|done].
      rewrite lookup_insert_ne; [done|]. congruence.
Qed.

Lemma KeysInv_attachLessonContent lessonId provider key fileId contentType size now s :
  KeysInv s → is_Some (lessons s !! lessonId) →
  KeysInv (set_lessonContent
             (insert lessonId (mkLessonContent lessonId provider key fileId contentType size now))
             s).
Proof.
  intros [] Hl. constructor; simpl; try done.
  intros l content. rewrite lookup_insert. destruct (decide (lessonId = l)) as [<-|]; [|eauto].
  by intros [= <-].
Qed.

Lemma KeysInv_markLessonProgress p row s : KeysInv s → KeysInv (set_progress (insert p row) s).
Proof. intros []. by constructor. Qed.

Lemma runOp_KeysInv op s : StoreInv s → KeysInv s → KeysInv (runOp op s).1.
Proof.
  intros Hinv Hkeys. destruct op; unfold runOp, outcome; simpl.
  - destruct (createCourse _ _ _ _ s) as [s1 r] eqn:H. apply createCourse_inv in H.
    destruct H as [(? & _ & ->)|(? & _ & ->)]; [done|]. by apply KeysInv_createCourse.
  - destruct (createModule _ _ _ _ s) as [s1 [e|r]] eqn:H.
    + apply createModule_inv in H. by destruct H as [(? & _ & ->)|(_ & _ & [=] & _)].
    + rewrite createModule_unfold in H.
      destruct (courses s !! courseId) as [C|] eqn:HC; [|done].
      destruct (has (modules s) id) eqn:Hdup; [done|]. apply has_false in Hdup.
      match type of H with context [forOf ?xs ?body s] =>
        pose proof (forOf_scan_inr (λ s m, modules s !! m)
                      (λ row, bool_decide (module_position row = position))
                      ("module position already used in course: " +:+ courseId) xs s) as Hscan;
        destruct (forOf xs body s) as [s2 [e|[]]] end; [done|].
      injection H as <- <-. apply KeysInv_createModule; [done..|]. simpl.
      intros m M' Hm HM'. rewrite (inv_course_key _ Hkeys _ _ HC) in Hscan.
      destruct (proj1 Hscan eq_refl m Hm) as (row & Hrow & Hp). simpl in Hrow.
      rewrite HM' in Hrow. injection Hrow as <-. by apply bool_decide_eq_false in Hp.
  - destruct (createLesson _ _ _ _ s) as [s1 [e|r]] eqn:H.
    + apply createLesson_inv in H. by destruct H as [(? & _ & ->)|(? & _ & _ & [=] & _)].
    + rewrite createLesson_unfold in H.
      destruct (modules s !! moduleId) as [M|] eqn:HM; [|done].
      destruct (has (lessons s) id) eqn:Hdup; [done|]. apply has_false in Hdup.
      match type of H with context [forOf ?xs ?body s] =>
        pose proof (forOf_scan_inr (λ s l, lessons s !! l)
                      (λ row, bool_decide (lesson_position row = position))
                      ("lesson position already used in module: " +:+ moduleId) xs s) as Hscan;
        destruct (forOf xs body s) as [s2 [e|[]]] end; [done|].
      injection H as <- <-. apply KeysInv_createLesson; [done..|]. simpl.
      intros l L' Hl HL'.
      destruct (proj1 Hscan eq_refl l Hl) as (row & Hrow & Hp). simpl in Hrow.
      rewrite HL' in Hrow. injection Hrow as <-. by apply bool_decide_eq_false in Hp.
  - destruct (enrollStudent _ _ _ _ s) as [s1 r] eqn:H. apply enrollStudent_inv in H.
    destruct H as [(? & _ & ->)|(? & ? & ? & _ & ->)]; [done|]. by apply KeysInv_enrollStudent.
  - destruct (attachLessonContent _ _ _ _ _ _ _ s) as [s1 r] eqn:H.
    apply attachLessonContent_inv in H.
    destruct H as [(? & _ & ->)|(? & _ & ->)]; [done|]. by apply KeysInv_attachLessonContent.
  - destruct (markLessonProgress _ _ _ _ _ s) as [s1 r] eqn:H.
    apply markLessonProgress_inv in H.
    destruct H as [(? & _ & ->)|(E & L & M & row & ? & ? & ? & ? & ? & ? & _ & ->)]; [done|].
    by apply KeysInv_markLessonProgress.
Qed.

Lemma reachable_KeysInv s : reachable s → KeysInv s.
Proof.
  induction 1 as [|op s Hs IH]; [apply KeysInv_empty|].
  apply runOp_KeysInv; [by apply reachable_StoreInv | done].
Qed.

(** ** Progress rows and their index *)

Lemma ProgressInv_empty : ProgressInv emptyStore.
Proof. constructor; simpl; intros *; by rewrite ?lookup_empty. Qed.

Lemma ProgressInv_frame s s' :
  lessons s' = lessons s → modules s' = modules s → enrollments s' = enrollments s →
  progress s' = progress s → progressIdsByEnrollment s' = progressIdsByEnrollment s →
  ProgressInv s → ProgressInv s'.
Proof.
  intros Hl Hm He Hp Hi []. constructor; rewrite ?He, ?Hp, ?Hi.
  - intros p row Hrow. destruct (inv_progress_row0 p row Hrow) as (E & HE & Hin & Hkey).
    exists E. split_and!; [done | | done]. by apply (lessonInCourse_frame s).
  - intros e E p HE. rewrite (inv_progress_index0 e E p HE).
    apply exist_proper. intros l. by rewrite (lessonInCourse_frame s s').
  - done.
Qed.

Lemma lessonInCourse_createModule M s l c :
  StoreInv s → modules s !! module_id M = None →
  lessonInCourse (createModule_store M s) l c ↔ lessonInCourse s l c.
Proof.
  intros Hinv Hfresh. unfold lessonInCourse. simpl.
  split; intros (L & M' & HL & HM' & Hc); exists L, M'; split_and!; try done.
  - rewrite lookup_insert_ne in HM'; [done|]. intros Heq.
    apply (inv_lesson_module _ Hinv) in HL. rewrite <- Heq, Hfresh in HL. by destruct HL.
  - rewrite lookup_insert_ne; [done|]. intros Heq. congruence.
Qed.

Lemma ProgressInv_createModule M s :
  StoreInv s → modules s !! module_id M = None → ProgressInv s →
  ProgressInv (createModule_store M s).
Proof.
  intros Hinv Hfresh []. constructor; simpl.
  - intros p row Hrow. destruct (inv_progress_row0 p row Hrow) as (E & HE & Hin & Hkey).
    exists E. split_and!; [done | | done]. by apply lessonInCourse_createModule.
  - intros e E p HE. rewrite (inv_progress_index0 e E p HE).
    apply exist_proper. intros l. by rewrite lessonInCourse_createModule.
  - done.
Qed.

Lemma lessonInCourse_createLesson c L M s l c' :
  StoreInv s → modules s !! lesson_moduleId L = Some M → lessons s !! lesson_id L = None →
  lessonInCourse (createLesson_store c L s) l c' ↔
  (l = lesson_id L ∧ c' = module_courseId M) ∨ lessonInCourse s l c'.
Proof.
  intros Hinv HM Hfresh. rewrite createLesson_store_eq.
  set (pairs := (λ e, (e, lesson_id L)) <$> _). set (s1 := set_lessonIdsByModule _ _).
  destruct (fanOutAll_frame pairs s1) as (_ & Hm & Hl & _).
  unfold lessonInCourse. rewrite Hm, Hl. simpl. split.
  - intros (L' & M' & HL' & HM' & Hc). rewrite lookup_insert in HL'.
    destruct (decide (lesson_id L = l)) as [<-|Hne].
    + injection HL' as <-. left. split; [done|]. congruence.
    + right. eauto.
  - intros [[-> ->]|(L' & M' & HL' & HM' & Hc)].
    + exists L, M. by rewrite lookup_insert_eq.
    + exists L', M'. rewrite lookup_insert_ne; [done|]. congruence.
Qed.

Lemma ProgressInv_createLesson L M s :
  StoreInv s → modules s !! lesson_moduleId L = Some M → lessons s !! lesson_id L = None →
  ProgressInv s → ProgressInv (createLesson_store (module_courseId M) L s).
Proof.
  intros Hinv HM Hfresh Hprog.
  pose proof (lessonInCourse_createLesson (module_courseId M) L M s) as Hin.
  revert Hin. rewrite createLesson_store_eq.
  set (es := bucket (enrollmentIdsByCourse s) (module_courseId M)).
  set (pairs := (λ e, (e, lesson_id L)) <$> es). set (s1 := set_lessonIdsByModule _ _).
  intros Hin.
  destruct (fanOutAll_frame pairs s1) as (Hc & Hm & Hl & He & Hlc & Hmi & Hli & Hei & Hcu).
  assert (NoDup es) as Hnodup by apply (inv_enrollment_index_nodup _ Hinv).
  assert (∀ e, e ∈ es ↔ ∃ E, enrollments s !! e = Some E ∧
                              enrollment_courseId E = module_courseId M) as Hes
    by apply (inv_enrollment_index _ Hinv).
  destruct Hprog. constructor; rewrite ?He; simpl.
  - intros p row Hrow. destruct (fanOutAll_progress pairs s1 p) as [Heq|(q & Hq & -> & Heq)];
      rewrite Heq in Hrow.
    + destruct (inv_progress_row0 p row Hrow) as (E & HE & Hrel & Hkey).
      exists E. split_and!; [done | | done]. apply Hin; [done..|]. by right.
    + injection Hrow as <-. apply list_elem_of_fmap in Hq as (e & -> & (E & HE & Hcourse)%Hes).
      exists E. simpl. split_and!; [done | | done]. apply Hin; [done..|]. left. by rewrite Hcourse.
  - intros e E p HE. rewrite fanOutAll_bucket. unfold pairs.
    rewrite filter_fst_pairs by done. simpl.
    rewrite elem_of_app, (inv_progress_index0 e E p HE). split.
    + intros [(l & Hrel & ->)|Hnew].
      * exists l. split; [|done]. apply Hin; [done..|]. by right.
      * destruct (decide (e ∈ es)) as [(E' & HE' & Hcourse)%Hes|]; [|by apply elem_of_nil in Hnew].
        apply list_elem_of_singleton in Hnew as ->. exists (lesson_id L). split; [|done].
        apply Hin; [done..|]. left. split; [done|]. congruence.
    + intros (l & [[-> Hcourse]|Hrel]%Hin & ->); [|by eauto..].
      right. rewrite decide_True; [by apply list_elem_of_singleton|]. apply Hes. eauto.
  - intros e [E HE]. rewrite fanOutAll_bucket. unfold pairs.
    rewrite filter_fst_pairs by done. simpl.
    destruct (decide (e ∈ es)) as [Hine|]; [|rewrite app_nil_r; eauto].
    apply NoDup_app. split_and!; [eauto | | apply NoDup_singleton].
    intros p Hp ->%list_elem_of_singleton.
    apply (inv_progress_index0 e E _ HE) in Hp as (l & (L' & _ & HL' & _) & Hkey).
    apply StrFacts.append_inv_head, StrFacts.append_inv_head in Hkey.
    simpl in Hkey. congruence.
Qed.

Lemma filter_fst_other {A} (f : A → string) (xs : list A) (e e' : string) :
  e ≠ e' → filter (λ q : string * string, q.1 = e') ((λ x, (e, f x)) <$> xs) = [].
Proof.
  intros Hne. induction xs as [|x xs IH]; [done|].
  rewrite fmap_cons, filter_cons_False by done. apply IH.
Qed.

Lemma ProgressInv_enrollStudent E s :
  StoreInv s → enrollments s !! enrollment_id E = None →
  ProgressInv s → ProgressInv (enrollStudent_store E s).
Proof.
  intros Hinv Hfresh Hprog. rewrite enrollStudent_store_eq.
  set (pairs := (λ L, (enrollment_id E, lesson_id L)) <$> _).
  set (s1 := set_progressIdsByEnrollment _ _).
  destruct (fanOutAll_frame pairs s1) as (Hc & Hm & Hl & He & Hlc & Hmi & Hli & Hei & Hcu).
  pose proof (getLessonsForCourse_elem s (enrollment_courseId E)) as Hlessons.
  assert (∀ l c, lessonInCourse (fanOutAll pairs s1) l c ↔ lessonInCourse s l c) as Hin.
  { intros l c. apply lessonInCourse_frame; [by rewrite Hl | by rewrite Hm]. }
  destruct Hprog. constructor; rewrite ?He; simpl.
  - intros p row Hrow. destruct (fanOutAll_progress pairs s1 p) as [Heq|(q & Hq & -> & Heq)];
      rewrite Heq in Hrow.
    + destruct (inv_progress_row0 p row Hrow) as (E' & HE' & Hrel & Hkey).
      exists E'. split_and!; [ | by apply Hin | done].
      rewrite lookup_insert_ne; [done|]. congruence.
    + injection Hrow as <-. apply list_elem_of_fmap in Hq as (L & -> & [HL Hrel]%Hlessons);
        [|done].
      exists E. simpl. rewrite lookup_insert_eq. split_and!; [done | by apply Hin | done].
  - intros e E' p. rewrite lookup_insert, fanOutAll_bucket. simpl. rewrite bucket_insert.
    destruct (decide (enrollment_id E = e)) as [<-|Hne].
    + intros [= <-]. unfold pairs. rewrite filter_fst_const. simpl.
      rewrite <- list_fmap_compose, list_elem_of_fmap. split.
      * intros (L & -> & [HL Hrel]%Hlessons); [|done]. exists (lesson_id L).
        split; [by apply Hin | done].
      * intros (l & (L & M & HL & HM & Hcourse)%Hin & ->).
        assert (lesson_id L = l) as <- by apply (inv_lesson_key _ Hinv _ _ HL).
        exists L. split; [done|]. apply Hlessons; [done|]. split; [done|]. by exists L, M.
    + intros HE'. unfold pairs. rewrite filter_fst_other by done. rewrite app_nil_r.
      rewrite (inv_progress_index0 e E' p HE'). apply exist_proper. intros l.
      fold pairs. by rewrite Hin.
  - intros e. rewrite lookup_insert, fanOutAll_bucket. simpl. rewrite bucket_insert.
    destruct (decide (enrollment_id E = e)) as [<-|Hne].
    + intros _. unfold pairs. rewrite filter_fst_const. simpl. rewrite <- list_fmap_compose.
      rewrite (list_fmap_compose lesson_id (λ l, enrollment_id E +:+ ":" +:+ l)).
      rewrite (getLessonsForCourse_ids s _ Hinv).
      apply NoDup_fmap_2; [|by apply lessonIdsOfCourse_NoDup].
      intros l1 l2 Heq. by apply StrFacts.append_inv_head, StrFacts.append_inv_head in Heq.
    + intros HE'. unfold pairs. rewrite filter_fst_other by done. rewrite app_nil_r. eauto.
Qed.

Lemma ProgressInv_markLessonProgress p row status now s :
  progress s !! p = Some row → ProgressInv s →
  ProgressInv (set_progress (insert p (markedRow row status now)) s).
Proof.
  intros Hrow []. constructor; simpl; try done.
  intros p' row'. rewrite lookup_insert. destruct (decide (p = p')) as [<-|]; [|eauto].
  intros [= <-]. simpl. eauto.
Qed.

Lemma runOp_ProgressInv op s : StoreInv s → ProgressInv s → ProgressInv (runOp op s).1.
Proof.
  intros Hinv Hprog. destruct op; unfold runOp, outcome; simpl.
  - destruct (createCourse _ _ _ _ s) as [s1 r] eqn:H. apply createCourse_inv in H.
    destruct H as [(? & _ & ->)|(? & _ & ->)]; [done|]. by apply (ProgressInv_frame s).
  - destruct (createModule _ _ _ _ s) as [s1 r] eqn:H. apply createModule_inv in H.
    destruct H as [(? & _ & ->)|(? & ? & _ & ->)]; [done|]. by apply ProgressInv_createModule.
  - destruct (createLesson _ _ _ _ s) as [s1 r] eqn:H. apply createLesson_inv in H.
    destruct H as [(? & _ & ->)|(M & ? & ? & _ & ->)]; [done|]. by apply ProgressInv_createLesson.
  - destruct (enrollStudent _ _ _ _ s) as [s1 r] eqn:H. apply enrollStudent_inv in H.
    destruct H as [(? & _ & ->)|(? & ? & ? & _ & ->)]; [done|]. by apply ProgressInv_enrollStudent.
  - destruct (attachLessonContent _ _ _ _ _ _ _ s) as [s1 r] eqn:H.
    apply attachLessonContent_inv in H.
    destruct H as [(? & _ & ->)|(? & _ & ->)]; [done|]. by apply (ProgressInv_frame s).
  - destruct (markLessonProgress _ _ _ _ _ s) as [s1 r] eqn:H.
    apply markLessonProgress_inv in H.
    destruct H as [(? & _ & ->)|(E & L & M & row & ? & ? & ? & ? & ? & ? & _ & ->)]; [done|].
    by apply ProgressInv_markLessonProgress.
Qed.

Lemma reachable_ProgressInv s : reachable s → ProgressInv s.
Proof.
  induction 1 as [|op s Hs IH]; [apply ProgressInv_empty|].
  apply runOp_ProgressInv; [by apply reachable_StoreInv | done].
Qed.

(** ** Properties of reachable stores *)

(** X1. In every store reached from the empty store by store
    operations the five secondary indexes agree with the entity maps:
    [moduleIdsByCourse], [lessonIdsByModule] and
    [enrollmentIdsByCourse] list exactly the ids of the rows with that
    parent, [progressIdsByEnrollment] lists for an enrollment exactly
    the ids [e:l] of the lessons [l] of its course,
    [enrollmentByCourseUser] maps exactly the key of each enrollment to
    its id, and no bucket lists an id twice. *)
Theorem indexes_list_their_rows (s : LmsCoreStore) :
  reachable s →
  (∀ c m, m ∈ bucket (moduleIdsByCourse s) c ↔
          ∃ M, modules s !! m = Some M ∧ module_courseId M = c) ∧
  (∀ m l, l ∈ bucket (lessonIdsByModule s) m ↔
          ∃ L, lessons s !! l = Some L ∧ lesson_moduleId L = m) ∧
  (∀ c e, e ∈ bucket (enrollmentIdsByCourse s) c ↔
          ∃ E, enrollments s !! e = Some E ∧ enrollment_courseId E = c) ∧
  (∀ e E p, enrollments s !! e = Some E →
            (p ∈ bucket (progressIdsByEnrollment s) e ↔
             ∃ l, lessonInCourse s l (enrollment_courseId E) ∧ p = e +:+ ":" +:+ l)) ∧
  (∀ k e, enrollmentByCourseUser s !! k = Some e ↔
          ∃ E, enrollments s !! e = Some E ∧
               uniqueKey (enrollment_courseId E) (enrollment_userId E) = k) ∧
  (∀ c, NoDup (bucket (moduleIdsByCourse s) c)) ∧
  (∀ m, NoDup (bucket (lessonIdsByModule s) m)) ∧
  (∀ c, NoDup (bucket (enrollmentIdsByCourse s) c)) ∧
  (∀ e, is_Some (enrollments s !! e) → NoDup (bucket (progressIdsByEnrollment s) e)).
Proof.
  intros Hs. pose proof (reachable_StoreInv s Hs) as [].
  pose proof (reachable_KeysInv s Hs) as []. pose proof (reachable_ProgressInv s Hs) as [].
  split_and!; try done.
  intros k e. split; [by auto|]. intros (E & HE & <-). auto.
Qed.

Lemma indexes_list_their_rows_witness :
  reachable scenarioStore ∧
  ("m1" ∈ bucket (moduleIdsByCourse scenarioStore) "c1" ↔
   ∃ M, modules scenarioStore !! "m1" = Some M ∧ module_courseId M = "c1").
Proof.
  assert (reachable scenarioStore) as Hs by apply reachable_runOps, reachable_empty.
  split; [exact Hs|].
  exact (proj1 (indexes_list_their_rows scenarioStore Hs) "c1" "m1").
Defined.

(** X2. In every reachable store each row is stored under its own id
    and refers to rows that exist: a module to its course, a lesson to
    its module, an enrollment to its course, a content reference to its
    lesson, and a progress row, stored under [enrollmentId:lessonId],
    to an enrollment and to a lesson of the course of that
    enrollment. *)
Theorem rows_refer_to_existing_rows (s : LmsCoreStore) :
  reachable s →
  (∀ c C, courses s !! c = Some C → course_id C = c) ∧
  (∀ m M, modules s !! m = Some M →
          module_id M = m ∧ is_Some (courses s !! module_courseId M)) ∧
  (∀ l L, lessons s !! l = Some L →
          lesson_id L = l ∧ is_Some (modules s !! lesson_moduleId L)) ∧
  (∀ e E, enrollments s !! e = Some E →
          enrollment_id E = e ∧ is_Some (courses s !! enrollment_courseId E)) ∧
  (∀ l content, lessonContent s !! l = Some content →
                content_lessonId content = l ∧ is_Some (lessons s !! l)) ∧
  (∀ p row, progress s !! p = Some row →
            progress_id row = p ∧
            p = progress_enrollmentId row +:+ ":" +:+ progress_lessonId row ∧
            ∃ E, enrollments s !! progress_enrollmentId row = Some E ∧
                 lessonInCourse s (progress_lessonId row) (enrollment_courseId E)).
Proof.
  intros Hs. pose proof (reachable_StoreInv s Hs) as [].
  pose proof (reachable_KeysInv s Hs) as []. pose proof (reachable_ProgressInv s Hs) as [].
  split_and!; try done; try (intros; split; by eauto).
  intros p row Hrow. destruct (inv_progress_row0 p row Hrow) as (E & HE & Hin & Hkey).
  split_and!; eauto.
Qed.

Lemma rows_refer_to_existing_rows_witness :
  reachable scenarioStore ∧
  ∀ p row, progress scenarioStore !! p = Some row →
           progress_id row = p ∧
           p = progress_enrollmentId row +:+ ":" +:+ progress_lessonId row ∧
           ∃ E, enrollments scenarioStore !! progress_enrollmentId row = Some E ∧
                lessonInCourse scenarioStore (progress_lessonId row) (enrollment_courseId E).
Proof.
  assert (reachable scenarioStore) as Hs by apply reachable_runOps, reachable_empty.
  split; [exact Hs|].
  exact (proj2 (proj2 (proj2 (proj2 (proj2 (rows_refer_to_existing_rows scenarioStore Hs)))))).
Defined.

Lemma createModule_position_taken id courseId title position s m M :
  StoreInv s → KeysInv s →
  is_Some (courses s !! courseId) → modules s !! id = None →
  modules s !! m = Some M → module_courseId M = courseId → module_position M = position →
  createModule id courseId title position s =
    (s, inl (LmsModelError DUPLICATE
               ("module position already used in course: " +:+ courseId))).
Proof.
  intros Hinv Hkeys [C HC] Hfresh HM Hcourse Hpos. rewrite createModule_unfold, HC.
  rewrite (proj2 (has_false _ _) Hfresh). rewrite (inv_course_key _ Hkeys _ _ HC).
  match goal with |- context [forOf ?xs ?body s] =>
    pose proof (forOf_scan_inr (λ s m, modules s !! m)
                  (λ row, bool_decide (module_position row = position))
                  ("module position already used in course: " +:+ courseId) xs s) as Hok;
    pose proof (forOf_scan_inl (λ s m, modules s !! m)
                  (λ row, bool_decide (module_position row = position))
                  ("module position already used in course: " +:+ courseId) xs s) as Hthrown;
    destruct (forOf xs body s) as [s2 [e|[]]] end; simpl in *.
  - destruct (Hthrown e eq_refl) as (x & Hx & [[Hnone ->]|(row & _ & _ & ->)]); [|done].
    apply (inv_module_index _ Hinv) in Hx as (M' & HM' & _). congruence.
  - destruct (proj1 Hok eq_refl m) as (row & Hrow & Hfree).
    + apply (inv_module_index _ Hinv). eauto.
    + rewrite HM in Hrow. injection Hrow as <-. by apply bool_decide_eq_false in Hfree.
Qed.

Lemma createLesson_position_taken id moduleId title position s l L :
  StoreInv s →
  is_Some (modules s !! moduleId) → lessons s !! id = None →
  lessons s !! l = Some L → lesson_moduleId L = moduleId → lesson_position L = position →
  createLesson id moduleId title position s =
    (s, inl (LmsModelError DUPLICATE
               ("lesson position already used in module: " +:+ moduleId))).
Proof.
  intros Hinv [M HM] Hfresh HL Hmodule Hpos. rewrite createLesson_unfold, HM.
  rewrite (proj2 (has_false _ _) Hfresh).
  match goal with |- context [forOf ?xs ?body s] =>
    pose proof (forOf_scan_inr (λ s l, lessons s !! l)
                  (λ row, bool_decide (lesson_position row = position))
                  ("lesson position already used in module: " +:+ moduleId) xs s) as Hok;
    pose proof (forOf_scan_inl (λ s l, lessons s !! l)
                  (λ row, bool_decide (lesson_position row = position))
                  ("lesson position already used in module: " +:+ moduleId) xs s) as Hthrown;
    destruct (forOf xs body s) as [s2 [e|[]]] end; simpl in *.
  - destruct (Hthrown e eq_refl) as (x & Hx & [[Hnone ->]|(row & _ & _ & ->)]); [|done].
    apply (inv_lesson_index _ Hinv) in Hx as (L' & HL' & _). congruence.
  - destruct (proj1 Hok eq_refl l) as (row & Hrow & Hfree).
    + apply (inv_lesson_index _ Hinv). eauto.
    + rewrite HL in Hrow. injection Hrow as <-. by apply bool_decide_eq_false in Hfree.
Qed.

(** X3. In every reachable store two modules of one course have
    different positions, and two lessons of one module have different
    positions: [createModule] and [createLesson] answer a new id whose
    position is in use under the same parent with [DUPLICATE] and leave
    the store as it was. *)
Theorem positions_are_not_shared (s : LmsCoreStore) :
  reachable s →
  (∀ m1 M1 m2 M2,
     modules s !! m1 = Some M1 → modules s !! m2 = Some M2 →
     module_courseId M1 = module_courseId M2 → module_position M1 = module_position M2 →
     m1 = m2) ∧
  (∀ l1 L1 l2 L2,
     lessons s !! l1 = Some L1 → lessons s !! l2 = Some L2 →
     lesson_moduleId L1 = lesson_moduleId L2 → lesson_position L1 = lesson_position L2 →
     l1 = l2) ∧
  (∀ id title m M,
     modules s !! id = None → modules s !! m = Some M →
     createModule id (module_courseId M) title (module_position M) s =
       (s, inl (LmsModelError DUPLICATE
                  ("module position already used in course: " +:+ module_courseId M)))) ∧
  (∀ id title l L,
     lessons s !! id = None → lessons s !! l = Some L →
     createLesson id (lesson_moduleId L) title (lesson_position L) s =
       (s, inl (LmsModelError DUPLICATE
                  ("lesson position already used in module: " +:+ lesson_moduleId L)))).
Proof.
  intros Hs. pose proof (reachable_StoreInv s Hs) as Hinv.
  pose proof (reachable_KeysInv s Hs) as Hkeys. split_and!.
  - apply (inv_module_position _ Hkeys).
  - apply (inv_lesson_position _ Hkeys).
  - intros id title m M Hfresh HM.
    apply (createModule_position_taken _ _ _ _ _ m M); try done.
    by apply (inv_module_course _ Hinv m).
  - intros id title l L Hfresh HL.
    apply (createLesson_position_taken _ _ _ _ _ l L); try done.
    by apply (inv_lesson_module _ Hinv l).
Qed.

Lemma positions_are_not_shared_witness :
  reachable scenarioStore ∧
  createModule "m2" "c1" "Again" 1 scenarioStore =
    (scenarioStore,
     inl (LmsModelError DUPLICATE "module position already used in course: c1")).
Proof.
  assert (reachable scenarioStore) as Hs by apply reachable_runOps, reachable_empty.
  split; [exact Hs|].
  exact (proj1 (proj2 (proj2 (positions_are_not_shared scenarioStore Hs)))
           "m2" "Again" "m1" (mkModule "m1" "c1" "Basics" 1) eq_refl eq_refl).
Defined.

(** ** Enrollment keys *)

Lemma colonFree_tail c x : colonFree (String c x) → colonFree x.
Proof. intros H a b ->. by apply (H (String c a) b). Qed.

Lemma append_nil_l (s : string) : EmptyString +:+ s = s.
Proof. reflexivity. Qed.

Lemma uniqueKey_inj c1 u1 c2 u2 :
  colonFree c1 → colonFree c2 → uniqueKey c1 u1 = uniqueKey c2 u2 → c1 = c2 ∧ u1 = u2.
Proof.
  unfold uniqueKey. revert c2. induction c1 as [|x c1 IH]; intros [|y c2] H1 H2;
    rewrite ?StrFacts.append_cons, ?append_nil_l.
  - by intros [= ->].
  - intros [= <- _]. by destruct (H2 EmptyString c2).
  - intros [= -> _]. by destruct (H1 EmptyString c1).
  - intros [= -> Hrest].
    destruct (IH c2) as [-> ->]; eauto using colonFree_tail.
Qed.

Lemma enrollStudent_unfold id courseId userId now s :
  enrollStudent id courseId userId now s =
  if negb (has (courses s) courseId)
  then (s, inl (LmsModelError INVALID_RELATION ("course does not exist: " +:+ courseId)))
  else if has (enrollments s) id
  then (s, inl (LmsModelError DUPLICATE ("enrollment already exists: " +:+ id)))
  else if has (enrollmentByCourseUser s) (uniqueKey courseId userId)
  then (s, inl (LmsModelError DUPLICATE ("student already enrolled in course: " +:+ courseId)))
  else (enrollStudent_store (mkEnrollment id courseId userId now) s,
        inr (mkEnrollment id courseId userId now)).
Proof.
  unfold enrollStudent, uniqueKey. lms_unfold.
  destruct (has (courses s) courseId); simpl; [|done].
  destruct (has (enrollments s) id); simpl; [done|].
  destruct (has (enrollmentByCourseUser s) _); simpl; [done|].
  by rewrite (forOf_writes _ (λ lesson, fanOutStore id (lesson_id lesson))).
Qed.

(** X4. In every reachable store a user has at most one enrollment in
    a course.  [enrollStudent] returns the new enrollment exactly when
    the course exists, the enrollment id is unused and no enrollment
    has the key [courseId:userId]; a second enrollment of a user in a
    course is answered [DUPLICATE] and leaves the store as it was. *)
Theorem one_enrollment_per_course_and_user (s : LmsCoreStore) :
  reachable s →
  (∀ e1 E1 e2 E2,
     enrollments s !! e1 = Some E1 → enrollments s !! e2 = Some E2 →
     enrollment_courseId E1 = enrollment_courseId E2 →
     enrollment_userId E1 = enrollment_userId E2 → e1 = e2) ∧
  (∀ id courseId userId now,
     (∃ s' E, enrollStudent id courseId userId now s = (s', inr E)) ↔
     is_Some (courses s !! courseId) ∧ enrollments s !! id = None ∧
     ∀ e E, enrollments s !! e = Some E →
            uniqueKey (enrollment_courseId E) (enrollment_userId E)
              ≠ uniqueKey courseId userId) ∧
  (∀ id now e E,
     enrollments s !! e = Some E → enrollments s !! id = None →
     enrollStudent id (enrollment_courseId E) (enrollment_userId E) now s =
       (s, inl (LmsModelError DUPLICATE
                  ("student already enrolled in course: " +:+ enrollment_courseId E)))).
Proof.
  intros Hs. pose proof (reachable_StoreInv s Hs) as Hinv.
  pose proof (reachable_KeysInv s Hs) as Hkeys. split_and!.
  - intros e1 E1 e2 E2 H1 H2 Hc Hu.
    apply (inv_unique_key _ Hkeys) in H1, H2. rewrite Hc, Hu in H1. congruence.
  - intros id courseId userId now. rewrite enrollStudent_unfold.
    destruct (has (courses s) courseId) eqn:Hc; simpl.
    2:{ apply has_false in Hc. split; [by intros (? & ? & [=])|].
        intros ([? ?] & _). congruence. }
    apply has_true in Hc.
    destruct (has (enrollments s) id) eqn:Hid.
    { apply has_true in Hid as [? Hid]. split; [by intros (? & ? & [=])|].
      intros (_ & ? & _). congruence. }
    apply has_false in Hid.
    destruct (has (enrollmentByCourseUser s) _) eqn:Hkey.
    + apply has_true in Hkey as [e Hkey]. split; [by intros (? & ? & [=])|].
      intros (_ & _ & Hno). apply (inv_unique_key_row _ Hkeys) in Hkey as (E & HE & Hk).
      by destruct (Hno e E).
    + apply has_false in Hkey. split; [|by eauto]. intros _. split_and!; [done..|].
      intros e E HE Hk. apply (inv_unique_key _ Hkeys) in HE. congruence.
  - intros id now e E HE Hfresh. rewrite enrollStudent_unfold.
    rewrite (proj2 (has_true _ _) (inv_enrollment_course _ Hinv _ _ HE)). simpl.
    rewrite (proj2 (has_false _ _) Hfresh).
    by rewrite (proj2 (has_true _ _) (mk_is_Some _ _ (inv_unique_key _ Hkeys _ _ HE))).
Qed.

Lemma one_enrollment_per_course_and_user_witness :
  reachable scenarioStore ∧
  enrollStudent "e2" "c1" "s1" "2026-01-02T00:00:00.000Z" scenarioStore =
    (scenarioStore,
     inl (LmsModelError DUPLICATE "student already enrolled in course: c1")).
Proof.
  assert (reachable scenarioStore) as Hs by apply reachable_runOps, reachable_empty.
  split; [exact Hs|].
  exact (proj2 (proj2 (one_enrollment_per_course_and_user scenarioStore Hs))
           "e2" "2026-01-02T00:00:00.000Z" "e1"
           (mkEnrollment "e1" "c1" "s1" "2026-01-01T00:00:00.000Z") eq_refl eq_refl).
Defined.

(** X5. The enrollment key [courseId:userId] is the plain
    concatenation of the two ids around a colon.  When the key of a
    requested enrollment equals the key of an existing enrollment,
    [enrollStudent] answers [DUPLICATE] even if the existing enrollment
    is in another course; the keys of two pairs with colon-free course
    ids are equal only when the pairs are equal. *)
Theorem colliding_enrollment_key_is_refused (s : LmsCoreStore) (e : string) (E : Enrollment)
    (id courseId userId now : string) :
  reachable s →
  enrollments s !! e = Some E →
  uniqueKey (enrollment_courseId E) (enrollment_userId E) = uniqueKey courseId userId →
  is_Some (courses s !! courseId) → enrollments s !! id = None →
  enrollStudent id courseId userId now s =
    (s, inl (LmsModelError DUPLICATE ("student already enrolled in course: " +:+ courseId))) ∧
  (colonFree (enrollment_courseId E) → colonFree courseId →
   enrollment_courseId E = courseId ∧ enrollment_userId E = userId).
Proof.
  intros Hs HE Hkey Hcourse Hfresh. pose proof (reachable_KeysInv s Hs) as Hkeys. split.
  - rewrite enrollStudent_unfold. rewrite (proj2 (has_true _ _) Hcourse). simpl.
    rewrite (proj2 (has_false _ _) Hfresh).
    apply (inv_unique_key _ Hkeys) in HE. rewrite Hkey in HE.
    by rewrite (proj2 (has_true _ _) (mk_is_Some _ _ HE)).
  - intros H1 H2. by apply uniqueKey_inj.
Qed.

(** The student "b:c" is not enrolled in the course "a", and is
    refused there because "c" is enrolled in the course "a:b". *)
Lemma colliding_enrollment_key_is_refused_witness :
  enrollStudent "e2" "a" "b:c" "t2" collidingStore =
    (collidingStore,
     inl (LmsModelError DUPLICATE "student already enrolled in course: a")).
Proof.
  refine (proj1 (colliding_enrollment_key_is_refused collidingStore "e1"
                   (mkEnrollment "e1" "a:b" "c" "t1") "e2" "a" "b:c" "t2" _ _ _ _ _)).
  - apply reachable_runOps, reachable_empty.
  - reflexivity.
  - reflexivity.
  - vm_compute. eexists. reflexivity.
  - reflexivity.
Defined.

(** ** Who may read the content of a lesson *)

(** X6. [canUserAccessLessonContent] in a reachable store: an
    administrator may read the content of every lesson that exists; an
    instructor that of the lessons of the courses they created; a
    student that of the lessons of a course [c] for which some
    enrollment has the key [c:userId], which for colon-free course ids
    means that the student is enrolled in the course of the lesson. *)
Theorem lesson_content_access (s : LmsCoreStore) (lessonId userId : string) :
  reachable s →
  (canUserAccessLessonContent lessonId userId Admin s = true ↔
   is_Some (lessons s !! lessonId)) ∧
  (canUserAccessLessonContent lessonId userId Instructor s = true ↔
   ∃ c C, lessonInCourse s lessonId c ∧ courses s !! c = Some C ∧
          course_createdBy C = userId) ∧
  (canUserAccessLessonContent lessonId userId Student s = true ↔
   ∃ c e E, lessonInCourse s lessonId c ∧ enrollments s !! e = Some E ∧
            uniqueKey (enrollment_courseId E) (enrollment_userId E) = uniqueKey c userId) ∧
  ((∀ c, is_Some (courses s !! c) → colonFree c) →
   (canUserAccessLessonContent lessonId userId Student s = true ↔
    ∃ c e E, lessonInCourse s lessonId c ∧ enrollments s !! e = Some E ∧
             enrollment_courseId E = c ∧ enrollment_userId E = userId)).
Proof.
  intros Hs. pose proof (reachable_StoreInv s Hs) as Hinv.
  pose proof (reachable_KeysInv s Hs) as Hkeys.
  assert (canUserAccessLessonContent lessonId userId Student s = true ↔
          ∃ c e E, lessonInCourse s lessonId c ∧ enrollments s !! e = Some E ∧
                   uniqueKey (enrollment_courseId E) (enrollment_userId E) = uniqueKey c userId)
    as Hstudent.
  { unfold canUserAccessLessonContent, lessonInCourse. split.
    - destruct (lessons s !! lessonId) as [L|] eqn:HL; [|done].
      destruct (modules s !! lesson_moduleId L) as [M|] eqn:HM; [|done].
      intros [e Hkey]%has_true. apply (inv_unique_key_row _ Hkeys) in Hkey as (E & HE & Hk).
      exists (module_courseId M), e, E. split_and!; [by exists L, M | done | done].
    - intros (c & e & E & (L & M & -> & -> & <-) & HE & Hk).
      apply has_true. pose proof (inv_unique_key _ Hkeys _ _ HE) as Hu.
      unfold uniqueKey in *. rewrite <- Hk, Hu. eauto. }
  split_and!.
  - unfold canUserAccessLessonContent. split.
    + destruct (lessons s !! lessonId); [by eauto | done].
    + intros [L HL]. rewrite HL.
      by destruct (inv_lesson_module _ Hinv _ _ HL) as [M ->].
  - unfold canUserAccessLessonContent, lessonInCourse. split.
    + destruct (lessons s !! lessonId) as [L|] eqn:HL; [|done].
      destruct (modules s !! lesson_moduleId L) as [M|] eqn:HM; [|done].
      destruct (courses s !! module_courseId M) as [C|] eqn:HC; [|done].
      intros Hown%bool_decide_eq_true. exists (module_courseId M), C.
      split_and!; [by exists L, M | done | done].
    + intros (c & C & (L & M & -> & -> & <-) & -> & Hown). by apply bool_decide_eq_true.
  - done.
  - intros Hfree. rewrite Hstudent. split.
    + intros (c & e & E & Hin & HE & Hk). exists c, e, E. split_and!; [done..| |].
      * apply uniqueKey_inj in Hk as [? ?]; [done | |].
        -- apply Hfree. by apply (inv_enrollment_course _ Hinv e).
        -- apply Hfree. destruct Hin as (L & M & _ & HM & <-).
           by apply (inv_module_course _ Hinv (lesson_moduleId L)).
      * apply uniqueKey_inj in Hk as [? ?]; [done | |].
        -- apply Hfree. by apply (inv_enrollment_course _ Hinv e).
        -- apply Hfree. destruct Hin as (L & M & _ & HM & <-).
           by apply (inv_module_course _ Hinv (lesson_moduleId L)).
    + intros (c & e & E & Hin & HE & <- & <-). by exists (enrollment_courseId E), e, E.
Qed.

Lemma lesson_content_access_witness :
  reachable scenarioStore ∧
  (canUserAccessLessonContent "l1" "s1" Student scenarioStore = true ↔
   ∃ c e E, lessonInCourse scenarioStore "l1" c ∧ enrollments scenarioStore !! e = Some E ∧
            uniqueKey (enrollment_courseId E) (enrollment_userId E) = uniqueKey c "s1").
Proof.
  assert (reachable scenarioStore) as Hs by apply reachable_runOps, reachable_empty.
  split; [exact Hs|].
  exact (proj1 (proj2 (proj2 (lesson_content_access scenarioStore "l1" "s1" Hs)))).
Defined.

(** ** The progress index and the lessons of the course *)

Lemma progress_index_permutation s e E :
  StoreInv s → ProgressInv s → enrollments s !! e = Some E →
  bucket (progressIdsByEnrollment s) e ≡ₚ
  (λ l, e +:+ ":" +:+ l) <$> lessonIdsOfCourse (enrollment_courseId E) s.
Proof.
  intros Hinv Hprog HE. apply NoDup_Permutation.
  - apply (inv_progress_index_nodup _ Hprog). eauto.
  - apply NoDup_fmap_2; [|by apply lessonIdsOfCourse_NoDup].
    intros l1 l2 Heq. by apply StrFacts.append_inv_head, StrFacts.append_inv_head in Heq.
  - intros p. rewrite (inv_progress_index _ Hprog e E p HE), list_elem_of_fmap.
    split; intros (l & H1 & H2); exists l; split; try done; by apply lessonIdsOfCourse_elem.
Qed.

Lemma getLessonsForCourse_length s c :
  StoreInv s → length (getLessonsForCourse c s) = length (lessonIdsOfCourse c s).
Proof. intros Hinv. by rewrite <- (getLessonsForCourse_ids s c Hinv), length_fmap. Qed.

Lemma progress_index_length s e E :
  StoreInv s → ProgressInv s → enrollments s !! e = Some E →
  length (bucket (progressIdsByEnrollment s) e) =
  length (getLessonsForCourse (enrollment_courseId E) s).
Proof.
  intros Hinv Hprog HE. rewrite (progress_index_permutation s e E) by done.
  by rewrite length_fmap, getLessonsForCourse_length.
Qed.

(** X7. In every reachable store the progress index of an enrollment
    lists, up to order, the ids [e:l] of the lessons [l] of its
    course, each once, and each of them has a row: the number that
    [getCourseCompletionPercent] divides by is the number of lessons
    of the course. *)
Theorem progress_index_covers_the_course (s : LmsCoreStore) (e : string) (E : Enrollment) :
  reachable s → enrollments s !! e = Some E →
  bucket (progressIdsByEnrollment s) e ≡ₚ
    (λ l, e +:+ ":" +:+ l) <$> (lesson_id <$> getLessonsForCourse (enrollment_courseId E) s) ∧
  length (bucket (progressIdsByEnrollment s) e) =
    length (getLessonsForCourse (enrollment_courseId E) s) ∧
  (∀ p, p ∈ bucket (progressIdsByEnrollment s) e → is_Some (progress s !! p)).
Proof.
  intros Hs HE. pose proof (reachable_StoreInv s Hs) as Hinv.
  pose proof (reachable_ProgressInv s Hs) as Hprog. split_and!.
  - rewrite (getLessonsForCourse_ids s _ Hinv). by apply progress_index_permutation.
  - by apply progress_index_length.
  - intros p (l & Hin & ->)%(inv_progress_index _ Hprog e E); [|done].
    by apply (inv_progress_exists _ Hinv e E).
Qed.

Lemma progress_index_covers_the_course_witness :
  reachable fortyLessonsStore ∧
  length (bucket (progressIdsByEnrollment fortyLessonsStore) "enrollment") =
    length (getLessonsForCourse "course" fortyLessonsStore).
Proof.
  assert (reachable fortyLessonsStore) as Hs by apply reachable_runOps, reachable_empty.
  split; [exact Hs|].
  exact (proj1 (proj2 (progress_index_covers_the_course fortyLessonsStore "enrollment"
                         (mkEnrollment "enrollment" "course" "student" "t1") Hs
                         ltac:(vm_compute; reflexivity)))).
Defined.

Lemma countCompleted_le s progressIds : (countCompleted s progressIds ≤ length progressIds)%nat.
Proof. unfold countCompleted. apply length_filter. Qed.

Lemma percentOf_roundPercent (K N : nat) :
  (N < 40)%nat → (K ≤ N)%nat →
  (if bool_decide (N = 0%nat) then Js.num 0 else percentOf K N) =
  Js.num (roundPercent (Z.of_nat K) (Z.of_nat N)).
Proof.
  intros HN HK. case_bool_decide as Hzero; [by subst|].
  apply percentOf_small; lia.
Qed.

(** X8. For an enrollment in a course of fewer than forty lessons, in
    a reachable store, [getCourseCompletionPercent] returns the
    percentage of the lessons of the course whose progress row is
    [completed], rounded to the nearest integer with halves up, and 0
    for a course without lessons; the store is not changed. *)
Theorem completion_percent_of_small_courses (s : LmsCoreStore) (e : string) (E : Enrollment) :
  reachable s → enrollments s !! e = Some E →
  let lessonsOfCourse := getLessonsForCourse (enrollment_courseId E) s in
  let completedLessons :=
    filter (λ L, progress_status <$> progress s !! (e +:+ ":" +:+ lesson_id L) = Some completed)
           lessonsOfCourse in
  (length lessonsOfCourse < 40)%nat →
  getCourseCompletionPercent e s =
    (s, inr (Js.num (roundPercent (Z.of_nat (length completedLessons))
                                  (Z.of_nat (length lessonsOfCourse))))).
Proof.
  intros Hs HE lessonsOfCourse completedLessons Hsmall.
  pose proof (reachable_StoreInv s Hs) as Hinv.
  pose proof (reachable_ProgressInv s Hs) as Hprog.
  rewrite getCourseCompletionPercent_found by eauto. cbv zeta.
  pose proof (progress_index_permutation s e E Hinv Hprog HE) as Hperm.
  rewrite <- (getLessonsForCourse_ids s _ Hinv), <- list_fmap_compose in Hperm.
  fold lessonsOfCourse in Hperm.
  assert (countCompleted s (bucket (progressIdsByEnrollment s) e) = length completedLessons)
    as Hcount.
  { unfold countCompleted. rewrite Hperm. unfold completedLessons.
    clear. induction lessonsOfCourse as [|L ls IH]; [done|].
    rewrite fmap_cons. simpl.
    destruct (decide (progress_status <$> progress s !! (e +:+ ":" +:+ lesson_id L)
                      = Some completed)) as [Hd|Hd].
    - rewrite !filter_cons_True by done. simpl. by rewrite IH.
    - rewrite !filter_cons_False by done. done. }
  assert (length (bucket (progressIdsByEnrollment s) e) = length lessonsOfCourse) as Hlen
    by (by rewrite Hperm, length_fmap).
  rewrite Hcount, Hlen. f_equal. f_equal. apply percentOf_roundPercent; [done|].
  unfold completedLessons. apply length_filter.
Qed.

Lemma completion_percent_of_small_courses_witness :
  getCourseCompletionPercent "e1" scenarioStore = (scenarioStore, inr (Js.num 100)).
Proof.
  assert (reachable scenarioStore) as Hs by apply reachable_runOps, reachable_empty.
  refine (eq_trans
            (completion_percent_of_small_courses scenarioStore "e1"
               (mkEnrollment "e1" "c1" "s1" "2026-01-01T00:00:00.000Z") Hs eq_refl _) _).
  - vm_compute. lia.
  - vm_compute. reflexivity.
Defined.

(** ** The non-null assertions *)

Lemma mapOf_reads {A B} (xs : list A) (f : A → Lms B) (g : A → B) (s : LmsCoreStore) :
  (∀ x, x ∈ xs → f x s = (s, inr (g x))) → mapOf xs f s = (s, inr (g <$> xs)).
Proof.
  induction xs as [|x xs IH]; intros Hf; [done|].
  simpl. unfold lms_bind. rewrite Hf by left. rewrite IH; [done|].
  intros y Hy. apply Hf. by right.
Qed.

Lemma createModule_no_TypeError id courseId title position s :
  StoreInv s → KeysInv s → (createModule id courseId title position s).2 ≠ inl TypeError.
Proof.
  intros Hinv Hkeys. rewrite createModule_unfold.
  destruct (courses s !! courseId) as [C|] eqn:HC; [|done].
  destruct (has (modules s) id); [done|].
  match goal with |- context [forOf ?xs ?body s] =>
    pose proof (forOf_scan_inl (λ s m, modules s !! m)
                  (λ row, bool_decide (module_position row = position))
                  ("module position already used in course: " +:+ courseId) xs s) as Hthrown;
    destruct (forOf xs body s) as [s2 [e|[]]] end; simpl in *; [|done].
  destruct (Hthrown e eq_refl) as (x & Hx & [[Hnone ->]|(row & _ & _ & ->)]); [|done].
  apply (inv_module_index _ Hinv) in Hx as (M' & HM' & _). congruence.
Qed.

Lemma createLesson_no_TypeError id moduleId title position s :
  StoreInv s → (createLesson id moduleId title position s).2 ≠ inl TypeError.
Proof.
  intros Hinv. rewrite createLesson_unfold.
  destruct (modules s !! moduleId) as [M|] eqn:HM; [|done].
  destruct (has (lessons s) id); [done|].
  match goal with |- context [forOf ?xs ?body s] =>
    pose proof (forOf_scan_inl (λ s l, lessons s !! l)
                  (λ row, bool_decide (lesson_position row = position))
                  ("lesson position already used in module: " +:+ moduleId) xs s) as Hthrown;
    destruct (forOf xs body s) as [s2 [e|[]]] end; simpl in *; [|done].
  destruct (Hthrown e eq_refl) as (x & Hx & [[Hnone ->]|(row & _ & _ & ->)]); [|done].
  apply (inv_lesson_index _ Hinv) in Hx as (L' & HL' & _). congruence.
Qed.

Lemma runOp_no_TypeError op s : StoreInv s → KeysInv s → (runOp op s).2 ≠ Some TypeError.
Proof.
  intros Hinv Hkeys. destruct op; unfold runOp, outcome; simpl.
  - unfold createCourse. lms_unfold. by destruct (has (courses s) id).
  - pose proof (createModule_no_TypeError id courseId title position s Hinv Hkeys).
    destruct (createModule _ _ _ _ s) as [s1 [[]|r]]; simpl in *; congruence.
  - pose proof (createLesson_no_TypeError id moduleId title position s Hinv).
    destruct (createLesson _ _ _ _ s) as [s1 [[]|r]]; simpl in *; congruence.
  - rewrite enrollStudent_unfold. destruct (negb _); [done|].
    destruct (has (enrollments s) id); [done|]. by destruct (has _ _).
  - unfold attachLessonContent. lms_unfold. by destruct (has (lessons s) lessonId).
  - unfold markLessonProgress. lms_unfold.
    destruct (enrollments s !! enrollmentId) as [E|]; [|done].
    case_bool_decide; simpl; [|done].
    destruct (lessons s !! lessonId) as [L|]; [|done].
    destruct (modules s !! lesson_moduleId L) as [M|]; [|done].
    case_bool_decide; simpl; [|done].
    by destruct (progress s !! _).
Qed.

(** ** The instructor dashboard *)

Lemma usageOfContents_by_provider (contents : list LessonContentMetadata) :
  let usageOf provider :=
    usageOfContents (filter (λ content, content_provider content = provider) contents) in
  usage_files (usageOfContents contents) =
    (usage_files (usageOf gdrive) + usage_files (usageOf s3) + usage_files (usageOf r2))%nat.
Proof.
  induction contents as [|content contents IHf]; [done|].
  cbv zeta in *. unfold usageOfContents in *. cbn [usage_files] in *.
  pose proof (filter_cons_True (λ c, content_provider c = gdrive) content contents) as Tg.
  pose proof (filter_cons_True (λ c, content_provider c = s3) content contents) as Ts.
  pose proof (filter_cons_True (λ c, content_provider c = r2) content contents) as Tr.
  pose proof (filter_cons_False (λ c, content_provider c = gdrive) content contents) as Fg.
  pose proof (filter_cons_False (λ c, content_provider c = s3) content contents) as Fs.
  pose proof (filter_cons_False (λ c, content_provider c = r2) content contents) as Fr.
  destruct (content_provider content) eqn:Hp.
  - rewrite Tg, Fs, Fr by congruence. cbn [length]. lia.
  - rewrite Fg, Ts, Fr by congruence. cbn [length]. lia.
  - rewrite Fg, Fs, Tr by congruence. cbn [length]. lia.
Qed.

Lemma getInstructorDashboard_returns s courseId userId role C :
  StoreInv s → ProgressInv s → courses s !! courseId = Some C →
  (role = Instructor → course_createdBy C = userId) →
  ∃ d, getInstructorDashboard courseId userId role s = (s, inr d) ∧
       dashboard_courseId d = course_id C ∧ dashboard_title d = course_title C ∧
       dashboard_modules d = length (bucket (moduleIdsByCourse s) courseId) ∧
       dashboard_lessons d = length (getLessonsForCourse courseId s) ∧
       dashboard_enrollments d = length (bucket (enrollmentIdsByCourse s) courseId) ∧
       Forall2 (λ e row,
                  ∃ E, enrollments s !! e = Some E ∧
                       sp_enrollmentId row = e ∧ sp_userId row = enrollment_userId E ∧
                       sp_totalLessons row = length (getLessonsForCourse courseId s) ∧
                       sp_completedLessons row =
                         countCompleted s (bucket (progressIdsByEnrollment s) e) ∧
                       (sp_completedLessons row ≤ sp_totalLessons row)%nat)
               (bucket (enrollmentIdsByCourse s) courseId) (dashboard_studentProgress d) ∧
       usage_files (dashboard_storageUsage d) =
         (usage_files (dashboard_byProvider d gdrive) + usage_files (dashboard_byProvider d s3)
          + usage_files (dashboard_byProvider d r2))%nat.
Proof.
  intros Hinv Hprog HC Hrole.
  unfold getInstructorDashboard, getCourse. lms_unfold. rewrite HC. simpl.
  assert (bool_decide (role = Instructor)
          && negb (bool_decide (course_createdBy C = userId)) = false) as ->.
  { case_bool_decide as Hr; [|done]. by rewrite bool_decide_eq_true_2 by auto. }
  simpl.
  set (row e :=
         match enrollments s !! e with
         | Some E =>
             let progressIds := bucket (progressIdsByEnrollment s) e in
             mkStudentProgress e (enrollment_userId E) (countCompleted s progressIds)
               (length progressIds)
               (if bool_decide (length progressIds = 0%nat) then Js.num 0
                else percentOf (countCompleted s progressIds) (length progressIds))
         | None => mkStudentProgress e EmptyString 0 0 (Js.num 0)
         end).
  rewrite (mapOf_reads _ _ row).
  2:{ intros e (E & HE & _)%(inv_enrollment_index _ Hinv). unfold row. by rewrite HE. }
  eexists. split; [reflexivity|]. simpl.
  split_and!; try done.
  - fold (lessonIdsOfCourse courseId s). by rewrite getLessonsForCourse_length.
  - apply Forall2_fmap_r, Forall_Forall2_diag, Forall_forall.
    intros e (E & HE & Hcourse)%(inv_enrollment_index _ Hinv).
    exists E. unfold row. rewrite HE. simpl. split_and!; try done.
    + rewrite (progress_index_length s e E) by done. by rewrite Hcourse.
    + apply countCompleted_le.
  - apply usageOfContents_by_provider.
Qed.

Lemma getInstructorDashboard_no_TypeError s courseId userId role :
  StoreInv s → ProgressInv s →
  (getInstructorDashboard courseId userId role s).2 ≠ inl TypeError.
Proof.
  intros Hinv Hprog.
  destruct (courses s !! courseId) as [C|] eqn:HC.
  - destruct (decide (role = Instructor ∧ course_createdBy C ≠ userId)) as [[-> Hne]|Hok].
    + unfold getInstructorDashboard, getCourse. lms_unfold. rewrite HC. simpl.
      by rewrite (bool_decide_eq_false_2 _ Hne).
    + destruct (getInstructorDashboard_returns s courseId userId role C)
        as (d & -> & _); try done.
      intros ->. destruct (decide (course_createdBy C = userId)); [done|]. by destruct Hok.
  - unfold getInstructorDashboard, getCourse. lms_unfold. by rewrite HC.
Qed.

(** X9. In a reachable store no store method fails on a non-null
    assertion: whatever [createCourse], [createModule], [createLesson],
    [enrollStudent], [attachLessonContent], [markLessonProgress] and
    [getInstructorDashboard] throw is an [LmsModelError]. *)
Theorem store_methods_throw_model_errors_only (s : LmsCoreStore) :
  reachable s →
  (∀ op, (runOp op s).2 ≠ Some TypeError) ∧
  (∀ courseId userId role,
     (getInstructorDashboard courseId userId role s).2 ≠ inl TypeError).
Proof.
  intros Hs. pose proof (reachable_StoreInv s Hs) as Hinv.
  pose proof (reachable_KeysInv s Hs) as Hkeys.
  pose proof (reachable_ProgressInv s Hs) as Hprog. split.
  - intros op. by apply runOp_no_TypeError.
  - intros. by apply getInstructorDashboard_no_TypeError.
Qed.

Lemma store_methods_throw_model_errors_only_witness :
  reachable scenarioStore ∧
  (runOp (OpCreateModule "m2" "c1" "Again" 1) scenarioStore).2 ≠ Some TypeError.
Proof.
  assert (reachable scenarioStore) as Hs by apply reachable_runOps, reachable_empty.
  split; [exact Hs|].
  exact (proj1 (store_methods_throw_model_errors_only scenarioStore Hs)
           (OpCreateModule "m2" "c1" "Again" 1)).
Defined.

(** X10. [getInstructorDashboard] in a reachable store, for an
    existing course and a caller who is not an instructor or is the
    creator of the course, returns a dashboard and leaves the store as
    it was.  The dashboard counts the modules, the lessons and the
    enrollments of the course; it has one student row per enrollment
    of the course, in the order of enrollment, whose [totalLessons] is
    the number of lessons of the course and whose [completedLessons]
    does not exceed it; and the files of [storageUsage] are the sum of
    those of the three providers.  A missing course is
    answered [NOT_FOUND], an instructor who did not create the course
    [ACCESS_DENIED]. *)
Theorem instructor_dashboard_aggregates (s : LmsCoreStore) (courseId userId : string) :
  reachable s →
  (∀ role C,
     courses s !! courseId = Some C → (role = Instructor → course_createdBy C = userId) →
     ∃ d, getInstructorDashboard courseId userId role s = (s, inr d) ∧
          dashboard_courseId d = courseId ∧ dashboard_title d = course_title C ∧
          dashboard_modules d = length (bucket (moduleIdsByCourse s) courseId) ∧
          dashboard_lessons d = length (getLessonsForCourse courseId s) ∧
          dashboard_enrollments d = length (bucket (enrollmentIdsByCourse s) courseId) ∧
          Forall2 (λ e row,
                     ∃ E, enrollments s !! e = Some E ∧
                          sp_enrollmentId row = e ∧ sp_userId row = enrollment_userId E ∧
                          sp_totalLessons row = dashboard_lessons d ∧
                          sp_completedLessons row =
                            countCompleted s (bucket (progressIdsByEnrollment s) e) ∧
                          (sp_completedLessons row ≤ sp_totalLessons row)%nat)
                  (bucket (enrollmentIdsByCourse s) courseId)
                  (dashboard_studentProgress d) ∧
          usage_files (dashboard_storageUsage d) =
            (usage_files (dashboard_byProvider d gdrive)
             + usage_files (dashboard_byProvider d s3)
             + usage_files (dashboard_byProvider d r2))%nat) ∧
  (∀ role,
     courses s !! courseId = None →
     getInstructorDashboard courseId userId role s =
       (s, inl (LmsModelError NOT_FOUND ("course does not exist: " +:+ courseId)))) ∧
  (∀ C,
     courses s !! courseId = Some C → course_createdBy C ≠ userId →
     getInstructorDashboard courseId userId Instructor s =
       (s, inl (LmsModelError ACCESS_DENIED
                  "instructor can only access own course dashboard"))).
Proof.
  intros Hs. pose proof (reachable_StoreInv s Hs) as Hinv.
  pose proof (reachable_KeysInv s Hs) as Hkeys.
  pose proof (reachable_ProgressInv s Hs) as Hprog. split_and!.
  - intros role C HC Hrole.
    destruct (getInstructorDashboard_returns s courseId userId role C Hinv Hprog HC Hrole)
      as (d & Hrun & Hid & Htitle & Hm & Hl & He & Hrows & Hfiles).
    exists d. rewrite Hl. rewrite (inv_course_key _ Hkeys _ _ HC) in Hid. done.
  - intros role HC. unfold getInstructorDashboard, getCourse. lms_unfold. by rewrite HC.
  - intros C HC Hne. unfold getInstructorDashboard, getCourse. lms_unfold. rewrite HC. simpl.
    by rewrite (bool_decide_eq_false_2 _ Hne).
Qed.

Lemma instructor_dashboard_aggregates_witness :
  reachable scenarioStore ∧
  getInstructorDashboard "c1" "someone-else" Instructor scenarioStore =
    (scenarioStore,
     inl (LmsModelError ACCESS_DENIED "instructor can only access own course dashboard")).
Proof.
  assert (reachable scenarioStore) as Hs by apply reachable_runOps, reachable_empty.
  split; [exact Hs|].
  refine (proj2 (proj2 (instructor_dashboard_aggregates scenarioStore "c1" "someone-else" Hs))
            (mkCourse "c1" "Cloud Foundations" "instructor-1" "2026-01-01T00:00:00.000Z")
            eq_refl _).
  discriminate.
Defined.

(** ** Progress writes and usage counters *)

(** X11. A successful [markLessonProgress] in a reachable store
    replaces the row stored under [enrollmentId:lessonId] by the same
    row with the new status and [completedAt], and changes nothing
    else: no row is added or removed, and the entity maps, the content
    references and the indexes are as before. *)
Theorem markLessonProgress_replaces_one_row (s s' : LmsCoreStore)
    (enrollmentId lessonId actorUserId : string) (status : ProgressStatus) (now : string)
    (row : Progress) :
  reachable s →
  markLessonProgress enrollmentId lessonId actorUserId status now s = (s', inr row) →
  ∃ old,
    progress s !! (enrollmentId +:+ ":" +:+ lessonId) = Some old ∧
    row = markedRow old status now ∧
    s' = set_progress (insert (enrollmentId +:+ ":" +:+ lessonId) row) s ∧
    (∀ p, is_Some (progress s' !! p) ↔ is_Some (progress s !! p)).
Proof.
  intros Hs Hrun. pose proof (reachable_StoreInv s Hs) as Hinv.
  apply markLessonProgress_inv in Hrun
    as [(? & [=] & _)|(E & L & M & old & HE & _ & HL & _ & _ & Hold & [= ->] & ->)].
  rewrite (inv_enrollment_key _ Hinv _ _ HE), (inv_lesson_key _ Hinv _ _ HL) in *.
  exists old. split_and!; try done.
  intros p. simpl. rewrite lookup_insert_is_Some.
  destruct (decide (enrollmentId +:+ ":" +:+ lessonId = p)) as [<-|]; [|tauto].
  split; [eauto | tauto].
Qed.

Lemma markLessonProgress_replaces_one_row_witness :
  ∃ old,
    progress scenarioStore !! "e1:l1" = Some old ∧
    markedRow old in_progress "2026-01-03T00:00:00.000Z" =
      mkProgress "e1:l1" "e1" "l1" in_progress None.
Proof.
  assert (reachable scenarioStore) as Hs by apply reachable_runOps, reachable_empty.
  destruct (markLessonProgress_replaces_one_row scenarioStore _ "e1" "l1" "s1" in_progress
              "2026-01-03T00:00:00.000Z" _ Hs eq_refl) as (old & Hold & Hrow & _).
  exists old. split; [exact Hold|]. symmetry. exact Hrow.
Defined.

(** ** The usage snapshot *)

Lemma fanOutAll_courses_values pairs s :
  courses_values (fanOutAll pairs s) = courses_values s.
Proof.
  induction pairs as [|q pairs IH] using rev_ind; [done|].
  rewrite fanOutAll_snoc. simpl in *. done.
Qed.

Lemma createdCourses_frame userId s s' :
  courses_values s' = courses_values s →
  createdCourses (getUserUsageSnapshot userId s') = createdCourses (getUserUsageSnapshot userId s).
Proof. unfold getUserUsageSnapshot. simpl. by intros ->. Qed.

Lemma activeEnrollments_frame userId s s' :
  enrollments s' = enrollments s →
  activeEnrollments (getUserUsageSnapshot userId s') =
  activeEnrollments (getUserUsageSnapshot userId s).
Proof. unfold getUserUsageSnapshot. simpl. by intros ->. Qed.

Lemma createdCourses_createCourse userId c s :
  courses s !! course_id c = None →
  createdCourses (getUserUsageSnapshot userId (createCourse_store c s)) =
  createdCourses (getUserUsageSnapshot userId s)
  + (if bool_decide (course_createdBy c = userId) then 1 else 0).
Proof.
  intros _. unfold getUserUsageSnapshot. cbn [createdCourses].
  change (courses_values (createCourse_store c s)) with (courses_values s ++ [c]).
  rewrite filter_app, length_app.
  case_bool_decide.
  - rewrite filter_cons_True by done. simpl. lia.
  - rewrite filter_cons_False by done. simpl. lia.
Qed.

Lemma activeEnrollments_enrollStudent userId E s :
  enrollments s !! enrollment_id E = None →
  activeEnrollments (getUserUsageSnapshot userId (enrollStudent_store E s)) =
  activeEnrollments (getUserUsageSnapshot userId s)
  + (if bool_decide (enrollment_userId E = userId) then 1 else 0).
Proof.
  intros Hfresh. rewrite enrollStudent_store_eq.
  match goal with |- context [fanOutAll ?pairs ?s1] =>
    destruct (fanOutAll_frame pairs s1) as (_ & _ & _ & He & _) end.
  unfold getUserUsageSnapshot. simpl. rewrite He. simpl.
  rewrite (map_to_list_insert _ _ _ Hfresh). rewrite fmap_cons. simpl.
  case_bool_decide.
  - rewrite filter_cons_True by done. simpl. lia.
  - rewrite filter_cons_False by done. lia.
Qed.

(** The walk of [courses.values()]: in a reachable store it meets
    each row of [courses] once. *)
Lemma courses_values_lists_the_courses (s : LmsCoreStore) :
  reachable s →
  NoDup (course_id <$> courses_values s) ∧
  ∀ c, c ∈ courses_values s ↔ courses s !! course_id c = Some c.
Proof.
  induction 1 as [|op s Hs [IHn IHc]]; [split; [constructor | by intros c; split; intros ?; set_solver]|].
  assert (∀ s', courses s' = courses s → courses_values s' = courses_values s →
                NoDup (course_id <$> courses_values s') ∧
                ∀ c, c ∈ courses_values s' ↔ courses s' !! course_id c = Some c) as Hframe.
  { intros s' -> ->. by split. }
  destruct op; unfold runOp, outcome; cbn [fst snd].
  - destruct (createCourse _ _ _ _ s) as [s1 r] eqn:H. apply createCourse_inv in H.
    destruct H as [(? & -> & ->)|(Hfresh & -> & ->)]; [by split|]. cbn [fst].
    set (c := mkCourse id title createdBy now).
    change (courses_values (createCourse_store c s)) with (courses_values s ++ [c]).
    change (courses (createCourse_store c s)) with (<[id := c]> (courses s)).
    split.
    + rewrite fmap_app. apply NoDup_app. split; [done|]. split; [|apply NoDup_singleton].
      intros x [c' [-> Hc']]%list_elem_of_fmap [= Heq]%list_elem_of_singleton.
      apply IHc in Hc'. rewrite Heq in Hc'. simpl in Hc'. congruence.
    + intros c'. rewrite elem_of_app, list_elem_of_singleton, IHc.
      destruct (decide (course_id c' = id)) as [Heq|Hne].
      * rewrite Heq, lookup_insert_eq. split.
        -- intros [Hold| ->]; [congruence|done].
        -- intros [= ->]. by right.
      * rewrite lookup_insert_ne by done. split; [|by left].
        intros [Hold| ->]; [done|]. by destruct Hne.
  - destruct (createModule _ _ _ _ s) as [s1 r] eqn:H. apply createModule_inv in H.
    destruct H as [(? & -> & ->)|(_ & _ & -> & ->)]; [by split | by apply Hframe].
  - destruct (createLesson _ _ _ _ s) as [s1 r] eqn:H. apply createLesson_inv in H.
    destruct H as [(? & -> & ->)|(M & _ & _ & -> & ->)]; [by split|].
    rewrite createLesson_store_eq.
    match goal with |- context [fanOutAll ?pairs ?s1] =>
      destruct (fanOutAll_frame pairs s1) as (Hc & _);
      pose proof (fanOutAll_courses_values pairs s1) as Hv end.
    by apply Hframe.
  - destruct (enrollStudent _ _ _ _ s) as [s1 r] eqn:H. apply enrollStudent_inv in H.
    destruct H as [(? & -> & ->)|(_ & _ & _ & -> & ->)]; [by split|].
    rewrite enrollStudent_store_eq.
    match goal with |- context [fanOutAll ?pairs ?s1] =>
      destruct (fanOutAll_frame pairs s1) as (Hc & _);
      pose proof (fanOutAll_courses_values pairs s1) as Hv end.
    by apply Hframe.
  - destruct (attachLessonContent _ _ _ _ _ _ _ s) as [s1 r] eqn:H.
    apply attachLessonContent_inv in H.
    destruct H as [(? & -> & ->)|(_ & -> & ->)]; [by split | by apply Hframe].
  - destruct (markLessonProgress _ _ _ _ _ s) as [s1 r] eqn:H.
    apply markLessonProgress_inv in H.
    destruct H as [(? & -> & ->)|(? & ? & ? & ? & _ & _ & _ & _ & _ & _ & -> & ->)];
      [by split | by apply Hframe].
Qed.

(** X12. The counters of [getUserUsageSnapshot] follow the rows: a
    store operation changes [createdCourses] of a user only when it is
    a [createCourse] by that user that returns, and [activeEnrollments]
    only when it is an [enrollStudent] of that user that returns; each
    of them adds one. *)
Theorem usage_counters_follow_the_rows (op : StoreOp) (s : LmsCoreStore) (userId : string) :
  let before := getUserUsageSnapshot userId s in
  let after := getUserUsageSnapshot userId (runOp op s).1 in
  createdCourses after =
    createdCourses before
    + match op, (runOp op s).2 with
      | OpCreateCourse _ _ createdBy _, None => if bool_decide (createdBy = userId) then 1 else 0
      | _, _ => 0
      end ∧
  activeEnrollments after =
    activeEnrollments before
    + match op, (runOp op s).2 with
      | OpEnrollStudent _ _ enrolled _, None => if bool_decide (enrolled = userId) then 1 else 0
      | _, _ => 0
      end.
Proof.
  cbv zeta. destruct op; unfold runOp, outcome; cbn [fst snd].
  - destruct (createCourse _ _ _ _ s) as [s1 r] eqn:H. apply createCourse_inv in H.
    destruct H as [(? & -> & ->)|(Hfresh & -> & ->)]; cbn [fst snd]; [lia|].
    rewrite createdCourses_createCourse by done. cbn [course_createdBy]. split; [done|].
    rewrite (activeEnrollments_frame userId s) by done. lia.
  - destruct (createModule _ _ _ _ s) as [s1 r] eqn:H. apply createModule_inv in H.
    destruct H as [(? & -> & ->)|(_ & _ & -> & ->)]; cbn [fst snd]; [lia|].
    rewrite (createdCourses_frame userId s), (activeEnrollments_frame userId s) by done. lia.
  - destruct (createLesson _ _ _ _ s) as [s1 r] eqn:H. apply createLesson_inv in H.
    destruct H as [(? & -> & ->)|(M & _ & _ & -> & ->)]; cbn [fst snd]; [lia|].
    rewrite createLesson_store_eq.
    match goal with |- context [fanOutAll ?pairs ?s1] =>
      destruct (fanOutAll_frame pairs s1) as (_ & _ & _ & He & _);
      pose proof (fanOutAll_courses_values pairs s1) as Hc end.
    rewrite (createdCourses_frame userId s), (activeEnrollments_frame userId s)
      by (by rewrite ?Hc, ?He). lia.
  - destruct (enrollStudent _ _ _ _ s) as [s1 r] eqn:H. apply enrollStudent_inv in H.
    destruct H as [(? & -> & ->)|(_ & Hfresh & _ & -> & ->)]; cbn [fst snd]; [lia|].
    rewrite activeEnrollments_enrollStudent by done. cbn [enrollment_userId]. split; [|done].
    rewrite enrollStudent_store_eq.
    match goal with |- context [fanOutAll ?pairs ?s1] =>
      pose proof (fanOutAll_courses_values pairs s1) as Hc end.
    rewrite (createdCourses_frame userId s) by (by rewrite Hc). lia.
  - destruct (attachLessonContent _ _ _ _ _ _ _ s) as [s1 r] eqn:H.
    apply attachLessonContent_inv in H.
    destruct H as [(? & -> & ->)|(_ & -> & ->)]; cbn [fst snd]; [lia|].
    rewrite (createdCourses_frame userId s), (activeEnrollments_frame userId s) by done. lia.
  - destruct (markLessonProgress _ _ _ _ _ s) as [s1 r] eqn:H.
    apply markLessonProgress_inv in H.
    destruct H as [(? & -> & ->)|(? & ? & ? & ? & _ & _ & _ & _ & _ & _ & -> & ->)];
      cbn [fst snd]; [lia|].
    rewrite (createdCourses_frame userId s), (activeEnrollments_frame userId s) by done. lia.
Qed.

(** ** Authentication and role guards *)

Lemma substring_all (t : string) : String.substring 0 (String.length t) t = t.
Proof. induction t as [|c t IH]; [done|]. simpl. by rewrite IH. Qed.

Lemma bearerToken_Bearer (t : string) :
  bearerToken (Some ("Bearer " +:+ t)) = if min1 t then Some t else None.
Proof.
  unfold bearerToken. rewrite !StrFacts.append_cons, append_nil_l. simpl.
  rewrite Nat.sub_0_r.
  assert (String.prefix EmptyString t = true) as -> by (by destruct t).
  by rewrite substring_all.
Qed.

Lemma authenticate_missing_token P env amb header st :
  bearerToken header = None →
  authenticate P env amb header st = inl (mkResponse 401 (ErrorBody "missing_token")).
Proof. intros H. unfold authenticate. by rewrite H. Qed.

(** X13. A route behind [authenticate] answers 401 [missing_token]
    and leaves the state of the application as it was when the request
    has no [Authorization] header, when the header does not start with
    "Bearer ", and when nothing follows "Bearer "; the token of a
    header "Bearer t" with a non-empty [t] is [t]. *)
Theorem requests_without_token_are_refused (P : Platform) (env : Env) (randomId : nat → string)
    (amb : Ambient) (st : AppState) :
  (∀ req header,
     authorizationOf req = Some header → bearerToken header = None →
     handle P env randomId amb req st = (st, mkResponse 401 (ErrorBody "missing_token"))) ∧
  bearerToken None = None ∧
  (∀ header, String.prefix "Bearer " header = false → bearerToken (Some header) = None) ∧
  bearerToken (Some "Bearer ") = None ∧
  (∀ t, t ≠ EmptyString → bearerToken (Some ("Bearer " +:+ t)) = Some t).
Proof.
  split_and!.
  - intros req header Hreq Hnone.
    pose proof (authenticate_missing_token P env amb header st Hnone) as Hauth.
    destruct req; simpl in Hreq; try done; injection Hreq as ->; simpl;
      unfold handleMe, handleSubscriptionMe, handleSubscriptionPlan, handleRbac, handleCourses,
        handleModules, handleLessons, handleEnrollments, handleProgress, handleCompletion,
        handleLessonContent, handleContentUrl, handleVerify, handleDashboard,
        guarded, authenticated; try (by rewrite Hauth).
    destruct area; by rewrite Hauth.
  - done.
  - intros header Hprefix. unfold bearerToken. simpl. by rewrite Hprefix.
  - done.
  - intros t Ht. rewrite bearerToken_Bearer. unfold min1. by rewrite bool_decide_eq_false_2.
Qed.

(** X14. A route with a role guard answers 403 [forbidden] and leaves
    the state of the application as it was when the role of the
    authenticated token is not in the list of the guard: students cannot
    create courses, modules or lessons, attach content or read a
    dashboard; only students can write progress; only administrators
    can change a plan. *)
Theorem role_guards_refuse_other_roles (P : Platform) (env : Env) (randomId : nat → string)
    (amb : Ambient) (st : AppState) (req : Request) (header : option string)
    (roles : list Role) (auth : JwtClaims) :
  authorizationOf req = Some header → guardOf req = Some roles →
  authenticate P env amb header st = inr auth →
  includesRole roles auth = false →
  handle P env randomId amb req st = (st, mkResponse 403 (ErrorBody "forbidden")).
Proof.
  intros Hreq Hguard Hauth Hrole.
  destruct req; simpl in Hreq, Hguard; try done; injection Hreq as ->;
    try (injection Hguard as <-; simpl;
         unfold handleSubscriptionPlan, handleCourses, handleModules, handleLessons,
           handleEnrollments, handleProgress, handleLessonContent, handleDashboard, guarded;
         by rewrite Hauth, Hrole).
  destruct area; injection Hguard as <-; simpl; unfold handleRbac, guarded;
    by rewrite Hauth, Hrole.
Qed.

Lemma role_guards_refuse_other_roles_witness :
  handle testPlatform testEnv testRandomId (testAmbient 1)
    (POST_lms_courses (bearer demoStudent.2) "c1" "One") demoStudent.1 =
    (demoStudent.1, mkResponse 403 (ErrorBody "forbidden")).
Proof.
  assert (∃ auth, authenticate testPlatform testEnv (testAmbient 1) (bearer demoStudent.2)
                    demoStudent.1 = inr auth ∧
                  includesRole [Admin; Instructor] auth = false)
    as (auth & Ha & Hrole) by (vm_compute; eexists; split; reflexivity).
  exact (role_guards_refuse_other_roles testPlatform testEnv testRandomId (testAmbient 1)
           demoStudent.1 (POST_lms_courses (bearer demoStudent.2) "c1" "One")
           (bearer demoStudent.2) [Admin; Instructor] auth eq_refl eq_refl Ha Hrole).
Defined.

(** ** Store computations inside the routes *)

Lemma sound_ret {A} (a : A) : sound (lms_ret a).
Proof. intros s Hs. split; [done | by simpl]. Qed.

Lemma sound_bind {A B} (m : Lms A) (k : A → Lms B) :
  sound m → (∀ a, sound (k a)) → sound (lms_bind m k).
Proof.
  intros Hm Hk s Hs. unfold lms_bind. destruct (Hm s Hs) as [Hr Hne].
  destruct (m s) as [s1 [e|a]]; simpl in *; [split; [done | congruence]|].
  by apply Hk.
Qed.

Lemma sound_readOnly {A} (m : Lms A) :
  readOnly m → (∀ s, reachable s → (m s).2 ≠ inl TypeError) → sound m.
Proof. intros Hro Hne s Hs. rewrite Hro. auto. Qed.

Lemma readOnly_ret {A} (a : A) : readOnly (lms_ret a).
Proof. done. Qed.

Lemma readOnly_bind {A B} (m : Lms A) (k : A → Lms B) :
  readOnly m → (∀ a, readOnly (k a)) → readOnly (lms_bind m k).
Proof.
  intros Hm Hk s. unfold lms_bind. pose proof (Hm s) as H1.
  destruct (m s) as [s1 [e|a]]; simpl in *; subst; [done | apply Hk].
Qed.

Lemma atomic_readOnly {A} (m : Lms A) : readOnly m → atomic m.
Proof. intros Hro s s' e Hrun. pose proof (Hro s) as H. by rewrite Hrun in H. Qed.

Lemma readOnly_getCourse courseId : readOnly (getCourse courseId).
Proof. intros s. unfold getCourse. lms_unfold. by destruct (courses s !! courseId). Qed.

Lemma readOnly_getEnrollment enrollmentId : readOnly (getEnrollment enrollmentId).
Proof. intros s. unfold getEnrollment. lms_unfold. by destruct (enrollments s !! _). Qed.

Lemma readOnly_getLessonContent lessonId : readOnly (getLessonContent lessonId).
Proof. intros s. unfold getLessonContent. lms_unfold. by destruct (lessonContent s !! _). Qed.

Lemma readOnly_getCourseIdForModule moduleId : readOnly (getCourseIdForModule moduleId).
Proof. intros s. unfold getCourseIdForModule. lms_unfold. by destruct (modules s !! _). Qed.

Lemma readOnly_getCourseIdForLesson lessonId : readOnly (getCourseIdForLesson lessonId).
Proof.
  intros s. unfold getCourseIdForLesson. lms_unfold.
  destruct (lessons s !! _) as [L|]; [|done]. by destruct (modules s !! _).
Qed.

Lemma readOnly_canInstructorManageCourse userId courseId :
  readOnly (canInstructorManageCourse userId courseId).
Proof.
  apply readOnly_bind; [apply readOnly_getCourse | intros; apply readOnly_ret].
Qed.

Lemma readOnly_getCourseCompletionPercent enrollmentId :
  readOnly (getCourseCompletionPercent enrollmentId).
Proof.
  intros s. unfold getCourseCompletionPercent. lms_unfold.
  destruct (enrollments s !! _); [|done]. by case_bool_decide.
Qed.

Lemma readOnly_mapOf {A B} (xs : list A) (f : A → Lms B) :
  (∀ x, readOnly (f x)) → readOnly (mapOf xs f).
Proof.
  intros Hf. induction xs as [|x xs IH]; [done|]. simpl.
  apply readOnly_bind; [done|]. intros y.
  apply readOnly_bind; [done|]. intros ys. apply readOnly_ret.
Qed.

Lemma readOnly_getInstructorDashboard courseId userId role :
  readOnly (getInstructorDashboard courseId userId role).
Proof.
  unfold getInstructorDashboard.
  apply readOnly_bind; [apply readOnly_getCourse|]. intros C.
  apply readOnly_bind; [intros s; unfold throwIf; by destruct (_ && _)|]. intros _.
  apply readOnly_bind; [done|]. intros moduleIds.
  apply readOnly_bind; [done|]. intros lessonIds.
  apply readOnly_bind; [done|]. intros enrollmentIds.
  apply readOnly_bind.
  - apply readOnly_mapOf. intros e. apply readOnly_bind; [done|].
    intros [E|]; [|done].
    apply readOnly_bind; [done|]. intros progressIds.
    apply readOnly_bind; [done|]. intros n. apply readOnly_ret.
  - intros rows. apply readOnly_bind; [done|]. intros contents. apply readOnly_ret.
Qed.

Lemma sound_of_op {A} (m : Lms A) (op : StoreOp) :
  (∀ s, outcome (m s) = runOp op s) → sound m.
Proof.
  intros Hop s Hs. specialize (Hop s). split.
  - replace (m s).1 with (runOp op s).1 by (by rewrite <- Hop). by constructor.
  - pose proof (runOp_no_TypeError op s (reachable_StoreInv s Hs) (reachable_KeysInv s Hs)) as H.
    rewrite <- Hop in H. unfold outcome in H. simpl in H. intros Heq. by rewrite Heq in H.
Qed.

Lemma sound_createCourse id title createdBy now : sound (createCourse id title createdBy now).
Proof. by apply (sound_of_op _ (OpCreateCourse id title createdBy now)). Qed.

Lemma sound_createModule id courseId title position :
  sound (createModule id courseId title position).
Proof. by apply (sound_of_op _ (OpCreateModule id courseId title position)). Qed.

Lemma sound_createLesson id moduleId title position :
  sound (createLesson id moduleId title position).
Proof. by apply (sound_of_op _ (OpCreateLesson id moduleId title position)). Qed.

Lemma sound_enrollStudent id courseId userId now : sound (enrollStudent id courseId userId now).
Proof. by apply (sound_of_op _ (OpEnrollStudent id courseId userId now)). Qed.

Lemma sound_attachLessonContent lessonId provider key fileId contentType size now :
  sound (attachLessonContent lessonId provider key fileId contentType size now).
Proof.
  by apply (sound_of_op _ (OpAttachLessonContent lessonId provider key fileId contentType
                             size now)).
Qed.

Lemma sound_markLessonProgress enrollmentId lessonId actorUserId status now :
  sound (markLessonProgress enrollmentId lessonId actorUserId status now).
Proof.
  by apply (sound_of_op _ (OpMarkLessonProgress enrollmentId lessonId actorUserId status now)).
Qed.

Lemma sound_getCourse courseId : sound (getCourse courseId).
Proof.
  apply sound_readOnly; [apply readOnly_getCourse|]. intros s _.
  unfold getCourse. lms_unfold. by destruct (courses s !! courseId).
Qed.

Lemma sound_getEnrollment enrollmentId : sound (getEnrollment enrollmentId).
Proof.
  apply sound_readOnly; [apply readOnly_getEnrollment|]. intros s _.
  unfold getEnrollment. lms_unfold. by destruct (enrollments s !! _).
Qed.

Lemma sound_getLessonContent lessonId : sound (getLessonContent lessonId).
Proof.
  apply sound_readOnly; [apply readOnly_getLessonContent|]. intros s _.
  unfold getLessonContent. lms_unfold. by destruct (lessonContent s !! _).
Qed.

Lemma sound_getCourseIdForModule moduleId : sound (getCourseIdForModule moduleId).
Proof.
  apply sound_readOnly; [apply readOnly_getCourseIdForModule|]. intros s _.
  unfold getCourseIdForModule. lms_unfold. by destruct (modules s !! _).
Qed.

Lemma sound_getCourseIdForLesson lessonId : sound (getCourseIdForLesson lessonId).
Proof.
  apply sound_readOnly; [apply readOnly_getCourseIdForLesson|]. intros s _.
  unfold getCourseIdForLesson. lms_unfold.
  destruct (lessons s !! _) as [L|]; [|done]. by destruct (modules s !! _).
Qed.

Lemma sound_canInstructorManageCourse userId courseId :
  sound (canInstructorManageCourse userId courseId).
Proof. apply sound_bind; [apply sound_getCourse | intros; apply sound_ret]. Qed.

Lemma sound_getCourseCompletionPercent enrollmentId :
  sound (getCourseCompletionPercent enrollmentId).
Proof.
  apply sound_readOnly; [apply readOnly_getCourseCompletionPercent|]. intros s _.
  unfold getCourseCompletionPercent. lms_unfold.
  destruct (enrollments s !! _); [|done]. by case_bool_decide.
Qed.

Lemma sound_getInstructorDashboard courseId userId role :
  sound (getInstructorDashboard courseId userId role).
Proof.
  apply sound_readOnly; [apply readOnly_getInstructorDashboard|]. intros s Hs.
  apply getInstructorDashboard_no_TypeError;
    [by apply reachable_StoreInv | by apply reachable_ProgressInv].
Qed.

Lemma sound_ownedThen {A} auth (courseId : Lms string) (method : Lms A) :
  sound courseId → sound method → sound (ownedThen auth courseId method).
Proof.
  intros Hc Hm. unfold ownedThen. apply sound_bind.
  - destruct (hasRole auth Instructor); [|apply sound_ret].
    apply sound_bind; [done|]. intros c. apply sound_canInstructorManageCourse.
  - intros allowed. destruct (negb allowed); [apply sound_ret|].
    apply sound_bind; [done|]. intros row. apply sound_ret.
Qed.

(** Atomicity of the six writing methods, and of the guarded form. *)

Lemma atomic_of_op {A} (m : Lms A) (op : StoreOp) :
  (∀ s, outcome (m s) = runOp op s) → atomic m.
Proof.
  intros Hop s s' e Hrun. specialize (Hop s). rewrite Hrun in Hop. unfold outcome in Hop.
  simpl in Hop. destruct op; simpl in Hop; unfold outcome in Hop.
  - destruct (createCourse _ _ _ _ s) as [s1 r] eqn:H. apply createCourse_inv in H.
    destruct H as [(? & -> & ->)|(_ & -> & _)]; simpl in *; congruence.
  - destruct (createModule _ _ _ _ s) as [s1 r] eqn:H. apply createModule_inv in H.
    destruct H as [(? & -> & ->)|(_ & _ & -> & _)]; simpl in *; congruence.
  - destruct (createLesson _ _ _ _ s) as [s1 r] eqn:H. apply createLesson_inv in H.
    destruct H as [(? & -> & ->)|(? & _ & _ & -> & _)]; simpl in *; congruence.
  - destruct (enrollStudent _ _ _ _ s) as [s1 r] eqn:H. apply enrollStudent_inv in H.
    destruct H as [(? & -> & ->)|(_ & _ & _ & -> & _)]; simpl in *; congruence.
  - destruct (attachLessonContent _ _ _ _ _ _ _ s) as [s1 r] eqn:H.
    apply attachLessonContent_inv in H.
    destruct H as [(? & -> & ->)|(_ & -> & _)]; simpl in *; congruence.
  - destruct (markLessonProgress _ _ _ _ _ s) as [s1 r] eqn:H.
    apply markLessonProgress_inv in H.
    destruct H as [(? & -> & ->)|(? & ? & ? & ? & _ & _ & _ & _ & _ & _ & -> & _)];
      simpl in *; congruence.
Qed.

Lemma ownedThen_quiet {A} auth (courseId : Lms string) (method : Lms A) s s' r :
  readOnly courseId → atomic method →
  ownedThen auth courseId method s = (s', r) →
  (∀ row, r ≠ inr (Some row)) → s' = s.
Proof.
  intros Hc Hm. unfold ownedThen, lms_bind.
  assert (readOnly (if hasRole auth Instructor
                    then lms_bind courseId (λ c, canInstructorManageCourse (claim_sub auth) c)
                    else lms_ret true)) as Hguard.
  { destruct (hasRole auth Instructor); [|apply readOnly_ret].
    apply readOnly_bind; [done|]. intros. apply readOnly_canInstructorManageCourse. }
  specialize (Hguard s). unfold lms_bind in Hguard.
  destruct (if hasRole auth Instructor then _ else _) as [s1 [e|allowed]]; simpl in Hguard;
    subst s1; [by intros [= <- _]|].
  destruct allowed; simpl; [|by intros [= <- _]].
  destruct (method s) as [s2 [e|row]] eqn:Hrun; simpl.
  - intros [= <- _] _. by apply Hm in Hrun.
  - intros [= _ <-] Hr. by destruct (Hr row).
Qed.

(** ** The store of the running application *)

Lemma authenticate_refuses_with_401 P env amb header st r :
  authenticate P env amb header st = inl r → status r = 401.
Proof.
  unfold authenticate. destruct (bearerToken header); [|by intros [= <-]].
  destruct (jwtVerify _ _ _ _ _) as [[]|decoded]; try by intros [= <-].
  destruct (negb _); [by intros [= <-]|].
  destruct (lookupUser _ _ _) as [[? user]|]; [|by intros [= <-]].
  destruct (negb _); [by intros [= <-] | done].
Qed.

Lemma wellAnswered_json st code b :
  reachable (lmsStore st) → code ≠ 500 → wellAnswered (json st code b).
Proof. by split. Qed.

Lemma wellAnswered_guarded P env amb header roles st handler :
  reachable (lmsStore st) → (∀ auth, wellAnswered (handler auth)) →
  wellAnswered (guarded P env amb header roles st handler).
Proof.
  intros Hs Hh. unfold guarded.
  destruct (authenticate _ _ _ _ _) as [r|auth] eqn:Ha.
  - apply authenticate_refuses_with_401 in Ha. split; [done|]. simpl. lia.
  - destruct (includesRole _ _); [done | by apply wellAnswered_json].
Qed.

Lemma wellAnswered_authenticated P env amb header st handler :
  reachable (lmsStore st) → (∀ auth, wellAnswered (handler auth)) →
  wellAnswered (authenticated P env amb header st handler).
Proof.
  intros Hs Hh. unfold authenticated.
  destruct (authenticate _ _ _ _ _) as [r|auth] eqn:Ha; [|done].
  apply authenticate_refuses_with_401 in Ha. split; [done|]. simpl. lia.
Qed.

Lemma runLms_sound {A} (m : Lms A) st st' r :
  sound m → reachable (lmsStore st) → runLms m st = (st', r) →
  reachable (lmsStore st') ∧ r ≠ inl TypeError.
Proof.
  intros Hm Hs. unfold runLms. destruct (Hm _ Hs) as [Hr Hne].
  destruct (m (lmsStore st)) as [s' r']. by intros [= <- <-].
Qed.

Lemma handleLmsError_status e : e ≠ TypeError → status (handleLmsError e) ≠ 500.
Proof. destruct e as [[] ?|]; simpl; intros; [lia..|done]. Qed.

Lemma wellAnswered_withSoftLimitMeta P amb userId st code (k : SoftLimitMeta → Body) :
  reachable (lmsStore st) → code ≠ 500 →
  wellAnswered (let '(st, subscription) := withSoftLimitMeta P amb userId st in
                json st code (k subscription)).
Proof.
  intros Hs Hcode. destruct (withSoftLimitMeta_spec P amb userId st) as (_ & _ & Hstore).
  destruct (withSoftLimitMeta _ _ _ _) as [st1 subscription]. simpl in *.
  apply wellAnswered_json; [by rewrite Hstore | done].
Qed.

Lemma lmsStore_toAuthResponse P env randomId amb user st :
  lmsStore (toAuthResponse P env randomId amb user st).1 = lmsStore st.
Proof.
  unfold toAuthResponse, issueRefreshToken, drawId, getOrCreateSubscription.
  by destruct (_ !! _).
Qed.

Lemma lmsStore_findOrCreateUser P env randomId amb profile st :
  lmsStore (findOrCreateUser P env randomId amb profile st).1 = lmsStore st.
Proof.
  unfold findOrCreateUser, drawId, getOrCreateSubscription.
  destruct (lookupUser _ _ _) as [[addr user]|]; [done|]. simpl.
  by destruct (_ !! _).
Qed.

Lemma lmsStore_auth_routes P env randomId amb req st :
  authorizationOf req = None → lmsStore (handle P env randomId amb req st).1 = lmsStore st.
Proof.
  destruct req; try done; intros _; simpl.
  - unfold handleCallback. destruct (negb _); [done|].
    destruct (oauthStates st !! state); [|done].
    destruct (_ <? _); [done|]. destruct (amb_exchange amb code) as [profile|]; [|done].
    pose proof (lmsStore_findOrCreateUser P env randomId amb profile
                  (set_oauthStates (delete state) st)) as H1.
    destruct (findOrCreateUser _ _ _ _ _ _) as [st2 user].
    pose proof (lmsStore_toAuthResponse P env randomId amb user st2) as H2.
    destruct (toAuthResponse _ _ _ _ _ _) as [st3 payload]. simpl in *. congruence.
  - unfold handleRefresh. destruct (negb _); [done|].
    destruct (jwtVerify _ _ _ _ _) as [[]|decoded]; try done.
    destruct (negb _); [done|].
    destruct (sessionOf _ _) as [[sid session]|]; [|done].
    destruct (_ || _); [done|]. destruct (_ || _); [done|].
    destruct (lookupUser _ _ _) as [[addr user]|]; [|done].
    destruct (negb _); [done|].
    pose proof (lmsStore_toAuthResponse P env randomId amb user (revoke amb sid session st))
      as H2.
    destruct (toAuthResponse _ _ _ _ _ _) as [st3 payload]. simpl in *. congruence.
  - unfold handleLogout. destruct (negb _); [done|].
    destruct (jwtVerify _ _ _ _ _) as [[]|decoded]; try done.
    destruct (negb _); [done|]. simpl.
    destruct (sessionOf _ _) as [[sid session]|]; [|done]. by destruct (bool_decide _).
Qed.

Ltac not500 := unfold json; simpl; lia.

Lemma status_auth_routes P env randomId amb req st :
  authorizationOf req = None → status (handle P env randomId amb req st).2 ≠ 500.
Proof.
  destruct req; try done; intros _; simpl.
  - unfold handleCallback. destruct (negb _); [not500|].
    destruct (oauthStates st !! state); [|not500].
    destruct (_ <? _); [not500|].
    destruct (amb_exchange amb code) as [profile|]; [|not500].
    destruct (findOrCreateUser _ _ _ _ _ _) as [st2 user].
    destruct (toAuthResponse _ _ _ _ _ _) as [st3 payload]. not500.
  - unfold handleRefresh. destruct (negb _); [not500|].
    destruct (jwtVerify _ _ _ _ _) as [[]|decoded]; try (not500).
    destruct (negb _); [not500|].
    destruct (sessionOf _ _) as [[sid session]|]; [|not500].
    destruct (_ || _); [not500|]. destruct (_ || _); [not500|].
    destruct (lookupUser _ _ _) as [[addr user]|]; [|not500].
    destruct (negb _); [not500|].
    destruct (toAuthResponse _ _ _ _ _ _) as [st3 payload]. not500.
  - unfold handleLogout. destruct (negb _); [not500|].
    destruct (jwtVerify _ _ _ _ _) as [[]|decoded]; try (not500).
    destruct (negb _); not500.
Qed.

Ltac run_lms Hs tac :=
  match goal with |- wellAnswered (match runLms ?m ?st with _ => _ end) =>
    let Hsound := fresh "Hsound" in
    let Hrun := fresh "Hrun" in
    assert (sound m) as Hsound by tac;
    destruct (runLms m st) as [? ?] eqn:Hrun;
    apply (runLms_sound _ _ _ _ Hsound Hs) in Hrun as [? ?]
  end.

Ltac lms_error :=
  split; [done | apply handleLmsError_status; congruence].

(** [GET /lms/lessons/:lessonId/content-url] for an authenticated
    caller: the access test, the content, the signed URL. *)
Lemma handleContentUrl_as P env amb header lessonId st auth :
  authenticate P env amb header st = inr auth →
  handleContentUrl P env amb header lessonId st =
  (st,
   if negb (canUserAccessLessonContent lessonId (claim_sub auth)
              (default Student (claim_role auth)) (lmsStore st))
   then mkResponse 403 (ErrorBody "forbidden")
   else
     match lessonContent (lmsStore st) !! lessonId with
     | None =>
         mkResponse 404
           (LmsErrorBody NOT_FOUND ("lesson content does not exist: " +:+ lessonId))
     | Some metadata =>
         match buildSignedLessonContentUrl P (DELIVERY_BASE_URL env)
                 (DELIVERY_SIGNING_SECRET env) (amb_now amb)
                 (mkSignedUrlInput (claim_sub auth) lessonId metadata
                                   (DELIVERY_URL_TTL_SECONDS env)) with
         | inl _ => mkResponse 500 (ErrorBody "internal_error")
         | inr signed =>
             mkResponse 200 (ContentUrlBody metadata signed.1 signed.2
                               (DELIVERY_URL_TTL_SECONDS env))
         end
     end).
Proof.
  intros Hauth. unfold handleContentUrl, authenticated. rewrite Hauth.
  destruct (negb _); [done|].
  assert (getLessonContent lessonId (lmsStore st)
          = (lmsStore st,
             match lessonContent (lmsStore st) !! lessonId with
             | Some m => inr m
             | None => inl (LmsModelError NOT_FOUND
                              ("lesson content does not exist: " +:+ lessonId))
             end)) as Hrun.
  { unfold getLessonContent. lms_unfold. by destruct (_ !! _). }
  unfold runLms. rewrite Hrun, set_lmsStore_same.
  destruct (lessonContent (lmsStore st) !! lessonId) as [metadata|]; [|done].
  by destruct (buildSignedLessonContentUrl _ _ _ _ _).
Qed.

Lemma handleContentUrl_store P env amb header lessonId st :
  (handleContentUrl P env amb header lessonId st).1 = st.
Proof.
  destruct (authenticate P env amb header st) as [r|auth] eqn:Hauth.
  - unfold handleContentUrl, authenticated. by rewrite Hauth.
  - by rewrite (handleContentUrl_as _ _ _ _ _ _ auth Hauth).
Qed.

Lemma handle_wellAnswered P env randomId amb req st :
  match req with GET_lms_lesson_content_url _ _ => False | _ => True end →
  reachable (lmsStore st) → wellAnswered (handle P env randomId amb req st).
Proof.
  intros Hother Hs. destruct (authorizationOf req) as [header|] eqn:Hreq.
  2:{ split; [by rewrite lmsStore_auth_routes | by apply status_auth_routes]. }
  destruct req; try done; simpl.
  - apply wellAnswered_authenticated; [done|]. intros auth.
    destruct (lookupUser _ _ _) as [[? user]|]; [|by apply wellAnswered_json].
    destruct (getOrCreateSubscription_plan P amb (user_id user) st) as [_ Hstore].
    destruct (getOrCreateSubscription _ _ _ _) as [st1 sub]. simpl in *.
    apply wellAnswered_json; [by rewrite Hstore | lia].
  - apply wellAnswered_authenticated; [done|]. intros auth.
    destruct (getSubscriptionStatus_spec P amb (claim_sub auth) st) as [_ Hstore].
    destruct (getSubscriptionStatus _ _ _ _) as [st1 sub]. simpl in *.
    apply wellAnswered_json; [by rewrite Hstore | lia].
  - apply wellAnswered_guarded; [done|]. intros _.
    destruct (negb _); [by apply wellAnswered_json|].
    destruct (negb _); by apply wellAnswered_json.
  - unfold handleRbac. destruct area; (apply wellAnswered_guarded; [done|]); intros _;
      by apply wellAnswered_json.
  - apply wellAnswered_guarded; [done|]. intros auth.
    destruct (negb _); [by apply wellAnswered_json|].
    run_lms Hs ltac:(apply sound_createCourse).
    destruct s as [e|course]; [lms_error|].
    apply wellAnswered_withSoftLimitMeta; [done | lia].
  - apply wellAnswered_guarded; [done|]. intros auth.
    destruct (negb _); [by apply wellAnswered_json|].
    run_lms Hs ltac:(apply sound_ownedThen; [apply sound_ret | apply sound_createModule]).
    destruct s as [e|[row|]]; [lms_error | by apply wellAnswered_json..].
  - apply wellAnswered_guarded; [done|]. intros auth.
    destruct (negb _); [by apply wellAnswered_json|].
    run_lms Hs ltac:(apply sound_ownedThen;
                     [apply sound_getCourseIdForModule | apply sound_createLesson]).
    destruct s as [e|[row|]]; [lms_error | by apply wellAnswered_json..].
  - apply wellAnswered_guarded; [done|]. intros auth.
    destruct (negb _); [by apply wellAnswered_json|].
    destruct (_ && _); [by apply wellAnswered_json|].
    run_lms Hs ltac:(apply sound_enrollStudent).
    destruct s as [e|row]; [lms_error|].
    apply wellAnswered_withSoftLimitMeta; [done | lia].
  - apply wellAnswered_guarded; [done|]. intros auth.
    destruct (negb _); [by apply wellAnswered_json|].
    run_lms Hs ltac:(apply sound_markLessonProgress).
    destruct s as [e|row]; [lms_error | by apply wellAnswered_json].
  - apply wellAnswered_authenticated; [done|]. intros auth.
    run_lms Hs ltac:(
      apply sound_bind; [apply sound_getEnrollment|]; intros E;
      destruct (_ && _); [apply sound_ret|];
      apply sound_bind;
      [ destruct (hasRole auth Instructor);
          [apply sound_canInstructorManageCourse | apply sound_ret]
      | intros allowed; destruct (negb allowed); [apply sound_ret|];
        apply sound_bind; [apply sound_getCourseCompletionPercent|]; intros; apply sound_ret ]).
    destruct s as [e|[completion|]]; [lms_error | by apply wellAnswered_json..].
  - apply wellAnswered_guarded; [done|]. intros auth.
    destruct (negb _); [by apply wellAnswered_json|].
    run_lms Hs ltac:(apply sound_ownedThen;
                     [apply sound_getCourseIdForLesson | apply sound_attachLessonContent]).
    destruct s as [e|[metadata|]]; [lms_error | | by apply wellAnswered_json].
    apply wellAnswered_withSoftLimitMeta; [done | lia].
  - apply wellAnswered_authenticated; [done|]. intros auth. unfold handleVerify.
    destruct (negb _); [by apply wellAnswered_json|].
    destruct (_ && _); [by apply wellAnswered_json|].
    rewrite verifySignedLessonContentUrl_unfold. by apply wellAnswered_json.
  - apply wellAnswered_guarded; [done|]. intros auth.
    run_lms Hs ltac:(apply sound_getInstructorDashboard).
    destruct s as [e|dashboard]; [lms_error | by apply wellAnswered_json].
Qed.

Lemma content_url_or_other (req : Request) :
  match req with GET_lms_lesson_content_url _ _ => False | _ => True end ∨
  ∃ header lessonId, req = GET_lms_lesson_content_url header lessonId.
Proof. destruct req; eauto. Qed.

Lemma handle_reachable P env randomId amb req st :
  reachable (lmsStore st) → reachable (lmsStore (handle P env randomId amb req st).1).
Proof.
  intros Hs.
  destruct (content_url_or_other req) as [Hother|(header & lessonId & ->)];
    [by apply handle_wellAnswered|].
  simpl. by rewrite handleContentUrl_store.
Qed.

Lemma serve_reachable P env randomId trace st :
  reachable (lmsStore st) → reachable (lmsStore (serve P env randomId trace st)).
Proof.
  revert st. induction trace as [|[amb req] trace IH]; intros st Hs; [done|].
  simpl. apply IH. by apply handle_reachable.
Qed.

(** X15. Whatever requests the application has served since it was
    created, its store is one that the store operations reach from the
    empty store, so that the properties of reachable stores hold of it,
    and the next request is answered with status 500 in one case only:
    it asks for the signed URL of a lesson with content that the caller
    may read, and [buildSignedLessonContentUrl] throws, as
    [encodeURIComponent] does for a key with an unpaired surrogate.  No
    route runs into the [internal_error] branch of [handleLmsError]
    with what a store method throws. *)
Theorem answers_500_only_when_the_url_builder_throws (P : Platform) (env : Env)
    (randomId : nat → string) (trace : list (Ambient * Request)) (amb : Ambient)
    (req : Request) :
  let st := serve P env randomId trace initApp in
  reachable (lmsStore st) ∧
  reachable (lmsStore (handle P env randomId amb req st).1) ∧
  (status (handle P env randomId amb req st).2 = 500 ↔ urlBuilderThrows P env amb req st).
Proof.
  intros st. assert (reachable (lmsStore st)) as Hs.
  { apply serve_reachable. apply reachable_empty. }
  split; [done|]. split; [by apply handle_reachable|].
  destruct (content_url_or_other req) as [Hother|(authorization & lessonId & ->)].
  - split.
    + intros H500. by destruct (handle_wellAnswered P env randomId amb req st Hother Hs).
    + intros (header & lessonId & _ & _ & _ & -> & _). done.
  - simpl. split.
    + destruct (authenticate P env amb authorization st) as [r|auth] eqn:Hauth.
      { unfold handleContentUrl, authenticated. rewrite Hauth. simpl.
        apply authenticate_refuses_with_401 in Hauth. lia. }
      rewrite (handleContentUrl_as _ _ _ _ _ _ auth Hauth). simpl.
      destruct (canUserAccessLessonContent _ _ _ _) eqn:Haccess; [|done]. simpl.
      destruct (lessonContent (lmsStore st) !! lessonId) as [metadata|] eqn:Hcontent; [|done].
      destruct (buildSignedLessonContentUrl _ _ _ _ _) as [error|signed] eqn:Hbuild; [|done].
      intros _. by exists authorization, lessonId, auth, metadata, error.
    + intros (header & lessonId' & auth & metadata & error & [= <- <-] & Hauth & Haccess
              & Hcontent & Hbuild).
      rewrite (handleContentUrl_as _ _ _ _ _ _ auth Hauth). simpl.
      by rewrite Haccess, Hcontent, Hbuild.
Qed.

(** A file is attached under a key with an unpaired surrogate; the
    signed URL of the lesson is then answered 500. *)
Lemma answers_500_only_when_the_url_builder_throws_witness :
  status (handle testPlatform testEnv testRandomId (testAmbient 1)
            (GET_lms_lesson_content_url (bearer demoLogin.2) "l1") demoSurrogateContent).2
  = 500.
Proof.
  pose proof (answers_500_only_when_the_url_builder_throws testPlatform testEnv testRandomId
                demoSurrogateTrace (testAmbient 1)
                (GET_lms_lesson_content_url (bearer demoLogin.2) "l1")) as (_ & _ & H).
  apply H. clear H.
  exists (bearer demoLogin.2), "l1",
    (accessClaims testEnv (testAmbient 0) (auth_user demoPayload)),
    (mkLessonContent "l1" gdrive demoSurrogateKey "gdrive-file-1" "application/pdf" 2048
                     "1767225601000"),
    URIError.
  by vm_compute.
Defined.

(** ** When the store of the application changes *)

Lemma guarded_cases P env amb header roles st handler (Q : AppState * Response → Prop) :
  (∀ r, Q (st, r)) → (∀ auth, Q (handler auth)) →
  Q (guarded P env amb header roles st handler).
Proof.
  intros Hr Hh. unfold guarded. destruct (authenticate _ _ _ _ _); [done|].
  destruct (includesRole _ _); [done | apply Hr].
Qed.

Lemma authenticated_cases P env amb header st handler (Q : AppState * Response → Prop) :
  (∀ r, Q (st, r)) → (∀ auth, Q (handler auth)) →
  Q (authenticated P env amb header st handler).
Proof. intros Hr Hh. unfold authenticated. by destruct (authenticate _ _ _ _ _). Qed.

Lemma runLms_store {A} (m : Lms A) st :
  lmsStore (runLms m st).1 = (m (lmsStore st)).1 ∧ (runLms m st).2 = (m (lmsStore st)).2.
Proof. unfold runLms. by destruct (m (lmsStore st)). Qed.

Lemma runLms_readOnly {A} (m : Lms A) st :
  readOnly m → lmsStore (runLms m st).1 = lmsStore st.
Proof. intros Hm. rewrite (proj1 (runLms_store m st)). apply Hm. Qed.

Lemma runLms_atomic {A} (m : Lms A) st st' e :
  atomic m → runLms m st = (st', inl e) → lmsStore st' = lmsStore st.
Proof.
  intros Hm Hrun. destruct (runLms_store m st) as [H1 H2]. rewrite Hrun in H1, H2.
  simpl in *. rewrite H1. destruct (m (lmsStore st)) as [s' r] eqn:Hm'. simpl in *. subst r.
  by apply Hm in Hm'.
Qed.

Lemma runLms_ownedThen {A} auth (courseId : Lms string) (method : Lms A) st st' r :
  readOnly courseId → atomic method →
  runLms (ownedThen auth courseId method) st = (st', r) →
  (∀ row, r ≠ inr (Some row)) → lmsStore st' = lmsStore st.
Proof.
  intros Hc Hm Hrun Hr. destruct (runLms_store (ownedThen auth courseId method) st) as [H1 H2].
  rewrite Hrun in H1, H2. simpl in *. rewrite H1.
  destruct (ownedThen auth courseId method (lmsStore st)) as [s' r'] eqn:Ho. simpl in *. subst r'.
  by apply (ownedThen_quiet auth courseId method _ _ r Hc Hm) in Ho.
Qed.

Lemma readOnly_completion auth enrollmentId :
  readOnly (enrollment ←' getEnrollment enrollmentId;;
            if hasRole auth Student
               && negb (bool_decide (enrollment_userId enrollment = claim_sub auth))
            then lms_ret None
            else
              allowed ←' (if hasRole auth Instructor
                          then canInstructorManageCourse (claim_sub auth)
                                 (enrollment_courseId enrollment)
                          else lms_ret true);;
              if negb allowed then lms_ret None
              else (completion ←' getCourseCompletionPercent enrollmentId;;
                    lms_ret (Some completion))).
Proof.
  apply readOnly_bind; [apply readOnly_getEnrollment|]. intros E.
  destruct (_ && _); [apply readOnly_ret|].
  apply readOnly_bind.
  - destruct (hasRole auth Instructor);
      [apply readOnly_canInstructorManageCourse | apply readOnly_ret].
  - intros allowed. destruct (negb allowed); [apply readOnly_ret|].
    apply readOnly_bind; [apply readOnly_getCourseCompletionPercent|]. intros.
    apply readOnly_ret.
Qed.

Lemma atomic_createCourse id title createdBy now : atomic (createCourse id title createdBy now).
Proof. by apply (atomic_of_op _ (OpCreateCourse id title createdBy now)). Qed.

Lemma atomic_createModule id courseId title position :
  atomic (createModule id courseId title position).
Proof. by apply (atomic_of_op _ (OpCreateModule id courseId title position)). Qed.

Lemma atomic_createLesson id moduleId title position :
  atomic (createLesson id moduleId title position).
Proof. by apply (atomic_of_op _ (OpCreateLesson id moduleId title position)). Qed.

Lemma atomic_enrollStudent id courseId userId now :
  atomic (enrollStudent id courseId userId now).
Proof. by apply (atomic_of_op _ (OpEnrollStudent id courseId userId now)). Qed.

Lemma atomic_attachLessonContent lessonId provider key fileId contentType size now :
  atomic (attachLessonContent lessonId provider key fileId contentType size now).
Proof.
  by apply (atomic_of_op _ (OpAttachLessonContent lessonId provider key fileId contentType
                              size now)).
Qed.

Lemma atomic_markLessonProgress enrollmentId lessonId actorUserId status now :
  atomic (markLessonProgress enrollmentId lessonId actorUserId status now).
Proof.
  by apply (atomic_of_op _ (OpMarkLessonProgress enrollmentId lessonId actorUserId status now)).
Qed.


(** X16. A request changes the store of the application only when it
    is answered with the success status of a writing route: 201 for
    [POST /lms/courses], [/lms/modules], [/lms/lessons],
    [/lms/enrollments] and [PUT /lms/lessons/:lessonId/content], 200
    for [PATCH /lms/progress].  The other routes, and every request
    that is refused or fails, leave all entity maps and indexes as
    they were. *)
Theorem store_changes_only_with_a_successful_write (P : Platform) (env : Env)
    (randomId : nat → string) (amb : Ambient) (req : Request) (st : AppState) :
  writeStatus req ≠ Some (status (handle P env randomId amb req st).2) →
  lmsStore (handle P env randomId amb req st).1 = lmsStore st.
Proof.
  destruct (authorizationOf req) as [header|] eqn:Hreq;
    [|intros _; by apply lmsStore_auth_routes].
  destruct req; try done; simpl.
  - intros _. apply (authenticated_cases P env amb authorization st _
                       (λ r, lmsStore r.1 = lmsStore st)); [done|]. intros auth.
    destruct (lookupUser _ _ _) as [[? user]|]; [|done].
    destruct (getOrCreateSubscription_plan P amb (user_id user) st) as [_ Hstore].
    by destruct (getOrCreateSubscription _ _ _ _) as [st1 sub].
  - intros _. apply (authenticated_cases P env amb authorization st _
                       (λ r, lmsStore r.1 = lmsStore st)); [done|]. intros auth.
    destruct (getSubscriptionStatus_spec P amb (claim_sub auth) st) as [_ Hstore].
    by destruct (getSubscriptionStatus _ _ _ _) as [st1 sub].
  - intros _. apply (guarded_cases P env amb authorization [Admin] st _
                       (λ r, lmsStore r.1 = lmsStore st)); [done|]. intros _.
    destruct (negb _); [done|]. by destruct (negb _).
  - intros _. unfold handleRbac.
    destruct area;
      by apply (guarded_cases P env amb authorization _ st _ (λ r, lmsStore r.1 = lmsStore st)).
  - apply (guarded_cases P env amb authorization _ st _
             (λ r, Some 201 ≠ Some (status r.2) → lmsStore r.1 = lmsStore st)); [done|].
    intros auth. destruct (negb _); [done|].
    destruct (runLms _ _) as [st1 [e|course]] eqn:Hrun.
    + intros _. by apply runLms_atomic in Hrun; [|apply atomic_createCourse].
    + destruct (withSoftLimitMeta _ _ _ _) as [st2 sub]. by intros [].
  - apply (guarded_cases P env amb authorization _ st _
             (λ r, Some 201 ≠ Some (status r.2) → lmsStore r.1 = lmsStore st)); [done|].
    intros auth. destruct (negb _); [done|].
    destruct (runLms _ _) as [st1 [e|[row|]]] eqn:Hrun; [| by intros [] |]; intros _;
      (eapply runLms_ownedThen; [| |exact Hrun|done]);
      [done | apply atomic_createModule | done | apply atomic_createModule].
  - apply (guarded_cases P env amb authorization _ st _
             (λ r, Some 201 ≠ Some (status r.2) → lmsStore r.1 = lmsStore st)); [done|].
    intros auth. destruct (negb _); [done|].
    destruct (runLms _ _) as [st1 [e|[row|]]] eqn:Hrun; [| by intros [] |]; intros _;
      (eapply runLms_ownedThen; [| |exact Hrun|done]);
      [apply readOnly_getCourseIdForModule | apply atomic_createLesson
      | apply readOnly_getCourseIdForModule | apply atomic_createLesson].
  - apply (guarded_cases P env amb authorization _ st _
             (λ r, Some 201 ≠ Some (status r.2) → lmsStore r.1 = lmsStore st)); [done|].
    intros auth. destruct (negb _); [done|]. destruct (_ && _); [done|].
    destruct (runLms _ _) as [st1 [e|row]] eqn:Hrun.
    + intros _. by apply runLms_atomic in Hrun; [|apply atomic_enrollStudent].
    + destruct (withSoftLimitMeta _ _ _ _) as [st2 sub]. by intros [].
  - apply (guarded_cases P env amb authorization _ st _
             (λ r, Some 200 ≠ Some (status r.2) → lmsStore r.1 = lmsStore st)); [done|].
    intros auth. destruct (negb _); [done|].
    destruct (runLms _ _) as [st1 [e|row]] eqn:Hrun.
    + intros _. by apply runLms_atomic in Hrun; [|apply atomic_markLessonProgress].
    + by intros [].
  - intros _. apply (authenticated_cases P env amb authorization st _
                       (λ r, lmsStore r.1 = lmsStore st)); [done|]. intros auth.
    match goal with |- context [runLms ?m st] =>
      pose proof (runLms_readOnly m st (readOnly_completion auth enrollmentId)) as Hro;
      destruct (runLms m st) as [st1 [e|[completion|]]] end; done.
  - apply (guarded_cases P env amb authorization _ st _
             (λ r, Some 201 ≠ Some (status r.2) → lmsStore r.1 = lmsStore st)); [done|].
    intros auth. destruct (negb _); [done|].
    destruct (runLms _ _) as [st1 [e|[metadata|]]] eqn:Hrun.
    + intros _. eapply runLms_ownedThen; [| |exact Hrun|done];
        [apply readOnly_getCourseIdForLesson | apply atomic_attachLessonContent].
    + destruct (withSoftLimitMeta _ _ _ _) as [st2 sub]. by intros [].
    + intros _. eapply runLms_ownedThen; [| |exact Hrun|done];
        [apply readOnly_getCourseIdForLesson | apply atomic_attachLessonContent].
  - intros _. by rewrite handleContentUrl_store.
  - intros _. apply (authenticated_cases P env amb authorization st _
                       (λ r, lmsStore r.1 = lmsStore st)); [done|]. intros auth.
    unfold handleVerify. destruct (negb _); [done|]. destruct (_ && _); [done|].
    by destruct (verifySignedLessonContentUrl _ _ _ _).
  - intros _. apply (guarded_cases P env amb authorization _ st _
                       (λ r, lmsStore r.1 = lmsStore st)); [done|]. intros auth.
    match goal with |- context [runLms ?m st] =>
      pose proof (runLms_readOnly m st (readOnly_getInstructorDashboard _ _ _)) as Hro;
      destruct (runLms m st) as [st1 [e|dashboard]] end; done.
Qed.

Lemma store_changes_only_with_a_successful_write_witness :
  lmsStore (handle testPlatform testEnv testRandomId (testAmbient 1)
              (POST_lms_modules (bearer demoInstructor.2) "m1" "no-such-course" "Basics" 1)
              demoInstructor.1).1 = lmsStore demoInstructor.1.
Proof.
  apply (store_changes_only_with_a_successful_write testPlatform testEnv testRandomId).
  vm_compute. discriminate.
Defined.

(** ** Ownership and self-service *)

Lemma guarded_as P env amb header st auth role roles handler :
  authenticate P env amb header st = inr auth →
  claim_role auth = Some role → role ∈ roles →
  guarded P env amb header roles st handler = handler auth.
Proof.
  intros Hauth Hrole Hin. apply guarded_allowed; [done|].
  unfold includesRole. rewrite Hrole. by apply bool_decide_eq_true.
Qed.

Lemma authenticated_as P env amb header st auth handler :
  authenticate P env amb header st = inr auth →
  authenticated P env amb header st handler = handler auth.
Proof. intros Hauth. unfold authenticated. by rewrite Hauth. Qed.

Lemma runLms_unchanged {A} (m : Lms A) st r :
  m (lmsStore st) = (lmsStore st, r) → runLms m st = (st, r).
Proof. intros H. unfold runLms. rewrite H. by rewrite set_lmsStore_same. Qed.

Lemma canInstructorManageCourse_run userId courseId C s :
  courses s !! courseId = Some C →
  canInstructorManageCourse userId courseId s =
    (s, inr (bool_decide (course_createdBy C = userId))).
Proof. intros HC. unfold canInstructorManageCourse, getCourse. lms_unfold. by rewrite HC. Qed.

Lemma ownedThen_foreign {A} st auth (courseId : Lms string) (method : Lms A) c C :
  claim_role auth = Some Instructor →
  courseId (lmsStore st) = (lmsStore st, inr c) →
  courses (lmsStore st) !! c = Some C → course_createdBy C ≠ claim_sub auth →
  runLms (ownedThen auth courseId method) st = (st, inr None).
Proof.
  intros Hrole Hc HC Hne. apply runLms_unchanged. unfold ownedThen.
  rewrite (hasRole_eq _ _ _ Hrole). rewrite bool_decide_eq_true_2 by done.
  unfold lms_bind. rewrite Hc. rewrite (canInstructorManageCourse_run _ _ C _ HC).
  by rewrite (bool_decide_eq_false_2 _ Hne).
Qed.

(** X17. An instructor manages only the courses they created.  For a
    token with the role [Instructor] and an existing course whose
    [createdBy] is not the subject of the token, a well-formed request
    to add a module to the course, to add a lesson to one of its
    modules, to attach content to one of its lessons, or to read the
    completion of one of its enrollments is answered 403 [forbidden],
    the dashboard of the course is answered 403 [ACCESS_DENIED], and
    the state of the application stays as it was. *)
Theorem instructors_manage_their_own_courses (P : Platform) (env : Env) (amb : Ambient)
    (header : option string) (st : AppState) (auth : JwtClaims) (courseId : string) (C : Course) :
  authenticate P env amb header st = inr auth →
  claim_role auth = Some Instructor →
  courses (lmsStore st) !! courseId = Some C → course_createdBy C ≠ claim_sub auth →
  (∀ id title position,
     min1 id = true → min1 courseId = true → min1 title = true → 0 < position →
     handleModules P env amb header id courseId title position st =
       (st, mkResponse 403 (ErrorBody "forbidden"))) ∧
  (∀ id moduleId title position M,
     modules (lmsStore st) !! moduleId = Some M → module_courseId M = courseId →
     min1 id = true → min1 moduleId = true → min1 title = true → 0 < position →
     handleLessons P env amb header id moduleId title position st =
       (st, mkResponse 403 (ErrorBody "forbidden"))) ∧
  (∀ lessonId L M provider key fileId contentType size,
     lessons (lmsStore st) !! lessonId = Some L →
     modules (lmsStore st) !! lesson_moduleId L = Some M → module_courseId M = courseId →
     min1 key = true → min1 fileId = true → min1 contentType = true → 0 ≤ size →
     handleLessonContent P env amb header lessonId provider key fileId contentType size st =
       (st, mkResponse 403 (ErrorBody "forbidden"))) ∧
  (∀ enrollmentId E,
     enrollments (lmsStore st) !! enrollmentId = Some E → enrollment_courseId E = courseId →
     handleCompletion P env amb header enrollmentId st =
       (st, mkResponse 403 (ErrorBody "forbidden"))) ∧
  handleDashboard P env amb header courseId st =
    (st, mkResponse 403 (LmsErrorBody ACCESS_DENIED
                           "instructor can only access own course dashboard")).
Proof.
  intros Hauth Hrole HC Hne. split_and!.
  - intros id title position Hid Hc Ht Hpos. unfold handleModules.
    rewrite (guarded_as P env amb header st auth Instructor) by (done || set_solver).
    rewrite Hid, Hc, Ht, (proj2 (Z.ltb_lt _ _) Hpos). simpl.
    by rewrite (ownedThen_foreign st auth _ _ courseId C).
  - intros id moduleId title position M HM Hcourse Hid Hm Ht Hpos. unfold handleLessons.
    rewrite (guarded_as P env amb header st auth Instructor) by (done || set_solver).
    rewrite Hid, Hm, Ht, (proj2 (Z.ltb_lt _ _) Hpos). simpl.
    rewrite (ownedThen_foreign st auth _ _ courseId C); try done.
    unfold getCourseIdForModule. lms_unfold. by rewrite HM, Hcourse.
  - intros lessonId L M provider key fileId contentType size HL HM Hcourse Hk Hf Hct Hsize.
    unfold handleLessonContent.
    rewrite (guarded_as P env amb header st auth Instructor) by (done || set_solver).
    rewrite Hk, Hf, Hct, (proj2 (Z.leb_le _ _) Hsize). simpl.
    rewrite (ownedThen_foreign st auth _ _ courseId C); try done.
    unfold getCourseIdForLesson. lms_unfold. by rewrite HL, HM, Hcourse.
  - intros enrollmentId E HE Hcourse. unfold handleCompletion.
    rewrite (authenticated_as P env amb header st auth) by done.
    match goal with |- context [runLms ?m st] =>
      assert (m (lmsStore st) = (lmsStore st, inr None)) as Hrun end.
    { unfold getEnrollment. lms_unfold. rewrite HE. simpl.
      rewrite !(hasRole_eq _ _ _ Hrole).
      rewrite (bool_decide_eq_false_2 (Instructor = Student)) by done.
      rewrite (bool_decide_eq_true_2 (Instructor = Instructor)) by done. simpl.
      rewrite Hcourse, (canInstructorManageCourse_run _ _ C _ HC).
      by rewrite (bool_decide_eq_false_2 _ Hne). }
    by rewrite (runLms_unchanged _ _ _ Hrun).
  - unfold handleDashboard.
    rewrite (guarded_as P env amb header st auth Instructor) by (done || set_solver).
    match goal with |- context [runLms ?m st] =>
      assert (m (lmsStore st) =
              (lmsStore st, inl (LmsModelError ACCESS_DENIED
                                   "instructor can only access own course dashboard")))
        as Hrun end.
    { rewrite Hrole. simpl.
      unfold getInstructorDashboard, getCourse. lms_unfold. rewrite HC. simpl.
      by rewrite (bool_decide_eq_false_2 _ Hne). }
    by rewrite (runLms_unchanged _ _ _ Hrun).
Qed.

Lemma instructors_manage_their_own_courses_witness :
  let '(st, instructor, _) := demoForeignCourse in
  handleModules testPlatform testEnv (testAmbient 3) (bearer instructor)
    "m1" "c1" "Basics" 1 st = (st, mkResponse 403 (ErrorBody "forbidden")).
Proof.
  destruct demoForeignCourse as [[st instructor] student] eqn:Hdemo.
  assert (∃ auth C, authenticate testPlatform testEnv (testAmbient 3) (bearer instructor) st
                      = inr auth ∧ claim_role auth = Some Instructor ∧
                    courses (lmsStore st) !! "c1" = Some C ∧
                    course_createdBy C ≠ claim_sub auth)
    as (auth & C & Ha & Hrole & HC & Hne).
  { vm_compute in Hdemo. injection Hdemo as <- <- _. vm_compute.
    eexists _, _. split_and!; [reflexivity..|discriminate]. }
  exact (proj1 (instructors_manage_their_own_courses testPlatform testEnv (testAmbient 3)
                  (bearer instructor) st auth "c1" C Ha Hrole HC Hne)
           "m1" "Basics" 1 eq_refl eq_refl eq_refl eq_refl).
Defined.

(** X18. A student acts only for themselves.  For a token with the
    role [Student], a well-formed request to enroll another user, to
    verify a signed URL issued to another user, or to read the
    completion of the enrollment of another user is answered 403
    [forbidden], and a progress write on the enrollment of another
    user is answered 403 [ACCESS_DENIED]; the state of the application
    stays as it was. *)
Theorem students_act_for_themselves (P : Platform) (env : Env) (amb : Ambient)
    (header : option string) (st : AppState) (auth : JwtClaims) :
  authenticate P env amb header st = inr auth →
  claim_role auth = Some Student →
  (∀ id courseId userId,
     claim_sub auth ≠ userId →
     min1 id = true → min1 courseId = true → min1 userId = true →
     handleEnrollments P env amb header id courseId userId st =
       (st, mkResponse 403 (ErrorBody "forbidden"))) ∧
  (∀ params,
     claim_sub auth ≠ param_userId params →
     min1 (param_key params) = true → min1 (param_lessonId params) = true →
     min1 (param_userId params) = true → min1 (param_exp params) = true →
     min1 (param_sig params) = true →
     handleVerify P env amb header params st = (st, mkResponse 403 (ErrorBody "forbidden"))) ∧
  (∀ enrollmentId E,
     enrollments (lmsStore st) !! enrollmentId = Some E →
     enrollment_userId E ≠ claim_sub auth →
     handleCompletion P env amb header enrollmentId st =
       (st, mkResponse 403 (ErrorBody "forbidden"))) ∧
  (∀ enrollmentId lessonId newStatus E,
     enrollments (lmsStore st) !! enrollmentId = Some E →
     enrollment_userId E ≠ claim_sub auth →
     min1 enrollmentId = true → min1 lessonId = true →
     handleProgress P env amb header enrollmentId lessonId newStatus st =
       (st, mkResponse 403 (LmsErrorBody ACCESS_DENIED
                              "students can only update their own progress"))).
Proof.
  intros Hauth Hrole. split_and!.
  - intros id courseId userId Hne Hid Hc Hu. unfold handleEnrollments.
    rewrite (guarded_as P env amb header st auth Student) by (done || set_solver).
    rewrite Hid, Hc, Hu. simpl. rewrite (hasRole_eq _ _ _ Hrole).
    rewrite (bool_decide_eq_true_2 (Student = Student)) by done.
    by rewrite (bool_decide_eq_false_2 _ Hne).
  - intros params Hne Hk Hl Hu He Hs. unfold handleVerify.
    rewrite (authenticated_as P env amb header st auth) by done.
    rewrite Hk, Hl, Hu, He, Hs. simpl. rewrite (hasRole_eq _ _ _ Hrole).
    rewrite (bool_decide_eq_true_2 (Student = Student)) by done.
    by rewrite (bool_decide_eq_false_2 _ Hne).
  - intros enrollmentId E HE Hne. unfold handleCompletion.
    rewrite (authenticated_as P env amb header st auth) by done.
    match goal with |- context [runLms ?m st] =>
      assert (m (lmsStore st) = (lmsStore st, inr None)) as Hrun end.
    { unfold getEnrollment. lms_unfold. rewrite HE. simpl.
      rewrite !(hasRole_eq _ _ _ Hrole).
      rewrite (bool_decide_eq_true_2 (Student = Student)) by done.
      by rewrite (bool_decide_eq_false_2 _ Hne). }
    by rewrite (runLms_unchanged _ _ _ Hrun).
  - intros enrollmentId lessonId newStatus E HE Hne Hid Hl. unfold handleProgress.
    rewrite (guarded_as P env amb header st auth Student) by (done || set_solver).
    rewrite Hid, Hl. simpl.
    match goal with |- context [runLms ?m st] =>
      assert (m (lmsStore st) =
              (lmsStore st, inl (LmsModelError ACCESS_DENIED
                                   "students can only update their own progress")))
        as Hrun end.
    { unfold markLessonProgress. lms_unfold. rewrite HE.
      by rewrite (bool_decide_eq_false_2 _ Hne). }
    by rewrite (runLms_unchanged _ _ _ Hrun).
Qed.

Lemma students_act_for_themselves_witness :
  handleEnrollments testPlatform testEnv (testAmbient 1) (bearer demoStudent.2)
    "e1" "c1" "someone-else" demoStudent.1 =
    (demoStudent.1, mkResponse 403 (ErrorBody "forbidden")).
Proof.
  assert (∃ auth, authenticate testPlatform testEnv (testAmbient 1) (bearer demoStudent.2)
                    demoStudent.1 = inr auth ∧ claim_role auth = Some Student ∧
                  claim_sub auth ≠ "someone-else")
    as (auth & Ha & Hrole & Hne)
    by (vm_compute; eexists; split_and!; [reflexivity..|discriminate]).
  exact (proj1 (students_act_for_themselves testPlatform testEnv (testAmbient 1)
                  (bearer demoStudent.2) demoStudent.1 auth Ha Hrole)
           "e1" "c1" "someone-else" Hne eq_refl eq_refl eq_refl).
Defined.

(** ** Who changes a plan *)

Lemma samePlans_refl st : samePlans st st.
Proof. done. Qed.

Lemma samePlans_trans st1 st2 st3 : samePlans st1 st2 → samePlans st2 st3 → samePlans st1 st3.
Proof. intros H1 H2 u. by rewrite H2, H1. Qed.

Lemma samePlans_subscriptions st st' :
  subscriptionsByUserId st' = subscriptionsByUserId st → samePlans st st'.
Proof. intros H u. unfold planOf. by rewrite H. Qed.

Lemma samePlans_getOrCreateSubscription P amb userId st :
  samePlans st (getOrCreateSubscription P amb userId st).1.
Proof.
  intros u. unfold getOrCreateSubscription, planOf.
  destruct (subscriptionsByUserId st !! userId) eqn:Hsub; [done|]. simpl.
  destruct (decide (userId = u)) as [<-|Hne].
  - by rewrite lookup_insert_eq, Hsub.
  - by rewrite lookup_insert_ne.
Qed.

Lemma samePlans_getSubscriptionStatus P amb userId st :
  samePlans st (getSubscriptionStatus P amb userId st).1.
Proof.
  unfold getSubscriptionStatus.
  pose proof (samePlans_getOrCreateSubscription P amb userId st) as H.
  by destruct (getOrCreateSubscription _ _ _ _).
Qed.

Lemma samePlans_withSoftLimitMeta P amb userId st :
  samePlans st (withSoftLimitMeta P amb userId st).1.
Proof.
  unfold withSoftLimitMeta.
  pose proof (samePlans_getSubscriptionStatus P amb userId st) as H.
  by destruct (getSubscriptionStatus _ _ _ _).
Qed.

Lemma samePlans_runLms {A} (m : Lms A) st : samePlans st (runLms m st).1.
Proof. unfold runLms. by destruct (m _). Qed.

Lemma samePlans_toAuthResponse P env randomId amb user st :
  samePlans st (toAuthResponse P env randomId amb user st).1.
Proof.
  unfold toAuthResponse.
  pose proof (samePlans_getOrCreateSubscription P amb (user_id user) st) as H.
  destruct (getOrCreateSubscription _ _ _ _) as [st1 sub]. simpl in *.
  unfold issueRefreshToken, drawId. done.
Qed.

Lemma samePlans_findOrCreateUser P env randomId amb profile st :
  samePlans st (findOrCreateUser P env randomId amb profile st).1.
Proof.
  unfold findOrCreateUser. destruct (lookupUser _ _ _) as [[addr user]|]; [done|].
  unfold drawId. simpl.
  match goal with |- context [getOrCreateSubscription P amb ?u ?s] =>
    pose proof (samePlans_getOrCreateSubscription P amb u s) as H;
    destruct (getOrCreateSubscription P amb u s) as [st1 sub] end.
  done.
Qed.

Ltac same_plans :=
  repeat match goal with
  | |- samePlans ?st (match runLms ?m ?st with _ => _ end).1 =>
      let H := fresh in
      pose proof (samePlans_runLms m st) as H;
      destruct (runLms m st) as [? [?|?]]; simpl in H
  | |- samePlans ?st (let '(_, _) := withSoftLimitMeta ?P ?amb ?u ?st1 in _).1 =>
      let H := fresh in
      pose proof (samePlans_withSoftLimitMeta P amb u st1) as H;
      destruct (withSoftLimitMeta P amb u st1); simpl in H
  | |- samePlans _ (if ?b then _ else _).1 => destruct b
  | |- samePlans _ (match ?o with Some _ => _ | None => _ end).1 => destruct o
  | |- samePlans _ (match ?e with inl _ => _ | inr _ => _ end).1 => destruct e
  | |- samePlans _ (json _ _ _).1 => simpl
  | |- samePlans _ (_, _).1 => simpl
  | |- samePlans ?st ?st => apply samePlans_refl
  | H : samePlans ?a ?b |- samePlans ?a ?b => exact H
  | H1 : samePlans ?a ?b, H2 : samePlans ?b ?c |- samePlans ?a ?c =>
      exact (samePlans_trans _ _ _ H1 H2)
  end.

Lemma handle_samePlans P env randomId amb req st :
  match req with
  | POST_subscription_plan _ _ _ => True
  | _ => samePlans st (handle P env randomId amb req st).1
  end.
Proof.
  destruct req; try done; simpl.
  - unfold handleCallback. destruct (negb _); [done|].
    destruct (oauthStates st !! state); [|done].
    destruct (_ <? _); [done|]. destruct (amb_exchange amb code) as [profile|]; [|done].
    pose proof (samePlans_findOrCreateUser P env randomId amb profile
                  (set_oauthStates (delete state) st)) as H1.
    destruct (findOrCreateUser _ _ _ _ _ _) as [st2 user].
    pose proof (samePlans_toAuthResponse P env randomId amb user st2) as H2.
    destruct (toAuthResponse _ _ _ _ _ _) as [st3 payload]. simpl in *.
    intros u. by rewrite H2, H1.
  - unfold handleRefresh. destruct (negb _); [done|].
    destruct (jwtVerify _ _ _ _ _) as [[]|decoded]; try done.
    destruct (negb _); [done|].
    destruct (sessionOf _ _) as [[sid session]|]; [|done].
    destruct (_ || _); [done|]. destruct (_ || _); [done|].
    destruct (lookupUser _ _ _) as [[addr user]|]; [|done].
    destruct (negb _); [done|].
    pose proof (samePlans_toAuthResponse P env randomId amb user (revoke amb sid session st))
      as H2.
    destruct (toAuthResponse _ _ _ _ _ _) as [st3 payload]. simpl in *.
    intros u. by rewrite H2.
  - unfold handleLogout. destruct (negb _); [done|].
    destruct (jwtVerify _ _ _ _ _) as [[]|decoded]; try done.
    destruct (negb _); [done|]. simpl.
    destruct (sessionOf _ _) as [[sid session]|]; [|done]. by destruct (bool_decide _).
  - apply (authenticated_cases P env amb authorization st _ (λ r, samePlans st r.1)); [done|].
    intros auth. destruct (lookupUser _ _ _) as [[? user]|]; [|done].
    pose proof (samePlans_getOrCreateSubscription P amb (user_id user) st).
    by destruct (getOrCreateSubscription _ _ _ _).
  - apply (authenticated_cases P env amb authorization st _ (λ r, samePlans st r.1)); [done|].
    intros auth. pose proof (samePlans_getSubscriptionStatus P amb (claim_sub auth) st).
    by destruct (getSubscriptionStatus _ _ _ _).
  - unfold handleRbac.
    destruct area;
      by apply (guarded_cases P env amb authorization _ st _ (λ r, samePlans st r.1)).
  - apply (guarded_cases P env amb authorization _ st _ (λ r, samePlans st r.1)); [done|].
    intros auth. same_plans.
  - apply (guarded_cases P env amb authorization _ st _ (λ r, samePlans st r.1)); [done|].
    intros auth. same_plans.
  - apply (guarded_cases P env amb authorization _ st _ (λ r, samePlans st r.1)); [done|].
    intros auth. same_plans.
  - apply (guarded_cases P env amb authorization _ st _ (λ r, samePlans st r.1)); [done|].
    intros auth. same_plans.
  - apply (guarded_cases P env amb authorization _ st _ (λ r, samePlans st r.1)); [done|].
    intros auth. same_plans.
  - apply (authenticated_cases P env amb authorization st _ (λ r, samePlans st r.1)); [done|].
    intros auth. same_plans.
  - apply (guarded_cases P env amb authorization _ st _ (λ r, samePlans st r.1)); [done|].
    intros auth. same_plans.
  - apply (authenticated_cases P env amb authorization st _ (λ r, samePlans st r.1)); [done|].
    intros auth. same_plans.
  - apply (authenticated_cases P env amb authorization st _ (λ r, samePlans st r.1)); [done|].
    intros auth. unfold handleVerify. by repeat case_match.
  - apply (guarded_cases P env amb authorization _ st _ (λ r, samePlans st r.1)); [done|].
    intros auth. same_plans.
Qed.

(** X19. The plan of a user changes only through an accepted
    [POST /subscription/plan] for that user, that is, one whose token
    has the role [Admin] and whose [userId] is registered; the plan
    afterwards is the one of the request.  No other request changes
    the plan of anybody, whatever its body. *)
Theorem plans_change_only_by_administrators (P : Platform) (env : Env)
    (randomId : nat → string) (amb : Ambient) (req : Request) (st : AppState)
    (userId : string) :
  planOf (handle P env randomId amb req st).1 userId ≠ planOf st userId →
  ∃ header plan auth,
    req = POST_subscription_plan header userId plan ∧
    authenticate P env amb header st = inr auth ∧ claim_role auth = Some Admin ∧
    is_Some (usersById st !! userId) ∧
    planOf (handle P env randomId amb req st).1 userId = plan.
Proof.
  intros Hchanged. pose proof (handle_samePlans P env randomId amb req st) as Hsame.
  destruct req; try (by destruct Hchanged). clear Hsame. simpl in *.
  unfold handleSubscriptionPlan, guarded in *.
  destruct (authenticate P env amb authorization st) as [r|auth] eqn:Hauth; [done|].
  unfold includesRole in *. destruct (claim_role auth) as [role|] eqn:Hrole; [|done].
  case_bool_decide as Hadmin; [|done]. apply list_elem_of_singleton in Hadmin as ->.
  destruct (negb (min1 userId0)); [done|].
  destruct (negb (has (usersById st) userId0)) eqn:Hknown; [done|].
  apply negb_false_iff, has_true in Hknown. simpl in *.
  unfold planOf in Hchanged |- *. simpl in *.
  destruct (decide (userId0 = userId)) as [->|Hne].
  - exists authorization, plan, auth. by rewrite lookup_insert_eq.
  - by rewrite lookup_insert_ne in Hchanged.
Qed.

Lemma plans_change_only_by_administrators_witness :
  ∃ header plan auth,
    POST_subscription_plan (bearer demoLogin.2) "id-2" pro
      = POST_subscription_plan header "id-2" plan ∧
    authenticate testPlatform testEnv (testAmbient 1) header demoLogin.1 = inr auth ∧
    claim_role auth = Some Admin ∧
    is_Some (usersById demoLogin.1 !! "id-2") ∧
    planOf (handle testPlatform testEnv testRandomId (testAmbient 1)
              (POST_subscription_plan (bearer demoLogin.2) "id-2" pro) demoLogin.1).1 "id-2"
      = plan.
Proof.
  apply (plans_change_only_by_administrators testPlatform testEnv testRandomId).
  vm_compute. discriminate.
Defined.

(** ** Users along a run *)

Lemma sameUsers_refl st : sameUsers st st.
Proof. done. Qed.

Lemma sameUsers_trans st1 st2 st3 : sameUsers st1 st2 → sameUsers st2 st3 → sameUsers st1 st3.
Proof. intros (? & ? & ?) (? & ? & ?). unfold sameUsers. split_and!; congruence. Qed.

Lemma sameUsers_knownUser st st' userId : sameUsers st st' → knownUser st userId → knownUser st' userId.
Proof. intros (Hh & Hi & _). unfold knownUser. by rewrite Hh, Hi. Qed.

Lemma sameUsers_usersKnown st st' : sameUsers st st' → usersKnown st → usersKnown st'.
Proof.
  intros Hsame Hk addr user Hu. pose proof Hsame as (Hh & _). rewrite Hh in Hu.
  destruct (Hk addr user Hu) as [Hv Hknown]. split; [done|].
  by apply (sameUsers_knownUser st).
Qed.

Lemma sameUsers_getOrCreateSubscription P amb userId st :
  sameUsers st (getOrCreateSubscription P amb userId st).1.
Proof. unfold getOrCreateSubscription. by destruct (_ !! _). Qed.

Lemma sameUsers_getSubscriptionStatus P amb userId st :
  sameUsers st (getSubscriptionStatus P amb userId st).1.
Proof.
  unfold getSubscriptionStatus.
  pose proof (sameUsers_getOrCreateSubscription P amb userId st) as H.
  by destruct (getOrCreateSubscription _ _ _ _).
Qed.

Lemma sameUsers_withSoftLimitMeta P amb userId st :
  sameUsers st (withSoftLimitMeta P amb userId st).1.
Proof.
  unfold withSoftLimitMeta.
  pose proof (sameUsers_getSubscriptionStatus P amb userId st) as H.
  by destruct (getSubscriptionStatus _ _ _ _).
Qed.

Lemma sameUsers_runLms {A} (m : Lms A) st : sameUsers st (runLms m st).1.
Proof. unfold runLms. by destruct (m _). Qed.

Lemma toAuthResponse_issues P env randomId amb user st :
  let sid := randomId (idsDrawn st) in
  let token := jwtSign P (JWT_REFRESH_SECRET env) (refreshClaims env amb user sid) in
  let r := toAuthResponse P env randomId amb user st in
  auth_accessToken r.2 = jwtSign P (JWT_ACCESS_SECRET env) (accessClaims env amb user) ∧
  auth_refreshToken r.2 = token ∧ auth_user r.2 = user ∧
  idsDrawn r.1 = S (idsDrawn st) ∧ sameUsers st r.1 ∧
  refreshSessions r.1 = <[sid := issuedSession P env amb user sid token]> (refreshSessions st).
Proof.
  unfold toAuthResponse, issueRefreshToken, drawId, getOrCreateSubscription.
  by destruct (_ !! _).
Qed.

Ltac same_users :=
  repeat match goal with
  | |- sameUsers ?st (match runLms ?m ?st with _ => _ end).1 =>
      let H := fresh in
      pose proof (sameUsers_runLms m st) as H;
      destruct (runLms m st) as [? [?|?]]; simpl in H
  | |- sameUsers ?st (let '(_, _) := withSoftLimitMeta ?P ?amb ?u ?st1 in _).1 =>
      let H := fresh in
      pose proof (sameUsers_withSoftLimitMeta P amb u st1) as H;
      destruct (withSoftLimitMeta P amb u st1); simpl in H
  | |- sameUsers _ (if ?b then _ else _).1 => destruct b
  | |- sameUsers _ (match ?o with Some _ => _ | None => _ end).1 => destruct o
  | |- sameUsers _ (match ?e with inl _ => _ | inr _ => _ end).1 => destruct e
  | |- sameUsers _ (json _ _ _).1 => simpl
  | |- sameUsers _ (_, _).1 => simpl
  | |- sameUsers ?st ?st => apply sameUsers_refl
  | H : sameUsers ?a ?b |- sameUsers ?a ?b => exact H
  | H1 : sameUsers ?a ?b, H2 : sameUsers ?b ?c |- sameUsers ?a ?c =>
      exact (sameUsers_trans _ _ _ H1 H2)
  end.

Lemma handle_sameUsers P env randomId amb req st :
  match req with
  | GET_auth_google_callback _ _ => True
  | _ => sameUsers st (handle P env randomId amb req st).1
  end.
Proof.
  destruct req; try done; simpl.
  - unfold handleRefresh. destruct (negb _); [done|].
    destruct (jwtVerify _ _ _ _ _) as [[]|decoded]; try done.
    destruct (negb _); [done|].
    destruct (sessionOf _ _) as [[sid session]|]; [|done].
    destruct (_ || _); [done|]. destruct (_ || _); [done|].
    destruct (lookupUser _ _ _) as [[addr user]|]; [|done].
    destruct (negb _); [done|].
    pose proof (toAuthResponse_issues P env randomId amb user (revoke amb sid session st))
      as (_ & _ & _ & _ & H2 & _).
    by destruct (toAuthResponse _ _ _ _ _ _) as [st3 payload].
  - unfold handleLogout. destruct (negb _); [done|].
    destruct (jwtVerify _ _ _ _ _) as [[]|decoded]; try done.
    destruct (negb _); [done|]. simpl.
    destruct (sessionOf _ _) as [[sid session]|]; [|done]. by destruct (bool_decide _).
  - apply (authenticated_cases P env amb authorization st _ (λ r, sameUsers st r.1)); [done|].
    intros auth. destruct (lookupUser _ _ _) as [[? user]|]; [|done].
    pose proof (sameUsers_getOrCreateSubscription P amb (user_id user) st).
    by destruct (getOrCreateSubscription _ _ _ _).
  - apply (authenticated_cases P env amb authorization st _ (λ r, sameUsers st r.1)); [done|].
    intros auth. pose proof (sameUsers_getSubscriptionStatus P amb (claim_sub auth) st).
    by destruct (getSubscriptionStatus _ _ _ _).
  - apply (guarded_cases P env amb authorization _ st _ (λ r, sameUsers st r.1)); [done|].
    intros _. by repeat case_match.
  - unfold handleRbac.
    destruct area;
      by apply (guarded_cases P env amb authorization _ st _ (λ r, sameUsers st r.1)).
  - apply (guarded_cases P env amb authorization _ st _ (λ r, sameUsers st r.1)); [done|].
    intros auth. same_users.
  - apply (guarded_cases P env amb authorization _ st _ (λ r, sameUsers st r.1)); [done|].
    intros auth. same_users.
  - apply (guarded_cases P env amb authorization _ st _ (λ r, sameUsers st r.1)); [done|].
    intros auth. same_users.
  - apply (guarded_cases P env amb authorization _ st _ (λ r, sameUsers st r.1)); [done|].
    intros auth. same_users.
  - apply (guarded_cases P env amb authorization _ st _ (λ r, sameUsers st r.1)); [done|].
    intros auth. same_users.
  - apply (authenticated_cases P env amb authorization st _ (λ r, sameUsers st r.1)); [done|].
    intros auth. same_users.
  - apply (guarded_cases P env amb authorization _ st _ (λ r, sameUsers st r.1)); [done|].
    intros auth. same_users.
  - apply (authenticated_cases P env amb authorization st _ (λ r, sameUsers st r.1)); [done|].
    intros auth. same_users.
  - apply (authenticated_cases P env amb authorization st _ (λ r, sameUsers st r.1)); [done|].
    intros auth. unfold handleVerify. by repeat case_match.
  - apply (guarded_cases P env amb authorization _ st _ (λ r, sameUsers st r.1)); [done|].
    intros auth. same_users.
Qed.

Lemma findOrCreateUser_users P env randomId amb profile st :
  usersKnown st →
  let r := findOrCreateUser P env randomId amb profile st in
  usersKnown r.1 ∧ (∀ userId, knownUser st userId → knownUser r.1 userId) ∧
  user_tokenVersion r.2 = 1 ∧ knownUser r.1 (user_id r.2).
Proof.
  intros Hk. unfold findOrCreateUser, drawId.
  destruct (lookupUser _ _ _) as [[addr user]|] eqn:Hl.
  - unfold lookupUser in Hl.
    destruct (usersByEmail st !! _) as [addr'|]; [|done]. simpl in Hl.
    destruct (userHeap st !! addr') as [user'|] eqn:Hu; [|done].
    simpl in Hl. injection Hl as <- <-.
    destruct (Hk _ _ Hu) as [Hv Hknown]. simpl.
    assert (∀ userId, knownUser st userId →
              knownUser (set_userHeap (λ heap, <[addr':=
                mkUser (user_id user') (user_email user') (user_name user') (user_role user')
                       (user_createdAt user') (amb_now amb) (user_tokenVersion user')]> heap) st)
                userId) as Hmono.
    { intros userId (a & u & Hi & Ha & Hu1). unfold knownUser. simpl.
      destruct (decide (a = addr')) as [->|Hne].
      - exists addr', (mkUser (user_id user') (user_email user') (user_name user')
                          (user_role user') (user_createdAt user') (amb_now amb)
                          (user_tokenVersion user')).
        split; [exact Hi|]. split; [|exact Hv].
        apply list_lookup_insert_eq. by eapply lookup_lt_Some.
      - exists a, u. by rewrite list_lookup_insert_ne. }
    split_and!; [|done|done|by apply (Hmono (user_id user'))].
    intros a u. simpl. intros Ha.
    destruct (decide (a = addr')) as [->|Hne].
    + rewrite list_lookup_insert_eq in Ha by (by eapply lookup_lt_Some).
      injection Ha as <-. simpl. split; [done|]. by apply (Hmono (user_id user')).
    + rewrite list_lookup_insert_ne in Ha by done.
      destruct (Hk _ _ Ha) as [? ?]. split; [done|]. by apply Hmono.
  - unfold getOrCreateSubscription. simpl.
    set (user := mkUser _ _ _ _ _ _ _).
    set (st1 := set_usersById _ _).
    assert (userHeap st1 = userHeap st ++ [user]) as Hheap by done.
    assert (usersById st1 = <[randomId (idsDrawn st) := length (userHeap st)]> (usersById st))
      as Hids by done.
    assert (knownUser st1 (randomId (idsDrawn st))) as Hnew.
    { exists (length (userHeap st)), user. rewrite Hheap, Hids, lookup_insert_eq.
      split; [done|]. split; [|done]. by rewrite lookup_app_r, Nat.sub_diag. }
    assert (∀ userId, knownUser st userId → knownUser st1 userId) as Hmono.
    { intros userId (a & u & Hi & Ha & Hu1).
      destruct (decide (userId = randomId (idsDrawn st))) as [->|Hne]; [done|].
      exists a, u. rewrite Hheap, Hids, lookup_insert_ne by done.
      split; [done|]. split; [|done]. by apply lookup_app_l_Some. }
    assert (usersKnown st1) as Hk1.
    { intros a u. rewrite Hheap. intros Ha.
      apply lookup_app_Some in Ha as [Ha|[_ Ha]].
      - destruct (Hk _ _ Ha). split; [done|]. by apply Hmono.
      - apply list_lookup_singleton_Some in Ha as [_ <-]. by split. }
    destruct (subscriptionsByUserId st !! randomId (idsDrawn st));
      simpl; by split_and!.
Qed.

Lemma handle_users P env randomId amb req st :
  usersKnown st →
  let st' := (handle P env randomId amb req st).1 in
  usersKnown st' ∧ ∀ userId, knownUser st userId → knownUser st' userId.
Proof.
  intros Hk. cbv zeta.
  pose proof (handle_sameUsers P env randomId amb req st) as Hsame.
  destruct req;
    try (split; [by apply (sameUsers_usersKnown st)
                |by intros ?; apply (sameUsers_knownUser st)]).
  clear Hsame. simpl. unfold handleCallback.
  destruct (negb _); [done|]. destruct (oauthStates st !! state); [|done].
  destruct (_ <? _); [done|]. destruct (amb_exchange amb code) as [profile|]; [|done].
  set (st0 := set_oauthStates _ st).
  assert (usersKnown st0) as Hk0 by done.
  pose proof (findOrCreateUser_users P env randomId amb profile st0 Hk0)
    as (Hk1 & Hmono & _ & _).
  destruct (findOrCreateUser _ _ _ _ _ _) as [st1 user]. simpl in Hk1, Hmono.
  pose proof (toAuthResponse_issues P env randomId amb user st1) as (_ & _ & _ & _ & Hs & _).
  destruct (toAuthResponse _ _ _ _ _ _) as [st2 payload]. simpl in *.
  split; [by apply (sameUsers_usersKnown st1)|].
  intros ? H. apply (sameUsers_knownUser st1); [done|]. by apply Hmono.
Qed.

Lemma serve_users P env randomId trace st :
  usersKnown st →
  let st' := serve P env randomId trace st in
  usersKnown st' ∧ ∀ userId, knownUser st userId → knownUser st' userId.
Proof.
  revert st. induction trace as [|[amb req] trace IH]; intros st Hk; [done|].
  simpl. destruct (handle_users P env randomId amb req st Hk) as [Hk1 Hm1].
  destruct (IH _ Hk1) as [Hk2 Hm2]. split; [done|]. intros userId H. by apply Hm2, Hm1.
Qed.

Lemma usersKnown_initApp : usersKnown initApp.
Proof. by intros addr user. Qed.

Lemma issuesTokens_user P env randomId amb st st' payload :
  usersKnown st → issuesTokens P env randomId amb st st' payload →
  usersKnown st' ∧ knownUser st' (user_id (auth_user payload)) ∧
  user_tokenVersion (auth_user payload) = 1 ∧
  auth_accessToken payload
    = jwtSign P (JWT_ACCESS_SECRET env) (accessClaims env amb (auth_user payload)).
Proof.
  intros Hk [(code & state & H)|(refreshToken & H)].
  - unfold handleCallback in H.
    destruct (negb _); [done|]. destruct (oauthStates st !! state); [|done].
    destruct (_ <? _); [done|]. destruct (amb_exchange amb code) as [profile|]; [|done].
    set (st0 := set_oauthStates _ st) in H.
    assert (usersKnown st0) as Hk0 by done.
    pose proof (findOrCreateUser_users P env randomId amb profile st0 Hk0)
      as (Hk1 & _ & Hv & Hknown).
    destruct (findOrCreateUser _ _ _ _ _ _) as [st1 user]. simpl in Hk1, Hv, Hknown.
    pose proof (toAuthResponse_issues P env randomId amb user st1)
      as (Ha & _ & Hu & _ & Hs & _).
    destruct (toAuthResponse _ _ _ _ _ _) as [st2 payload']. simpl in *.
    injection H as <- <-. rewrite Hu.
    split_and!; [by apply (sameUsers_usersKnown st1)|by apply (sameUsers_knownUser st1)
                |done|done].
  - unfold handleRefresh in H. destruct (negb _); [done|].
    destruct (jwtVerify _ _ _ _ _) as [[]|decoded]; try done.
    destruct (negb _); [done|].
    destruct (sessionOf _ _) as [[sid session]|]; [|done].
    destruct (_ || _); [done|]. destruct (_ || _); [done|].
    destruct (lookupUser _ _ _) as [[addr user]|] eqn:Hl; [|done].
    destruct (negb _); [done|].
    unfold lookupUser in Hl. destruct (usersById st !! _) as [a|]; [|done]. simpl in Hl.
    destruct (userHeap st !! a) as [u|] eqn:Hu0; [|done]. simpl in Hl.
    injection Hl as <- <-. destruct (Hk _ _ Hu0) as [Hv Hknown].
    pose proof (toAuthResponse_issues P env randomId amb u (revoke amb sid session st))
      as (Ha & _ & Hu & _ & Hs & _).
    destruct (toAuthResponse _ _ _ _ _ _) as [st2 payload']. simpl in *.
    injection H as <- <-. rewrite Hu.
    split_and!; [by apply (sameUsers_usersKnown (revoke amb sid session st))
                |by apply (sameUsers_knownUser (revoke amb sid session st))|done|done].
Qed.

(** X20. The access token of a login or of a rotation is accepted by
    [authenticate] at every later request, whatever requests were
    served in between, a logout included, until the clock of
    [jsonwebtoken] reaches its expiry, [ACCESS_TOKEN_TTL_SECONDS] after
    the token was signed; from then on it is answered 401
    [token_expired].  The hypothesis on [jwtDecode] says that the
    library reads back from this token the claims that it signed. *)
Theorem access_token_lifetime (P : Platform) (env : Env) (randomId : nat → string)
    (trace0 trace : list (Ambient * Request)) (amb amb' : Ambient)
    (st1 : AppState) (payload : AuthResponse) :
  issuesTokens P env randomId amb (serve P env randomId trace0 initApp) st1 payload →
  auth_accessToken payload ≠ EmptyString →
  jwtDecode P (JWT_ACCESS_SECRET env) (auth_accessToken payload)
    = Some (accessClaims env amb (auth_user payload)) →
  authenticate P env amb' (Some ("Bearer " +:+ auth_accessToken payload))
               (serve P env randomId trace st1)
  = if amb_wallSec amb + ACCESS_TOKEN_TTL_SECONDS env <=? amb_wallSec amb'
    then inl (mkResponse 401 (ErrorBody "token_expired"))
    else inr (accessClaims env amb (auth_user payload)).
Proof.
  intros Hissued Hne Hdecode.
  destruct (serve_users P env randomId trace0 initApp usersKnown_initApp) as [Hk0 _].
  destruct (issuesTokens_user P env randomId amb _ st1 payload Hk0 Hissued)
    as (Hk1 & Hknown & Hv & _).
  destruct (serve_users P env randomId trace st1 Hk1) as [_ Hmono].
  destruct (Hmono _ Hknown) as (addr & user & Hi & Ha & Hu).
  unfold authenticate. rewrite bearerToken_Bearer.
  unfold min1. rewrite bool_decide_eq_false_2 by done. simpl.
  unfold jwtVerify. rewrite Hdecode. simpl.
  destruct (_ <=? _); [done|].
  rewrite !bool_decide_eq_true_2 by done. simpl.
  unfold lookupUser. rewrite Hi. simpl. rewrite Ha. simpl.
  rewrite bool_decide_eq_true_2; [done|]. by rewrite Hu, Hv.
Qed.

Lemma access_token_lifetime_witness :
  authenticate testPlatform testEnv (testAmbient 1)
    (Some ("Bearer " +:+ auth_accessToken demoPayload))
    (serve testPlatform testEnv testRandomId
       [(testAmbient 1, POST_auth_logout (auth_refreshToken demoPayload))] demoLogin.1)
  = inr (accessClaims testEnv (testAmbient 0) (auth_user demoPayload)) ∧
  authenticate testPlatform testEnv (testAmbient 2)
    (Some ("Bearer " +:+ auth_accessToken demoPayload))
    (serve testPlatform testEnv testRandomId [] demoLogin.1)
  = inl (mkResponse 401 (ErrorBody "token_expired")).
Proof.
  set (payload := demoPayload).
  assert (issuesTokens testPlatform testEnv testRandomId (testAmbient 0)
            (serve testPlatform testEnv testRandomId
               [(testAmbient 0, GET_auth_google_start)] initApp)
            demoLogin.1 payload) as Hissued.
  { left. exists "admin-code", "id-1". by vm_compute. }
  assert (auth_accessToken payload ≠ EmptyString) as Hne by (by vm_compute).
  assert (jwtDecode testPlatform (JWT_ACCESS_SECRET testEnv) (auth_accessToken payload)
          = Some (accessClaims testEnv (testAmbient 0) (auth_user payload))) as Hdecode
    by (by vm_compute).
  split.
  - exact (access_token_lifetime testPlatform testEnv testRandomId _ _ _ (testAmbient 1)
             _ _ Hissued Hne Hdecode).
  - exact (access_token_lifetime testPlatform testEnv testRandomId _ [] _ (testAmbient 2)
             _ _ Hissued Hne Hdecode).
Defined.

(** ** The base URL of the delivery *)

Lemma stripTrailingSlash_slash (base : string) : stripTrailingSlash (base +:+ "/") = base.
Proof.
  induction base as [|c base IH]; [done|].
  rewrite StrFacts.append_cons. simpl. rewrite IH.
  by destruct base.
Qed.

Lemma stripTrailingSlash_other (base : string) :
  (∀ b, base ≠ b +:+ "/") → stripTrailingSlash base = base.
Proof.
  induction base as [|c base IH]; [done|]. intros Hne. simpl.
  destruct base as [|c' base].
  - rewrite bool_decide_eq_false_2; [done|]. intros H. by apply (Hne EmptyString).
  - rewrite IH; [done|]. intros b Hb. apply (Hne (String c b)).
    by rewrite StrFacts.append_cons, Hb.
Qed.

(** X21. [buildSignedLessonContentUrl] drops one slash from the end of
    the base URL: a base written with a slash at its end gives the URL
    and the expiry of the same base written without it. *)
Theorem base_url_may_end_with_a_slash (P : Platform) (base signingSecret : string)
    (nowMs : Z) (input : SignedUrlInput) :
  (∀ b, base ≠ b +:+ "/") →
  buildSignedLessonContentUrl P (base +:+ "/") signingSecret nowMs input
  = buildSignedLessonContentUrl P base signingSecret nowMs input.
Proof.
  intros Hne. unfold buildSignedLessonContentUrl.
  by rewrite stripTrailingSlash_slash, stripTrailingSlash_other.
Qed.

Lemma base_url_may_end_with_a_slash_witness :
  buildSignedLessonContentUrl testPlatform ("https://files.navcloud.example/content" +:+ "/")
    "secret" 0 demoSignedUrlInput
  = buildSignedLessonContentUrl testPlatform "https://files.navcloud.example/content"
    "secret" 0 demoSignedUrlInput.
Proof.
  apply (base_url_may_end_with_a_slash testPlatform "https://files.navcloud.example/content").
  intros b Hb. pose proof (stripTrailingSlash_slash b) as Hstrip.
  rewrite <- Hb in Hstrip. simpl in Hstrip. subst b.
  apply (f_equal String.length) in Hb. by vm_compute in Hb.
Defined.

(** ** One user for each email *)

Lemma sameIdentity_refl user : sameIdentity user user.
Proof. done. Qed.

Lemma sameIdentity_trans u1 u2 u3 : sameIdentity u1 u2 → sameIdentity u2 u3 → sameIdentity u1 u3.
Proof.
  intros (? & ? & ? & ? & ? & ?) (? & ? & ? & ? & ? & ?).
  unfold sameIdentity. split_and!; congruence.
Qed.

Lemma usersStable_refl st : usersStable st st.
Proof. intros email user H. by exists user. Qed.

Lemma usersStable_trans st1 st2 st3 : usersStable st1 st2 → usersStable st2 st3 → usersStable st1 st3.
Proof.
  intros H12 H23 email user H. destruct (H12 _ _ H) as (u2 & H2 & Hi2).
  destruct (H23 _ _ H2) as (u3 & H3 & Hi3). exists u3. split; [done|].
  by apply (sameIdentity_trans _ u2).
Qed.

Lemma sameUsers_usersStable st st' : sameUsers st st' → usersStable st st'.
Proof.
  intros (Hh & _ & He) email user (addr & Ha & Hu). exists user. split; [|done].
  exists addr. by rewrite Hh, He.
Qed.

Lemma lookupUser_userOfEmail st email :
  match lookupUser st (usersByEmail st) email with
  | Some (_, user) => userOfEmail st email user
  | None => ∀ user, ¬ userOfEmail st email user
  end.
Proof.
  unfold lookupUser, userOfEmail. destruct (usersByEmail st !! email) as [addr|]; simpl.
  - destruct (userHeap st !! addr) as [user|] eqn:Hu; simpl; [by exists addr|].
    intros user (addr' & [= <-] & Hu'). congruence.
  - by intros user (addr & ? & _).
Qed.

(** What [findOrCreateUser] does for the email of a profile: the user
    that is registered under its lower-cased form is returned with a
    new [updatedAt]; a user is created when there is none. *)
Lemma findOrCreateUser_email P env randomId amb profile st :
  let email := toLowerCase P (profile_email profile) in
  let r := findOrCreateUser P env randomId amb profile st in
  usersStable st r.1 ∧ userOfEmail r.1 email r.2 ∧
  (∀ user, userOfEmail st email user →
           sameIdentity user r.2 ∧ length (userHeap r.1) = length (userHeap st)).
Proof.
  intros email. unfold findOrCreateUser, drawId. fold email.
  pose proof (lookupUser_userOfEmail st email) as Hl.
  destruct (lookupUser _ _ _) as [[addr user]|] eqn:Hlook.
  - unfold lookupUser in Hlook.
    destruct (usersByEmail st !! email) as [addr'|] eqn:He; [|done]. simpl in Hlook.
    destruct (userHeap st !! addr') as [user'|] eqn:Hu; [|done].
    simpl in Hlook. injection Hlook as <- <-. simpl.
    assert (addr' < length (userHeap st))%nat as Hlt by (by eapply lookup_lt_Some).
    split_and!.
    + intros email0 user0 (a & Ha & Hu0). unfold userOfEmail. simpl.
      destruct (decide (a = addr')) as [->|Hne].
      * eexists. split; [exists addr'; split; [done|by apply list_lookup_insert_eq]|].
        assert (user0 = user') as -> by congruence. done.
      * exists user0. split; [|done]. exists a. by rewrite list_lookup_insert_ne.
    + exists addr'. simpl. split; [done|]. by apply list_lookup_insert_eq.
    + intros user0 (a & Ha & Hu0). simpl. rewrite length_insert.
      assert (a = addr') as -> by congruence. assert (user0 = user') as -> by congruence.
      done.
  - unfold getOrCreateSubscription. simpl.
    set (user := mkUser _ _ _ _ _ _ _).
    set (st1 := set_usersById _ _).
    assert (usersStable st st1 ∧ userOfEmail st1 email user) as [Hstable Hnew].
    { split.
      - intros email0 user0 (a & Ha & Hu0). exists user0. split; [|done]. exists a. simpl.
        destruct (decide (email0 = email)) as [->|Hne].
        + exfalso. apply (Hl user0). by exists a.
        + rewrite lookup_insert_ne by done. split; [done|]. by apply lookup_app_l_Some.
      - exists (length (userHeap st)). simpl. rewrite lookup_insert_eq. split; [done|].
        by rewrite lookup_app_r, Nat.sub_diag. }
    destruct (subscriptionsByUserId st !! randomId (idsDrawn st)); simpl;
      (split_and!; [done|done|]); intros user0 H0; by destruct (Hl user0).
Qed.

Lemma handle_usersStable P env randomId amb req st :
  usersStable st (handle P env randomId amb req st).1.
Proof.
  pose proof (handle_sameUsers P env randomId amb req st) as Hsame.
  destruct req; try by apply sameUsers_usersStable.
  clear Hsame. simpl. unfold handleCallback.
  destruct (negb _); [apply usersStable_refl|].
  destruct (oauthStates st !! state); [|apply usersStable_refl].
  destruct (_ <? _); [by apply sameUsers_usersStable|].
  destruct (amb_exchange amb code) as [profile|]; [|by apply sameUsers_usersStable].
  set (st0 := set_oauthStates _ st).
  pose proof (findOrCreateUser_email P env randomId amb profile st0) as (Hstable & _ & _).
  destruct (findOrCreateUser _ _ _ _ _ _) as [st1 user]. simpl in Hstable.
  pose proof (toAuthResponse_issues P env randomId amb user st1) as (_ & _ & _ & _ & Hs & _).
  destruct (toAuthResponse _ _ _ _ _ _) as [st2 payload]. simpl in *.
  apply (usersStable_trans _ st0); [by apply sameUsers_usersStable|].
  apply (usersStable_trans _ st1); [done|]. by apply sameUsers_usersStable.
Qed.

Lemma serve_usersStable P env randomId trace st :
  usersStable st (serve P env randomId trace st).
Proof.
  revert st. induction trace as [|[amb req] trace IH]; intros st; [apply usersStable_refl|].
  simpl. eapply usersStable_trans; [apply handle_usersStable | apply IH].
Qed.

(** The user of a login. *)
Lemma handleCallback_user P env randomId amb code state st st' payload :
  handleCallback P env randomId amb code state st = (st', mkResponse 200 (AuthBody payload)) →
  ∃ profile st0,
    amb_exchange amb code = Some profile ∧ sameUsers st st0 ∧
    let r := findOrCreateUser P env randomId amb profile st0 in
    auth_user payload = r.2 ∧ sameUsers r.1 st'.
Proof.
  unfold handleCallback. destruct (negb _); [done|].
  destruct (oauthStates st !! state); [|done].
  destruct (_ <? _); [done|]. destruct (amb_exchange amb code) as [profile|]; [|done].
  set (st0 := set_oauthStates _ st). intros H. exists profile, st0.
  split; [done|]. split; [done|].
  destruct (findOrCreateUser _ _ _ _ _ _) as [st1 user].
  pose proof (toAuthResponse_issues P env randomId amb user st1) as (_ & _ & Hu & _ & Hs & _).
  destruct (toAuthResponse _ _ _ _ _ _) as [st2 payload']. simpl in *.
  by injection H as <- <-.
Qed.

(** X22. One user for each lower-cased email: when a Google account
    logs in again, after whatever requests, with an email that
    lower-cases to that of an earlier login, the answer carries the
    user of the earlier login, with its id, role and creation time, and
    no user is created. *)
Theorem one_user_per_email (P : Platform) (env : Env) (randomId : nat → string)
    (amb amb' : Ambient) (code state code' state' : string)
    (trace : list (Ambient * Request)) (st st1 st2 : AppState)
    (payload payload' : AuthResponse) (profile profile' : GoogleProfile) :
  handleCallback P env randomId amb code state st
    = (st1, mkResponse 200 (AuthBody payload)) →
  handleCallback P env randomId amb' code' state' (serve P env randomId trace st1)
    = (st2, mkResponse 200 (AuthBody payload')) →
  amb_exchange amb code = Some profile →
  amb_exchange amb' code' = Some profile' →
  toLowerCase P (profile_email profile') = toLowerCase P (profile_email profile) →
  sameIdentity (auth_user payload) (auth_user payload') ∧
  length (userHeap st2) = length (userHeap (serve P env randomId trace st1)).
Proof.
  intros H1 H2 Hp Hp' Hemail.
  apply handleCallback_user in H1 as (p & st0 & Hp0 & Hs0 & Hu & Hs1).
  apply handleCallback_user in H2 as (p' & st0' & Hp0' & Hs0' & Hu' & Hs1').
  assert (p = profile) as -> by congruence. assert (p' = profile') as -> by congruence.
  pose proof (findOrCreateUser_email P env randomId amb profile st0) as (_ & Hreg & _).
  pose proof (findOrCreateUser_email P env randomId amb' profile' st0') as (_ & _ & Hold).
  simpl in Hu, Hs1, Hu', Hs1'.
  destruct (findOrCreateUser P env randomId amb profile st0) as [sa ua].
  destruct (findOrCreateUser P env randomId amb' profile' st0') as [sb ub].
  simpl in *. rewrite Hu, Hu'.
  assert (usersStable sa st0') as Hstable.
  { apply (usersStable_trans _ st1); [by apply sameUsers_usersStable|].
    apply (usersStable_trans _ (serve P env randomId trace st1));
      [apply serve_usersStable | by apply sameUsers_usersStable]. }
  destruct (Hstable _ _ Hreg) as (u & Hu0 & Hid). rewrite <- Hemail in Hu0.
  destruct (Hold u Hu0) as [Hid' Hlen]. split; [by apply (sameIdentity_trans _ u)|].
  destruct Hs0' as (Hh & _), Hs1' as (Hh' & _). by rewrite Hh', Hlen, Hh.
Qed.


Lemma one_user_per_email_witness :
  sameIdentity (auth_user demoPayload) (auth_user (default demoPayload demoSecondLogin.2)) ∧
  length (userHeap demoSecondLogin.1)
  = length (userHeap (serve testPlatform testEnv testRandomId
                        [(testAmbient 20, GET_auth_google_start)] demoLogin.1)).
Proof.
  assert (handleCallback testPlatform testEnv testRandomId (testAmbient 0) "admin-code" "id-1"
            (serve testPlatform testEnv testRandomId
               [(testAmbient 0, GET_auth_google_start)] initApp)
          = (demoLogin.1, mkResponse 200 (AuthBody demoPayload))) as H1 by (by vm_compute).
  assert (handleCallback testPlatform testEnv testRandomId (testAmbient 20) "admin-code" "id-4"
            (serve testPlatform testEnv testRandomId
               [(testAmbient 20, GET_auth_google_start)] demoLogin.1)
          = (demoSecondLogin.1,
             mkResponse 200 (AuthBody (default demoPayload demoSecondLogin.2)))) as H2
    by (by vm_compute).
  exact (one_user_per_email testPlatform testEnv testRandomId _ _ _ _ _ _ _ _ _ _ _ _
           (mkProfile "admin@navcloud.io" "Admin User")
           (mkProfile "admin@navcloud.io" "Admin User") H1 H2 eq_refl eq_refl eq_refl).
Defined.

(** ** From the signed URL to its verification *)

(** X23. The two delivery routes compose.  When [GET
    /lms/lessons/:lessonId/content-url] answers 200, the state is as it
    was, the metadata are those attached to the lesson, and the URL is
    the delivery base without its trailing slash, the provider, the
    percent-encoded key and the query [fileId], [lessonId], [uid],
    [exp] and [sig] of the record that is signed for the caller; and
    [POST /lms/content-url/verify] with the fields of that record,
    sent at any state by the same user or by a caller who is not a
    student, answers 200 with [valid] true before the epoch second of
    the expiry and false from then on.  The fields are not empty, as
    the schema of the route demands, and [Number] reads back the
    decimal numeral of the expiry. *)
Theorem content_url_is_accepted_by_verify (P : Platform) (env : Env)
    (randomId : nat → string) (amb amb' : Ambient) (header header' : option string)
    (lessonId : string) (st st1 st' : AppState) (auth auth' : JwtClaims)
    (metadata : LessonContentMetadata) (url expiresAt : string) (ttl : Z) :
  let input := mkSignedUrlInput (claim_sub auth) lessonId metadata
                 (DELIVERY_URL_TTL_SECONDS env) in
  let params := signedParams P (DELIVERY_SIGNING_SECRET env) (amb_now amb) input in
  let expiry := epochSecond (amb_now amb) + DELIVERY_URL_TTL_SECONDS env in
  authenticate P env amb header st = inr auth →
  handle P env randomId amb (GET_lms_lesson_content_url header lessonId) st
    = (st1, mkResponse 200 (ContentUrlBody metadata url expiresAt ttl)) →
  authenticate P env amb' header' st' = inr auth' →
  (hasRole auth' Student = true → claim_sub auth' = claim_sub auth) →
  min1 (param_key params) && min1 (param_lessonId params) && min1 (param_userId params)
    && min1 (param_exp params) && min1 (param_sig params) = true →
  toNumber P (js_String expiry) = JsFinite (inject_Z expiry) →
  (st1 = st ∧ lessonContent (lmsStore st) !! lessonId = Some metadata ∧
   url = stripTrailingSlash (DELIVERY_BASE_URL env) +:+ "/"
         +:+ providerName (param_provider params) +:+ "/"
         +:+ percentEncode (param_key params)
         +:+ "?fileId=" +:+ percentEncode (content_fileId metadata)
         +:+ "&lessonId=" +:+ percentEncode (param_lessonId params)
         +:+ "&uid=" +:+ percentEncode (param_userId params)
         +:+ "&exp=" +:+ param_exp params +:+ "&sig=" +:+ param_sig params ∧
   param_provider params = content_provider metadata ∧
   param_key params = content_key metadata ∧
   param_lessonId params = lessonId ∧ param_userId params = claim_sub auth ∧
   param_exp params = js_String expiry ∧
   expiresAt = toISOString P (expiry * 1000) ∧
   ttl = DELIVERY_URL_TTL_SECONDS env) ∧
  handle P env randomId amb' (POST_lms_content_url_verify header' params) st'
  = (st', mkResponse 200 (ValidBody (bool_decide (epochSecond (amb_now amb') < expiry)))).
Proof.
  intros input params expiry Hauth Hurl Hauth' Hsame Hfields Hnum. split.
  - simpl in Hurl. rewrite (handleContentUrl_as _ _ _ _ _ _ auth Hauth) in Hurl.
    destruct (negb _); [done|].
    destruct (lessonContent (lmsStore st) !! lessonId) as [m|]; [|done].
    pose proof (buildSignedLessonContentUrl_cases P (DELIVERY_BASE_URL env)
                  (DELIVERY_SIGNING_SECRET env)
                  (mkSignedUrlInput (claim_sub auth) lessonId m (DELIVERY_URL_TTL_SECONDS env))
                  (amb_now amb)) as Hbuild.
    cbv zeta in Hbuild. rewrite Hbuild in Hurl. clear Hbuild.
    match type of Hurl with context [if ?b then inr _ else inl _] => destruct b end;
      [|done].
    injection Hurl as <- <- <- <- <-. by split_and!.
  - simpl. unfold handleVerify. rewrite (authenticated_as _ _ _ _ _ _ _ Hauth').
    rewrite Hfields. cbn [negb].
    assert (hasRole auth' Student && negb (bool_decide (claim_sub auth' = param_userId params))
            = false) as ->.
    { destruct (hasRole auth' Student); [|done]. simpl.
      rewrite bool_decide_eq_true_2; [done|]. by apply Hsame. }
    rewrite verifySignedLessonContentUrl_unfold. unfold json. do 3 f_equal.
    change (param_exp params) with (js_String expiry). rewrite Hnum.
    rewrite js_le_integers. cbn [isFinite andb].
    rewrite (bool_decide_eq_true_2 (param_sig params = _)) by done.
    rewrite andb_true_r. apply eq_true_iff_eq.
    rewrite negb_true_iff, bool_decide_eq_false, bool_decide_eq_true. lia.
Qed.

Lemma content_url_is_accepted_by_verify_witness :
  handle testPlatform testEnv testRandomId (testAmbient 1)
    (POST_lms_content_url_verify (bearer demoLogin.2)
       (signedParams testPlatform (DELIVERY_SIGNING_SECRET testEnv) (amb_now (testAmbient 1))
          (mkSignedUrlInput "id-2" "l1"
             (mkLessonContent "l1" gdrive "courses/c1/m1/l1.pdf" "gdrive-file-1"
                              "application/pdf" 2048 "1767225601000")
             (DELIVERY_URL_TTL_SECONDS testEnv))))
    demoDelivery
  = (demoDelivery, mkResponse 200 (ValidBody true)).
Proof.
  set (metadata := mkLessonContent "l1" gdrive "courses/c1/m1/l1.pdf" "gdrive-file-1"
                                   "application/pdf" 2048 "1767225601000").
  set (auth := accessClaims testEnv (testAmbient 0) (auth_user demoPayload)).
  set (params := signedParams testPlatform (DELIVERY_SIGNING_SECRET testEnv)
                   (amb_now (testAmbient 1))
                   (mkSignedUrlInput "id-2" "l1" metadata (DELIVERY_URL_TTL_SECONDS testEnv))).
  set (url := "https://files.navcloud.example/content/gdrive/"
              +:+ percentEncode (param_key params)
              +:+ "?fileId=gdrive-file-1&lessonId=l1&uid=id-2&exp=" +:+ param_exp params
              +:+ "&sig=" +:+ param_sig params).
  assert (authenticate testPlatform testEnv (testAmbient 1) (bearer demoLogin.2) demoDelivery
          = inr auth) as Hauth by (by vm_compute).
  assert (handle testPlatform testEnv testRandomId (testAmbient 1)
            (GET_lms_lesson_content_url (bearer demoLogin.2) "l1") demoDelivery
          = (demoDelivery, mkResponse 200 (ContentUrlBody metadata url "1767225721000" 120)))
    as Hurl by (by vm_compute).
  exact (proj2 (content_url_is_accepted_by_verify testPlatform testEnv testRandomId
                  (testAmbient 1) (testAmbient 1) _ _ "l1" demoDelivery demoDelivery
                  demoDelivery auth auth metadata url "1767225721000" 120
                  Hauth Hurl Hauth (λ _, eq_refl) eq_refl eq_refl)).
Defined.
